(* ===== verification/_CoqProject ===== *)
-Q . S2P
Prelude.v
Protocol.v
TopicMap.v
World.v
Common.v
NetServer.v
BusServer.v
Daemon.v
NetClient.v
BusClient.v
Callbacks.v
Bindings.v
AsyncClient.v
AsyncProgress.v
AsyncSession.v
Publications.v
Bus.v
AsyncBus.v
Ordering.v
Cli.v
CliBus.v
Examples.v
Launchers.v
PyExample.v
