(* ===== verification/Prelude.v ===== *)
(** * spraybus: a verification development

    spraybus is a publish/subscribe bus over ENet (reliable UDP).  Clients
    resolve topic names to 64-bit keys, publish payloads on a key and
    subscribe to keys; the server numbers the topics, remembers who is
    subscribed to what and forwards each publication to the other subscribers.
    This library models the C++ code of the repository, its Python bindings and
    its asyncio client as executable functions, and proves that they do what
    they promise.

    ** The program and the files

    The code is layered, and so are the files; each opens with the source it
    models.

    - [Prelude]: outcomes of C++ code (a value, an exception, undefined
      behaviour, exhausted fuel), the state monad [M] they live in, lenses for
      the parts of an object, machine integers and bytes, strings, shared
      lemmas and tactics.
    - [Protocol] (include/spraybus/networking/protocol.hpp): the packed
      16-byte [Header] as it lies in memory, the enumerations, the builder
      [Constructor], the parsed [Message].  The byte order of the machine is
      the class [Platform].
    - [TopicMap] (include/spraybus/server/topic_map.hpp): the registry of
      topics, with keys that wrap at 64 bits.
    - [World]: what is outside of the sources.  ENet, the environment and
      SIGINT are inputs: a [World] lists the results that the calls will return
      (theorems quantify over them) and logs the calls made, in order.
    - [Common] (include/spraybus/common/env.hpp, interrupts.hpp and
      src/spraybus/networking/networking.cpp): the environment, the run loop
      that SIGINT ends, ENet's initialisation, and std::stoi.
    - [NetServer] (include/spraybus/networking/server/server.hpp): the CRTP
      base server: the table of clients and the event loop.  Its derived class
      is the interface [Derived], with the laws [DerivedLaws].
    - [BusServer] (include/spraybus/server/server.hpp,
      src/spraybus/server/server.cpp): the server proper, an instance of that
      interface.
    - [Daemon] (include/spraybus/server/logging.hpp,
      src/spraybus/server/logging.cpp, drivers/main.cpp): logger creation and
      the server program.
    - [NetClient] (include/spraybus/networking/client/client.hpp): the owning
      [Packet] and the connection.
    - [BusClient] (include/spraybus/client/client.hpp,
      src/spraybus/client/client.cpp): the client with its caches.
    - [Callbacks]: the programs whose callbacks call the client again.
    - [Bindings] (python/src/spraybus/_bindings.cpp): the extension module: the
      one-time initialisation of ENet and the [Client] objects of a Python
      program, over one networking layer, called with any Python objects as
      arguments ([py_program]).
    - [AsyncClient] (python/src/spraybus/async_client.py): the asyncio client,
      a transition system of two threads, the event loop and the worker that
      owns the native client.  The native client is the interface
      [NativeClient]; the extension module is its instance [native_bindings].
    - [AsyncProgress]: executions of the asyncio client that go on forever, and
      what is lost when the worker ends; the laws [NativeLaws] of the native
      client, which the extension module keeps.
    - [AsyncSession]: the asyncio client as a sequential program.
    - [Publications]: what Python programs publish, sequential and asyncio.
    - [Bus]: server and clients together.
    - [AsyncBus]: server and asyncio clients together.
    - [Ordering]: server and clients over a network that keeps order.
    - [Cli] (drivers/cli.cpp): the command-line client.
    - [CliBus]: the two commands of the command-line client and the server
      program together.
    - [Examples] (examples/client/src/main.cpp, test_package/src/example.cpp):
      the example client and the package test.
    - [Launchers] (python/cli/src/spraybus_cli/__main__.py,
      python/server/src/spraybus_server/__main__.py): the console scripts that
      run the native programs.
    - [PyExample] (examples/python/main.py): the Python example, two tasks over
      the asyncio client, as a transition system whose turns are runs of
      [AsyncClient].

    ** How code is rendered

    A member function is a definition with the same name, prefixed by its
    class where two classes share it ([TopicMap_get], [NetClient_send],
    [BusClient_publish]); constructors and destructors end in _ctor and _dtor.
    An object's members are a record; code that changes them runs in the monad
    on that record, and keeps the changes made before an exception.  A
    destructor of a local variable is [with_destructor].  An enumeration read
    from the wire is its raw value, since the code casts without a check.  A
    pointer to a client is the key of its node in [m_client_map]: the nodes of
    a std::unordered_map do not move, and a key that is no longer there is a
    dangling pointer, whose use is [Undefined].  [Packet] wrappers live in a
    store by address, so that moves and self-moves are real.  Lookups in maps
    are stdpp's gmap; the order of iteration of an unordered map is never used
    by the code.

    A Python object is the C++ client it holds, at its identity in
    [py_clients]; it is destroyed when its last reference goes.  The native
    client of an asyncio client goes at the end of the worker, unless it raised
    an exception: the traceback then refers to the frame that holds it, and the
    client stays in [a_kept] until Python lets go of the exception ([release],
    at any later step or never).  In the asyncio client a step goes from one access to shared
    state to the next: a coroutine runs up to its next await, the worker up to
    its next use of a queue, of the loop or of the native client; [step] gives
    the state after a step and the events in it, and [run_steps_of] is a run in
    any order of steps.

    ** What the theorems show

    - End to end ([Bus], [AsyncBus], [Ordering]): clients agree with the
      server on the keys of topics, a fanout polled was published by another
      client while this one was subscribed, and a publication reaches a
      subscriber unchanged, on machines of any byte orders; the same of asyncio
      programs in every interleaving, whose calls get results of their own
      requests; and when the network keeps order, a client polls exactly the
      publications on its subscriptions, in order ([deliveries]).  From one
      command line to another's standard output ([CliBus]): what [pub] is given
      is a line that [sub] prints, once and in its place ([others_publish]).
    - The server ([BusServer], [NetServer], [Daemon]): its event loop refines
      an abstract publish/subscribe service ([PubSub], [ps_events]) on every
      run of events that ENet's connection protocol allows ([events_ok]), with
      packets of any content; subscriptions are what the history says;
      publications reach exactly the other subscribers; bad packets and header
      fields have no effect; the table of clients stays well formed and no
      dangling pointer is used, for every derived class; the program serves
      from start to SIGINT and rejects a bad configuration.
    - The client ([BusClient], [NetClient]): every operation on every branch,
      the packets it sends, the caches it keeps, and the destruction of every
      received packet exactly once ([balanced]), exceptions included.  Programs
      that call the client from its own callbacks, to any depth ([client_prog],
      [run_prog]), are safe and keep the names of keys ([Callbacks]).
    - The protocol ([Protocol]): round trips, the byte layout, what short
      packets do, what machines of different byte orders agree on, and the
      text of messages.
    - The registry ([TopicMap]): it refines the list of topics in the order of
      their first request; keys are stable and distinct.
    - The programs ([Cli], [Common], [Examples], [Launchers]): options, ports,
      exit codes, what is published and printed on whole runs, and the
      termination of the run loop.
    - The Python example ([PyExample]): in every interleaving, with SIGINT
      anywhere, what it publishes and prints and how it closes the client, and
      the moment of a lost connection at which it hangs.
    - The bindings ([Bindings]): the types of all results and the arguments
      that raise TypeError, one initialisation of ENet, and the agreement of the
      caches of all clients of a program.
    - The asyncio client ([AsyncClient], [AsyncProgress], [AsyncSession]): in
      every interleaving a call returns the outcome of its own command and
      messages are received in the order they were polled; the native client
      goes through one sequential session of calls, so that what [Bindings]
      proves of sequential programs holds; what is published is what the calls
      of [publish] that returned say, in order ([Publications]); in every fair
      execution a call that the worker can still take is answered, if the worker
      does not poll messages without end ([unstarved], which holds over the
      extension module as long as ENet's results are a finite list), and so is
      [connect].  Commands queued once the worker takes no more are never
      answered, the error of one connection can reach the next, and so can an
      abandoned "close", which ends it; these are proved as the code has them.

    ** Bounds and fuel

    The loops that poll ENet take one result of the list in the [World] per
    iteration, so its length plus one is enough fuel, and the theorems prove
    that the fuel does not run out.  The run loop reads the SIGINT flag once
    per iteration; the signal arrives after [w_run] reads.  The server's
    theorems assume fewer than 2^64 topics and connections, beyond which its
    counters wrap; [get_or_create_step] and [create_client_behaviour] hold
    without the bound.  The asyncio client has no fuel: its runs are finite
    lists of steps, and its executions infinite sequences.

    ** Assumptions on third-party code

    ENet reports a connection before the packets and the disconnection of a
    peer ([events_ok], [connects_first]) and gives each packet to the program
    to destroy.  Quill's functions are parameters.  The packets that ENet
    delivers are arbitrary except in [Bus] and [AsyncBus], where they are
    packets that the server sent ([delivered]), and in [Ordering], where they
    are all of them, in order; [CliBus] supposes the same of the packets that
    the server receives from the programs ([brought]).  Calls from different
    Python threads are taken one at a time.  What pybind11 makes of the objects
    given to it is a parameter ([Loads]), but that a port must be an integer of
    16 bits; arguments that do not convert raise TypeError before the function
    runs.  Its conversion of names to text may fail ([StrCast]), and where it
    does not, it keeps the characters ([AsyncBus]).  asyncio runs
    scheduled callbacks in their order; an execution is fair if a worker that
    can take a step does so again and again, and the loop runs callbacks again
    and again while some are scheduled ([fair]).  [asyncio.run] cancels the main
    task at the first SIGINT, and the other tasks once the main one has ended
    ([interrupt], [shutdown]); a second SIGINT is not modelled.

    ** Not modelled

    Memory allocation failures; the results that the sources ignore
    (enet_peer_send); the const overload of [Server::clients], which does not
    compile when used; an event loop that is closed while its client is
    connected, and two tasks that close one asyncio client at the same time;
    what follows the cancellation of the last task of the Python example; build
    files and docs. *)

From Stdlib Require Export ZArith Lia.
From Stdlib.Strings Require Import Byte.
From Stdlib Require Import Ascii DecimalString DecimalZ.
From stdpp Require Export base gmap sets list strings.
From stdpp Require Import numbers.

(** ** Outcomes of C++ code

    A call returns a value, throws one of the standard exceptions the sources
    use (or, in Python, raises the TypeError of pybind11), reaches undefined behaviour (a null or dangling pointer is
    dereferenced), or has used up the fuel given to its loop. *)

Inductive exn : Type :=
  | runtime_error (what : string)
  | out_of_range (what : string)
  | invalid_argument (what : string)
  | type_error (what : string).

Inductive outcome (A : Type) : Type :=
  | Ok (a : A)
  | Throw (e : exn)
  | Undefined
  | OutOfFuel.
Arguments Ok {A} a.
Arguments Throw {A} e.
Arguments Undefined {A}.
Arguments OutOfFuel {A}.

Definition outcome_map {A B} (f : A → B) (o : outcome A) : outcome B :=
  match o with
  | Ok a => Ok (f a)
  | Throw e => Throw e
  | Undefined => Undefined
  | OutOfFuel => OutOfFuel
  end.

(** ** The state and exception monad

    [M S A] is stateful code over the state [S].  The state reached is kept
    when an exception is thrown, as a C++ object keeps its fields. *)

Definition M (S A : Type) : Type := S → outcome A * S.

Section monad.
Context {S : Type}.

Definition ret {A} (a : A) : M S A := λ s, (Ok a, s).

Definition bind {A B} (m : M S A) (k : A → M S B) : M S B := λ s,
  match m s with
  | (Ok a, s') => k a s'
  | (Throw e, s') => (Throw e, s')
  | (Undefined, s') => (Undefined, s')
  | (OutOfFuel, s') => (OutOfFuel, s')
  end.

Definition throw {A} (e : exn) : M S A := λ s, (Throw e, s).
Definition undefined {A} : M S A := λ s, (Undefined, s).
Definition out_of_fuel {A} : M S A := λ s, (OutOfFuel, s).
Definition gets {A} (f : S → A) : M S A := λ s, (Ok (f s), s).
Definition modify (f : S → S) : M S unit := λ s, (Ok tt, f s).
Definition of_outcome {A} (o : outcome A) : M S A := λ s, (o, s).

(** Scope exit: the destructor [cleanup] of a local object runs when [body]
    returns and when it throws. *)
Definition with_destructor {A} (cleanup : S → S) (body : M S A) : M S A := λ s,
  match body s with
  | (Ok a, s') => (Ok a, cleanup s')
  | (Throw e, s') => (Throw e, cleanup s')
  | r => r
  end.

(** Objects constructed before [body] are destroyed when it throws. *)
Definition on_exception {A} (cleanup : S → S) (body : M S A) : M S A := λ s,
  match body s with
  | (Throw e, s') => (Throw e, cleanup s')
  | r => r
  end.

(** A range-based [for] over a sequence that the body does not resize. *)
Fixpoint for_each {A} (l : list A) (f : A → M S unit) : M S unit :=
  match l with
  | [] => ret tt
  | x :: l' => bind (f x) (λ _, for_each l' f)
  end.
End monad.

(** ** Parts of a state

    [Lens S T]: objects [S] contain a [T] that can be read and replaced.  Code
    written against the part runs in the whole through [zoom]. *)

Class Lens (S T : Type) : Type := {
  lget : S → T;
  lset : T → S → S;
  lget_lset t s : lget (lset t s) = t;
  lset_lget s : lset (lget s) s = s;
  lset_lset t t' s : lset t (lset t' s) = lset t s;
}.

Definition zoom {S T A} `{!Lens S T} (m : M T A) : M S A := λ s,
  match m (lget s) with (r, t) => (r, lset t s) end.

Declare Scope cpp_scope.
Delimit Scope cpp_scope with cpp.
Notation "'let!' x ':=' m 'in' k" := (bind m (λ x, k))
  (at level 10, x binder, m at level 100, k at level 200,
   format "'[v' 'let!'  x  ':='  m  'in'  '/' k ']'") : cpp_scope.
Notation "m ';;;' k" := (bind m (λ _, k))
  (at level 100, k at level 200, right associativity,
   format "'[v' m ';;;'  '/' k ']'") : cpp_scope.
Open Scope cpp_scope.

(** ** Weakest preconditions

    [wp m Q E s]: run from [s], [m] returns a result satisfying [Q] or throws
    an exception satisfying [E]; it does not reach undefined behaviour and
    does not run out of fuel. *)

Definition wp {S A} (m : M S A) (Q : A → S → Prop) (E : exn → S → Prop)
    (s : S) : Prop :=
  match m s with
  | (Ok a, s') => Q a s'
  | (Throw e, s') => E e s'
  | (Undefined, _) => False
  | (OutOfFuel, _) => False
  end.

(** [m] returns normally (no exception) and its result satisfies [Q]. *)
Definition returns {S A} (m : M S A) (Q : A → S → Prop) (s : S) : Prop :=
  wp m Q (λ _ _, False) s.

(** ** Machine integers and bytes

    An unsigned [w]-bit integer is a [Z] in [0, 2^w); arithmetic wraps. *)

Definition uwrap (w z : Z) : Z := z mod 2 ^ w.

Definition u8 (b : byte) : Z := Z.of_N (Byte.to_N b).

Definition byte_of_u8 (z : Z) : byte :=
  match Byte.of_N (Z.to_N (uwrap 8 z)) with
  | Some b => b
  | None => x00
  end.

(** The byte order of the machine the program runs on. *)
Inductive endian : Type := little_endian | big_endian.

Class Platform : Type := native : endian.

Fixpoint le_bytes (n : nat) (z : Z) : list byte :=
  match n with
  | O => []
  | S n' => byte_of_u8 z :: le_bytes n' (z / 256)
  end.

Fixpoint of_le_bytes (bs : list byte) : Z :=
  match bs with
  | [] => 0
  | b :: bs' => u8 b + 256 * of_le_bytes bs'
  end%Z.

(** The bytes of an [n]-byte integer object in memory, and the integer read
    back from its bytes. *)
Definition store (e : endian) (n : nat) (z : Z) : list byte :=
  match e with
  | little_endian => le_bytes n z
  | big_endian => rev (le_bytes n z)
  end.

Definition load (e : endian) (bs : list byte) : Z :=
  match e with
  | little_endian => of_le_bytes bs
  | big_endian => of_le_bytes (rev bs)
  end.

(** ** Strings

    A [std::string] is its sequence of bytes; [as_bytes] is
    [std::as_bytes(std::span<const char>(s.data(), s.size()))] and
    [string_of_bytes] builds a string (view) over a byte range. *)

Definition as_bytes (s : string) : list byte := String.list_byte_of_string s.
Definition string_of_bytes (bs : list byte) : string :=
  String.string_of_list_byte bs.

(** [std::to_string] on integers. *)
Definition to_string_Z (z : Z) : string := NilZero.string_of_int (Z.to_int z).

(** ** Rules of the monad *)

Section monad_rules.
Context {S : Type}.
Implicit Types (s : S).

Lemma wp_bind {A B} (m : M S A) (k : A → M S B) Q E s :
  wp (bind m k) Q E s ↔ wp m (λ a, wp (k a) Q E) E s.
Proof. unfold wp, bind. by destruct (m s) as [[]?]. Qed.

Lemma wp_mono {A} (m : M S A) (Q Q' : A → S → Prop) (E E' : exn → S → Prop) s :
  wp m Q E s → (∀ a s', Q a s' → Q' a s') → (∀ e s', E e s' → E' e s') →
  wp m Q' E' s.
Proof. unfold wp. destruct (m s) as [[]?]; naive_solver. Qed.

Lemma returns_mono {A} (m : M S A) (Q Q' : A → S → Prop) s :
  returns m Q s → (∀ a s', Q a s' → Q' a s') → returns m Q' s.
Proof. intros H HQ. by eapply wp_mono. Qed.

Lemma returns_bind {A B} (m : M S A) (k : A → M S B) Q s :
  returns m (λ a, returns (k a) Q) s → returns (bind m k) Q s.
Proof. apply wp_bind. Qed.

Lemma returns_inv {A} (m : M S A) (Q : A → S → Prop) s :
  returns m Q s ↔ ∃ a s', m s = (Ok a, s') ∧ Q a s'.
Proof.
  unfold returns, wp. split.
  - destruct (m s) as [[]?]; naive_solver.
  - by intros (a & s' & -> & ?).
Qed.

Lemma wp_with_destructor {A} cleanup (m : M S A) Q E s :
  wp m (λ a s', Q a (cleanup s')) (λ e s', E e (cleanup s')) s →
  wp (with_destructor cleanup m) Q E s.
Proof. unfold wp, with_destructor. by destruct (m s) as [[]?]. Qed.

(** The invariant [I] of a loop speaks about the elements already done. *)
Lemma returns_for_each {A} (f : A → M S unit) (I : list A → S → Prop) l s :
  I [] s →
  (∀ done x rest s', l = done ++ x :: rest → I done s' →
     returns (f x) (λ _, I (done ++ [x])) s') →
  returns (for_each l f) (λ _, I l) s.
Proof.
  intros H0 Hf.
  assert (∀ rest done, l = done ++ rest → ∀ s, I done s →
    returns (for_each rest f) (λ _, I l) s) as Hgen; [|by apply (Hgen l [])].
  induction rest as [|x rest IH]; intros done Hl s' HI; simpl.
  - by rewrite Hl, app_nil_r.
  - apply returns_bind. eapply returns_mono; [by eapply Hf|].
    intros [] s'' HI'. eapply IH; [|exact HI']. by rewrite <-app_assoc.
Qed.

Lemma wp_zoom {T A} `{!Lens S T} (m : M T A) Q E s :
  wp m (λ a t, Q a (lset t s)) (λ e t, E e (lset t s)) (lget s) →
  wp (zoom m) Q E s.
Proof. unfold wp, zoom. by destruct (m (lget s)) as [[]?]. Qed.

Lemma zoom_run {T A} `{!Lens S T} (m : M T A) s r t :
  m (lget s) = (r, t) → zoom m s = (r, lset t s).
Proof. unfold zoom. by intros ->. Qed.

Lemma zoom_Ok {T A} `{!Lens S T} (m : M T A) s a t :
  m (lget s) = (Ok a, t) → zoom m s = (Ok a, lset t s).
Proof. unfold zoom. by intros ->. Qed.

Lemma bind_Ok {A B} (m : M S A) (k : A → M S B) s a s' :
  m s = (Ok a, s') → bind m k s = k a s'.
Proof. unfold bind. by intros ->. Qed.

Lemma with_destructor_run {A} cleanup (m : M S A) s r s' :
  m s = (r, s') → match r with Ok _ | Throw _ => True | _ => False end →
  with_destructor cleanup m s = (r, cleanup s').
Proof. unfold with_destructor. intros ->. by destruct r. Qed.

Lemma bind_ret_run {A B} (m : M S A) (f : A → B) s :
  bind m (λ a, ret (f a)) s = (outcome_map f (fst (m s)), snd (m s)).
Proof. unfold bind. by destruct (m s) as [[] ?]. Qed.

Lemma bind_Throw {A B} (m : M S A) (k : A → M S B) s e s' :
  m s = (Throw e, s') → bind m k s = (Throw e, s').
Proof. unfold bind. by intros ->. Qed.
End monad_rules.

(** ** Bytes and integers *)

#[export] Instance byte_eq_dec : EqDecision byte := Byte.byte_eq_dec.

Lemma u8_range b : (0 ≤ u8 b < 256)%Z.
Proof. unfold u8. pose proof (Byte.to_N_bounded b). lia. Qed.

Lemma u8_byte_of_u8 z : u8 (byte_of_u8 z) = uwrap 8 z.
Proof.
  unfold u8, byte_of_u8, uwrap. change (2 ^ 8)%Z with 256%Z.
  pose proof (Z.mod_pos_bound z 256 eq_refl).
  destruct (Byte.of_N _) as [b|] eqn:E.
  - apply Byte.to_of_N in E. rewrite E. lia.
  - apply Byte.of_N_None_iff in E. lia.
Qed.

Lemma byte_of_u8_u8 b : byte_of_u8 (u8 b) = b.
Proof.
  unfold byte_of_u8, uwrap. rewrite Z.mod_small by apply u8_range.
  unfold u8. by rewrite N2Z.id, Byte.of_to_N.
Qed.

Lemma u8_inj b1 b2 : u8 b1 = u8 b2 → b1 = b2.
Proof. intros H. by rewrite <-(byte_of_u8_u8 b1), H, byte_of_u8_u8. Qed.

Lemma uwrap_small w z : (0 ≤ z < 2 ^ w)%Z → uwrap w z = z.
Proof. apply Z.mod_small. Qed.

Lemma uwrap_range w z : (0 ≤ w)%Z → (0 ≤ uwrap w z < 2 ^ w)%Z.
Proof. intros. apply Z.mod_pos_bound. by apply Z.pow_pos_nonneg. Qed.

Lemma length_le_bytes n z : length (le_bytes n z) = n.
Proof. revert z. induction n as [|n IH]; intros z; simpl; by rewrite ?IH. Qed.

Lemma of_le_bytes_range bs :
  (0 ≤ of_le_bytes bs < 256 ^ Z.of_nat (length bs))%Z.
Proof.
  induction bs as [|b bs IH]; [done|].
  simpl length. rewrite Nat2Z.inj_succ, Z.pow_succ_r by lia.
  pose proof (u8_range b). cbn [of_le_bytes]. lia.
Qed.

Lemma of_le_bytes_le_bytes n z :
  of_le_bytes (le_bytes n z) = (z mod 256 ^ Z.of_nat n)%Z.
Proof.
  revert z. induction n as [|n IH]; intros z; cbn [le_bytes of_le_bytes].
  - by rewrite Z.mod_1_r.
  - rewrite IH, u8_byte_of_u8, Nat2Z.inj_succ, Z.pow_succ_r by lia.
    unfold uwrap. rewrite Z.rem_mul_r by lia. done.
Qed.

Lemma le_bytes_of_le_bytes bs : le_bytes (length bs) (of_le_bytes bs) = bs.
Proof.
  induction bs as [|b bs IH]; [done|]. cbn [length of_le_bytes le_bytes].
  pose proof (u8_range b). f_equal.
  - apply u8_inj. rewrite u8_byte_of_u8. unfold uwrap. change (2^8)%Z with 256%Z.
    rewrite Z.mul_comm, Z.mod_add by lia. by apply Z.mod_small.
  - rewrite Z.mul_comm, Z.div_add, Z.div_small by lia. by rewrite Z.add_0_l, IH.
Qed.

Lemma length_store e n z : length (store e n z) = n.
Proof. destruct e; simpl; by rewrite ?length_rev, length_le_bytes. Qed.

Lemma load_store e n z : load e (store e n z) = (z mod 256 ^ Z.of_nat n)%Z.
Proof. destruct e; simpl; by rewrite ?rev_involutive, of_le_bytes_le_bytes. Qed.

Lemma store_load e n bs : length bs = n → store e n (load e bs) = bs.
Proof.
  intros <-. destruct e; simpl; [apply le_bytes_of_le_bytes|].
  rewrite <-(length_rev bs), le_bytes_of_le_bytes. apply rev_involutive.
Qed.

Lemma load_range e bs : (0 ≤ load e bs < 256 ^ Z.of_nat (length bs))%Z.
Proof.
  destruct e; simpl; [|rewrite <-length_rev]; apply of_le_bytes_range.
Qed.

(** ** Strings *)

Lemma string_of_bytes_as_bytes s : string_of_bytes (as_bytes s) = s.
Proof. apply String.string_of_list_byte_of_string. Qed.

Lemma as_bytes_string_of_bytes bs : as_bytes (string_of_bytes bs) = bs.
Proof. apply String.list_byte_of_string_of_list_byte. Qed.

#[export] Instance as_bytes_inj : Inj (=) (=) as_bytes.
Proof. intros s1 s2 H. by rewrite <-(string_of_bytes_as_bytes s1), H, string_of_bytes_as_bytes. Qed.

#[export] Instance string_of_bytes_inj : Inj (=) (=) string_of_bytes.
Proof. intros b1 b2 H. by rewrite <-(as_bytes_string_of_bytes b1), H, as_bytes_string_of_bytes. Qed.

Lemma append_empty_l (s : string) : "" +:+ s = s.
Proof. done. Qed.

Lemma append_cons c (s1 s2 : string) : String c s1 +:+ s2 = String c (s1 +:+ s2).
Proof. done. Qed.

Lemma append_assoc (s1 s2 s3 : string) : s1 +:+ (s2 +:+ s3) = (s1 +:+ s2) +:+ s3.
Proof. induction s1 as [|c s1 IH]; [done|]. by rewrite !append_cons, IH. Qed.

Lemma append_empty_r (s : string) : s +:+ "" = s.
Proof. induction s as [|c s IH]; [done|]. by rewrite append_cons, IH. Qed.

Lemma length_append (s1 s2 : string) :
  String.length (s1 +:+ s2) = String.length s1 + String.length s2.
Proof. induction s1 as [|c s1 IH]; [done|]. rewrite append_cons. cbn. by rewrite IH. Qed.

Lemma prefix_append (s1 s2 : string) : String.prefix s1 (s1 +:+ s2) = true.
Proof.
  induction s1 as [|c s1 IH]; [by destruct s2|].
  rewrite append_cons. cbn. by destruct (Ascii.ascii_dec c c).
Qed.

Lemma substring_all (s : string) : String.substring 0 (String.length s) s = s.
Proof. induction s as [|c s IH]; [done|]. cbn. by rewrite IH. Qed.

Lemma substring_append (s1 s2 : string) n :
  String.substring (String.length s1) n (s1 +:+ s2) = String.substring 0 n s2.
Proof. by induction s1. Qed.

(** Every character satisfies a test. *)
Fixpoint all_chars (f : ascii → bool) (s : string) : bool :=
  match s with
  | EmptyString => true
  | String c s' => f c && all_chars f s'
  end.

(** ** Lists *)

Lemma take_app_exact {A} (l k : list A) n : length l = n → take n (l ++ k) = l.
Proof. intros <-. by rewrite take_app_length. Qed.

Lemma drop_app_exact {A} (l k : list A) n : length l = n → drop n (l ++ k) = k.
Proof. intros <-. by rewrite drop_app_length. Qed.

(** ** Automation *)

Create HintDb spraybus.
#[export] Hint Resolve u8_range length_store length_le_bytes load_range : spraybus.
#[export] Hint Rewrite string_of_bytes_as_bytes as_bytes_string_of_bytes
  byte_of_u8_u8 u8_byte_of_u8 length_store load_store : spraybus.

(** Break a [wp]/[returns] goal of a composite body at its first call. *)
Ltac wp_bind_step :=
  lazymatch goal with
  | |- wp (bind _ _) _ _ _ => apply wp_bind
  | |- returns (bind _ _) _ _ => apply returns_bind
  end.

(** Compute the primitive steps of a body on a known state. *)
Ltac run_steps :=
  unfold bind, ret, throw, undefined, gets, modify, of_outcome; simpl.
