(* ===== verification/Protocol.v ===== *)
(** * Wire protocol (include/spraybus/networking/protocol.hpp)

    The 16-byte packed [Header], its enumerations and factories, the packet
    builder [Constructor] and the parsed view [Message].  The byte order of
    the machine is the parameter [Platform]: the header is copied to the wire
    as it lies in memory, so only the fields the code converts are
    independent of it. *)

From Stdlib.Strings Require Import Ascii Byte.
From stdpp Require Import base list strings.
From S2P Require Import Prelude.

(** ** Byte order (namespace detail) *)

(** [std::byteswap] on 64 bits. *)
Definition byteswap64 (value : Z) : Z := of_le_bytes (rev (le_bytes 8 value)).

(** [htonll]/[htobe64]: the identity on a big-endian host, a byte swap on a
    little-endian one. *)
Definition host_to_network64 {plat : Platform} (value : Z) : Z :=
  match native with
  | little_endian => byteswap64 value
  | big_endian => value
  end.

Definition network_to_host64 {plat : Platform} (value : Z) : Z :=
  host_to_network64 value.

(** ** Enumerations

    Each enumeration has a fixed underlying type and is read from the wire by
    a cast, so an object of the enumeration is a raw value.  [X_value] gives
    the raw value of an enumerator and [X_of] the enumerator a [switch] on a
    raw value selects, [None] being the [default] branch. *)

Inductive Origin : Type :=
  | Origin_unknown
  | Origin_client
  | Origin_server
  | Origin_leaf.

Definition Origin_value (o : Origin) : byte :=
  match o with
  | Origin_unknown => x00
  | Origin_client => x01
  | Origin_server => x02
  | Origin_leaf => x03
  end.

Definition Origin_of (raw : byte) : option Origin :=
  match raw with
  | x00 => Some Origin_unknown
  | x01 => Some Origin_client
  | x02 => Some Origin_server
  | x03 => Some Origin_leaf
  | _ => None
  end.

Definition Origin_to_string (origin : byte) : string :=
  match Origin_of origin with
  | Some Origin_unknown => "unknown"
  | Some Origin_client => "client"
  | Some Origin_server => "server"
  | Some Origin_leaf => "leaf"
  | None => "invalid"
  end.

Inductive Version : Type := Version_v1.

Definition Version_value (v : Version) : Z :=
  match v with Version_v1 => 1 end.

Definition Version_of (raw : Z) : option Version :=
  if (raw =? 1)%Z then Some Version_v1 else None.

Definition Version_to_string (version : Z) : string :=
  match Version_of version with
  | Some Version_v1 => "v1"
  | None => "invalid"
  end.

Inductive Type_ : Type :=
  | Type_unknown
  | Type_topic_request
  | Type_topic_response
  | Type_publish
  | Type_subscribe
  | Type_unsubscribe
  | Type_fanout.

Definition Type_value (t : Type_) : byte :=
  match t with
  | Type_unknown => x00
  | Type_topic_request => x01
  | Type_topic_response => x02
  | Type_publish => x03
  | Type_subscribe => x04
  | Type_unsubscribe => x05
  | Type_fanout => x06
  end.

Definition Type_of (raw : byte) : option Type_ :=
  match raw with
  | x00 => Some Type_unknown
  | x01 => Some Type_topic_request
  | x02 => Some Type_topic_response
  | x03 => Some Type_publish
  | x04 => Some Type_subscribe
  | x05 => Some Type_unsubscribe
  | x06 => Some Type_fanout
  | _ => None
  end.

Definition Type_to_string (type : byte) : string :=
  match Type_of type with
  | Some Type_unknown => "unknown"
  | Some Type_topic_request => "topic_request"
  | Some Type_topic_response => "topic_response"
  | Some Type_publish => "publish"
  | Some Type_subscribe => "subscribe"
  | Some Type_unsubscribe => "unsubscribe"
  | Some Type_fanout => "fanout"
  | None => "invalid"
  end.

(** ** Header *)

(** The members of the packed struct; [m_topic_key_] is the stored value, in
    network order. *)
Record Header : Type := MkHeader {
  m_reserved_ : Z;
  m_version_ : Z;
  m_origin_ : byte;
  m_type_ : byte;
  m_topic_key_ : Z;
}.

Definition sizeof_Header : nat := 16.

Definition current_version : Z := Version_value Version_v1.

Section header.
Context {plat : Platform}.

(** The private constructor. *)
Definition Header_ctor (origin type : byte) (topic_key : Z) : Header :=
  {| m_reserved_ := 0;
     m_version_ := current_version;
     m_origin_ := origin;
     m_type_ := type;
     m_topic_key_ := host_to_network64 topic_key |}.

Definition Header_topic_request (origin : byte) : Header :=
  Header_ctor origin (Type_value Type_topic_request) 0.

Definition Header_topic_response (topic_key : Z) (origin : byte) : Header :=
  Header_ctor origin (Type_value Type_topic_response) topic_key.

Definition Header_publish (topic_key : Z) (origin : byte) : Header :=
  Header_ctor origin (Type_value Type_publish) topic_key.

Definition Header_subscribe (topic_key : Z) (origin : byte) : Header :=
  Header_ctor origin (Type_value Type_subscribe) topic_key.

Definition Header_unsubscribe (topic_key : Z) (origin : byte) : Header :=
  Header_ctor origin (Type_value Type_unsubscribe) topic_key.

Definition Header_fanout (topic_key : Z) (origin : byte) : Header :=
  Header_ctor origin (Type_value Type_fanout) topic_key.

Definition Header_topic_key (h : Header) : Z :=
  network_to_host64 (m_topic_key_ h).

Definition Header_to_string (h : Header) : string :=
  "Header { version: " +:+ Version_to_string (m_version_ h) +:+
  ", origin: " +:+ Origin_to_string (m_origin_ h) +:+
  ", type: " +:+ Type_to_string (m_type_ h) +:+
  ", topic_key: " +:+ to_string_Z (Header_topic_key h) +:+ " }".

(** The object representation, [reinterpret_cast<const std::byte*>(&h)]. *)
Definition Header_bytes (h : Header) : list byte :=
  store native 4 (m_reserved_ h) ++ store native 2 (m_version_ h) ++
  [m_origin_ h; m_type_ h] ++ store native 8 (m_topic_key_ h).

(** [*reinterpret_cast<const Header*>(data)] on at least 16 bytes. *)
Definition Header_of_bytes (data : list byte) : Header :=
  {| m_reserved_ := load native (take 4 data);
     m_version_ := load native (take 2 (drop 4 data));
     m_origin_ := nth 6 data x00;
     m_type_ := nth 7 data x00;
     m_topic_key_ := load native (take 8 (drop 8 data)) |}.
End header.

(** ** Constructor *)

(** The reusable buffer.  Each method overwrites it and returns a span over
    it, here the bytes the span shows until the next call. *)
Record Constructor : Type := MkConstructor { m_buffer : list byte }.

Definition Constructor_default : Constructor := {| m_buffer := [] |}.

Section constructor.
Context {plat : Platform}.

Definition Constructor_construct (header : Header) (payload : list byte) :
    M Constructor (list byte) :=
  modify (λ c, {| m_buffer := [] |}) ;;;
  modify (λ c, {| m_buffer := m_buffer c ++ Header_bytes header |}) ;;;
  modify (λ c, {| m_buffer := m_buffer c ++ payload |}) ;;;
  gets m_buffer.

Definition Constructor_topic_request (topic_name : string) (origin : byte) :
    M Constructor (list byte) :=
  let header := Header_topic_request origin in
  Constructor_construct header (as_bytes topic_name).

Definition Constructor_topic_response (topic_key : Z) (topic_name : string)
    (origin : byte) : M Constructor (list byte) :=
  let header := Header_topic_response topic_key origin in
  Constructor_construct header (as_bytes topic_name).

Definition Constructor_publish (topic_key : Z) (payload : list byte)
    (origin : byte) : M Constructor (list byte) :=
  let header := Header_publish topic_key origin in
  Constructor_construct header payload.

Definition Constructor_subscribe (topic_key : Z) (origin : byte) :
    M Constructor (list byte) :=
  let header := Header_subscribe topic_key origin in
  Constructor_construct header [].

Definition Constructor_unsubscribe (topic_key : Z) (origin : byte) :
    M Constructor (list byte) :=
  let header := Header_unsubscribe topic_key origin in
  Constructor_construct header [].

Definition Constructor_fanout (topic_key : Z) (payload : list byte)
    (origin : byte) : M Constructor (list byte) :=
  let header := Header_fanout topic_key origin in
  Constructor_construct header payload.
End constructor.

(** ** Message *)

Record Message : Type := MkMessage {
  m_header : Header;
  m_payload : list byte;
  m_topic : string;
}.

Section message.
Context {plat : Platform}.

Definition Message_parse_header (data : list byte) : outcome Header :=
  if length data <? sizeof_Header then
    Throw (runtime_error "Data too short to contain header")
  else Ok (Header_of_bytes data).

Definition Message_ctor (data : list byte) : outcome Message :=
  match Message_parse_header data with
  | Ok header => Ok {| m_header := header;
                       m_payload := drop sizeof_Header data;
                       m_topic := "" |}
  | Throw e => Throw e
  | Undefined => Undefined
  | OutOfFuel => OutOfFuel
  end.

Definition Message_set_topic (topic_name : string) (m : Message) : Message :=
  {| m_header := m_header m; m_payload := m_payload m; m_topic := topic_name |}.

Definition Message_payload_as_string (m : Message) : string :=
  string_of_bytes (m_payload m).

(** [hex[n]] on the array "0123456789abcdef". *)
Definition hex_digit (n : Z) : string :=
  String.substring (Z.to_nat n) 1 "0123456789abcdef".

(** The [for] loop of [to_string], with its index and accumulator. *)
Fixpoint hex_loop (i : nat) (payload : list byte) (out : string) : string :=
  match payload with
  | [] => out
  | b :: rest =>
      let out := if i =? 0 then out else out +:+ " " in
      let byte := u8 b in
      let out := out +:+ "0x" in
      let out := out +:+ hex_digit (Z.land (Z.shiftr byte 4) 15) in
      let out := out +:+ hex_digit (Z.land byte 15) in
      hex_loop (S i) rest out
  end.

Definition Message_to_string (m : Message) : string :=
  let out := "Message { " +:+ Header_to_string (m_header m) +:+
             ", Payload { " in
  hex_loop 0 (m_payload m) out +:+ " } }".
End message.

(** ** Specification: the messages of the protocol

    The protocol overview of the README: which key and which payload each
    type of message carries. *)

Inductive bus_msg : Type :=
  | Topic_request (topic_name : string)
  | Topic_response (topic_key : Z) (topic_name : string)
  | Publish (topic_key : Z) (payload : list byte)
  | Subscribe (topic_key : Z)
  | Unsubscribe (topic_key : Z)
  | Fanout (topic_key : Z) (payload : list byte).

Definition is_u64 (k : Z) : Prop := (0 ≤ k < 2 ^ 64)%Z.

Definition msg_key (m : bus_msg) : Z :=
  match m with
  | Topic_request _ => 0
  | Topic_response k _ | Publish k _ | Subscribe k | Unsubscribe k
  | Fanout k _ => k
  end.

Definition msg_type (m : bus_msg) : Type_ :=
  match m with
  | Topic_request _ => Type_topic_request
  | Topic_response _ _ => Type_topic_response
  | Publish _ _ => Type_publish
  | Subscribe _ => Type_subscribe
  | Unsubscribe _ => Type_unsubscribe
  | Fanout _ _ => Type_fanout
  end.

Definition msg_payload (m : bus_msg) : list byte :=
  match m with
  | Topic_request n | Topic_response _ n => as_bytes n
  | Publish _ p | Fanout _ p => p
  | Subscribe _ | Unsubscribe _ => []
  end.

(** A key the wire can carry. *)
Definition msg_wf (m : bus_msg) : Prop := is_u64 (msg_key m).

Section message_spec.
Context {plat : Platform}.

(** The [Constructor] method that builds each message. *)
Definition build (origin : byte) (m : bus_msg) : M Constructor (list byte) :=
  match m with
  | Topic_request n => Constructor_topic_request n origin
  | Topic_response k n => Constructor_topic_response k n origin
  | Publish k p => Constructor_publish k p origin
  | Subscribe k => Constructor_subscribe k origin
  | Unsubscribe k => Constructor_unsubscribe k origin
  | Fanout k p => Constructor_fanout k p origin
  end.

Definition msg_header (origin : byte) (m : bus_msg) : Header :=
  Header_ctor origin (Type_value (msg_type m)) (msg_key m).

(** The packet as a value. *)
Definition packet (origin : byte) (m : bus_msg) : list byte :=
  Header_bytes (msg_header origin m) ++ msg_payload m.

(** What a receiver reads off a parsed message; the payload of a message
    without one is ignored. *)
Definition read_msg (m : Message) : option bus_msg :=
  let key := Header_topic_key (m_header m) in
  match Type_of (m_type_ (m_header m)) with
  | Some Type_topic_request => Some (Topic_request (Message_payload_as_string m))
  | Some Type_topic_response => Some (Topic_response key (Message_payload_as_string m))
  | Some Type_publish => Some (Publish key (m_payload m))
  | Some Type_subscribe => Some (Subscribe key)
  | Some Type_unsubscribe => Some (Unsubscribe key)
  | Some Type_fanout => Some (Fanout key (m_payload m))
  | Some Type_unknown | None => None
  end.

(** The message a byte range holds, if it is long enough for a header. *)
Definition decode (data : list byte) : option bus_msg :=
  match Message_ctor data with
  | Ok m => read_msg m
  | _ => None
  end.
End message_spec.

(** The members fit the widths of their types. *)
Definition Header_wf (h : Header) : Prop :=
  (0 ≤ m_reserved_ h < 2 ^ 32)%Z ∧ (0 ≤ m_version_ h < 2 ^ 16)%Z ∧
  is_u64 (m_topic_key_ h).

(** ** Lemmas *)

Lemma length_4 {A} (l : list A) : length l = 4 → ∃ a b c d, l = [a; b; c; d].
Proof. destruct l as [|a [|b [|c [|d [|]]]]]; naive_solver. Qed.

Lemma length_2 {A} (l : list A) : length l = 2 → ∃ a b, l = [a; b].
Proof. destruct l as [|a [|b [|]]]; naive_solver. Qed.

Lemma length_8 {A} (l : list A) :
  length l = 8 → ∃ a b c d e f g h, l = [a; b; c; d; e; f; g; h].
Proof. do 8 (destruct l as [|? l]; [done|]). destruct l; naive_solver. Qed.

Lemma length_ge_16 {A} (l : list A) : 16 ≤ length l →
  ∃ a b c d e f g h i j k m n o p q r,
    l = a :: b :: c :: d :: e :: f :: g :: h :: i :: j :: k :: m :: n :: o :: p :: q :: r.
Proof. do 16 (destruct l as [|? l]; [simpl; lia|]). intros _. by repeat eexists. Qed.

Lemma byteswap64_range z : is_u64 (byteswap64 z).
Proof.
  unfold is_u64, byteswap64. pose proof (of_le_bytes_range (rev (le_bytes 8 z))) as H.
  by rewrite length_rev, length_le_bytes in H.
Qed.

Lemma byteswap64_involutive z : is_u64 z → byteswap64 (byteswap64 z) = z.
Proof.
  intros Hz. unfold byteswap64.
  set (bs := rev (le_bytes 8 z)).
  replace 8 with (length bs) at 1 by (unfold bs; by rewrite length_rev, length_le_bytes).
  rewrite le_bytes_of_le_bytes. unfold bs.
  rewrite rev_involutive, of_le_bytes_le_bytes. by apply Z.mod_small.
Qed.

Lemma store_load_chunk e n (bs : list byte) z :
  z = load e bs → length bs = n → store e n z = bs.
Proof. intros ->. apply store_load. Qed.

Section lemmas.
Context {plat : Platform}.

Lemma host_to_network64_range z : is_u64 z → is_u64 (host_to_network64 z).
Proof. unfold host_to_network64. destruct native; auto using byteswap64_range. Qed.

Lemma network_to_host64_inverse z :
  is_u64 z → network_to_host64 (host_to_network64 z) = z.
Proof.
  unfold network_to_host64, host_to_network64.
  destruct native; auto using byteswap64_involutive.
Qed.

(** The stored key lies in memory most significant byte first. *)
Lemma store_network_order z :
  store native 8 (host_to_network64 z) = rev (le_bytes 8 z).
Proof.
  unfold host_to_network64, byteswap64. destruct native; [|done].
  apply store_load_chunk; [done|]. by rewrite length_rev, length_le_bytes.
Qed.

Lemma length_Header_bytes h : length (Header_bytes h) = sizeof_Header.
Proof. unfold Header_bytes. rewrite !length_app, !length_store. done. Qed.

Lemma Header_ctor_wf o t k : is_u64 k → Header_wf (Header_ctor o t k).
Proof. intros. split; [done|]. split; [done|]. by apply host_to_network64_range. Qed.

Lemma Header_of_bytes_bytes h p :
  Header_wf h → Header_of_bytes (Header_bytes h ++ p) = h.
Proof.
  intros (Hr & Hv & Hk). unfold Header_bytes.
  destruct (length_4 _ (length_store native 4 (m_reserved_ h))) as (?&?&?&?&E4).
  destruct (length_2 _ (length_store native 2 (m_version_ h))) as (?&?&E2).
  destruct (length_8 _ (length_store native 8 (m_topic_key_ h)))
    as (?&?&?&?&?&?&?&?&E8).
  rewrite E4, E2, E8. unfold Header_of_bytes. simpl.
  rewrite take_0, <-E4, <-E2, <-E8, !load_store. destruct h; simpl in *.
  f_equal; by apply Z.mod_small.
Qed.

Lemma Header_bytes_of_bytes data :
  sizeof_Header ≤ length data →
  Header_bytes (Header_of_bytes data) = take sizeof_Header data.
Proof.
  intros H. apply length_ge_16 in H as (?&?&?&?&?&?&?&?&?&?&?&?&?&?&?&?&?&->).
  unfold Header_bytes, Header_of_bytes, sizeof_Header. simpl.
  by rewrite !store_load.
Qed.

Lemma Header_of_bytes_wf data :
  sizeof_Header ≤ length data → Header_wf (Header_of_bytes data).
Proof.
  intros H. apply length_ge_16 in H as (?&?&?&?&?&?&?&?&?&?&?&?&?&?&?&?&?&->).
  repeat split; apply load_range.
Qed.

Lemma Constructor_construct_run h p c :
  Constructor_construct h p c =
    (Ok (Header_bytes h ++ p), {| m_buffer := Header_bytes h ++ p |}).
Proof. done. Qed.

Lemma build_run o m c :
  build o m c = (Ok (packet o m), {| m_buffer := packet o m |}).
Proof. by destruct m. Qed.

Lemma Message_ctor_long data :
  sizeof_Header ≤ length data →
  Message_ctor data = Ok {| m_header := Header_of_bytes data;
                            m_payload := drop sizeof_Header data;
                            m_topic := "" |}.
Proof.
  intros H. unfold Message_ctor, Message_parse_header.
  by rewrite (proj2 (Nat.ltb_ge _ _) H).
Qed.

Lemma Message_ctor_short data :
  length data < sizeof_Header →
  Message_ctor data = Throw (runtime_error "Data too short to contain header").
Proof.
  intros H. unfold Message_ctor, Message_parse_header.
  by rewrite (proj2 (Nat.ltb_lt _ _) H).
Qed.

Lemma Message_ctor_Header_bytes h p :
  Header_wf h →
  Message_ctor (Header_bytes h ++ p) =
    Ok {| m_header := h; m_payload := p; m_topic := "" |}.
Proof.
  intros Hwf. pose proof (length_Header_bytes h) as Hl.
  rewrite Message_ctor_long by (rewrite length_app; lia).
  by rewrite Header_of_bytes_bytes, drop_app_exact.
Qed.

Lemma length_packet o m : sizeof_Header ≤ length (packet o m).
Proof. unfold packet. rewrite length_app, length_Header_bytes. lia. Qed.

Lemma Message_ctor_packet o m :
  msg_wf m →
  Message_ctor (packet o m) =
    Ok {| m_header := msg_header o m; m_payload := msg_payload m; m_topic := "" |}.
Proof. intros. by apply Message_ctor_Header_bytes, Header_ctor_wf. Qed.

Lemma Type_of_value t : Type_of (Type_value t) = Some t.
Proof. by destruct t. Qed.

Lemma msg_header_key o m :
  msg_wf m → Header_topic_key (msg_header o m) = msg_key m.
Proof. apply network_to_host64_inverse. Qed.

Lemma decode_packet o m : msg_wf m → decode (packet o m) = Some m.
Proof.
  intros H. unfold decode. rewrite Message_ctor_packet by done.
  unfold read_msg, Message_payload_as_string.
  cbn [m_header m_payload].
  rewrite msg_header_key by done.
  destruct m; simpl; by rewrite ?string_of_bytes_as_bytes.
Qed.

Lemma decode_short data : length data < sizeof_Header → decode data = None.
Proof. intros. unfold decode. by rewrite Message_ctor_short. Qed.

Lemma decode_wf data m : decode data = Some m → msg_wf m.
Proof.
  unfold decode. destruct (decide (length data < sizeof_Header)) as [?|?].
  { by rewrite Message_ctor_short. }
  rewrite Message_ctor_long by lia.
  destruct (Header_of_bytes_wf data) as (_ & _ & Hk); [lia|].
  apply host_to_network64_range in Hk.
  unfold read_msg, Header_topic_key, network_to_host64. cbn [m_header].
  destruct (Type_of _) as [[]|]; intros [= <-]; done.
Qed.
End lemmas.

(** Headers written on one machine and read on another. *)
Section cross_machine.
Context (here there : Platform).

Lemma Header_bytes_layout o t k :
  @Header_bytes here (@Header_ctor here o t k) =
    [x00; x00; x00; x00] ++ store (@native here) 2 current_version ++
    [o; t] ++ rev (le_bytes 8 k).
Proof.
  unfold Header_bytes. cbn [m_reserved_ m_version_ m_origin_ m_type_ m_topic_key_ Header_ctor].
  rewrite store_network_order. by destruct (@native here).
Qed.

Lemma load_network_order k :
  is_u64 k →
  @network_to_host64 there (load (@native there) (rev (le_bytes 8 k))) = k.
Proof.
  intros Hk. rewrite <-(@store_network_order there k), load_store, Z.mod_small.
  - by apply network_to_host64_inverse.
  - by apply host_to_network64_range.
Qed.

Lemma Header_of_bytes_layout v o t k p :
  length v = 2 → is_u64 k →
  let h := @Header_of_bytes there
             (([x00; x00; x00; x00] ++ v ++ [o; t] ++ rev (le_bytes 8 k)) ++ p) in
  m_version_ h = load (@native there) v ∧ m_origin_ h = o ∧ m_type_ h = t ∧
  @Header_topic_key there h = k.
Proof.
  intros Hv Hk. destruct (length_2 _ Hv) as (v1 & v2 & ->).
  assert (length (rev (le_bytes 8 k)) = 8) as H8 by by rewrite length_rev, length_le_bytes.
  destruct (length_8 _ H8) as (?&?&?&?&?&?&?&?&E8).
  split_and!; try done. unfold Header_topic_key. rewrite E8.
  unfold Header_of_bytes; cbn [m_topic_key_]. simpl. rewrite take_0, <-E8.
  by apply load_network_order.
Qed.

Lemma decode_cross_machine o m :
  msg_wf m → @decode there (@packet here o m) = Some m.
Proof.
  intros H. unfold decode. rewrite Message_ctor_long.
  2: { apply (@length_packet here). }
  unfold packet, msg_header. rewrite Header_bytes_layout.
  destruct (Header_of_bytes_layout (store (@native here) 2 current_version) o
    (Type_value (msg_type m)) (msg_key m) (msg_payload m)) as (_ & _ & Et & Ek);
    [by rewrite length_store|done|].
  unfold read_msg, Message_payload_as_string. cbn [m_header m_payload].
  rewrite Et, Ek, Type_of_value.
  rewrite drop_app_exact.
  2: { rewrite !length_app, length_store, length_rev, length_le_bytes. done. }
  destruct m; simpl; by rewrite ?string_of_bytes_as_bytes.
Qed.
End cross_machine.

(** ** Lemmas on the text of a message *)

(** A byte as the text shows it. *)
Definition hex_byte (b : byte) : string :=
  "0x" +:+ hex_digit (Z.land (Z.shiftr (u8 b) 4) 15) +:+ hex_digit (Z.land (u8 b) 15).

(** The value of a hexadecimal digit. *)
Definition hex_value (c : Ascii.ascii) : option Z :=
  let n := Z.of_nat (Ascii.nat_of_ascii c) in
  if ((48 <=? n) && (n <=? 57))%Z then Some (n - 48)%Z
  else if ((97 <=? n) && (n <=? 102))%Z then Some (n - 87)%Z else None.

(** Read back bytes written as "0x68 0x69". *)
Fixpoint read_hex (s : string) : option (list byte) :=
  match s with
  | EmptyString => Some []
  | String "0"%char (String "x"%char (String h (String l rest))) =>
      match hex_value h, hex_value l with
      | Some h, Some l =>
          cons (byte_of_u8 (16 * h + l)) <$>
            match rest with
            | EmptyString => Some []
            | String " "%char rest' => read_hex rest'
            | _ => None
            end
      | _, _ => None
      end
  | _ => None
  end.

(** The two digits of a byte. *)
Definition hex_digits (b : byte) : option (ascii * ascii) :=
  match hex_byte b with
  | String "0"%char (String "x"%char (String h (String l EmptyString))) => Some (h, l)
  | _ => None
  end.

Definition hex_digits_ok (b : byte) : bool :=
  match hex_digits b with
  | Some (h, l) =>
      match hex_value h, hex_value l with
      | Some vh, Some vl =>
          String.eqb (hex_byte b) (String "0" (String "x" (String h (String l "")))) &&
          Byte.eqb (byte_of_u8 (16 * vh + vl)) b
      | _, _ => false
      end
  | None => false
  end.

Lemma hex_byte_digits b :
  ∃ h l vh vl, hex_byte b = String "0" (String "x" (String h (String l ""))) ∧
    hex_value h = Some vh ∧ hex_value l = Some vl ∧ byte_of_u8 (16 * vh + vl) = b.
Proof.
  assert (H : hex_digits_ok b = true) by (destruct b; vm_compute; reflexivity).
  unfold hex_digits_ok in H. destruct (hex_digits b) as [[h l]|]; [|done].
  destruct (hex_value h) as [vh|] eqn:Eh, (hex_value l) as [vl|] eqn:El; try done.
  apply andb_true_iff in H as [Hs Hb]. apply String.eqb_eq in Hs. apply Byte.byte_dec_bl in Hb.
  by exists h, l, vh, vl.
Qed.

Lemma read_hex_one b : read_hex (hex_byte b) = Some [b].
Proof.
  destruct (hex_byte_digits b) as (h & l & vh & vl & -> & Hh & Hl & Hb).
  cbn [read_hex]. rewrite Hh, Hl. cbn. by rewrite Hb.
Qed.

Lemma read_hex_byte b rest :
  read_hex (hex_byte b +:+ String " "%char rest) = cons b <$> read_hex rest.
Proof.
  destruct (hex_byte_digits b) as (h & l & vh & vl & -> & Hh & Hl & Hb).
  rewrite !append_cons, append_empty_l. cbn [read_hex]. by rewrite Hh, Hl, Hb.
Qed.

Lemma read_hex_concat payload :
  read_hex (String.concat " " (map hex_byte payload)) = Some payload.
Proof.
  induction payload as [|b [|b' payload] IH]; [done|apply read_hex_one|].
  change (String.concat " " (map hex_byte (b :: b' :: payload))) with
    (hex_byte b +:+ String " "%char (String.concat " " (map hex_byte (b' :: payload)))).
  by rewrite read_hex_byte, IH.
Qed.

(** The bytes after the first. *)
Fixpoint hex_rest (payload : list byte) : string :=
  match payload with
  | [] => ""
  | b :: rest => " " +:+ (hex_byte b +:+ hex_rest rest)
  end.

Lemma hex_loop_S i payload out :
  hex_loop (S i) payload out = out +:+ hex_rest payload.
Proof.
  revert i out. induction payload as [|b payload IH]; intros i out; cbn [hex_loop hex_rest Nat.eqb].
  - by rewrite append_empty_r.
  - rewrite IH. unfold hex_byte. by rewrite <-!append_assoc.
Qed.

Lemma concat_spaces b payload :
  String.concat " " (map hex_byte (b :: payload)) = hex_byte b +:+ hex_rest payload.
Proof.
  revert b. induction payload as [|b' payload IH]; intros b; cbn [hex_rest].
  - by rewrite append_empty_r.
  - by rewrite <-IH.
Qed.

Lemma hex_loop_spec payload out :
  hex_loop 0 payload out = out +:+ String.concat " " (map hex_byte payload).
Proof.
  destruct payload as [|b payload]; [by rewrite append_empty_r|].
  cbn [hex_loop Nat.eqb]. rewrite hex_loop_S, concat_spaces. unfold hex_byte.
  by rewrite <-!append_assoc.
Qed.

#[export] Hint Resolve Header_ctor_wf Header_of_bytes_wf host_to_network64_range
  length_packet decode_wf : spraybus.
#[export] Hint Rewrite @length_Header_bytes @build_run @Message_ctor_packet
  @decode_packet : spraybus.

(** ** Properties *)

(** C15: the packet that each [Constructor] method builds is parsed back by
    [Message] to the header the factory made (version v1, the given origin,
    the method's type, the given topic key) and the given payload, whatever
    the buffer held before, on machines of either byte order. *)
Theorem construct_parse_roundtrip {plat : Platform} origin m c :
  msg_wf m →
  ∃ data, fst (build origin m c) = Ok data ∧
    length data = sizeof_Header + length (msg_payload m) ∧
    ∃ msg, Message_ctor data = Ok msg ∧
      Version_of (m_version_ (m_header msg)) = Some Version_v1 ∧
      m_origin_ (m_header msg) = origin ∧
      Type_of (m_type_ (m_header msg)) = Some (msg_type m) ∧
      Header_topic_key (m_header msg) = msg_key m ∧
      m_payload msg = msg_payload m ∧
      read_msg msg = Some m.
Proof.
  intros H. exists (packet origin m). rewrite build_run. split; [done|]. split.
  { unfold packet. by rewrite length_app, length_Header_bytes. }
  pose proof (decode_packet origin m H) as Hd. unfold decode in Hd.
  rewrite Message_ctor_packet in * by done.
  eexists; split; [done|]. cbn [m_header m_payload].
  rewrite msg_header_key by done. split_and!; try done. apply Type_of_value.
Qed.

(** [Message] accepts exactly the byte ranges of at least 16 bytes and
    throws "Data too short to contain header" on the others; an accepted range
    is the bytes of the parsed header followed by the payload, so no byte is
    lost or reordered. *)
Theorem message_parse_lossless {plat : Platform} data :
  if decide (length data < sizeof_Header) then
    Message_ctor data = Throw (runtime_error "Data too short to contain header")
  else
    ∃ msg, Message_ctor data = Ok msg ∧ Header_wf (m_header msg) ∧
      Header_bytes (m_header msg) ++ m_payload msg = data ∧ m_topic msg = "".
Proof.
  case_decide; [by apply Message_ctor_short|].
  rewrite Message_ctor_long by lia. eexists; split; [done|]. cbn [m_header m_payload].
  split; [apply Header_of_bytes_wf; lia|]. split; [|done].
  rewrite Header_bytes_of_bytes by lia. apply take_drop.
Qed.

(** C35: byte layout of every packet the builder makes: four zero bytes, the
    version in the byte order of the machine, the origin, the type, the topic
    key most significant byte first whatever the machine, the payload. *)
Theorem wire_layout {plat : Platform} origin m c :
  fst (build origin m c) =
    Ok ([x00; x00; x00; x00] ++ store native 2 1 ++
        [origin; Type_value (msg_type m)] ++ rev (le_bytes 8 (msg_key m)) ++
        msg_payload m).
Proof.
  rewrite build_run. unfold packet, msg_header. rewrite Header_bytes_layout.
  by rewrite <-!app_assoc.
Qed.

(** Two machines of different byte orders agree on the type, key and
    payload of a packet and disagree on its version: the receiver reads the
    version 0x0100, which [to_string] renders "invalid". *)
Theorem cross_endian_version here there origin m :
  msg_wf m → @native here ≠ @native there →
  ∃ msg, @Message_ctor there (@packet here origin m) = Ok msg ∧
    @read_msg there msg = Some m ∧ m_origin_ (m_header msg) = origin ∧
    m_version_ (m_header msg) = 256%Z ∧
    Version_to_string (m_version_ (m_header msg)) = "invalid".
Proof.
  intros Hwf Hne. pose proof (decode_cross_machine here there origin m Hwf) as Hd.
  unfold decode in Hd. rewrite Message_ctor_long in * by apply (@length_packet here).
  eexists; split; [done|]. split; [done|]. cbn [m_header].
  unfold packet, msg_header. rewrite Header_bytes_layout.
  edestruct (Header_of_bytes_layout there (store (@native here) 2 current_version))
    as (Ev & Eo & _); [by rewrite length_store|exact Hwf|].
  rewrite Ev, Eo. split; [done|]. by destruct (@native here), (@native there).
Qed.

(** The text of a message shows its header and every byte of its payload,
    as two hexadecimal digits each, separated by single spaces: the payload
    can be read back from it. *)
Theorem message_text_readable {plat : Platform} m :
  Message_to_string m =
    "Message { " +:+ Header_to_string (m_header m) +:+ ", Payload { " +:+
    String.concat " " (map hex_byte (m_payload m)) +:+ " } }" ∧
  read_hex (String.concat " " (map hex_byte (m_payload m))) = Some (m_payload m).
Proof.
  split; [|apply read_hex_concat]. unfold Message_to_string. rewrite hex_loop_spec.
  by rewrite <-!append_assoc.
Qed.

(** ** Witnesses *)

Section witnesses.
#[local] Instance x86 : Platform := little_endian.

Lemma construct_parse_roundtrip_witness :
  ∃ data, fst (build x01 (Publish 0x0102030405060708 [x68; x69])
                 {| m_buffer := [xff; xff] |}) = Ok data ∧
    length data = 18 ∧
    ∃ msg, Message_ctor data = Ok msg ∧
      Version_of (m_version_ (m_header msg)) = Some Version_v1 ∧
      m_origin_ (m_header msg) = x01 ∧
      Type_of (m_type_ (m_header msg)) = Some Type_publish ∧
      Header_topic_key (m_header msg) = 0x0102030405060708%Z ∧
      m_payload msg = [x68; x69] ∧
      read_msg msg = Some (Publish 0x0102030405060708 [x68; x69]).
Proof.
  apply (construct_parse_roundtrip x01 (Publish 0x0102030405060708 [x68; x69])
    {| m_buffer := [xff; xff] |}).
  unfold msg_wf, is_u64. simpl. lia.
Defined.

Lemma cross_endian_version_witness :
  ∃ msg, @Message_ctor big_endian (@packet little_endian x01 (Subscribe 7)) = Ok msg ∧
    @read_msg big_endian msg = Some (Subscribe 7) ∧
    m_origin_ (m_header msg) = x01 ∧ m_version_ (m_header msg) = 256%Z ∧
    Version_to_string (m_version_ (m_header msg)) = "invalid".
Proof.
  apply (cross_endian_version little_endian big_endian x01 (Subscribe 7)).
  - unfold msg_wf, is_u64. simpl. lia.
  - discriminate.
Defined.

(** The packet of the package test (test_package/src/example.cpp). *)
Example publish_packet_bytes :
  fst (Constructor_publish 0x0102030405060708 [] x01 Constructor_default) =
    Ok [x00; x00; x00; x00; x01; x00; x01; x03;
        x01; x02; x03; x04; x05; x06; x07; x08].
Proof. vm_compute. reflexivity. Qed.
End witnesses.
