(* ===== verification/TopicMap.v ===== *)
(** * Topic registry (include/spraybus/server/topic_map.hpp)

    [TopicMap] assigns numeric keys to topic names.  Its specification is the
    list of the topics in the order they were first asked for: a topic's key
    is its position, counted from 1. *)

From stdpp Require Import base gmap list strings.
From S2P Require Import Prelude.

Record TopicMap : Type := MkTopicMap {
  m_map : gmap string Z;
  m_next_key : Z;
}.

Definition TopicMap_default : TopicMap := {| m_map := ∅; m_next_key := 1 |}.

(** [return m_next_key++], 64-bit. *)
Definition TopicMap_generate_key : M TopicMap Z :=
  let! key := gets m_next_key in
  modify (λ t, {| m_map := m_map t; m_next_key := uwrap 64 (key + 1) |}) ;;;
  ret key.

Definition TopicMap_get_or_create (topic : string) : M TopicMap Z :=
  let! it := gets (λ t, m_map t !! topic) in
  match it with
  | Some key => ret key
  | None =>
      let! topic_key := TopicMap_generate_key in
      modify (λ t, {| m_map := <[topic := topic_key]> (m_map t);
                      m_next_key := m_next_key t |}) ;;;
      ret topic_key
  end.

Definition TopicMap_get (topic : string) (t : TopicMap) : option Z :=
  m_map t !! topic.

(** ** Specification *)

(** The key of a topic in a list of topics: its position from 1. *)
Fixpoint index_from (i : Z) (topic : string) (topics : list string) : option Z :=
  match topics with
  | [] => None
  | t :: rest => if decide (t = topic) then Some i else index_from (i + 1) topic rest
  end.

Definition spec_get (topic : string) (topics : list string) : option Z :=
  index_from 1 topic topics.

Definition spec_get_or_create (topic : string) (topics : list string) :
    Z * list string :=
  match spec_get topic topics with
  | Some key => (key, topics)
  | None => ((Z.of_nat (length topics) + 1)%Z, topics ++ [topic])
  end.

(** The concrete registry stands for the list [topics]. *)
Record topics_rel (t : TopicMap) (topics : list string) : Prop := {
  rel_nodup : NoDup topics;
  rel_map topic : m_map t !! topic = spec_get topic topics;
  rel_next : m_next_key t = uwrap 64 (Z.of_nat (length topics) + 1);
}.

(** Fewer topics than 64-bit keys, so that the next key does not wrap to an
    earlier one. *)
Definition topics_bound (topics : list string) : Prop :=
  (Z.of_nat (length topics) < 2 ^ 64 - 1)%Z.

(** Run a sequence of requests. *)
Fixpoint run_requests (reqs : list string) : M TopicMap (list Z) :=
  match reqs with
  | [] => ret []
  | r :: reqs' =>
      let! k := TopicMap_get_or_create r in
      let! ks := run_requests reqs' in
      ret (k :: ks)
  end.

(** ** Lemmas *)

Lemma index_from_range i topic topics k :
  index_from i topic topics = Some k →
  (i ≤ k < i + Z.of_nat (length topics))%Z ∧
  topics !! Z.to_nat (k - i) = Some topic.
Proof.
  revert i. induction topics as [|t topics IH]; intros i; [done|].
  cbn [index_from length]. case_decide as E.
  - intros [= <-]. rewrite Z.sub_diag. split; [lia|]. simpl. by subst.
  - intros [? Hl]%IH. split; [lia|].
    replace (Z.to_nat (k - i)) with (S (Z.to_nat (k - (i + 1)))) by lia. done.
Qed.

Lemma index_from_None i topic topics :
  index_from i topic topics = None ↔ topic ∉ topics.
Proof.
  revert i. induction topics as [|t topics IH]; intros i; cbn [index_from].
  - split; [|done]. intros _. apply not_elem_of_nil.
  - rewrite not_elem_of_cons. case_decide as E.
    + split; [done|]. by intros [[] _].
    + rewrite IH. split; [done|]. by intros [_ ?].
Qed.

Lemma index_from_snoc i topic topics t :
  topic ∉ topics →
  index_from i t (topics ++ [topic]) =
    if decide (t = topic) then Some (i + Z.of_nat (length topics))%Z
    else index_from i t topics.
Proof.
  revert i. induction topics as [|t' topics IH]; intros i Hni; cbn [index_from app].
  - destruct (decide (topic = t)) as [->|?].
    + rewrite decide_True by done. f_equal. simpl. lia.
    + by rewrite decide_False by congruence.
  - destruct (decide (t' = t)) as [->|?].
    + rewrite decide_False by set_solver. done.
    + rewrite IH by set_solver. case_decide; [|done]. f_equal. cbn [length]. lia.
Qed.

Lemma spec_get_inj topics t1 t2 k :
  spec_get t1 topics = Some k → spec_get t2 topics = Some k → t1 = t2.
Proof. intros [_ ?]%index_from_range [_ ?]%index_from_range. congruence. Qed.

Lemma spec_get_snoc topic topics t :
  topic ∉ topics →
  spec_get t (topics ++ [topic]) =
    if decide (t = topic) then Some (Z.of_nat (length topics) + 1)%Z
    else spec_get t topics.
Proof.
  intros. unfold spec_get. rewrite index_from_snoc by done.
  case_decide; [|done]. f_equal. lia.
Qed.

Lemma spec_get_bound topic topics k :
  topics_bound topics → spec_get topic topics = Some k → (1 ≤ k < 2 ^ 64)%Z.
Proof. intros Hb [? _]%index_from_range. unfold topics_bound in Hb. lia. Qed.

Lemma topics_rel_default : topics_rel TopicMap_default [].
Proof. split; [constructor|done|done]. Qed.

Lemma get_or_create_known topic t k :
  m_map t !! topic = Some k → TopicMap_get_or_create topic t = (Ok k, t).
Proof. intros H. unfold TopicMap_get_or_create. run_steps. by rewrite H. Qed.

Lemma get_or_create_new topic t :
  m_map t !! topic = None →
  TopicMap_get_or_create topic t =
    (Ok (m_next_key t),
     {| m_map := <[topic := m_next_key t]> (m_map t);
        m_next_key := uwrap 64 (m_next_key t + 1) |}).
Proof.
  intros H. unfold TopicMap_get_or_create, TopicMap_generate_key. run_steps.
  by rewrite H.
Qed.

(** The answer and the registry after a request. *)
Definition topic_answer (topic : string) (t : TopicMap) : Z * TopicMap :=
  match m_map t !! topic with
  | Some key => (key, t)
  | None => (m_next_key t,
             {| m_map := <[topic := m_next_key t]> (m_map t);
                m_next_key := uwrap 64 (m_next_key t + 1) |})
  end.

Lemma get_or_create_run topic t :
  TopicMap_get_or_create topic t =
    (Ok (fst (topic_answer topic t)), snd (topic_answer topic t)).
Proof.
  unfold topic_answer. destruct (m_map t !! topic) eqn:E.
  - by apply get_or_create_known.
  - by apply get_or_create_new.
Qed.

(** One request refines one step of the specification. *)
Lemma get_or_create_refines topic t topics :
  topics_rel t topics → topics_bound topics →
  ∃ t', TopicMap_get_or_create topic t =
          (Ok (fst (spec_get_or_create topic topics)), t') ∧
    topics_rel t' (snd (spec_get_or_create topic topics)).
Proof.
  intros [Hnd Hm Hn] Hb. unfold spec_get_or_create.
  destruct (spec_get topic topics) as [k|] eqn:E.
  { exists t. rewrite (get_or_create_known _ _ k); [done|]. by rewrite Hm. }
  unfold topics_bound in Hb.
  rewrite get_or_create_new by (by rewrite Hm).
  rewrite Hn, (uwrap_small 64 (_ + 1)) by lia.
  eexists; split; [done|]. apply index_from_None in E. split; simpl.
  - apply NoDup_app. split_and!; [done| |apply NoDup_singleton].
    intros t' ? ->%list_elem_of_singleton. done.
  - intros t'. rewrite spec_get_snoc by done. destruct (decide (t' = topic)) as [->|?].
    + by rewrite lookup_insert_eq.
    + by rewrite lookup_insert_ne.
  - by rewrite length_app, Nat2Z.inj_add.
Qed.

Lemma spec_get_or_create_known topic topics :
  topic ∈ snd (spec_get_or_create topic topics).
Proof.
  unfold spec_get_or_create. destruct (spec_get _ _) eqn:E; simpl; [|set_solver].
  apply index_from_range in E as [_ E]. by eapply list_elem_of_lookup_2.
Qed.

#[export] Hint Resolve topics_rel_default spec_get_or_create_known : spraybus.

(** The list of topics after a run of requests, and the keys answered. *)
Fixpoint spec_requests (reqs : list string) (topics : list string) :
    list Z * list string :=
  match reqs with
  | [] => ([], topics)
  | r :: reqs' =>
      let (k, topics1) := spec_get_or_create r topics in
      let (ks, topics2) := spec_requests reqs' topics1 in
      (k :: ks, topics2)
  end.

Lemma spec_get_or_create_prefix topic topics :
  ∃ new, snd (spec_get_or_create topic topics) = topics ++ new ∧ length new ≤ 1.
Proof.
  unfold spec_get_or_create. destruct (spec_get _ _); simpl.
  - exists []. rewrite app_nil_r. split; [done|simpl; lia].
  - by exists [topic].
Qed.

Lemma spec_get_or_create_get topic topics :
  spec_get topic (snd (spec_get_or_create topic topics)) =
    Some (fst (spec_get_or_create topic topics)).
Proof.
  unfold spec_get_or_create. destruct (spec_get topic topics) eqn:E; cbn [fst snd]; [done|].
  rewrite spec_get_snoc; [by rewrite decide_True|]. by apply index_from_None in E.
Qed.

Lemma index_from_app i topic topics new k :
  index_from i topic topics = Some k → index_from i topic (topics ++ new) = Some k.
Proof.
  revert i. induction topics as [|t topics IH]; intros i; [done|].
  cbn [index_from app]. case_decide; [done|]. apply IH.
Qed.

(** A key once given is kept by later requests. *)
Lemma spec_get_or_create_stable r topic topics k :
  spec_get topic topics = Some k →
  spec_get topic (snd (spec_get_or_create r topics)) = Some k.
Proof.
  intros H. destruct (spec_get_or_create_prefix r topics) as (new & -> & _).
  by apply index_from_app.
Qed.

Lemma spec_requests_stable reqs topics topic k :
  spec_get topic topics = Some k →
  spec_get topic (snd (spec_requests reqs topics)) = Some k.
Proof.
  revert topics. induction reqs as [|r reqs IH]; intros topics H; simpl; [done|].
  apply (spec_get_or_create_stable r) in H.
  destruct (spec_get_or_create r topics) as [k1 topics1]; simpl in *.
  apply IH in H. by destruct (spec_requests reqs topics1).
Qed.

Lemma spec_requests_nth reqs topics i r k :
  reqs !! i = Some r → fst (spec_requests reqs topics) !! i = Some k →
  spec_get r (snd (spec_requests reqs topics)) = Some k.
Proof.
  revert topics i. induction reqs as [|r' reqs IH]; intros topics [|i]; simpl; [done..| |].
  - intros [= ->]. pose proof (spec_get_or_create_get r topics) as Hg.
    destruct (spec_get_or_create r topics) as [k1 topics1]; simpl in *.
    apply (spec_requests_stable reqs) in Hg.
    destruct (spec_requests reqs topics1); simpl in *. naive_solver.
  - destruct (spec_get_or_create r' topics) as [k1 topics1].
    specialize (IH topics1 i). destruct (spec_requests reqs topics1); simpl in *. done.
Qed.

Lemma length_spec_requests reqs topics :
  length (fst (spec_requests reqs topics)) = length reqs.
Proof.
  revert topics. induction reqs as [|r reqs IH]; intros topics; simpl; [done|].
  destruct (spec_get_or_create r topics) as [k1 topics1]. specialize (IH topics1).
  destruct (spec_requests reqs topics1); simpl in *. by rewrite IH.
Qed.

Lemma spec_requests_length reqs topics :
  length (snd (spec_requests reqs topics)) ≤ length topics + length reqs.
Proof.
  revert topics. induction reqs as [|r reqs IH]; intros topics; simpl; [lia|].
  destruct (spec_get_or_create_prefix r topics) as (new & Hnew & Hlen).
  destruct (spec_get_or_create r topics) as [k1 topics1]. specialize (IH topics1).
  destruct (spec_requests reqs topics1); simpl in *. subst topics1.
  rewrite length_app in IH. lia.
Qed.

Lemma run_requests_refines reqs t topics :
  topics_rel t topics →
  (Z.of_nat (length topics + length reqs) < 2 ^ 64)%Z →
  ∃ t', run_requests reqs t = (Ok (fst (spec_requests reqs topics)), t') ∧
    topics_rel t' (snd (spec_requests reqs topics)).
Proof.
  revert t topics. induction reqs as [|r reqs IH]; intros t topics Hrel Hb; simpl.
  { by exists t. }
  cbn [length] in Hb.
  destruct (get_or_create_refines r t topics) as (t1 & Ht1 & Hrel1); [done| |].
  { unfold topics_bound. lia. }
  destruct (spec_get_or_create_prefix r topics) as (new & Hnew & Hlen).
  destruct (spec_get_or_create r topics) as [k1 topics1]; simpl in *.
  destruct (IH t1 topics1 Hrel1) as (t2 & Ht2 & Hrel2).
  { rewrite Hnew, length_app. lia. }
  exists t2. rewrite (bind_Ok _ _ _ _ _ Ht1), (bind_Ok _ _ _ _ _ Ht2).
  by destruct (spec_requests reqs topics1).
Qed.

(** ** Properties *)

(** Over any run of fewer than 2^64 requests from an empty registry, two
    requests are answered with the same key exactly when they name the same
    topic, every key lies in [1, 2^64), and [get] afterwards returns the key
    that was answered: keys are stable and never shared. *)
Theorem topic_keys_stable_and_distinct reqs :
  (Z.of_nat (length reqs) < 2 ^ 64)%Z →
  ∃ keys t, run_requests reqs TopicMap_default = (Ok keys, t) ∧
    length keys = length reqs ∧
    (∀ i j ri rj ki kj,
       reqs !! i = Some ri → reqs !! j = Some rj →
       keys !! i = Some ki → keys !! j = Some kj → (ki = kj ↔ ri = rj)) ∧
    (∀ i ri ki, reqs !! i = Some ri → keys !! i = Some ki →
       (1 ≤ ki < 2 ^ 64)%Z ∧ TopicMap_get ri t = Some ki).
Proof.
  intros Hb. destruct (run_requests_refines reqs TopicMap_default [])
    as (t & Hrun & Hrel); [apply topics_rel_default|done|].
  set (topics := snd (spec_requests reqs [])) in *.
  set (keys := fst (spec_requests reqs [])) in *.
  assert (∀ i ri ki, reqs !! i = Some ri → keys !! i = Some ki →
    spec_get ri topics = Some ki) as Hkey by (intros; by eapply spec_requests_nth).
  exists keys, t. split; [done|]. split; [apply length_spec_requests|]. split.
  - intros i j ri rj ki kj Hri Hrj Hki Hkj.
    pose proof (Hkey _ _ _ Hri Hki) as H1. pose proof (Hkey _ _ _ Hrj Hkj) as H2.
    split; intros ->; [by eapply spec_get_inj|congruence].
  - intros i ri ki Hri Hki. pose proof (Hkey _ _ _ Hri Hki) as H1. split.
    + pose proof (index_from_range _ _ _ _ H1) as [? _].
      pose proof (spec_requests_length reqs []). subst topics. simpl in *. lia.
    + unfold TopicMap_get. by rewrite (rel_map _ _ Hrel).
Qed.

(** A known topic is answered from the registry and nothing changes; a
    new topic takes the next key, leaves every other entry alone and advances
    the counter, which wraps to 0 after 2^64 - 1. *)
Theorem get_or_create_step topic t :
  match TopicMap_get topic t with
  | Some key => TopicMap_get_or_create topic t = (Ok key, t)
  | None => ∃ t', TopicMap_get_or_create topic t = (Ok (m_next_key t), t') ∧
      TopicMap_get topic t' = Some (m_next_key t) ∧
      (∀ other, other ≠ topic → TopicMap_get other t' = TopicMap_get other t) ∧
      m_next_key t' = (if (m_next_key t =? 2 ^ 64 - 1)%Z then 0%Z
                       else uwrap 64 (m_next_key t + 1))
  end.
Proof.
  unfold TopicMap_get. destruct (m_map t !! topic) as [key|] eqn:E.
  { by apply get_or_create_known. }
  rewrite get_or_create_new by done. eexists; split; [done|]. simpl.
  split; [by rewrite lookup_insert_eq|]. split.
  - intros other Hne. by rewrite lookup_insert_ne.
  - case_match; [|done]. apply Z.eqb_eq in H. by rewrite H.
Qed.

(** C25: the registry implements its specification: from a registry that
    stands for a list of fewer than 2^64 - 1 topics, a request answers the
    position of the topic, appending it to the list when it is new. *)
Theorem get_or_create_refines_spec topic t topics :
  topics_rel t topics → topics_bound topics →
  ∃ t', TopicMap_get_or_create topic t =
          (Ok (fst (spec_get_or_create topic topics)), t') ∧
    topics_rel t' (snd (spec_get_or_create topic topics)).
Proof. apply get_or_create_refines. Qed.

(** ** Witnesses *)

Lemma topic_keys_stable_and_distinct_witness :
  ∃ keys t,
    run_requests ["alerts"; "news"; "alerts"] TopicMap_default = (Ok keys, t) ∧
    length keys = 3 ∧
    (∀ i j ri rj ki kj,
       ["alerts"; "news"; "alerts"] !! i = Some ri →
       ["alerts"; "news"; "alerts"] !! j = Some rj →
       keys !! i = Some ki → keys !! j = Some kj → (ki = kj ↔ ri = rj)) ∧
    (∀ i ri ki, ["alerts"; "news"; "alerts"] !! i = Some ri → keys !! i = Some ki →
       (1 ≤ ki < 2 ^ 64)%Z ∧ TopicMap_get ri t = Some ki).
Proof. apply (topic_keys_stable_and_distinct ["alerts"; "news"; "alerts"]). done. Defined.

Lemma get_or_create_refines_spec_witness :
  ∃ t', TopicMap_get_or_create "alerts" TopicMap_default = (Ok 1%Z, t') ∧
    topics_rel t' ["alerts"].
Proof.
  apply (get_or_create_refines_spec "alerts" TopicMap_default []).
  - apply topics_rel_default.
  - done.
Defined.

Example three_requests :
  fst (run_requests ["alerts"; "news"; "alerts"] TopicMap_default) =
    Ok [1; 2; 1]%Z.
Proof. vm_compute. reflexivity. Qed.
