(* ===== verification/World.v ===== *)
(** * The outside world of the program

    The calls the sources make to third-party code (ENet, quill) and to the
    operating system.  ENet is not part of the sources: what it returns is an
    argument of the model.  A [World] holds the values that successive calls
    will return and the log of the calls made, oldest first; a theorem
    quantifies over all of them.  Only the [data] field of an [ENetPeer], which
    ENet leaves to the application, is a state the program itself writes. *)

From Stdlib.Strings Require Import Byte.
From stdpp Require Import base gmap list strings.
From S2P Require Import Prelude.

(** ** ENet's data *)

(** Pointers to ENet's objects, as opaque numbers. *)
Abbreviation ENetHost := Z (only parsing).
Abbreviation ENetPeer := Z (only parsing).

(** A pointer to an application object attached to a peer: null, or the
    address of the object. *)
Abbreviation data_ptr := (option Z) (only parsing).

(** [host] is [None] while the field has not been written. *)
Record ENetAddress : Type := MkAddress {
  address_host : option Z;
  address_port : Z;
}.

Definition ENET_HOST_ANY : Z := 0.

(** A received packet: its identity and its bytes. *)
Record ENetPacket : Type := MkPacket {
  packet_id : Z;
  packet_data : list byte;
}.

(** A packet created for sending: a copy of the bytes and the flags. *)
Record OutPacket : Type := MkOutPacket {
  out_data : list byte;
  out_flags : Z;
}.

Definition ENET_PACKET_FLAG_RELIABLE : Z := 1.

(** [ENetEvent]: its type and the fields that are set for the type. *)
Inductive ENetEvent : Type :=
  | EVENT_NONE
  | EVENT_CONNECT (peer : ENetPeer)
  | EVENT_DISCONNECT (peer : ENetPeer)
  | EVENT_RECEIVE (peer : ENetPeer) (packet : ENetPacket).

(** ** Quill's data *)

Inductive Sink : Type :=
  | ConsoleSink (name : string)
  | FileSink (filename : string).

Inductive LogLevel : Type := Debug | Info | Warning.

Record Logger : Type := MkLogger {
  logger_name : string;
  logger_sink : Sink;
  logger_level : LogLevel;
}.

(** ** Calls to the outside *)

Inductive effect : Type :=
  | Enet_initialize
  | Atexit_enet_deinitialize
  | Enet_host_create (address : option ENetAddress) (peers channels : Z)
  | Enet_host_connect (host : ENetHost) (address : ENetAddress) (channels : Z)
  | Enet_host_service (host : ENetHost) (timeout : Z)
  | Enet_host_flush (host : ENetHost)
  | Enet_host_broadcast (host : ENetHost) (channel : Z) (packet : OutPacket)
  | Enet_host_destroy (host : ENetHost)
  | Enet_peer_send (peer : ENetPeer) (channel : Z) (packet : OutPacket)
  | Enet_peer_disconnect (peer : ENetPeer)
  | Enet_peer_reset (peer : ENetPeer)
  | Enet_packet_destroy (id : Z)
  | Quill_log (logger : string) (level : LogLevel) (format : string)
      (args : list string)
  | Quill_backend_start
  | Install_sigint_handler
  | Sleep_ms (ms : Z).

Record World : Type := MkWorld {
  w_initialize : Z;                        (* result of enet_initialize *)
  w_resolve : string → option Z;           (* enet_address_set_host *)
  w_hosts : list (option ENetHost);        (* results of enet_host_create *)
  w_peers : list (option ENetPeer);        (* results of enet_host_connect *)
  w_service : list (Z * ENetEvent);        (* results of enet_host_service *)
  w_peer_data : gmap ENetPeer data_ptr;    (* the data fields of the peers *)
  w_env : string → option string;          (* std::getenv *)
  w_run : nat;                             (* reads of should_run before SIGINT *)
  w_log : list effect;                     (* the calls made *)
}.

Definition world_hosts (x : list (option ENetHost)) (w : World) : World :=
  MkWorld (w_initialize w) (w_resolve w) x (w_peers w) (w_service w)
    (w_peer_data w) (w_env w) (w_run w) (w_log w).
Definition world_peers (x : list (option ENetPeer)) (w : World) : World :=
  MkWorld (w_initialize w) (w_resolve w) (w_hosts w) x (w_service w)
    (w_peer_data w) (w_env w) (w_run w) (w_log w).
Definition world_service (x : list (Z * ENetEvent)) (w : World) : World :=
  MkWorld (w_initialize w) (w_resolve w) (w_hosts w) (w_peers w) x
    (w_peer_data w) (w_env w) (w_run w) (w_log w).
Definition world_peer_data (x : gmap ENetPeer data_ptr) (w : World) : World :=
  MkWorld (w_initialize w) (w_resolve w) (w_hosts w) (w_peers w) (w_service w)
    x (w_env w) (w_run w) (w_log w).
Definition world_run (x : nat) (w : World) : World :=
  MkWorld (w_initialize w) (w_resolve w) (w_hosts w) (w_peers w) (w_service w)
    (w_peer_data w) (w_env w) x (w_log w).
Definition world_log (x : list effect) (w : World) : World :=
  MkWorld (w_initialize w) (w_resolve w) (w_hosts w) (w_peers w) (w_service w)
    (w_peer_data w) (w_env w) (w_run w) x.

(** Record a call. *)
Definition world_emit (e : effect) (w : World) : World :=
  world_log (w_log w ++ [e]) w.

(** ** The calls, from any object that holds the world *)

Section calls.
Context {S : Type} `{!Lens S World}.

Definition world_of (s : S) : World := lget s.

Definition emit (e : effect) : M S unit := zoom (modify (world_emit e)).

Definition enet_initialize : M S Z :=
  emit Enet_initialize ;;; gets (λ s, w_initialize (world_of s)).

(** [enet_address_set_host] writes the host field when it can resolve the
    name; the sources ignore its result. *)
Definition enet_address_set_host (name : string) (a : ENetAddress) :
    M S ENetAddress :=
  gets (λ s, match w_resolve (world_of s) name with
             | Some h => {| address_host := Some h; address_port := address_port a |}
             | None => a
             end).

Definition enet_host_create (address : option ENetAddress)
    (peers channels : Z) : M S (option ENetHost) :=
  emit (Enet_host_create address peers channels) ;;;
  let! hosts := gets (λ s, w_hosts (world_of s)) in
  match hosts with
  | [] => ret None
  | h :: rest => zoom (modify (world_hosts rest)) ;;; ret h
  end.

Definition enet_host_connect (host : ENetHost) (address : ENetAddress)
    (channels : Z) : M S (option ENetPeer) :=
  emit (Enet_host_connect host address channels) ;;;
  let! peers := gets (λ s, w_peers (world_of s)) in
  match peers with
  | [] => ret None
  | p :: rest => zoom (modify (world_peers rest)) ;;; ret p
  end.

(** Once the results listed are used up, no event is ready. *)
Definition enet_host_service (host : ENetHost) (timeout : Z) :
    M S (Z * ENetEvent) :=
  emit (Enet_host_service host timeout) ;;;
  let! results := gets (λ s, w_service (world_of s)) in
  match results with
  | [] => ret (0%Z, EVENT_NONE)
  | r :: rest => zoom (modify (world_service rest)) ;;; ret r
  end.

(** [enet_packet_create] copies the bytes. *)
Definition enet_packet_create (data : list byte) (flags : Z) : OutPacket :=
  {| out_data := data; out_flags := flags |}.

Definition enet_peer_send (peer : ENetPeer) (channel : Z)
    (packet : OutPacket) : M S unit :=
  emit (Enet_peer_send peer channel packet).
Definition enet_host_flush (host : ENetHost) : M S unit :=
  emit (Enet_host_flush host).
Definition enet_host_broadcast (host : ENetHost) (channel : Z)
    (packet : OutPacket) : M S unit :=
  emit (Enet_host_broadcast host channel packet).

(** Read and write [peer->data], null until it is written. *)
Definition peer_data (peer : ENetPeer) : M S data_ptr :=
  gets (λ s, default None (w_peer_data (world_of s) !! peer)).
Definition set_peer_data (peer : ENetPeer) (p : data_ptr) : M S unit :=
  zoom (modify (λ w, world_peer_data (<[peer := p]> (w_peer_data w)) w)).

(** Quill evaluates the arguments of a statement only when the level of the
    logger enables it. *)
Definition level_rank (l : LogLevel) : nat :=
  match l with Debug => 0 | Info => 1 | Warning => 2 end.

Definition log (level : LogLevel) (logger : Logger) (format : string)
    (args : M S (list string)) : M S unit :=
  if level_rank (logger_level logger) <=? level_rank level then
    let! a := args in emit (Quill_log (logger_name logger) level format a)
  else ret tt.
End calls.

(** ** What a log shows *)

(** The packets sent to peers, in order. *)
Definition sends (effects : list effect) : list (ENetPeer * list byte) :=
  omap (λ e, match e with
             | Enet_peer_send p _ pk => Some (p, out_data pk)
             | _ => None
             end) effects.

(** The received packets destroyed, in order. *)
Definition destroyed (effects : list effect) : list Z :=
  omap (λ e, match e with Enet_packet_destroy id => Some id | _ => None end)
    effects.

(** The calls that are not log statements. *)
Definition is_log (e : effect) : bool :=
  match e with Quill_log _ _ _ _ => true | _ => false end.

#[export] Instance world_self_lens : Lens World World.
Proof.
  refine {| lget := id; lset := λ w _, w |}; done.
Defined.

(** ** Equality up to log statements

    Log statements depend on the level of the logger and change nothing else:
    the theorems compare states up to them. *)

Definition visible (effects : list effect) : list effect :=
  List.filter (λ e, negb (is_log e)) effects.

Record world_equiv (w w' : World) : Prop := {
  equiv_initialize : w_initialize w = w_initialize w';
  equiv_resolve : w_resolve w = w_resolve w';
  equiv_hosts : w_hosts w = w_hosts w';
  equiv_peers : w_peers w = w_peers w';
  equiv_service : w_service w = w_service w';
  equiv_peer_data : w_peer_data w = w_peer_data w';
  equiv_env : w_env w = w_env w';
  equiv_run : w_run w = w_run w';
  equiv_log : visible (w_log w) = visible (w_log w');
}.

#[export] Instance world_equivalence : Equivalence world_equiv.
Proof.
  split; [by intros w; split| |].
  - intros w w' []. by split.
  - intros w1 w2 w3 [] []. split; by etrans.
Qed.

Lemma visible_app l l' : visible (l ++ l') = visible l ++ visible l'.
Proof. apply List.filter_app. Qed.

#[export] Instance world_emit_proper e :
  Proper (world_equiv ==> world_equiv) (world_emit e).
Proof. intros w w' []. split; try done. simpl. rewrite !visible_app. by f_equal. Qed.

Lemma world_emit_log w n l f a : world_equiv (world_emit (Quill_log n l f a) w) w.
Proof. split; try done. simpl. by rewrite visible_app, app_nil_r. Qed.

Lemma sends_visible l : sends (visible l) = sends l.
Proof. induction l as [|[] l IH]; simpl; unfold sends in *; simpl; congruence. Qed.

Lemma sends_app l l' : sends (l ++ l') = sends l ++ sends l'.
Proof. apply omap_app. Qed.

Lemma equiv_sends w w' : world_equiv w w' → sends (w_log w) = sends (w_log w').
Proof. intros H. by rewrite <-sends_visible, (equiv_log _ _ H), sends_visible. Qed.
