(* ===== verification/Common.v ===== *)
(** * Process helpers (include/spraybus/common/*.hpp, src/spraybus/networking/networking.cpp)

    Environment variables, the run loop that SIGINT ends, the initialisation
    of ENet, and the part of the C++ library that reads integers. *)

From Stdlib Require Import Ascii DecimalString DecimalZ.
From stdpp Require Import base gmap list strings.
From S2P Require Import Prelude World.

(** ** std::stoi, base 10, in the "C" locale

    [what()] of its exceptions is the name of the function, as in libstdc++. *)

Definition is_space (c : ascii) : bool :=
  match Z.of_nat (nat_of_ascii c) with
  | 32 | 9 | 10 | 11 | 12 | 13 => true
  | _ => false
  end%Z.

Definition digit_value (c : ascii) : option Z :=
  let n := Z.of_nat (nat_of_ascii c) in
  if ((48 <=? n) && (n <=? 57))%Z then Some (n - 48)%Z else None.

(** The leading white space: how much there is, and what follows. *)
Fixpoint skip_spaces (s : string) : nat * string :=
  match s with
  | String c s' =>
      if is_space c then let (n, rest) := skip_spaces s' in (S n, rest) else (0, s)
  | EmptyString => (0, s)
  end.

(** The leading digits, after those that make [value]: the number they write
    and how many they are. *)
Fixpoint scan_digits (value : Z) (s : string) : Z * nat :=
  match s with
  | String c s' =>
      match digit_value c with
      | Some d => let (v, n) := scan_digits (value * 10 + d) s' in (v, S n)
      | None => (value, 0)
      end
  | EmptyString => (value, 0)
  end.

Definition INT_MIN : Z := (-2147483648)%Z.
Definition INT_MAX : Z := 2147483647.

(** The number, and how many characters were read. *)
Definition stoi (s : string) : outcome (Z * nat) :=
  let (spaces, s1) := skip_spaces s in
  let '(sign, signs, s2) :=
    match s1 with
    | String "-" s2 => ((-1)%Z, 1, s2)
    | String "+" s2 => (1%Z, 1, s2)
    | _ => (1%Z, 0, s1)
    end in
  let (value, digits) := scan_digits 0 s2 in
  if digits =? 0 then Throw (invalid_argument "stoi")
  else if ((sign * value <? INT_MIN) || (INT_MAX <? sign * value))%Z then
    Throw (out_of_range "stoi")
  else Ok ((sign * value)%Z, spaces + signs + digits).

Lemma stoi_ends s : match stoi s with Ok _ | Throw _ => True | _ => False end.
Proof. unfold stoi. by repeat case_match. Qed.

(** ** Specification of std::stoi

    The number that a text writes: white space, a sign and decimal digits. *)

Definition is_digit (c : ascii) : bool := bool_decide (is_Some (digit_value c)).

Fixpoint decimal (value : Z) (digits : string) : Z :=
  match digits with
  | EmptyString => value
  | String c rest => decimal (value * 10 + default 0 (digit_value c)) rest
  end%Z.

Definition sign_value (sign : string) : Z := if String.eqb sign "-" then -1 else 1.

Definition number_text (s : string) (z : Z) : Prop :=
  ∃ spaces sign digits, s = spaces +:+ (sign +:+ digits) ∧
    all_chars is_space spaces = true ∧ (sign = "" ∨ sign = "+" ∨ sign = "-") ∧
    digits ≠ "" ∧ all_chars is_digit digits = true ∧
    z = (sign_value sign * decimal 0 digits)%Z.

Lemma skip_spaces_append spaces c rest :
  all_chars is_space spaces = true → is_space c = false →
  skip_spaces (spaces +:+ String c rest) = (String.length spaces, String c rest).
Proof.
  intros Hs Hc. induction spaces as [|d spaces IH].
  { rewrite append_empty_l. cbn. by rewrite Hc. }
  rewrite append_cons. cbn in *. apply andb_true_iff in Hs as [-> Hs]. by rewrite IH.
Qed.

Lemma skip_spaces_inv s n rest :
  skip_spaces s = (n, rest) →
  ∃ spaces, s = spaces +:+ rest ∧ String.length spaces = n ∧ all_chars is_space spaces = true.
Proof.
  revert n. induction s as [|c s IH]; intros n; cbn.
  - intros [= <- <-]. by exists "".
  - destruct (is_space c) eqn:Hc.
    + destruct (skip_spaces s) as [m r]. intros [= <- <-].
      destruct (IH m eq_refl) as (sp & -> & <- & Hsp). exists (String c sp).
      rewrite append_cons. cbn. by rewrite Hc.
    + intros [= <- <-]. by exists "".
Qed.

Lemma scan_digits_all value digits :
  all_chars is_digit digits = true →
  scan_digits value digits = (decimal value digits, String.length digits).
Proof.
  revert value. induction digits as [|c digits IH]; intros value; [done|]. cbn.
  intros [Hc Hd]%andb_true_iff. unfold is_digit in Hc.
  apply bool_decide_eq_true in Hc as [d ->]. by rewrite IH.
Qed.

Lemma scan_digits_inv value s v n :
  scan_digits value s = (v, n) →
  n ≤ String.length s ∧
  (n = String.length s → all_chars is_digit s = true ∧ v = decimal value s).
Proof.
  revert value v n. induction s as [|c s IH]; intros value v n; cbn.
  - intros [= <- <-]. done.
  - unfold is_digit. destruct (digit_value c) as [d|]; cbn.
    + destruct (scan_digits _ s) as [v' n'] eqn:E. intros [= <- <-].
      destruct (IH _ _ _ E) as [Hle Hall]. split; [lia|]. intros [= Hn]. by apply Hall.
    + intros [= <- <-]. split; [lia|done].
Qed.

Lemma decimal_nonneg value digits : (0 ≤ value)%Z → (0 ≤ decimal value digits)%Z.
Proof.
  revert value. induction digits as [|c digits IH]; intros value Hv; [done|]. cbn.
  apply IH. unfold digit_value. destruct (_ && _) eqn:E; cbn; lia.
Qed.

Lemma digit_not_space c : is_digit c = true → is_space c = false.
Proof. unfold is_digit. by destruct c as [[] [] [] [] [] [] [] []]. Qed.

Lemma sign_not_digit c : is_digit c = true → c ≠ "-"%char ∧ c ≠ "+"%char.
Proof. unfold is_digit. by destruct c as [[] [] [] [] [] [] [] []]. Qed.

(** The sign in front of the digits. *)
Definition read_sign (s : string) : Z * nat * string :=
  match s with
  | String "-" s2 => ((-1)%Z, 1, s2)
  | String "+" s2 => (1%Z, 1, s2)
  | _ => (1%Z, 0, s)
  end.

Lemma read_sign_digits digits :
  digits ≠ "" → all_chars is_digit digits = true → read_sign digits = (1%Z, 0, digits).
Proof.
  destruct digits as [|c digits]; [done|]. cbn. intros _ [[Hm Hp]%sign_not_digit _]%andb_true_iff.
  destruct c as [[] [] [] [] [] [] [] []]; done.
Qed.

Lemma read_sign_inv s sign n rest :
  read_sign s = (sign, n, rest) →
  ∃ text, s = text +:+ rest ∧ String.length text = n ∧ sign_value text = sign ∧
    (text = "" ∨ text = "+" ∨ text = "-").
Proof.
  unfold read_sign. intros H.
  destruct s as [|c s]; [injection H as <- <- <-; exists ""; by auto|].
  destruct (ascii_dec c "-") as [->|Hm];
    [injection H as <- <- <-; exists "-"; by (split_and!; [done..|by right; right])|].
  destruct (ascii_dec c "+") as [->|Hp];
    [injection H as <- <- <-; exists "+"; by (split_and!; [done..|by right; left])|].
  exists "". destruct c as [[] [] [] [] [] [] [] []]; try done;
    injection H as <- <- <-; (split_and!; [done..|by left]).
Qed.

Lemma stoi_eq s :
  stoi s =
    let '(spaces, s1) := skip_spaces s in
    let '(sign, signs, s2) := read_sign s1 in
    let '(value, digits) := scan_digits 0 s2 in
    if digits =? 0 then Throw (invalid_argument "stoi")
    else if ((sign * value <? INT_MIN) || (INT_MAX <? sign * value))%Z then
      Throw (out_of_range "stoi")
    else Ok ((sign * value)%Z, spaces + signs + digits).
Proof. done. Qed.

(** [stoi] reads the whole of a text exactly when the text writes a number
    that fits an [int]. *)
Lemma stoi_whole s z :
  stoi s = Ok (z, String.length s) ↔ number_text s z ∧ (INT_MIN ≤ z ≤ INT_MAX)%Z.
Proof.
  rewrite stoi_eq. split.
  - destruct (skip_spaces s) as [n s1] eqn:E1, (read_sign s1) as [[sign m] s2] eqn:E2,
      (scan_digits 0 s2) as [v k] eqn:E3.
    apply skip_spaces_inv in E1 as (sp & -> & <- & Hsp).
    apply read_sign_inv in E2 as (text & -> & <- & <- & Ht).
    apply scan_digits_inv in E3 as [Hk Hall].
    destruct (Nat.eqb_spec k 0) as [|Hk0]; [done|].
    destruct (_ || _) eqn:Hr; [done|]. intros [= <- Hlen].
    apply orb_false_iff in Hr as [?%Z.ltb_ge ?%Z.ltb_ge].
    rewrite !length_append in Hlen. destruct Hall as [Hd ->]; [lia|].
    split; [|done]. exists sp, text, s2. split_and!; try done. intros ->. cbn in *. lia.
  - intros [(sp & text & digits & -> & Hsp & Ht & Hne & Hd & ->) Hr].
    assert (Hsign : read_sign (text +:+ digits) =
      (sign_value text, String.length text, digits)).
    { destruct Ht as [->|[->| ->]]; [by apply read_sign_digits|done..]. }
    assert (Hskip : skip_spaces (sp +:+ (text +:+ digits)) =
      (String.length sp, text +:+ digits)).
    { destruct Ht as [->|[->| ->]]; [|by apply skip_spaces_append..].
      destruct digits as [|c digits]; [done|]. apply skip_spaces_append; [done|].
      cbn in Hd. apply andb_true_iff in Hd as [Hc _]. by apply digit_not_space. }
    rewrite Hskip, Hsign, scan_digits_all by done.
    destruct (Nat.eqb_spec (String.length digits) 0) as [H0|_]; [by destruct digits|].
    destruct (_ || _) eqn:E; [|by rewrite !length_append, Nat.add_assoc].
    apply orb_true_iff in E as [?%Z.ltb_lt|?%Z.ltb_lt]; lia.
Qed.

(** [std::to_string] writes a number that [stoi] reads. *)
Lemma decimal_uint_acc u acc :
  decimal (Zpos acc) (NilEmpty.string_of_uint u) = Zpos (Pos.of_uint_acc u acc).
Proof.
  revert acc. induction u; intros acc; [done|..]; cbn [NilEmpty.string_of_uint decimal];
    cbn [Pos.of_uint_acc]; rewrite <-IHu; f_equal;
    match goal with |- context [digit_value ?c] =>
      let d := eval vm_compute in (default 0 (digit_value c))%Z in
      change (default 0 (digit_value c))%Z with d end; lia.
Qed.

Lemma decimal_uint u : decimal 0 (NilEmpty.string_of_uint u) = Z.of_N (Pos.of_uint u).
Proof. induction u; [done|done|..]; apply decimal_uint_acc. Qed.

Lemma digits_uint u : all_chars is_digit (NilEmpty.string_of_uint u) = true.
Proof. by induction u. Qed.

Lemma number_text_decimal z : (0 ≤ z)%Z → number_text (to_string_Z z) z.
Proof.
  intros Hz. unfold to_string_Z. destruct (Z.to_int z) as [u|u] eqn:E.
  - exists "", "", (NilZero.string_of_uint u).
    assert (Hu : NilZero.string_of_uint u = "0" ∨
      NilZero.string_of_uint u = NilEmpty.string_of_uint u ∧ u ≠ Decimal.Nil)
      by (destruct u; [by left|by right..]).
    split_and!; [done|done|by left|..].
    + destruct u; done.
    + destruct Hu as [->|[-> _]]; [done|apply digits_uint].
    + pose proof (DecimalZ.of_to z) as Ez. rewrite E in Ez. cbn [Z.of_int] in Ez.
      change (sign_value "") with 1%Z. rewrite Z.mul_1_l, <-Ez. unfold Z.of_uint.
      rewrite <-decimal_uint. by destruct u.
  - exfalso. destruct z; cbn in E; try done. 
Qed.

(** ** env.hpp, interrupts.hpp and networking.cpp *)

Section common.
Context {S : Type} `{!Lens S World}.

Definition getenv (name : string) : M S (option string) :=
  gets (λ s, w_env (world_of s) name).

Definition get_env_or (name default_value : string) : M S string :=
  let! value := getenv name in
  match value with
  | Some value => ret value
  | None => ret default_value
  end.

Definition get_env_or_throw (name : string) : M S string :=
  let! value := getenv name in
  match value with
  | Some value => ret value
  | None =>
      throw (runtime_error ("Missing required environment variable: " +:+ name))
  end.

Definition interrupts_setup : M S unit := emit Install_sigint_handler.

(** Reading [should_run]: the signal arrives after the number of reads that
    the world decides. *)
Definition should_run : M S bool :=
  let! n := gets (λ s, w_run (world_of s)) in
  match n with
  | O => ret false
  | Datatypes.S n' => zoom (modify (world_run n')) ;;; ret true
  end.

Fixpoint run_forever_loop (fuel : nat) (lambda : M S unit) : M S unit :=
  match fuel with
  | O => out_of_fuel
  | Datatypes.S fuel' =>
      let! go := should_run in
      if go : bool then lambda ;;; run_forever_loop fuel' lambda else ret tt
  end.

(** Each iteration reads [should_run] once, and the signal arrives. *)
Definition run_forever (lambda : M S unit) : M S unit :=
  interrupts_setup ;;;
  let! n := gets (λ s, w_run (world_of s)) in
  run_forever_loop (Datatypes.S n) lambda.

(** The overload without a callback. *)
Definition run_forever_idle : M S unit := run_forever (emit (Sleep_ms 200)).

Definition networking_init : M S unit :=
  let! r := enet_initialize in
  if negb (r =? 0)%Z then throw (runtime_error "Failed to initialize ENet")
  else emit Atexit_enet_deinitialize.
End common.

(** ** Specification of the run loop *)

Section loop.
Context {S : Type} `{!Lens S World}.

Definition runs_left (s : S) : nat := w_run (lget s).

(** Code that does not change what [view] shows of the world. *)
Definition keeps_view {V} (view : World → V) {A} (m : M S A) : Prop :=
  ∀ s, view (lget (snd (m s))) = view (lget s).

(** One iteration: [should_run] is read, then the callback runs. *)
Definition iteration (lambda : M S unit) (n : nat) : M S unit :=
  zoom (modify (world_run n)) ;;; lambda.

(** [n] iterations, stopping at the first that throws. *)
Fixpoint iterations (n : nat) (lambda : M S unit) : M S unit :=
  match n with
  | O => ret tt
  | Datatypes.S n' => iteration lambda n' ;;; iterations n' lambda
  end.
End loop.

(** A callback that does not read [should_run]. *)
Abbreviation keeps_runs := (keeps_view w_run).

(** ** Code that does not change a view of the world *)

Section keeps.
Context {S : Type} `{!Lens S World} {V : Type} {view : World → V}.

Lemma keeps_ret {A} (a : A) : keeps_view view (ret a).
Proof. done. Qed.
Lemma keeps_throw {A} e : keeps_view view (throw (A := A) e).
Proof. done. Qed.
Lemma keeps_undefined {A} : keeps_view view (undefined (A := A)).
Proof. done. Qed.
Lemma keeps_out_of_fuel {A} : keeps_view view (out_of_fuel (A := A)).
Proof. done. Qed.
Lemma keeps_of_outcome {A} (o : outcome A) : keeps_view view (of_outcome o).
Proof. done. Qed.
Lemma keeps_gets {A} (f : S → A) : keeps_view view (gets f).
Proof. done. Qed.

Lemma keeps_bind {A B} (m : M S A) (k : A → M S B) :
  keeps_view view m → (∀ a, keeps_view view (k a)) → keeps_view view (bind m k).
Proof.
  intros Hm Hk s. specialize (Hm s). unfold bind.
  destruct (m s) as [[a|e| |] s']; try done. by rewrite Hk.
Qed.

Lemma keeps_for_each {A} (l : list A) (f : A → M S unit) :
  (∀ x, keeps_view view (f x)) → keeps_view view (for_each l f).
Proof. intros Hf. induction l; [done|]. apply keeps_bind; auto. Qed.

Lemma keeps_with_destructor {A} (cleanup : S → S) (m : M S A) :
  (∀ s, view (lget (cleanup s)) = view (lget s)) → keeps_view view m →
  keeps_view view (with_destructor cleanup m).
Proof.
  intros Hc Hm s. specialize (Hm s). unfold with_destructor.
  destruct (m s) as [[a|e| |] s']; simpl in *; by rewrite ?Hc.
Qed.

Lemma keeps_world {A} (m : M World A) : keeps_view view m → keeps_view view (zoom (S := S) m).
Proof.
  intros Hm s. specialize (Hm (lget s)). unfold zoom in *.
  destruct (m (lget s)) as [r w]. simpl in *. by rewrite lget_lset.
Qed.

Lemma keeps_modify (f : S → S) :
  (∀ s, view (lget (f s)) = view (lget s)) → keeps_view view (modify f).
Proof. intros Hf s. apply Hf. Qed.

(** A part of the state that holds the world. *)
Lemma keeps_zoom {T A} `{!Lens S T, !Lens T World} (m : M T A) :
  (∀ t (s : S), view (lget (lset t s)) = view (lget t)) →
  (∀ s : S, view (lget (lget (T := T) s)) = view (lget s)) →
  (∀ t, view (lget (snd (m t))) = view (lget t)) → keeps_view view (zoom m).
Proof.
  intros Hset Hget Hm s. unfold zoom. specialize (Hm (lget s)).
  destruct (m (lget s)) as [r t]. cbn [snd] in *. by rewrite Hset, Hm, Hget.
Qed.

(** A part of the state that does not hold the world. *)
Lemma keeps_part {T A} `{!Lens S T} (m : M T A) :
  (∀ t s, view (lget (lset t s)) = view (lget s)) → keeps_view view (zoom m).
Proof. intros H s. unfold zoom. destruct (m (lget s)). apply H. Qed.
End keeps.

Create HintDb keeps.
#[export] Hint Resolve keeps_ret keeps_throw keeps_undefined keeps_out_of_fuel keeps_of_outcome
  keeps_gets : keeps.

(** Follow the structure of a body; [tac] closes what is particular to it. *)
Ltac keeps tac :=
  repeat (first
    [ solve [eauto with keeps nocore]
    | apply keeps_bind; [|intros ?]
    | apply keeps_for_each; intros ?
    | apply keeps_with_destructor; [by intros|]
    | apply keeps_world; apply keeps_modify; by intros
    | apply keeps_modify; by intros
    | tac
    | match goal with |- context [match ?x with _ => _ end] => destruct x end ]).

(** The calls that [networking_init] makes, and no other code. *)
Definition is_init (e : effect) : bool :=
  match e with Enet_initialize | Atexit_enet_deinitialize => true | _ => false end.

(** A view that the other calls do not change. *)
Class Calm {V : Type} (view : World → V) : Prop := {
  calm_emit e w : is_init e = false → view (world_emit e w) = view w;
  calm_hosts x w : view (world_hosts x w) = view w;
  calm_peers x w : view (world_peers x w) = view w;
  calm_service x w : view (world_service x w) = view w;
  calm_peer_data x w : view (world_peer_data x w) = view w;
}.

#[export] Instance calm_run : Calm w_run.
Proof. by split. Qed.

(** The calls of [networking_init] made so far, and what ENet answers them. *)
Definition init_view (w : World) : Z * list effect :=
  (w_initialize w, List.filter is_init (w_log w)).

#[export] Instance calm_init : Calm init_view.
Proof.
  split; try done. intros e w He. unfold init_view. cbn. rewrite List.filter_app. cbn.
  by rewrite He, app_nil_r.
Qed.

#[export] Hint Extern 1 (is_init _ = false) => reflexivity : keeps.

Section keeps_calls.
Context {S : Type} `{!Lens S World} {V : Type} {view : World → V} `{!Calm view}.

Lemma keeps_emit e : is_init e = false → keeps_view view (emit e).
Proof. intros He. apply keeps_world, keeps_modify. intros w. by apply calm_emit. Qed.

#[local] Hint Resolve keeps_emit : keeps.
#[local] Ltac calm := apply keeps_world, keeps_modify; intros w; cbn;
  first [apply calm_hosts|apply calm_peers|apply calm_service|apply calm_peer_data].

Lemma keeps_enet_host_create a p c : keeps_view view (enet_host_create a p c).
Proof. unfold enet_host_create. keeps calm. Qed.
Lemma keeps_enet_host_connect h a c : keeps_view view (enet_host_connect h a c).
Proof. unfold enet_host_connect. keeps calm. Qed.
Lemma keeps_enet_host_service h t : keeps_view view (enet_host_service h t).
Proof. unfold enet_host_service. keeps calm. Qed.
Lemma keeps_set_peer_data p x : keeps_view view (set_peer_data p x).
Proof. unfold set_peer_data. calm. Qed.
Lemma keeps_log l lg f a : keeps_view view a → keeps_view view (log l lg f a).
Proof. intros. unfold log. keeps fail. Qed.
End keeps_calls.

#[export] Hint Resolve keeps_emit keeps_enet_host_create keeps_enet_host_connect
  keeps_enet_host_service keeps_set_peer_data : keeps.

(** ** Lemmas on the run loop *)

Section loop_lemmas.
Context {S : Type} `{!Lens S World}.

Lemma should_run_O s : runs_left s = 0 → should_run s = (Ok false, s).
Proof. unfold should_run, runs_left, gets, bind, world_of. by intros ->. Qed.

Lemma should_run_S s n :
  runs_left s = Datatypes.S n →
  should_run s = (Ok true, lset (world_run n (lget s)) s).
Proof. unfold should_run, runs_left, gets, bind, world_of. by intros ->. Qed.

Lemma run_forever_loop_run lambda n fuel s :
  keeps_runs lambda → runs_left s = n → n < fuel →
  run_forever_loop fuel lambda s = iterations n lambda s.
Proof.
  intros Hk. revert fuel s. induction n as [|n IH]; intros fuel s Hn Hf;
    (destruct fuel as [|fuel]; [lia|]); cbn [run_forever_loop iterations].
  - by rewrite (bind_Ok _ _ _ _ _ (should_run_O _ Hn)).
  - rewrite (bind_Ok _ _ _ _ _ (should_run_S _ _ Hn)). unfold iteration, zoom, modify.
    unfold bind at 2 3. set (s1 := lset (world_run n (lget s)) s).
    pose proof (Hk s1) as Hk1. unfold bind.
    destruct (lambda s1) as [[[]|e| |] s2]; try done. apply IH; [|lia].
    cbn [snd] in Hk1. unfold runs_left. rewrite Hk1. unfold s1. by rewrite lget_lset.
Qed.

Lemma run_forever_run lambda s :
  keeps_runs lambda →
  run_forever lambda s =
    iterations (runs_left s) lambda
      (lset (world_emit Install_sigint_handler (lget s)) s).
Proof.
  intros Hk. unfold run_forever, interrupts_setup, emit, zoom, modify, gets, world_of, bind.
  set (s1 := lset (world_emit _ _) s).
  assert (Hr : w_run (lget s1) = runs_left s) by (unfold s1, runs_left; by rewrite lget_lset).
  rewrite Hr. apply run_forever_loop_run; [done| |lia]. exact Hr.
Qed.

Lemma iterations_runs lambda n s :
  keeps_runs lambda → runs_left s = n →
  match iterations n lambda s with
  | (Ok _, s') => runs_left s' = 0
  | (Throw _, s') => runs_left s' < n
  | _ => True
  end.
Proof.
  intros Hk. revert s. induction n as [|n IH]; intros s Hn; cbn [iterations]; [done|].
  unfold iteration, zoom, modify. unfold bind at 2.
  set (s1 := lset (world_run n (lget s)) s). pose proof (Hk s1 : runs_left _ = runs_left _) as Hk1.
  assert (Hs1 : runs_left s1 = n) by (unfold s1, runs_left; by rewrite lget_lset).
  unfold bind. fold s1. destruct (lambda s1) as [[[]|e| |] s2]; cbn [snd] in Hk1; try done; [|lia].
  specialize (IH s2 ltac:(lia)). destruct (iterations n lambda s2) as [[[]|e| |] s3]; try done. lia.
Qed.
End loop_lemmas.

(** ** Lemmas on initialisation *)

Section init.
Context {S : Type} `{!Lens S World}.

(** The world after [networking_init]. *)
Definition init_world (w : World) : World :=
  if (w_initialize w =? 0)%Z then
    world_emit Atexit_enet_deinitialize (world_emit Enet_initialize w)
  else world_emit Enet_initialize w.

Definition init_outcome (w : World) : outcome unit :=
  if (w_initialize w =? 0)%Z then Ok tt
  else Throw (runtime_error "Failed to initialize ENet").

Lemma networking_init_run s :
  networking_init s = (init_outcome (lget s), lset (init_world (lget s)) s).
Proof.
  unfold networking_init, enet_initialize, emit, zoom, bind, gets, world_of, modify,
    init_outcome, init_world. rewrite !lget_lset. cbn [w_initialize world_emit world_log].
  destruct (w_initialize (lget s) =? 0)%Z; cbn [negb]; by rewrite ?lget_lset, ?lset_lset.
Qed.

Lemma init_outcome_ends w : match init_outcome w with Ok _ | Throw _ => True | _ => False end.
Proof. unfold init_outcome. by destruct (_ =? _)%Z. Qed.
End init.

(** ** Properties *)

(** The run loop terminates: it installs the handler and runs the
    callback once per read of the flag that precedes SIGINT, stopping early
    only at an exception; when it returns, every read before SIGINT was
    used. *)
Theorem run_forever_until_sigint {S} `{!Lens S World} (lambda : M S unit) (s : S) :
  keeps_runs lambda →
  run_forever lambda s =
    iterations (runs_left s) lambda (lset (world_emit Install_sigint_handler (lget s)) s) ∧
  match run_forever lambda s with
  | (Ok _, s') => runs_left s' = 0
  | (Throw _, s') => runs_left s' < runs_left s
  | _ => True
  end.
Proof.
  intros Hk. rewrite run_forever_run by done. split; [done|].
  apply iterations_runs; [done|]. unfold runs_left. by rewrite lget_lset.
Qed.

(** ** Witnesses *)

Section witnesses.
Definition sample_world (runs : nat) : World :=
  MkWorld 0 (λ _, None) [] [] [] ∅ (λ _, None) runs [].

Lemma run_forever_until_sigint_witness :
  run_forever_idle (sample_world 2) =
    (Ok tt, world_log [Install_sigint_handler; Sleep_ms 200; Sleep_ms 200] (sample_world 0)) ∧
  runs_left (snd (run_forever_idle (sample_world 2))) = 0.
Proof.
  destruct (run_forever_until_sigint (S := World) (emit (Sleep_ms 200)) (sample_world 2))
    as [Hrun Hleft]; [by apply keeps_emit|].
  split; [exact Hrun|exact Hleft].
Defined.
End witnesses.
