(* ===== verification/NetServer.v ===== *)
(** * Low-level server (include/spraybus/networking/server/server.hpp)

    The CRTP base [Server<Derived, ClientData>]: the table of connected
    clients and the event loop that hands ENet's events to the callbacks of
    the derived type.  The derived type is an interface: the class [Derived]
    holds its callbacks and [DerivedLaws] what the base relies on.  The
    theorems about the loop hold for every derived type that keeps the laws. *)

From Stdlib.Strings Require Import Byte.
From stdpp Require Import base gmap sets list strings.
From S2P Require Import Prelude World.

(** ** Data *)

(** A [Client*]: null, or the node of [m_client_map] with the given key.  The
    nodes of a [std::unordered_map] do not move, so the key names the address;
    a key that is no longer in the map is a dangling pointer. *)
Abbreviation client_ptr := (option Z) (only parsing).

(** [Client<ClientData>]; [m_host] is the member [m_server]. *)
Record Client (CD : Type) : Type := MkClient {
  m_id : Z;
  m_peer : ENetPeer;
  m_host : ENetHost;
  m_data : CD;
}.
Arguments MkClient {CD}.
Arguments m_id {CD}.
Arguments m_peer {CD}.
Arguments m_host {CD}.
Arguments m_data {CD}.

Record Server (CD : Type) : Type := MkServer {
  m_address : ENetAddress;
  m_server : ENetHost;
  m_client_map : gmap Z (Client CD);
  m_clients : list client_ptr;
  m_next_client_id : Z;
}.
Arguments MkServer {CD}.
Arguments m_address {CD}.
Arguments m_server {CD}.
Arguments m_client_map {CD}.
Arguments m_clients {CD}.
Arguments m_next_client_id {CD}.

Definition server_client_map {CD} (x : gmap Z (Client CD)) (b : Server CD) : Server CD :=
  MkServer (m_address b) (m_server b) x (m_clients b) (m_next_client_id b).
Definition server_clients {CD} (x : list client_ptr) (b : Server CD) : Server CD :=
  MkServer (m_address b) (m_server b) (m_client_map b) x (m_next_client_id b).
Definition server_next_client_id {CD} (x : Z) (b : Server CD) : Server CD :=
  MkServer (m_address b) (m_server b) (m_client_map b) (m_clients b) x.

(** The whole server object with the world it runs in: the base, and the
    members [D] that the derived class adds. *)
Record Obj (CD D : Type) : Type := MkObj {
  o_world : World;
  o_base : Server CD;
  o_derived : D;
}.
Arguments MkObj {CD D}.
Arguments o_world {CD D}.
Arguments o_base {CD D}.
Arguments o_derived {CD D}.

#[export] Instance obj_world_lens CD D : Lens (Obj CD D) World.
Proof.
  refine {| lget := o_world; lset := λ w o, MkObj w (o_base o) (o_derived o) |};
    by intros; destruct s.
Defined.

#[export] Instance obj_base_lens CD D : Lens (Obj CD D) (Server CD).
Proof.
  refine {| lget := o_base; lset := λ b o, MkObj (o_world o) b (o_derived o) |};
    by intros; destruct s.
Defined.

(** [ClientData()]. *)
Class Default (CD : Type) : Type := default_data : CD.

(** The callbacks the derived type must implement. *)
Class Derived (CD D : Type) : Type := {
  on_process : M (Obj CD D) unit;
  on_connect : client_ptr → M (Obj CD D) unit;
  on_disconnect : client_ptr → M (Obj CD D) unit;
  on_message : client_ptr → list byte → M (Obj CD D) unit;
}.

(** ** Operations *)

Section operations.
Context {CD D : Type} `{!Default CD}.
Implicit Types (s : Obj CD D) (p : client_ptr).

Definition base (f : Server CD → Server CD) : M (Obj CD D) unit :=
  zoom (modify f).

(** [*client]. *)
Definition deref p : M (Obj CD D) (Client CD) := λ s,
  match p with
  | Some key =>
      match m_client_map (o_base s) !! key with
      | Some c => (Ok c, s)
      | None => (Undefined, s)
      end
  | None => (Undefined, s)
  end.

(** Assign through [client->data()]. *)
Definition update_data p (f : CD → CD) : M (Obj CD D) unit :=
  let! c := deref p in
  base (λ b, server_client_map
    (alter (λ c, MkClient (m_id c) (m_peer c) (m_host c) (f (m_data c)))
       (default 0%Z p) (m_client_map b)) b).

Definition Client_send p (message : list byte) : M (Obj CD D) unit :=
  let! c := deref p in
  let packet := enet_packet_create message ENET_PACKET_FLAG_RELIABLE in
  enet_peer_send (m_peer c) 0 packet ;;;
  enet_host_flush (m_host c).

Definition create_client (peer : ENetPeer) : M (Obj CD D) client_ptr :=
  let! client_id := gets (λ s, m_next_client_id (o_base s)) in
  base (server_next_client_id (uwrap 64 (client_id + 1))) ;;;
  let! host := gets (λ s, m_server (o_base s)) in
  let! it := gets (λ s, m_client_map (o_base s) !! client_id) in
  match it with
  | Some _ =>
      throw (runtime_error
        ("Failed to create client with ID: " +:+ to_string_Z client_id))
  | None =>
      base (λ b, server_client_map
        (<[client_id := MkClient client_id peer host default_data]>
           (m_client_map b)) b) ;;;
      let client := Some client_id in
      base (λ b, server_clients (m_clients b ++ [client]) b) ;;;
      ret client
  end.

Definition destroy_client p : M (Obj CD D) unit :=
  let! c := deref p in
  base (λ b, server_client_map (delete (m_id c) (m_client_map b)) b) ;;;
  base (λ b, server_clients (filter (λ q, q ≠ p) (m_clients b)) b).

(** The constructor; [port] is a C++ [int]. *)
Definition Server_ctor (port : Z) : M World (Server CD) :=
  if (port <? 0)%Z || (65535 <? port)%Z then
    throw (out_of_range ("Server port must be between 0 and " +:+
      to_string_Z 65535 +:+ ": " +:+ to_string_Z port))
  else
    let address := {| address_host := Some ENET_HOST_ANY;
                      address_port := uwrap 16 port |} in
    let! server := enet_host_create (Some address) 8 2 in
    match server with
    | None => throw (runtime_error "Failed to create ENet server")
    | Some h => ret (MkServer address h ∅ [] 1)
    end.

Definition Server_dtor : M (Obj CD D) unit :=
  let! server := gets (λ s, m_server (o_base s)) in
  emit (Enet_host_destroy server).

Definition broadcast (message : list byte) : M (Obj CD D) unit :=
  let packet := enet_packet_create message ENET_PACKET_FLAG_RELIABLE in
  let! server := gets (λ s, m_server (o_base s)) in
  enet_host_broadcast server 0 packet ;;;
  enet_host_flush server.

Definition clients : M (Obj CD D) (list client_ptr) :=
  gets (λ s, m_clients (o_base s)).

Context `{!Derived CD D}.

(** The [switch] on the type of an event.  [PacketGuard] destroys the
    received packet when the handler returns or throws. *)
Definition dispatch (event : ENetEvent) : M (Obj CD D) unit :=
  match event with
  | EVENT_CONNECT peer =>
      let! client := create_client peer in
      set_peer_data peer client ;;;
      let! data := peer_data peer in
      on_connect data
  | EVENT_RECEIVE peer packet =>
      with_destructor
        (λ s, lset (world_emit (Enet_packet_destroy (packet_id packet)) (lget s)) s)
        (let! data := peer_data peer in
         on_message data (packet_data packet))
  | EVENT_DISCONNECT peer =>
      let! data := peer_data peer in
      on_disconnect data ;;;
      let! data := peer_data peer in
      destroy_client data
  | EVENT_NONE => ret tt
  end.

Fixpoint process_loop (fuel : nat) : M (Obj CD D) unit :=
  match fuel with
  | O => out_of_fuel
  | S fuel' =>
      let! server := gets (λ s, m_server (o_base s)) in
      let! r := enet_host_service server 0 in
      if (0 <? fst r)%Z then dispatch (snd r) ;;; process_loop fuel'
      else ret tt
  end.

(** The loop ends at the first result that is not positive, so the number of
    results ENet has in store bounds its iterations. *)
Definition process : M (Obj CD D) unit :=
  on_process ;;;
  let! results := gets (λ s, w_service (o_world s)) in
  process_loop (S (length results)).
End operations.

(** ** What the base relies on *)

Section interface.
Context {CD D : Type}.
Implicit Types (s : Obj CD D).

Definition client_shape (c : Client CD) : Z * ENetPeer * ENetHost :=
  (m_id c, m_peer c, m_host c).

(** A pointer to a connected client. *)
Definition live s (p : client_ptr) : Prop :=
  ∃ key, p = Some key ∧ is_Some (m_client_map (o_base s) !! key).

(** [m_clients] lists each node of [m_client_map] once, a client is stored
    under its identifier, and its peer points back to it. *)
Record registry_ok s : Prop := {
  reg_nodup : NoDup (m_clients (o_base s));
  reg_clients p : p ∈ m_clients (o_base s) ↔ live s p;
  reg_client key c : m_client_map (o_base s) !! key = Some c →
    m_id c = key ∧ m_host c = m_server (o_base s) ∧
    w_peer_data (o_world s) !! m_peer c = Some (Some key);
}.

(** A callback may change the data of the clients, the members of the
    derived class and the log; not the table of clients, nor what ENet
    holds. *)
Record frame s s' : Prop := {
  frame_server : m_server (o_base s') = m_server (o_base s);
  frame_clients : m_clients (o_base s') = m_clients (o_base s);
  frame_next : m_next_client_id (o_base s') = m_next_client_id (o_base s);
  frame_map key : client_shape <$> m_client_map (o_base s') !! key =
                  client_shape <$> m_client_map (o_base s) !! key;
  frame_service : w_service (o_world s') = w_service (o_world s);
  frame_peer_data : w_peer_data (o_world s') = w_peer_data (o_world s);
}.

#[export] Instance frame_equivalence : Equivalence frame.
Proof.
  split; [by intros s; split| |].
  - intros s1 s2 []. by split.
  - intros s1 s2 s3 [] []. split; etrans; eauto.
Qed.
End interface.

(** On a well-formed table, each callback returns and stays in its frame. *)
Class DerivedLaws (CD D : Type) `{!Derived CD D} : Prop := {
  on_process_frame (s : Obj CD D) : returns on_process (λ _, frame s) s;
  on_connect_frame p (s : Obj CD D) :
    registry_ok s → live s p → returns (on_connect p) (λ _, frame s) s;
  on_disconnect_frame p (s : Obj CD D) :
    registry_ok s → live s p → returns (on_disconnect p) (λ _, frame s) s;
  on_message_frame p message (s : Obj CD D) :
    registry_ok s → live s p → returns (on_message p message) (λ _, frame s) s;
}.

(** ** Specification of the loop *)

(** The events the loop takes, up to the first result that is not positive,
    and the results left for later calls. *)
Fixpoint drain (results : list (Z * ENetEvent)) :
    list ENetEvent * list (Z * ENetEvent) :=
  match results with
  | [] => ([], [])
  | (r, ev) :: rest =>
      if (0 <? r)%Z then (ev :: fst (drain rest), snd (drain rest)) else ([], rest)
  end.

(** The set of connected peers after an event. *)
Definition connect_step (conn : gset ENetPeer) (ev : ENetEvent) : gset ENetPeer :=
  match ev with
  | EVENT_CONNECT p => {[p]} ∪ conn
  | EVENT_DISCONNECT p => conn ∖ {[p]}
  | _ => conn
  end.

(** ENet's connection protocol: a peer connects when it is not connected, and
    packets and disconnections come from connected peers. *)
Definition event_ok (conn : gset ENetPeer) (ev : ENetEvent) : bool :=
  match ev with
  | EVENT_CONNECT p => bool_decide (p ∉ conn)
  | EVENT_DISCONNECT p | EVENT_RECEIVE p _ => bool_decide (p ∈ conn)
  | EVENT_NONE => true
  end.

Fixpoint events_ok (conn : gset ENetPeer) (evs : list ENetEvent) : bool :=
  match evs with
  | [] => true
  | ev :: rest => event_ok conn ev && events_ok (connect_step conn ev) rest
  end.

Definition is_connect (ev : ENetEvent) : bool :=
  match ev with EVENT_CONNECT _ => true | _ => false end.

Definition connects (evs : list ENetEvent) : nat :=
  length (List.filter is_connect evs).

Section invariant.
Context {CD D : Type}.
Implicit Types (s : Obj CD D).

(** The peers of the clients in the table. *)
Definition conn s : gset ENetPeer :=
  list_to_set ((λ kc, m_peer kc.2) <$> map_to_list (m_client_map (o_base s))).

(** Identifiers are below the counter, and [n] more can be given out
    before it wraps. *)
Definition ids_bounded s (n : nat) : Prop :=
  (∀ key, is_Some (m_client_map (o_base s) !! key) →
     1 ≤ key < m_next_client_id (o_base s))%Z ∧
  (1 ≤ m_next_client_id (o_base s))%Z ∧
  (m_next_client_id (o_base s) + Z.of_nat n < 2 ^ 64)%Z.

(** The server can process the events [evs]. *)
Definition ready s (evs : list ENetEvent) : Prop :=
  registry_ok s ∧ ids_bounded s (connects evs) ∧ events_ok (conn s) evs = true.
End invariant.

(** ** Lemmas on the table of clients *)

Section registry.
Context {CD D : Type}.
Implicit Types (s : Obj CD D).

Lemma elem_of_conn s p :
  p ∈ conn s ↔ ∃ key c, m_client_map (o_base s) !! key = Some c ∧ m_peer c = p.
Proof.
  unfold conn. rewrite elem_of_list_to_set, list_elem_of_fmap. split.
  - intros ([key c] & -> & H%elem_of_map_to_list). eauto.
  - intros (key & c & H & <-). exists (key, c). by rewrite elem_of_map_to_list.
Qed.

Lemma frame_lookup s s' key c :
  frame s s' → m_client_map (o_base s) !! key = Some c →
  ∃ c', m_client_map (o_base s') !! key = Some c' ∧
    m_id c' = m_id c ∧ m_peer c' = m_peer c ∧ m_host c' = m_host c.
Proof.
  intros Hf Hc. pose proof (frame_map _ _ Hf key) as Hm. rewrite Hc in Hm.
  destruct (m_client_map (o_base s') !! key) as [c'|]; [|done].
  injection Hm as ? ? ?. eauto.
Qed.

Lemma frame_live s s' p : frame s s' → live s p → live s' p.
Proof.
  intros Hf (key & -> & c & Hc).
  destruct (frame_lookup _ _ _ _ Hf Hc) as (c' & Hc' & _).
  exists key. eauto.
Qed.

Lemma frame_conn s s' : frame s s' → conn s' = conn s.
Proof.
  intros Hf. apply set_eq. intros p. rewrite !elem_of_conn. split.
  - symmetry in Hf. intros (key & c & Hc & <-).
    destruct (frame_lookup _ _ _ _ Hf Hc) as (c' & Hc' & _ & ? & _); eauto.
  - intros (key & c & Hc & <-).
    destruct (frame_lookup _ _ _ _ Hf Hc) as (c' & Hc' & _ & ? & _); eauto.
Qed.

Lemma frame_registry_ok s s' : frame s s' → registry_ok s → registry_ok s'.
Proof.
  intros Hf [Hnd Hcl Hc]. split.
  - by rewrite (frame_clients _ _ Hf).
  - intros p. rewrite (frame_clients _ _ Hf), Hcl.
    split; apply frame_live; (done || by symmetry).
  - intros key c' Hc'.
    destruct (frame_lookup s' s key c') as (c & Hl & Hi & Hp & Hh); [by symmetry|done|].
    destruct (Hc _ _ Hl) as (? & ? & ?).
    rewrite (frame_server _ _ Hf), (frame_peer_data _ _ Hf), <-Hp. by split_and!; etrans.
Qed.

Lemma frame_ids_bounded s s' n : frame s s' → ids_bounded s n → ids_bounded s' n.
Proof.
  intros Hf (Hk & ? & ?). unfold ids_bounded. rewrite (frame_next _ _ Hf).
  split; [|done]. intros key [c' Hc'].
  destruct (frame_lookup s' s key c') as (c & Hl & _); [by symmetry|done|]. eauto.
Qed.

Lemma frame_ready s s' evs : frame s s' → ready s evs → ready s' evs.
Proof.
  intros Hf (? & ? & Hev). split_and!;
    eauto using frame_registry_ok, frame_ids_bounded. by rewrite (frame_conn _ _ Hf).
Qed.

(** The [data] pointer of a connected peer leads to its client. *)
Lemma connected_client s p :
  registry_ok s → p ∈ conn s →
  ∃ key c, w_peer_data (o_world s) !! p = Some (Some key) ∧
    m_client_map (o_base s) !! key = Some c ∧ m_peer c = p ∧ m_id c = key.
Proof.
  intros Hr (key & c & Hc & <-)%elem_of_conn.
  destruct (reg_client _ Hr _ _ Hc) as (? & ? & ?). eauto 10.
Qed.

Lemma peer_data_run s p : peer_data p s = (Ok (default None (w_peer_data (o_world s) !! p)), s).
Proof. done. Qed.

Lemma deref_live s key c :
  m_client_map (o_base s) !! key = Some c → deref (Some key) s = (Ok c, s).
Proof. unfold deref. by intros ->. Qed.

(** [emit] and polling change the log and the results only. *)
Definition polled s rest : Obj CD D :=
  lset (world_service rest (world_emit (Enet_host_service (m_server (o_base s)) 0)
    (o_world s))) s.

Lemma server_service_run s :
  enet_host_service (m_server (o_base s)) 0 s =
    match w_service (o_world s) with
    | [] => (Ok (0%Z, EVENT_NONE), polled s [])
    | r :: rest => (Ok r, polled s rest)
    end.
Proof.
  unfold enet_host_service, emit, world_of. run_steps. unfold zoom. simpl.
  destruct s as [w b d]. simpl. destruct (w_service w) eqn:E; simpl; unfold polled; simpl.
  - by rewrite <-E.
  - done.
Qed.
End registry.

Section create.
Context {CD D : Type} `{!Default CD}.
Implicit Types (s : Obj CD D).

(** The object after a [create_client] that gives the identifier [id]. *)
Definition created peer id s : Obj CD D :=
  let b := o_base s in
  MkObj (o_world s)
    (MkServer (m_address b) (m_server b)
       (<[id := MkClient id peer (m_server b) default_data]> (m_client_map b))
       (m_clients b ++ [Some id]) (uwrap 64 (id + 1)))
    (o_derived s).

Lemma create_client_run peer s :
  m_client_map (o_base s) !! m_next_client_id (o_base s) = None →
  create_client peer s = (Ok (Some (m_next_client_id (o_base s))),
      created peer (m_next_client_id (o_base s)) s).
Proof. intros H. unfold create_client, base, zoom. run_steps. by rewrite H. Qed.

(** The object after [destroy_client]. *)
Definition erased key s : Obj CD D :=
  let b := o_base s in
  MkObj (o_world s)
    (MkServer (m_address b) (m_server b) (delete key (m_client_map b))
       (filter (λ q, q ≠ Some key) (m_clients b)) (m_next_client_id b))
    (o_derived s).

Lemma destroy_client_run key c s :
  m_client_map (o_base s) !! key = Some c → m_id c = key →
  destroy_client (Some key) s = (Ok tt, erased key s).
Proof.
  intros H Hid. unfold destroy_client.
  rewrite (bind_Ok _ _ _ _ _ (deref_live _ _ _ H)). rewrite Hid. done.
Qed.

(** Attach a client to a peer. *)
Definition attached peer key s : Obj CD D :=
  lset (world_peer_data (<[peer := Some key]> (w_peer_data (o_world s))) (o_world s)) s.

Lemma set_peer_data_run peer key s :
  set_peer_data peer (Some key) s = (Ok tt, attached peer key s).
Proof. done. Qed.

Lemma created_ok peer id s n :
  m_next_client_id (o_base s) = id →
  registry_ok s → ids_bounded s (S n) → peer ∉ conn s →
  m_client_map (o_base s) !! id = None ∧
  let s' := attached peer id (created peer id s) in
  registry_ok s' ∧ ids_bounded s' n ∧ conn s' = {[peer]} ∪ conn s ∧ live s' (Some id).
Proof.
  intros Hid [Hnd Hcl Hreg] (Hk & Hpos & Hb) Hp. rewrite Hid in *.
  assert (Hfresh : m_client_map (o_base s) !! id = None).
  { destruct (m_client_map (o_base s) !! id) eqn:E; [|done].
    specialize (Hk id ltac:(eauto)). lia. }
  assert (Hpeer : ∀ key c, m_client_map (o_base s) !! key = Some c → m_peer c ≠ peer).
  { intros key c Hc E. apply Hp, elem_of_conn. eauto. }
  split; [done|]. split_and!.
  - split; simpl.
    + apply NoDup_app. split_and!; [done| |apply NoDup_singleton].
      intros p [key [-> [c Hc]]]%Hcl [= ->]%list_elem_of_singleton. congruence.
    + intros p. rewrite elem_of_app, list_elem_of_singleton, Hcl. unfold live; simpl.
      split.
      * intros [(key & -> & [c Hc])| ->]; eexists; (split; [done|]).
        -- rewrite lookup_insert_ne by congruence. eauto.
        -- rewrite lookup_insert_eq. eauto.
      * intros (key & -> & H). destruct (decide (key = id)) as [->|Hne]; [by right|].
        left. rewrite lookup_insert_ne in H by done. eauto.
    + intros key c. destruct (decide (key = id)) as [->|Hne].
      * rewrite lookup_insert_eq. intros [= <-]. simpl. by rewrite lookup_insert_eq.
      * rewrite lookup_insert_ne by done. intros Hc.
        destruct (Hreg _ _ Hc) as (? & ? & ?). split_and!; [done..|].
        rewrite lookup_insert_ne; [done|]. intros E. by apply (Hpeer _ _ Hc).
  - unfold ids_bounded. simpl. rewrite uwrap_small by lia.
    split_and!; [|lia..].
    intros key. destruct (decide (key = id)) as [->|Hne]; [lia|].
    rewrite lookup_insert_ne by done. intros ?%Hk. lia.
  - apply set_eq. intros p. rewrite elem_of_union, elem_of_singleton, !elem_of_conn.
    simpl. split.
    + intros (key & c & Hc & <-). destruct (decide (key = id)) as [->|Hne].
      * rewrite lookup_insert_eq in Hc. injection Hc as <-. by left.
      * rewrite lookup_insert_ne in Hc by done. right. eauto.
    + intros [->|(key & c & Hc & <-)].
      * exists id. eexists. by rewrite lookup_insert_eq.
      * exists key, c. rewrite lookup_insert_ne by congruence. done.
  - exists id. split; [done|]. simpl. rewrite lookup_insert_eq. eauto.
Qed.

Lemma erased_ok key c s n :
  registry_ok s → ids_bounded s n → m_client_map (o_base s) !! key = Some c →
  registry_ok (erased key s) ∧ ids_bounded (erased key s) n ∧
  conn (erased key s) = conn s ∖ {[m_peer c]}.
Proof.
  intros [Hnd Hcl Hreg] (Hk & Hpos & Hb) Hc. split_and!.
  - split; simpl.
    + by apply NoDup_filter.
    + intros p. rewrite list_elem_of_filter, Hcl. unfold live; simpl. split.
      * intros (Hne & key' & -> & ?). exists key'. split; [done|].
        rewrite lookup_delete_ne by congruence. done.
      * intros (key' & -> & H).
        destruct (decide (key = key')) as [->|Hne].
        { rewrite lookup_delete_eq in H. by destruct H. }
        rewrite lookup_delete_ne in H by done. split; [congruence|eauto].
    + intros key' c'. destruct (decide (key = key')) as [->|Hne].
      { by rewrite lookup_delete_eq. }
      rewrite lookup_delete_ne by done. apply Hreg.
  - split_and!; [|done..]. simpl. intros key' H. apply Hk.
    destruct (decide (key = key')) as [->|Hne]; [eauto|].
    by rewrite lookup_delete_ne in H.
  - apply set_eq. intros p. rewrite elem_of_difference, elem_of_singleton, !elem_of_conn.
    simpl. destruct (Hreg _ _ Hc) as (_ & _ & Hdata). split.
    + intros (key' & c' & Hc' & <-). destruct (decide (key = key')) as [->|Hne].
      { by rewrite lookup_delete_eq in Hc'. }
      rewrite lookup_delete_ne in Hc' by done. split; [eauto|].
      intros E. destruct (Hreg _ _ Hc') as (_ & _ & Hdata'). congruence.
    + intros [(key' & c' & Hc' & <-) Hne]. exists key', c'. split; [|done].
      rewrite lookup_delete_ne; [done|]. congruence.
Qed.
End create.

(** ** Lemmas on the event loop *)

Section loop.
Context {CD D : Type} `{!Default CD, !Derived CD D}.
Implicit Types (s : Obj CD D).

(** The rule of the loop: [I evs] holds of the state in which the events
    [evs] are still to be handled. *)
Lemma process_loop_returns (I : list ENetEvent → Obj CD D → Prop) :
  (∀ evs s rest, I evs s → I evs (polled s rest)) →
  (∀ ev evs s, I (ev :: evs) s →
     returns (dispatch ev) (λ _ s', I evs s' ∧
       w_service (o_world s') = w_service (o_world s)) s) →
  ∀ fuel s, length (w_service (o_world s)) < fuel →
    I (fst (drain (w_service (o_world s)))) s →
    returns (process_loop fuel) (λ _ s', I [] s' ∧
      w_service (o_world s') = snd (drain (w_service (o_world s)))) s.
Proof.
  intros Hpoll Hstep. induction fuel as [|fuel IH]; intros s Hlen HI; [lia|].
  cbn [process_loop]. apply returns_bind, returns_inv.
  eexists _, s; split; [done|]. apply returns_bind, returns_inv.
  rewrite server_service_run. destruct (w_service (o_world s)) as [|[r ev] rest] eqn:E.
  { eexists _, _; split; [done|]. cbn [fst snd].
    apply returns_inv. eexists _, _; split; [done|]. split; [by apply Hpoll|done]. }
  eexists _, _; split; [done|]. cbn [drain fst snd] in *.
  destruct (0 <? r)%Z; cbn [fst snd] in *.
  2: { apply returns_inv. eexists _, _; split; [done|]. split; [by apply Hpoll|done]. }
  apply returns_bind. eapply returns_mono; [apply Hstep; by apply Hpoll|].
  intros [] s' [HI' Hs']. simpl in Hs'.
  eapply returns_mono; [apply IH|].
  - rewrite Hs'. simpl in Hlen. lia.
  - by rewrite Hs'.
  - intros [] s''. by rewrite Hs'.
Qed.

Lemma ready_polled evs s rest : ready s evs → ready (polled s rest) evs.
Proof. intros (Hr & ? & ?). split; [|done]. by destruct Hr. Qed.

Context `{!DerivedLaws CD D}.

Lemma dispatch_connect peer evs s :
  ready s (EVENT_CONNECT peer :: evs) →
  let id := m_next_client_id (o_base s) in
  let s1 := attached peer id (created peer id s) in
  ready s1 evs ∧ conn s1 = {[peer]} ∪ conn s ∧
  returns (on_connect (Some id)) (λ _, frame s1) s1 ∧
  dispatch (EVENT_CONNECT peer) s = on_connect (Some id) s1.
Proof.
  intros (Hreg & Hids & Hev) id s1.
  cbn [events_ok event_ok connect_step] in Hev.
  apply andb_true_iff in Hev as [Hp%bool_decide_eq_true Hev].
  change (connects _) with (S (connects evs)) in Hids.
  destruct (created_ok peer id s (connects evs)) as (Hfresh & ? & ? & Hconn & Hlive);
    [done..|].
  split_and!.
  - split_and!; [done..|]. unfold s1. by rewrite Hconn.
  - done.
  - by apply on_connect_frame.
  - cbn [dispatch]. rewrite (bind_Ok _ _ _ _ _ (create_client_run _ _ Hfresh)).
    rewrite (bind_Ok _ _ _ _ _ (set_peer_data_run _ _ _)).
    rewrite (bind_Ok _ _ _ _ _ (peer_data_run _ _)).
    simpl. by rewrite lookup_insert_eq.
Qed.

Lemma ready_receive peer packet evs s :
  ready s (EVENT_RECEIVE peer packet :: evs) →
  ready s evs ∧ peer ∈ conn s.
Proof.
  intros (? & ? & Hev). cbn [events_ok event_ok connect_step] in Hev.
  apply andb_true_iff in Hev as [Hp%bool_decide_eq_true Hev]. done.
Qed.

Lemma dispatch_receive peer packet evs s :
  ready s (EVENT_RECEIVE peer packet :: evs) →
  ∃ key c, m_client_map (o_base s) !! key = Some c ∧ m_peer c = peer ∧ m_id c = key ∧
    returns (on_message (Some key) (packet_data packet)) (λ _, frame s) s ∧
    dispatch (EVENT_RECEIVE peer packet) s =
      with_destructor
        (λ s, lset (world_emit (Enet_packet_destroy (packet_id packet)) (lget s)) s)
        (on_message (Some key) (packet_data packet)) s.
Proof.
  intros [(Hreg & _) Hp]%ready_receive.
  destruct (connected_client _ _ Hreg Hp) as (key & c & Hd & Hc & Hpeer & Hid).
  exists key, c. split_and!; [done..| |].
  - apply on_message_frame; [done|]. exists key. eauto.
  - cbn [dispatch]. unfold with_destructor.
    rewrite (bind_Ok _ _ _ _ _ (peer_data_run _ _)). simpl. by rewrite Hd.
Qed.

(** A disconnection runs the callback and then drops the client. *)
Lemma dispatch_disconnect peer evs s :
  ready s (EVENT_DISCONNECT peer :: evs) →
  ∃ key c s1, m_client_map (o_base s) !! key = Some c ∧ m_peer c = peer ∧
    on_disconnect (Some key) s = (Ok tt, s1) ∧ frame s s1 ∧
    dispatch (EVENT_DISCONNECT peer) s = (Ok tt, erased key s1) ∧
    ready (erased key s1) evs ∧ conn (erased key s1) = conn s ∖ {[peer]}.
Proof.
  intros (Hreg & Hids & Hev). cbn [events_ok event_ok connect_step] in Hev.
  apply andb_true_iff in Hev as [Hp%bool_decide_eq_true Hev].
  destruct (connected_client _ _ Hreg Hp) as (key & c & Hd & Hc & Hpeer & Hid).
  destruct (proj1 (returns_inv _ _ _) (on_disconnect_frame (Some key) s
    Hreg ltac:(by exists key; eauto))) as ([] & s1 & Hs1 & Hf).
  destruct (frame_lookup _ _ _ _ Hf Hc) as (c1 & Hc1 & Hid1 & Hpeer1 & _).
  exists key, c, s1. split_and!; try done.
  - cbn [dispatch]. rewrite (bind_Ok _ _ _ _ _ (peer_data_run _ _)), Hd. simpl.
    rewrite (bind_Ok _ _ _ _ _ Hs1), (bind_Ok _ _ _ _ _ (peer_data_run _ _)).
    rewrite (frame_peer_data _ _ Hf), Hd. simpl.
    apply (destroy_client_run key c1); congruence.
  - destruct (erased_ok key c1 s1 (connects evs)) as (? & ? & Hconn);
      eauto using frame_registry_ok, frame_ids_bounded.
    split_and!; [done..|]. by rewrite Hconn, Hpeer1, Hpeer, (frame_conn _ _ Hf).
  - destruct (erased_ok key c1 s1 (connects evs)) as (? & ? & ->);
      eauto using frame_registry_ok, frame_ids_bounded.
    by rewrite Hpeer1, Hpeer, (frame_conn _ _ Hf).
Qed.

Lemma dispatch_ready ev evs s :
  ready s (ev :: evs) →
  returns (dispatch ev) (λ _ s',
    (ready s' evs ∧ conn s' = connect_step (conn s) ev) ∧
    w_service (o_world s') = w_service (o_world s)) s.
Proof.
  intros Hready. destruct ev as [|peer|peer|peer packet].
  - destruct Hready as (? & ? & ?). split; [|done]. split; [|done]. by split_and!.
  - destruct (dispatch_connect _ _ _ Hready) as (Hr & Hc & Hret & E).
    unfold returns, wp in *. rewrite E.
    destruct (on_connect _ _) as [[]?]; try done. split; [|by rewrite (frame_service _ _ Hret)].
    split; [by eapply frame_ready|]. by rewrite (frame_conn _ _ Hret).
  - destruct (dispatch_disconnect _ _ _ Hready)
      as (key & c & s1 & Hc & Hpeer & Hs1 & Hf & E & Hr & Hconn).
    unfold returns, wp. rewrite E. split; [done|]. apply (frame_service _ _ Hf).
  - destruct (dispatch_receive _ _ _ _ Hready) as (key & c & _ & _ & _ & Hret & E).
    destruct (ready_receive _ _ _ _ Hready) as [Hr _].
    unfold returns, wp, with_destructor in *. rewrite E.
    destruct (on_message _ _ _) as [[[]| | |] s']; try done.
    assert (frame s (lset (world_emit (Enet_packet_destroy (packet_id packet))
      (lget s')) s')) as Hf by (destruct Hret; by split).
    split; [|apply (frame_service _ _ Hf)].
    split; [by eapply frame_ready|]. by apply frame_conn.
Qed.

(** The host of the server stays the same. *)
Lemma dispatch_server ev evs s :
  ready s (ev :: evs) →
  returns (dispatch ev) (λ _ s', m_server (o_base s') = m_server (o_base s)) s.
Proof.
  intros Hready. destruct ev as [|peer|peer|peer packet].
  - done.
  - destruct (dispatch_connect _ _ _ Hready) as (_ & _ & Hret & E).
    unfold returns, wp in *. rewrite E. destruct (on_connect _ _) as [[]?]; try done.
    apply (frame_server _ _ Hret).
  - destruct (dispatch_disconnect _ _ _ Hready) as (? & ? & s1 & _ & _ & _ & Hf & E & _).
    unfold returns, wp. rewrite E. apply (frame_server _ _ Hf).
  - destruct (dispatch_receive _ _ _ _ Hready) as (key & c & _ & _ & _ & Hret & E).
    unfold returns, wp, with_destructor in *. rewrite E.
    destruct (on_message _ _ _) as [[[]| | |] s']; try done. apply (frame_server _ _ Hret).
Qed.
End loop.

(** The state reached when all events are handled. *)
Definition connect_steps (c : gset ENetPeer) (evs : list ENetEvent) : gset ENetPeer :=
  foldl connect_step c evs.

Section process.
Context {CD D : Type} `{!Default CD, !Derived CD D, !DerivedLaws CD D}.
Implicit Types (s : Obj CD D).

(** The rule of [process]: [I] holds after [on_process] and each event
    preserves it. *)
Lemma process_returns (I : list ENetEvent → Obj CD D → Prop) s :
  let results := w_service (o_world s) in
  (∀ evs s rest, I evs s → I evs (polled s rest)) →
  (∀ ev evs s, ready s (ev :: evs) → I (ev :: evs) s →
     returns (dispatch ev) (λ _ s', I evs s') s) →
  ready s (fst (drain results)) →
  returns on_process (λ _ s', I (fst (drain results)) s') s →
  returns process (λ _ s', ready s' [] ∧ I [] s' ∧
    w_service (o_world s') = snd (drain results)) s.
Proof.
  intros results Hpoll Hstep Hready Hproc. unfold process. apply returns_bind.
  destruct (proj1 (returns_inv _ _ _) Hproc) as ([] & s1 & Hs1 & HI).
  pose proof (on_process_frame s) as Hf. unfold returns, wp in Hf. rewrite Hs1 in Hf.
  apply returns_inv. eexists _, _; split; [done|].
  apply returns_bind, returns_inv. eexists _, _; split; [done|].
  pose proof (frame_service _ _ Hf) as Hser.
  eapply returns_mono.
  - apply (process_loop_returns (λ evs s, ready s evs ∧ I evs s)).
    + intros evs s' rest [? ?]. eauto using ready_polled.
    + intros ev evs s' [Hr HI'].
      pose proof (dispatch_ready _ _ _ Hr) as Hd. pose proof (Hstep _ _ _ Hr HI') as HI''.
      unfold returns, wp in *. destruct (dispatch ev s') as [[]?]; try done.
      by destruct Hd as [[? _] ?].
    + lia.
    + rewrite Hser. split; [by eapply frame_ready|done].
  - rewrite Hser. intros [] s' [[? ?] ?]. done.
Qed.
End process.

(** ** Properties *)

(** C18: for every derived type that keeps the interface, [process] returns
    normally on every sequence of events that respects ENet's connection
    protocol and fits the identifiers: the loop terminates, no null or
    dangling [Client*] is dereferenced, the table of clients stays well
    formed, its peers are exactly the connected ones, and polling stops at the
    first result that is not positive. *)
Theorem process_safe {CD D} `{!Default CD, !Derived CD D, !DerivedLaws CD D}
    (s : Obj CD D) evs rest :
  drain (w_service (o_world s)) = (evs, rest) →
  registry_ok s → ids_bounded s (connects evs) → events_ok (conn s) evs = true →
  ∃ s', process s = (Ok tt, s') ∧ registry_ok s' ∧
    conn s' = connect_steps (conn s) evs ∧ w_service (o_world s') = rest.
Proof.
  intros Hd Hreg Hids Hev.
  set (I := λ evs' (s' : Obj CD D),
    connect_steps (conn s') evs' = connect_steps (conn s) evs).
  assert (Hrun : returns process (λ _ s', ready s' [] ∧ I [] s' ∧
    w_service (o_world s') = snd (drain (w_service (o_world s)))) s).
  { apply process_returns; [done| | |].
    - intros ev evs' s0 Hr HI. eapply returns_mono; [by apply dispatch_ready|].
      intros [] s' [[_ Hc] _]. unfold I. by rewrite Hc.
    - by rewrite Hd.
    - eapply returns_mono; [apply on_process_frame|].
      intros [] s' Hf. unfold I. by rewrite Hd, (frame_conn _ _ Hf). }
  apply returns_inv in Hrun as ([] & s' & Hs' & (Hr' & _) & HI & Hw).
  rewrite Hd in Hw. by exists s'.
Qed.

(** A connection gives the peer a client with the next identifier and
    fresh data, appended to [m_clients] and attached to the peer; the clients
    already in the table are not touched.  When the identifier is already in
    the table (the 64-bit counter has wrapped) [create_client] throws and the
    table keeps its entries. *)
Theorem create_client_behaviour {CD D} `{!Default CD} peer (s : Obj CD D) :
  let id := m_next_client_id (o_base s) in
  match m_client_map (o_base s) !! id with
  | None => ∃ s', create_client peer s = (Ok (Some id), s') ∧
      m_client_map (o_base s') !! id =
        Some (MkClient id peer (m_server (o_base s)) default_data) ∧
      (∀ key, key ≠ id →
         m_client_map (o_base s') !! key = m_client_map (o_base s) !! key) ∧
      m_clients (o_base s') = m_clients (o_base s) ++ [Some id] ∧
      m_next_client_id (o_base s') = uwrap 64 (id + 1) ∧ o_world s' = o_world s
  | Some _ => ∃ s', create_client peer s =
      (Throw (runtime_error ("Failed to create client with ID: " +:+ to_string_Z id)), s') ∧
      m_client_map (o_base s') = m_client_map (o_base s) ∧
      m_clients (o_base s') = m_clients (o_base s)
  end.
Proof.
  intros id. destruct (m_client_map (o_base s) !! id) as [c|] eqn:E.
  - eexists. split.
    + unfold create_client, base, zoom. run_steps. fold id. by rewrite E.
    + done.
  - exists (created peer id s). split; [by apply create_client_run|]. split_and!; try done.
    + apply lookup_insert_eq.
    + intros key Hne. by apply lookup_insert_ne.
Qed.

(** A received packet is destroyed exactly once, after the handler, both
    when [on_message] returns and when it throws; this needs nothing of the
    derived type. *)
Theorem receive_destroys_packet {CD D} `{!Default CD, !Derived CD D}
    peer packet (s : Obj CD D) :
  let p := default None (w_peer_data (o_world s) !! peer) in
  let close s' := lset (world_emit (Enet_packet_destroy (packet_id packet)) (o_world s')) s' in
  match on_message p (packet_data packet) s with
  | (Ok a, s') => dispatch (EVENT_RECEIVE peer packet) s = (Ok a, close s')
  | (Throw e, s') => dispatch (EVENT_RECEIVE peer packet) s = (Throw e, close s')
  | _ => True
  end.
Proof.
  intros p close. cbn [dispatch]. unfold with_destructor.
  rewrite (bind_Ok _ _ _ _ _ (peer_data_run _ _)). fold p.
  by destruct (on_message p (packet_data packet) s) as [[]?].
Qed.

(** The constructor throws [out_of_range] without creating a host for a
    port outside 0..65535, throws [runtime_error] when ENet gives no host, and
    otherwise yields an empty server bound to exactly that port. *)
Theorem server_ctor_port {CD} port w :
  if decide (0 ≤ port ≤ 65535)%Z then
    match w_hosts w with
    | Some h :: _ => ∃ w', Server_ctor (CD := CD) port w =
          (Ok (MkServer (MkAddress (Some ENET_HOST_ANY) port) h ∅ [] 1), w') ∧
        w_log w' = w_log w ++
          [Enet_host_create (Some (MkAddress (Some ENET_HOST_ANY) port)) 8 2]
    | _ => ∃ w', Server_ctor (CD := CD) port w =
          (Throw (runtime_error "Failed to create ENet server"), w')
    end
  else Server_ctor (CD := CD) port w =
    (Throw (out_of_range ("Server port must be between 0 and 65535: " +:+
                          to_string_Z port)), w).
Proof.
  unfold Server_ctor. case_decide as Hp.
  - rewrite (proj2 (Z.ltb_ge port 0)), (proj2 (Z.ltb_ge 65535 port)) by lia.
    cbn [orb]. rewrite uwrap_small by lia.
    unfold enet_host_create, emit, world_of, zoom. run_steps.
    destruct (w_hosts w) as [|[h|] rest] eqn:E; run_steps; eauto.
  - replace ((port <? 0)%Z || (65535 <? port)%Z) with true; [done|].
    symmetry. apply orb_true_iff. rewrite !Z.ltb_lt. lia.
Qed.

(** ** Witnesses *)

(** A derived type that counts the bytes it receives. *)
Section witnesses.
#[local] Instance unit_default : Default unit := tt.

Definition counting (n : nat) : M (Obj unit nat) unit :=
  modify (λ s, MkObj (o_world s) (o_base s) (o_derived s + n)).

#[local] Instance counting_derived : Derived unit nat := {
  on_process := ret tt;
  on_connect _ := ret tt;
  on_disconnect _ := ret tt;
  on_message _ message := counting (length message);
}.

#[local] Instance counting_laws : DerivedLaws unit nat.
Proof. split; intros; by split. Qed.

Definition sample_events : list ENetEvent :=
  [EVENT_CONNECT 40; EVENT_RECEIVE 40 (MkPacket 7 [x00; x01]); EVENT_CONNECT 41;
   EVENT_DISCONNECT 40].

Definition sample_server : Obj unit nat :=
  MkObj (MkWorld 0 (λ _, None) [] []
           (((λ ev, (1%Z, ev)) <$> sample_events) ++ [(0%Z, EVENT_NONE)]) ∅
           (λ _, None) 0 [])
        (MkServer (MkAddress (Some 0%Z) 6767) 3 ∅ [] 1) 0.

Lemma process_safe_witness :
  ∃ s', process sample_server = (Ok tt, s') ∧ registry_ok s' ∧
    conn s' = connect_steps ∅ sample_events ∧ w_service (o_world s') = [].
Proof.
  apply (process_safe sample_server sample_events []).
  - vm_compute. reflexivity.
  - split; simpl; [constructor| |done].
    intros p. split; [by intros ?%elem_of_nil|by intros (? & -> & ? & ?)].
  - split; [by intros ? []|]. vm_compute. done.
  - vm_compute. reflexivity.
Defined.

Example sample_run :
  o_derived (snd (process sample_server)) = 2 ∧
  m_clients (o_base (snd (process sample_server))) = [Some 2%Z].
Proof. vm_compute. done. Qed.
End witnesses.
