(* ===== verification/BusServer.v ===== *)
(** * Pub/sub server (include/spraybus/server/server.hpp, src/spraybus/server/server.cpp)

    The derived server: its members, its callbacks (the instance of the
    interface [Derived] of NetServer) and the refinement of an abstract
    publish/subscribe service. *)

From Stdlib.Strings Require Import Byte.
From stdpp Require Import base gmap sets list strings.
From S2P Require Import Prelude Protocol TopicMap World NetServer.

(** ** Data *)

Record ClientData : Type := MkClientData { subscribed_topics : gset Z }.

#[export] Instance ClientData_default : Default ClientData := MkClientData ∅.

(** The members of the derived class and of its base [ClassLogger]. *)
Record ServerData : Type := MkServerData {
  m_topic_map : TopicMap;
  m_protocol_constructor : Constructor;
  m_logger : Logger;
}.

Abbreviation ServerObj := (Obj ClientData ServerData).

Definition set_topic_map (x : TopicMap) (s : ServerObj) : ServerObj :=
  MkObj (o_world s) (o_base s)
    (MkServerData x (m_protocol_constructor (o_derived s)) (m_logger (o_derived s))).
Definition set_constructor (x : Constructor) (s : ServerObj) : ServerObj :=
  MkObj (o_world s) (o_base s)
    (MkServerData (m_topic_map (o_derived s)) x (m_logger (o_derived s))).

#[export] Instance topic_map_lens : Lens ServerObj TopicMap.
Proof.
  refine {| lget s := m_topic_map (o_derived s); lset := set_topic_map |};
    by intros; destruct s as [? ? []].
Defined.

#[export] Instance constructor_lens : Lens ServerObj Constructor.
Proof.
  refine {| lget s := m_protocol_constructor (o_derived s); lset := set_constructor |};
    by intros; destruct s as [? ? []].
Defined.

(** ** Callbacks *)

Section callbacks.
Context {plat : Platform}.

(** The mixin [ClassLogger] of logging.hpp: its constructor and [logger()].
    Its member is the field [m_logger]. *)
Definition ClassLogger_ctor {S} (create_logger : string → M S Logger) (name : string) :
    M S Logger := create_logger name.

Definition ClassLogger_logger : M ServerObj Logger := gets (λ s, m_logger (o_derived s)).

Definition LOG (level : LogLevel) (format : string)
    (args : M ServerObj (list string)) : M ServerObj unit :=
  let! logger := ClassLogger_logger in
  log level logger format args.

(** [client->id()] as a log argument. *)
Definition id_arg (client : option Z) : M ServerObj string :=
  let! c := deref client in ret (to_string_Z (m_id c)).

Definition BusServer_on_process : M ServerObj unit := ret tt.

Definition BusServer_on_connect (client : option Z) : M ServerObj unit :=
  LOG Info "Client {} connected" (let! id := id_arg client in ret [id]).

Definition BusServer_on_disconnect (client : option Z) : M ServerObj unit :=
  LOG Info "Client {} disconnected" (let! id := id_arg client in ret [id]).

(** The body of the loop over the clients in the [publish] case. *)
Definition forward (client : option Z) (topic_key : Z) (fanout_payload : list byte)
    (other_client : option Z) : M ServerObj unit :=
  let! other := deref other_client in
  let! self := deref client in
  if negb (m_id other =? m_id self)%Z &&
     bool_decide (topic_key ∈ subscribed_topics (m_data other)) then
    Client_send other_client fanout_payload ;;;
    LOG Debug "Forwarded message from client {} to client {} for topic key {}"
      (let! id := id_arg client in
       let! other_id := id_arg other_client in
       ret [id; other_id; to_string_Z topic_key])
  else ret tt.

Definition BusServer_on_message (client : option Z) (message : list byte) :
    M ServerObj unit :=
  if length message <? sizeof_Header then
    LOG Warning
      "Ignoring malformed packet from client {}: expected at least {} bytes, got {}"
      (let! id := id_arg client in
       ret [id; to_string_Z (Z.of_nat sizeof_Header);
            to_string_Z (Z.of_nat (length message))])
  else
    let! msg := of_outcome (Message_ctor message) in
    LOG Debug "Received message from client {}: {}"
      (let! id := id_arg client in ret [id; Message_to_string msg]) ;;;
    match Type_of (m_type_ (m_header msg)) with
    | Some Type_topic_request =>
        let topic_name := Message_payload_as_string msg in
        let! topic_key := zoom (TopicMap_get_or_create topic_name) in
        let! response_payload :=
          zoom (Constructor_topic_response topic_key topic_name
                  (Origin_value Origin_server)) in
        Client_send client response_payload ;;;
        LOG Info "Registered topic '{}' with key {}"
          (ret [topic_name; to_string_Z topic_key])
    | Some Type_subscribe =>
        let topic_key := Header_topic_key (m_header msg) in
        update_data client (λ d, MkClientData ({[topic_key]} ∪ subscribed_topics d)) ;;;
        LOG Info "Client {} subscribed to topic key {}"
          (let! id := id_arg client in ret [id; to_string_Z topic_key])
    | Some Type_unsubscribe =>
        let topic_key := Header_topic_key (m_header msg) in
        update_data client (λ d, MkClientData (subscribed_topics d ∖ {[topic_key]})) ;;;
        LOG Info "Client {} unsubscribed from topic key {}"
          (let! id := id_arg client in ret [id; to_string_Z topic_key])
    | Some Type_publish =>
        let topic_key := Header_topic_key (m_header msg) in
        let payload := m_payload msg in
        let! fanout_payload :=
          zoom (Constructor_fanout topic_key payload (Origin_value Origin_server)) in
        let! all_clients := clients in
        for_each all_clients (forward client topic_key fanout_payload)
    | _ =>
        LOG Warning "Unhandled message type: {}"
          (ret [Type_to_string (m_type_ (m_header msg))])
    end.

#[export] Instance BusServer_derived : Derived ClientData ServerData := {
  on_process := BusServer_on_process;
  on_connect := BusServer_on_connect;
  on_disconnect := BusServer_on_disconnect;
  on_message := BusServer_on_message;
}.

(** The constructor: the base first, then [ClassLogger("server")], the
    members and the log line; the base is destroyed if one of these throws.
    [create_logger] is the function of logging.hpp (see Logging). *)
Definition BusServer_ctor {S} `{!Lens S World} (create_logger : string → M S Logger)
    (port : Z) : M S ServerObj :=
  let! b := zoom (Server_ctor port) in
  on_exception (λ s, lset (world_emit (Enet_host_destroy (m_server b)) (lget s)) s)
    (let! logger := ClassLogger_ctor create_logger "server" in
     log Info logger "Server started on port {}" (ret [to_string_Z port]) ;;;
     let! w := gets lget in
     ret (MkObj w b (MkServerData TopicMap_default Constructor_default logger))).

(** The destructor: the log line, then the base. *)
Definition BusServer_dtor : M ServerObj unit :=
  LOG Info "Server shutting down" (ret []) ;;;
  Server_dtor.
End callbacks.

(** ** Specification: a publish/subscribe service

    The topics in the order they were first requested and the connected
    clients, in the order they connected, with their subscriptions. *)

Record PubSub : Type := MkPubSub {
  ps_topics : list string;
  ps_clients : list (ENetPeer * gset Z);
}.

Definition PubSub_empty : PubSub := {| ps_topics := []; ps_clients := [] |}.

Definition ps_update (peer : ENetPeer) (f : gset Z → gset Z) (ps : PubSub) : PubSub :=
  {| ps_topics := ps_topics ps;
     ps_clients := (λ c, if decide (c.1 = peer) then (c.1, f c.2) else c) <$>
                     ps_clients ps |}.

(** Who receives a message published by [from] on [key]. *)
Definition ps_receivers (from : ENetPeer) (key : Z) (ps : PubSub) : list ENetPeer :=
  fst <$> filter (λ c, c.1 ≠ from ∧ key ∈ c.2) (ps_clients ps).

(** The service handles a message: its new state, and what it sends. *)
Definition ps_message (from : ENetPeer) (m : bus_msg) (ps : PubSub) :
    PubSub * list (ENetPeer * bus_msg) :=
  match m with
  | Topic_request name =>
      ({| ps_topics := snd (spec_get_or_create name (ps_topics ps));
          ps_clients := ps_clients ps |},
       [(from, Topic_response (fst (spec_get_or_create name (ps_topics ps))) name)])
  | Subscribe key => (ps_update from (λ subs, {[key]} ∪ subs) ps, [])
  | Unsubscribe key => (ps_update from (λ subs, subs ∖ {[key]}) ps, [])
  | Publish key payload =>
      (ps, (λ peer, (peer, Fanout key payload)) <$> ps_receivers from key ps)
  | Topic_response _ _ | Fanout _ _ => (ps, [])
  end.

Section spec.
Context {plat : Platform}.

Definition ps_event (ev : ENetEvent) (ps : PubSub) :
    PubSub * list (ENetPeer * bus_msg) :=
  match ev with
  | EVENT_CONNECT peer =>
      ({| ps_topics := ps_topics ps; ps_clients := ps_clients ps ++ [(peer, ∅)] |}, [])
  | EVENT_DISCONNECT peer =>
      ({| ps_topics := ps_topics ps;
          ps_clients := filter (λ c, c.1 ≠ peer) (ps_clients ps) |}, [])
  | EVENT_RECEIVE peer packet =>
      match decode (packet_data packet) with
      | Some m => ps_message peer m ps
      | None => (ps, [])
      end
  | EVENT_NONE => (ps, [])
  end.

Fixpoint ps_events (evs : list ENetEvent) (ps : PubSub) :
    PubSub * list (ENetPeer * bus_msg) :=
  match evs with
  | [] => (ps, [])
  | ev :: rest =>
      let (ps1, out1) := ps_event ev ps in
      let (ps2, out2) := ps_events rest ps1 in
      (ps2, out1 ++ out2)
  end.

(** A message on the wire, as the server sends it. *)
Definition on_wire (d : ENetPeer * bus_msg) : ENetPeer * list byte :=
  (d.1, packet (Origin_value Origin_server) d.2).
End spec.

(** ** The abstraction relation *)

(** The client a pointer leads to, as the service sees it. *)
Definition client_view (s : ServerObj) (p : option Z) : option (ENetPeer * gset Z) :=
  match p with
  | Some key => (λ c, (m_peer c, subscribed_topics (m_data c))) <$>
                  m_client_map (o_base s) !! key
  | None => None
  end.

Record refines (s : ServerObj) (ps : PubSub) : Prop := {
  ref_topics : topics_rel (m_topic_map (o_derived s)) (ps_topics ps);
  ref_clients : Forall2 (λ p c, client_view s p = Some c)
                  (m_clients (o_base s)) (ps_clients ps);
}.

(** ** States equal up to log statements *)

Record obj_equiv (s s' : ServerObj) : Prop := {
  oequiv_world : world_equiv (o_world s) (o_world s');
  oequiv_base : o_base s = o_base s';
  oequiv_derived : o_derived s = o_derived s';
}.
Infix "≈" := obj_equiv (at level 70, no associativity) : cpp_scope.

#[export] Instance obj_equivalence : Equivalence obj_equiv.
Proof.
  split; [by intros s; split| |].
  - intros s s' []. split; by symmetry.
  - intros s1 s2 s3 [] []. split; by etrans.
Qed.

(** The effect of [Client_send] to the client [c]. *)
Definition send_to (c : Client ClientData) (message : list byte) (s : ServerObj) : ServerObj :=
  MkObj
    (world_emit (Enet_host_flush (m_host c))
      (world_emit (Enet_peer_send (m_peer c) 0
         (MkOutPacket message ENET_PACKET_FLAG_RELIABLE)) (o_world s)))
    (o_base s) (o_derived s).

(** The effect of an assignment through [client->data()]. *)
Definition map_data (key : Z) (f : ClientData → ClientData) (s : ServerObj) : ServerObj :=
  MkObj (o_world s)
    (server_client_map
       (alter (λ c, MkClient (m_id c) (m_peer c) (m_host c) (f (m_data c))) key
          (m_client_map (o_base s))) (o_base s))
    (o_derived s).

#[export] Instance send_to_proper c message :
  Proper (obj_equiv ==> obj_equiv) (send_to c message).
Proof. intros s s' [Hw Hb Hd]. split; simpl; [|done..]. by do 2 f_equiv. Qed.

#[export] Instance map_data_proper key f : Proper (obj_equiv ==> obj_equiv) (map_data key f).
Proof. intros s s' [Hw Hb Hd]. split; simpl; [done|by rewrite Hb|done]. Qed.

#[export] Instance set_constructor_proper x :
  Proper (obj_equiv ==> obj_equiv) (set_constructor x).
Proof. intros s s' [Hw Hb Hd]. split; simpl; [done..|by rewrite Hd]. Qed.

#[export] Instance set_topic_map_proper x :
  Proper (obj_equiv ==> obj_equiv) (set_topic_map x).
Proof. intros s s' [Hw Hb Hd]. split; simpl; [done..|by rewrite Hd]. Qed.

(** [m] has, up to log statements, the effect of reaching [t]. *)
Definition reaches (m : M ServerObj unit) (s t : ServerObj) : Prop :=
  returns m (λ _ s', s' ≈ t) s.

#[export] Instance reaches_proper m s : Proper (obj_equiv ==> iff) (reaches m s).
Proof.
  intros t t' Ht. split; intros H; (eapply returns_mono; [exact H|]);
    intros [] s' Hs'; by rewrite Hs'.
Qed.

Section steps.
Context {plat : Platform}.
Implicit Types (s t : ServerObj).

Lemma reaches_ret s t : s ≈ t → reaches (ret tt) s t.
Proof. done. Qed.

(** Run a step whose result is known, then the rest. *)
Lemma reaches_step {A} (m : M ServerObj A) k a s s1 t :
  m s = (Ok a, s1) → reaches (k a) s1 t → reaches (bind m k) s t.
Proof. intros Hm Hk. apply returns_bind. unfold returns, wp. by rewrite Hm. Qed.

Lemma reaches_bind (m : M ServerObj unit) k s s1 t :
  reaches m s s1 → (∀ s', s' ≈ s1 → reaches (k tt) s' t) → reaches (bind m k) s t.
Proof.
  intros Hm Hk. apply returns_bind. eapply returns_mono; [exact Hm|].
  intros [] s' Hs'. by apply Hk.
Qed.

Lemma LOG_reaches level format args s t :
  returns args (λ _ s', s' = s) s → s ≈ t → reaches (LOG level format args) s t.
Proof.
  intros (a & s' & Ha & ->)%returns_inv Ht. unfold LOG.
  eapply reaches_step; [done|]. unfold log. case_match; [|done].
  eapply reaches_step; [exact Ha|]. unfold reaches, returns, wp, emit, zoom. simpl.
  rewrite <-Ht. split; simpl; [|done..]. apply world_emit_log.
Qed.

Lemma id_arg_run key c s :
  m_client_map (o_base s) !! key = Some c →
  id_arg (Some key) s = (Ok (to_string_Z (m_id c)), s).
Proof. intros H. unfold id_arg. by rewrite (bind_Ok _ _ _ _ _ (deref_live _ _ _ H)). Qed.

Lemma returns_id_args key c s (k : string → M ServerObj (list string)) :
  m_client_map (o_base s) !! key = Some c →
  (∀ id, returns (k id) (λ _ s', s' = s) s) →
  returns (let! id := id_arg (Some key) in k id) (λ _ s', s' = s) s.
Proof.
  intros H Hk. apply returns_bind. unfold returns at 1, wp.
  by rewrite (id_arg_run _ _ _ H).
Qed.

Lemma Client_send_run key c message s :
  m_client_map (o_base s) !! key = Some c →
  Client_send (Some key) message s = (Ok tt, send_to c message s).
Proof.
  intros H. unfold Client_send. by rewrite (bind_Ok _ _ _ _ _ (deref_live _ _ _ H)).
Qed.

Lemma update_data_run key c f s :
  m_client_map (o_base s) !! key = Some c →
  update_data (Some key) f s = (Ok tt, map_data key f s).
Proof.
  intros H. unfold update_data. by rewrite (bind_Ok _ _ _ _ _ (deref_live _ _ _ H)).
Qed.

Lemma build_zoom_run origin m s :
  zoom (build origin m) s =
    (Ok (packet origin m), set_constructor (MkConstructor (packet origin m)) s).
Proof. unfold zoom. by rewrite build_run. Qed.

Lemma topic_response_zoom_run key name origin s :
  let response := packet origin (Topic_response key name) in
  zoom (Constructor_topic_response key name origin) s =
    (Ok response, set_constructor (MkConstructor response) s).
Proof. apply (build_zoom_run origin (Topic_response key name)). Qed.

Lemma fanout_zoom_run key payload origin s :
  let message := packet origin (Fanout key payload) in
  zoom (Constructor_fanout key payload origin) s =
    (Ok message, set_constructor (MkConstructor message) s).
Proof. apply (build_zoom_run origin (Fanout key payload)). Qed.
End steps.

(** ** The effect of a message, without its log statements *)

Section effect.
Context {plat : Platform}.
Implicit Types (s : ServerObj) (self other : Client ClientData).

Definition wants self (key : Z) (other : Client ClientData) : bool :=
  negb (m_id other =? m_id self)%Z &&
  bool_decide (key ∈ subscribed_topics (m_data other)).

Definition forward_one self (key : Z) (message : list byte) s (p : option Z) : ServerObj :=
  match p ≫= λ k, m_client_map (o_base s) !! k with
  | Some other => if wants self key other then send_to other message s else s
  | None => s
  end.

Definition message_effect (ptr : Z) self (m : bus_msg) s : ServerObj :=
  match m with
  | Topic_request name =>
      let (k, t) := topic_answer name (m_topic_map (o_derived s)) in
      let response := packet (Origin_value Origin_server) (Topic_response k name) in
      send_to self response (set_constructor (MkConstructor response) (set_topic_map t s))
  | Subscribe key =>
      map_data ptr (λ d, MkClientData ({[key]} ∪ subscribed_topics d)) s
  | Unsubscribe key =>
      map_data ptr (λ d, MkClientData (subscribed_topics d ∖ {[key]})) s
  | Publish key payload =>
      let message := packet (Origin_value Origin_server) (Fanout key payload) in
      foldl (forward_one self key message) (set_constructor (MkConstructor message) s)
        (m_clients (o_base s))
  | Topic_response _ _ | Fanout _ _ => s
  end.

Lemma forward_one_proper self key message p s s' :
  s ≈ s' → forward_one self key message s p ≈ forward_one self key message s' p.
Proof.
  intros H. unfold forward_one. rewrite (oequiv_base _ _ H).
  destruct (p ≫= _) as [other|]; [|done]. destruct (wants self key other); [|done].
  by rewrite H.
Qed.

Lemma foldl_forward_proper self key message ps s s' :
  s ≈ s' → foldl (forward_one self key message) s ps ≈
           foldl (forward_one self key message) s' ps.
Proof.
  revert s s'. induction ps as [|p ps IH]; intros s s' H; [done|].
  by apply IH, forward_one_proper.
Qed.

#[export] Instance message_effect_proper ptr self m :
  Proper (obj_equiv ==> obj_equiv) (message_effect ptr self m).
Proof.
  intros s s' H. destruct m; simpl; try (by rewrite H).
  - rewrite (oequiv_derived _ _ H).
    destruct (topic_answer _ _) as [k t]. by rewrite H.
  - rewrite (oequiv_base _ _ H). apply foldl_forward_proper. by rewrite H.
Qed.

Lemma forward_one_base self key message p s :
  o_base (forward_one self key message s p) = o_base s.
Proof. unfold forward_one. by repeat case_match. Qed.

Lemma foldl_forward_objects self key message ps s :
  o_base (foldl (forward_one self key message) s ps) = o_base s ∧
  o_derived (foldl (forward_one self key message) s ps) = o_derived s.
Proof.
  revert s. induction ps as [|p ps IH]; intros s; [done|]. cbn [foldl].
  destruct (IH (forward_one self key message s p)) as [-> ->].
  split; [apply forward_one_base|]. unfold forward_one. by repeat case_match.
Qed.

Lemma forward_reaches ptr self key message p s t :
  m_client_map (o_base s) !! ptr = Some self → live s p → s ≈ t →
  reaches (forward (Some ptr) key message p) s (forward_one self key message t p).
Proof.
  intros Hself (k & -> & [other Hother]) Ht.
  rewrite <-(forward_one_proper self key message _ _ _ Ht).
  eapply reaches_step; [by apply deref_live|].
  eapply reaches_step; [by apply deref_live|].
  unfold forward_one. cbn [mbind option_bind]. rewrite Hother. fold (wants self key other).
  destruct (wants self key other); [|done].
  eapply reaches_step; [by apply Client_send_run|].
  apply LOG_reaches; [|done].
  eapply returns_id_args; [exact Hself|]. intros id.
  by eapply returns_id_args.
Qed.

Lemma forward_loop ptr self key message s :
  m_client_map (o_base s) !! ptr = Some self →
  (∀ p, p ∈ m_clients (o_base s) → live s p) →
  reaches
    (for_each (m_clients (o_base s)) (forward (Some ptr) key message)) s
    (foldl (forward_one self key message) s (m_clients (o_base s))).
Proof.
  intros Hself Hlive.
  apply (returns_for_each _ (λ done s', s' ≈ foldl (forward_one self key message) s done));
    [done|].
  intros done p rest s' Hl Hs'. rewrite foldl_app. cbn [foldl].
  assert (Hbase : o_base s' = o_base s) by 
    by rewrite (oequiv_base _ _ Hs'), (proj1 (foldl_forward_objects _ _ _ _ _)).
  apply forward_reaches; [by rewrite Hbase| |exact Hs'].
  destruct (Hlive p) as (k & -> & Hk); [rewrite Hl; set_solver|].
  exists k. by rewrite Hbase.
Qed.
End effect.

Section on_message.
Context {plat : Platform}.
Implicit Types (s t : ServerObj) (self : Client ClientData).

Lemma equiv_lookup s t ptr self :
  s ≈ t → m_client_map (o_base t) !! ptr = Some self →
  m_client_map (o_base s) !! ptr = Some self.
Proof. intros H. by rewrite (oequiv_base _ _ H). Qed.

(** Every branch of [on_message], for a message by a client in the table. *)
Lemma on_message_reaches ptr self data s :
  m_client_map (o_base s) !! ptr = Some self →
  (∀ p, p ∈ m_clients (o_base s) → live s p) →
  reaches (BusServer_on_message (Some ptr) data) s
    (match decode data with
     | Some m => message_effect ptr self m s
     | None => s
     end).
Proof.
  intros Hself Hlive. unfold BusServer_on_message, decode.
  destruct (Nat.ltb_spec (length data) sizeof_Header) as [Hlen|Hlen].
  { rewrite Message_ctor_short by done. apply LOG_reaches; [|done].
    by eapply returns_id_args. }
  rewrite Message_ctor_long by done.
  eapply reaches_step; [done|]. set (msg := MkMessage _ _ _).
  eapply reaches_bind.
  { apply LOG_reaches; [|reflexivity]. by eapply returns_id_args. }
  intros s1 Hs1. pose proof (equiv_lookup _ _ _ _ Hs1 Hself) as Hself1.
  assert (Heff : match read_msg msg with
     | Some m => message_effect ptr self m s
     | None => s
     end ≈ match read_msg msg with
     | Some m => message_effect ptr self m s1
     | None => s1
     end) by (destruct (read_msg msg); by rewrite Hs1).
  rewrite Heff. clear Heff. unfold read_msg.
  destruct (Type_of (m_type_ (m_header msg))) as [[]|];
    try (apply LOG_reaches; done); unfold message_effect.
  - set (name := Message_payload_as_string msg).
    destruct (topic_answer name (m_topic_map (o_derived s1))) as [k t] eqn:Ea.
    eapply reaches_step.
    { apply zoom_Ok. cbn [lget topic_map_lens]. rewrite get_or_create_run, Ea. reflexivity. }
    eapply reaches_step; [apply topic_response_zoom_run|].
    eapply reaches_step; [by apply Client_send_run|].
    by apply LOG_reaches.
  - eapply reaches_step; [apply fanout_zoom_run|].
    eapply reaches_step; [done|].
    apply (forward_loop _ _ _ _ (set_constructor _ s1)); [done|].
    intros p. unfold live. cbn. rewrite (oequiv_base _ _ Hs1). apply Hlive.
  - eapply reaches_step; [by eapply update_data_run|].
    apply LOG_reaches; [|done]. eapply returns_id_args; [|done].
    cbn. rewrite lookup_alter_eq, Hself1. done.
  - eapply reaches_step; [by eapply update_data_run|].
    apply LOG_reaches; [|done]. eapply returns_id_args; [|done].
    cbn. rewrite lookup_alter_eq, Hself1. done.
Qed.
End on_message.

(** ** The server keeps the interface of the base *)

Lemma equiv_frame (s s' : ServerObj) : s ≈ s' → frame s s'.
Proof.
  intros [Hw Hb Hd]. split; rewrite <-?Hb; try done.
  - by rewrite (equiv_service _ _ Hw).
  - by rewrite (equiv_peer_data _ _ Hw).
Qed.

Lemma map_data_frame key f s : frame s (map_data key f s).
Proof.
  split; try done. intros key'. simpl. destruct (decide (key' = key)) as [->|?].
  - rewrite lookup_alter_eq. by destruct (m_client_map (o_base s) !! key).
  - by rewrite lookup_alter_ne.
Qed.

Lemma send_to_frame c message s : frame s (send_to c message s).
Proof. by split. Qed.

Lemma foldl_forward_frame `{Platform} self key message ps s :
  frame s (foldl (forward_one self key message) s ps).
Proof.
  revert s. induction ps as [|p ps IH]; intros s; [done|]. cbn [foldl].
  etrans; [|apply IH]. unfold forward_one. repeat case_match; done.
Qed.

Lemma message_effect_frame {plat : Platform} ptr self m s :
  frame s (message_effect ptr self m s).
Proof.
  destruct m; simpl; try done; try apply map_data_frame.
  - destruct (topic_answer _ _) as [k t]. by split.
  - etrans; [|apply foldl_forward_frame]. by split.
Qed.

Lemma reaches_frame m s t : frame s t → reaches m s t → returns m (λ _, frame s) s.
Proof.
  intros Hf Hm. eapply returns_mono; [exact Hm|]. intros [] s' Hs'. etrans; [exact Hf|].
  symmetry. by apply equiv_frame.
Qed.

Section laws.
Context {plat : Platform}.

Lemma log_client_reaches level format key c (s : ServerObj) :
  m_client_map (o_base s) !! key = Some c →
  reaches (LOG level format (let! id := id_arg (Some key) in ret [id])) s s.
Proof. intros Hc. apply LOG_reaches; [|done]. by eapply returns_id_args. Qed.

#[export] Instance BusServer_laws : DerivedLaws ClientData ServerData.
Proof.
  split.
  - done.
  - intros p s _ (key & -> & [c Hc]). eapply (reaches_frame _ s s); [done|].
    by eapply log_client_reaches.
  - intros p s _ (key & -> & [c Hc]). eapply (reaches_frame _ s s); [done|].
    by eapply log_client_reaches.
  - intros p message s Hreg (key & -> & [c Hc]).
    eapply reaches_frame; [|apply on_message_reaches; [exact Hc|apply Hreg]].
    destruct (decode message); [apply message_effect_frame|done].
Qed.
End laws.

(** ** Refinement of the publish/subscribe service *)

Section refinement.
Context {plat : Platform}.
Implicit Types (s t : ServerObj) (self other : Client ClientData) (ps : PubSub).

Lemma refines_equiv s t ps : s ≈ t → refines s ps → refines t ps.
Proof.
  intros [_ Hb Hd] [Ht Hc]. split; [by rewrite <-Hd|].
  unfold client_view in *. by rewrite <-Hb.
Qed.

Lemma client_view_Some s p c :
  client_view s p = Some c → ∃ key other, p = Some key ∧
    m_client_map (o_base s) !! key = Some other ∧
    c = (m_peer other, subscribed_topics (m_data other)).
Proof.
  destruct p as [key|]; simpl; [|done].
  intros (other & Hc & ->)%fmap_Some. eauto.
Qed.

(** Keys, identifiers and peers of the clients correspond one to one. *)
Lemma client_unique s k1 k2 c1 c2 :
  registry_ok s → m_client_map (o_base s) !! k1 = Some c1 →
  m_client_map (o_base s) !! k2 = Some c2 →
  (m_peer c1 = m_peer c2 ↔ k1 = k2) ∧ (m_id c1 = m_id c2 ↔ k1 = k2).
Proof.
  intros Hreg H1 H2. destruct (reg_client _ Hreg _ _ H1) as (-> & _ & Hd1).
  destruct (reg_client _ Hreg _ _ H2) as (-> & _ & Hd2). split; [|done]. split.
  - intros Hp. rewrite Hp in Hd1. congruence.
  - congruence.
Qed.

Lemma map_data_refines key self f g s ps :
  registry_ok s → m_client_map (o_base s) !! key = Some self → refines s ps →
  (∀ d, subscribed_topics (f d) = g (subscribed_topics d)) →
  refines (map_data key f s) (ps_update (m_peer self) g ps).
Proof.
  intros Hreg Hself [Ht Hc] Hfg. split; [done|]. simpl.
  apply Forall2_fmap_r. eapply Forall2_impl; [exact Hc|]. intros p c Hp.
  apply client_view_Some in Hp as (k & other & -> & Hother & ->). simpl.
  destruct (client_unique _ _ _ _ _ Hreg Hother Hself) as [Hpeer _].
  destruct (decide (k = key)) as [->|Hne].
  - rewrite lookup_alter_eq, Hother, decide_True by by apply Hpeer. simpl. by rewrite Hfg.
  - rewrite lookup_alter_ne, Hother, decide_False by by rewrite ?Hpeer. done.
Qed.

Lemma forward_sends key self topic message s ps_cs ptrs t :
  registry_ok s → m_client_map (o_base s) !! key = Some self → o_base t = o_base s →
  Forall2 (λ p c, client_view s p = Some c) ptrs ps_cs →
  sends (w_log (o_world (foldl (forward_one self topic message) t ptrs))) =
    sends (w_log (o_world t)) ++
    ((λ peer, (peer, message)) <$>
       (fst <$> filter (λ c, c.1 ≠ m_peer self ∧ topic ∈ c.2) ps_cs)).
Proof.
  intros Hreg Hself Ht Hall. revert t Ht.
  induction Hall as [|p c ptrs ps_cs Hp _ IH]; intros t Ht; [by rewrite app_nil_r|].
  cbn [foldl]. rewrite IH by by rewrite forward_one_base.
  apply client_view_Some in Hp as (k & other & -> & Hother & ->).
  destruct (client_unique _ _ _ _ _ Hreg Hother Hself) as [Hpeer Hid].
  unfold forward_one. simpl. rewrite Ht, Hother.
  assert (Hw : wants self topic other = true ↔
    m_peer other ≠ m_peer self ∧ topic ∈ subscribed_topics (m_data other)).
  { unfold wants. rewrite andb_true_iff, negb_true_iff, Z.eqb_neq, bool_decide_eq_true.
    by rewrite Hid, Hpeer. }
  rewrite filter_cons. cbn [fst snd].
  destruct (wants self topic other).
  - rewrite decide_True by by apply Hw. simpl. by rewrite !sends_app, <-!app_assoc.
  - by rewrite decide_False by by intros ?%Hw.
Qed.

(** A message handled by [on_message] is a step of the service. *)
Lemma message_effect_refines key self m s ps :
  registry_ok s → m_client_map (o_base s) !! key = Some self → refines s ps →
  topics_bound (ps_topics ps) →
  refines (message_effect key self m s) (fst (ps_message (m_peer self) m ps)) ∧
  sends (w_log (o_world (message_effect key self m s))) =
    sends (w_log (o_world s)) ++ (on_wire <$> snd (ps_message (m_peer self) m ps)).
Proof.
  intros Hreg Hself Href Hb.
  destruct m as [name|k name|k payload|k|k|k payload];
    cbn [message_effect ps_message fst snd fmap list_fmap].
  - destruct (get_or_create_refines name _ _ (ref_topics _ _ Href) Hb) as (t & Hrun & Ht).
    rewrite get_or_create_run in Hrun.
    destruct (topic_answer name (m_topic_map (o_derived s))) as [k' t'].
    cbn [fst snd] in Hrun. injection Hrun as -> ->. split.
    + split; [exact Ht|]. apply Href.
    + unfold on_wire. cbn. rewrite !sends_app. by rewrite app_nil_r.
  - split; [done|]. by rewrite app_nil_r.
  - set (message := packet (Origin_value Origin_server) (Fanout k payload)).
    split.
    + destruct Href as [Ht Hc].
      destruct (foldl_forward_objects self k message (m_clients (o_base s))
        (set_constructor (MkConstructor message) s)) as [Hbase Hder].
      split; [by rewrite Hder|]. unfold client_view. by rewrite Hbase.
    + erewrite (forward_sends key self k _ s (ps_clients ps)); [|done..|apply Href].
      f_equal. unfold ps_receivers. by rewrite <-!list_fmap_compose.
  - split; [by apply map_data_refines|by rewrite app_nil_r].
  - split; [by apply map_data_refines|by rewrite app_nil_r].
  - split; [done|]. by rewrite app_nil_r.
Qed.

(** The post-condition of one event. *)
Definition step_post ev s ps (_ : unit) s' : Prop :=
  refines s' (fst (ps_event ev ps)) ∧
  sends (w_log (o_world s')) =
    sends (w_log (o_world s)) ++ (on_wire <$> snd (ps_event ev ps)).

Lemma step_post_quiet ev s ps t s' :
  snd (ps_event ev ps) = [] → refines t (fst (ps_event ev ps)) →
  w_log (o_world t) = w_log (o_world s) → s' ≈ t → step_post ev s ps tt s'.
Proof.
  intros Hout Ht Hlog Hs'. split; [by eapply refines_equiv; [symmetry|]|].
  rewrite Hout, app_nil_r, <-Hlog. apply equiv_sends, Hs'.
Qed.

Lemma connect_refines peer evs s ps :
  ready s (EVENT_CONNECT peer :: evs) → refines s ps →
  returns (dispatch (EVENT_CONNECT peer)) (step_post (EVENT_CONNECT peer) s ps) s.
Proof.
  intros Hready Href. pose proof Hready as (Hreg & _ & _).
  destruct (dispatch_connect _ _ _ Hready) as ((Hreg1 & _) & _ & _ & E).
  set (id := m_next_client_id (o_base s)) in *.
  set (s1 := attached peer id (created peer id s)) in *.
  assert (Hid : m_client_map (o_base s1) !! id =
    Some (MkClient id peer (m_server (o_base s)) default_data)) by apply lookup_insert_eq.
  unfold returns, wp. rewrite E.
  eapply returns_mono; [by eapply log_client_reaches|]. intros [] s' Hs'.
  eapply (step_post_quiet _ _ _ s1); [done| |done|exact Hs'].
  destruct Href as [Ht Hc]. split; [done|].
  apply Forall2_app; [|by constructor; [unfold client_view; rewrite Hid|]].
  eapply Forall2_impl; [exact Hc|]. intros p c Hp.
  apply client_view_Some in Hp as (k & other & -> & Hother & ->).
  unfold client_view. simpl. rewrite lookup_insert_ne; [by rewrite Hother|].
  intros Hid'. destruct Hready as (_ & (Hk & _) & _).
  specialize (Hk k ltac:(eauto)). unfold id in Hid'. lia.
Qed.

Lemma erased_clients key self s ptrs cs :
  registry_ok s → m_client_map (o_base s) !! key = Some self →
  Forall2 (λ p c, client_view s p = Some c) ptrs cs →
  Forall2 (λ p c, client_view (erased key s) p = Some c)
    (filter (λ q, q ≠ Some key) ptrs) (filter (λ c, c.1 ≠ m_peer self) cs).
Proof.
  intros Hreg Hself. induction 1 as [|p c ptrs cs Hp _ IH]; [constructor|].
  pose proof Hp as (k & other & -> & Hother & ->)%client_view_Some.
  destruct (client_unique _ _ _ _ _ Hreg Hother Hself) as [Hpeer _].
  rewrite !filter_cons. cbn [fst]. destruct (decide (k = key)) as [->|Hne].
  - rewrite !decide_False; [done|by intros []; apply Hpeer|by intros []].
  - rewrite !decide_True; [|by rewrite Hpeer|congruence].
    constructor; [|done]. simpl. by rewrite lookup_delete_ne, Hother.
Qed.

Lemma disconnect_refines peer evs s ps :
  ready s (EVENT_DISCONNECT peer :: evs) → refines s ps →
  returns (dispatch (EVENT_DISCONNECT peer)) (step_post (EVENT_DISCONNECT peer) s ps) s.
Proof.
  intros Hready Href. pose proof Hready as (Hreg & _ & _).
  destruct (dispatch_disconnect _ _ _ Hready)
    as (key & c & s1 & Hc & <- & Hs1 & Hf & E & _ & _).
  pose proof (log_client_reaches Info "Client {} disconnected" key c s Hc) as Hlog.
  change (LOG _ _ _) with (on_disconnect (Some key)) in Hlog.
  unfold reaches, returns, wp in Hlog. rewrite Hs1 in Hlog.
  unfold returns, wp. rewrite E.
  eapply (step_post_quiet _ _ _ (erased key s)); [done| |done|].
  - destruct Href as [Ht Hcs]. split; [done|]. by apply erased_clients.
  - destruct Hlog as [Hw Hb Hd]. split; [done| |done]. simpl. by rewrite Hb.
Qed.

Lemma receive_refines peer pk evs s ps :
  ready s (EVENT_RECEIVE peer pk :: evs) → refines s ps →
  topics_bound (ps_topics ps) →
  returns (dispatch (EVENT_RECEIVE peer pk)) (step_post (EVENT_RECEIVE peer pk) s ps) s.
Proof.
  intros Hready Href Hb. pose proof Hready as (Hreg & _ & _).
  destruct (dispatch_receive _ _ _ _ Hready) as (key & self & Hself & <- & _ & _ & E).
  pose proof (on_message_reaches key self (packet_data pk) s Hself
    (λ p, proj1 (reg_clients _ Hreg p))) as Hm.
  change (BusServer_on_message _ _) with (on_message (Some key) (packet_data pk)) in Hm.
  unfold reaches, returns, wp, with_destructor in *. rewrite E.
  destruct (on_message _ _ _) as [[[]| | |] s']; try done.
  assert (Hpost : step_post (EVENT_RECEIVE (m_peer self) pk) s ps tt s').
  { unfold step_post. cbn [ps_event]. destruct (decode (packet_data pk)) as [m|].
    - destruct (message_effect_refines key self m s ps) as [Hr Hs]; [done..|].
      split; [by eapply refines_equiv; [symmetry|]|].
      by rewrite (equiv_sends _ _ (oequiv_world _ _ Hm)).
    - split; [by eapply refines_equiv; [symmetry|]|].
      by rewrite (equiv_sends _ _ (oequiv_world _ _ Hm)), app_nil_r. }
  destruct Hpost as [[Ht Hc] Hs]. split; [by split|].
  rewrite <-Hs. simpl. by rewrite sends_app, app_nil_r.
Qed.

Lemma dispatch_refines ev evs s ps :
  ready s (ev :: evs) → refines s ps → topics_bound (ps_topics ps) →
  returns (dispatch ev) (step_post ev s ps) s.
Proof.
  intros Hready Href Hb. destruct ev.
  - split; [done|]. by rewrite app_nil_r.
  - by eapply connect_refines.
  - by eapply disconnect_refines.
  - by eapply receive_refines.
Qed.

Lemma ps_event_topics ev ps :
  length (ps_topics (fst (ps_event ev ps))) ≤ S (length (ps_topics ps)).
Proof.
  destruct ev as [| | |p pk]; cbn [ps_event fst ps_topics]; try lia.
  destruct (decode (packet_data pk)) as [[]|]; cbn [ps_message ps_update fst ps_topics]; try lia.
  destruct (spec_get_or_create_prefix topic_name (ps_topics ps)) as (new & -> & ?).
  rewrite length_app. lia.
Qed.

Lemma ps_events_app evs1 evs2 ps :
  ps_events (evs1 ++ evs2) ps =
    (fst (ps_events evs2 (fst (ps_events evs1 ps))),
     snd (ps_events evs1 ps) ++ snd (ps_events evs2 (fst (ps_events evs1 ps)))).
Proof.
  revert ps. induction evs1 as [|ev evs1 IH]; intros ps; cbn [app ps_events].
  - cbn [fst snd]. by destruct (ps_events evs2 ps).
  - destruct (ps_event ev ps) as [ps1 out1]. rewrite IH.
    destruct (ps_events evs1 ps1) as [ps2 out2]. cbn [fst snd]. by rewrite app_assoc.
Qed.

Lemma ps_events_topics evs ps :
  length (ps_topics (fst (ps_events evs ps))) ≤ length (ps_topics ps) + length evs.
Proof.
  revert ps. induction evs as [|ev evs IH]; intros ps; cbn [ps_events fst length]; [lia|].
  pose proof (ps_event_topics ev ps). destruct (ps_event ev ps) as [ps1 out1].
  specialize (IH ps1). destruct (ps_events evs ps1) as [ps2 out2]. cbn [fst] in *. lia.
Qed.

(** The invariant of the loop: what is still to come completes the run of
    the service from the initial state. *)
Definition ref_inv (final : PubSub) (total : list (ENetPeer * list byte))
    (evs : list ENetEvent) s : Prop :=
  ∃ ps, refines s ps ∧
    (Z.of_nat (length (ps_topics ps) + length evs) < 2 ^ 64)%Z ∧
    fst (ps_events evs ps) = final ∧
    sends (w_log (o_world s)) ++ (on_wire <$> snd (ps_events evs ps)) = total.

Lemma ref_inv_step final total ev evs s :
  ready s (ev :: evs) → ref_inv final total (ev :: evs) s →
  returns (dispatch ev) (λ _ s', ref_inv final total evs s') s.
Proof.
  intros Hready (ps & Href & Hb & Hfinal & Htotal). cbn [length] in Hb.
  eapply returns_mono; [apply (dispatch_refines _ evs _ ps); [exact Hready|done|]|].
  { unfold topics_bound. lia. }
  intros [] s' [Href' Hs']. exists (fst (ps_event ev ps)). split; [done|].
  pose proof (ps_event_topics ev ps) as Hlen. split; [lia|].
  cbn [ps_events] in Hfinal, Htotal. rewrite Hs', <-app_assoc.
  destruct (ps_event ev ps) as [ps1 out1]. cbn [fst snd] in *.
  destruct (ps_events evs ps1) as [ps2 out2]. cbn [fst snd] in *.
  by rewrite <-fmap_app.
Qed.
End refinement.

(** ** Subscriptions as history *)

Section history.
Context {plat : Platform}.
Implicit Types (ps : PubSub).

(** Whether [peer] is subscribed to [key] after an event, by what the event
    says and whether it was before. *)
Definition sub_step (peer : ENetPeer) (key : Z) (was : bool) (ev : ENetEvent) : bool :=
  match ev with
  | EVENT_CONNECT p | EVENT_DISCONNECT p => if decide (p = peer) then false else was
  | EVENT_RECEIVE p pk =>
      if decide (p = peer) then
        match decode (packet_data pk) with
        | Some (Subscribe k) => if decide (k = key) then true else was
        | Some (Unsubscribe k) => if decide (k = key) then false else was
        | _ => was
        end
      else was
  | EVENT_NONE => was
  end.

Definition sub_history (peer : ENetPeer) (key : Z) (was : bool) (evs : list ENetEvent) : bool :=
  foldl (sub_step peer key) was evs.

Definition ps_subscribed (peer : ENetPeer) (key : Z) ps : Prop :=
  ∃ subs, (peer, subs) ∈ ps_clients ps ∧ key ∈ subs.

(** The connected peers of the service, each once. *)
Definition ps_conn (c : gset ENetPeer) ps : Prop :=
  NoDup (fst <$> ps_clients ps) ∧ ∀ p, p ∈ c ↔ p ∈ fst <$> ps_clients ps.

Lemma ps_conn_filter c peer ps :
  ps_conn c ps →
  ps_conn (c ∖ {[peer]})
    (MkPubSub (ps_topics ps) (filter (λ x, x.1 ≠ peer) (ps_clients ps))).
Proof.
  unfold ps_conn. cbn [ps_clients]. intros [Hnd Hc]. split.
  - clear Hc. induction (ps_clients ps) as [|x l IH]; [constructor|].
    cbn in Hnd. apply NoDup_cons in Hnd as [Hx Hnd]. rewrite filter_cons.
    case_decide; [|by apply IH]. apply NoDup_cons. split; [|by apply IH].
    intros (y & Hy & [_ Hin]%list_elem_of_filter)%list_elem_of_fmap. apply Hx.
    rewrite Hy. by apply list_elem_of_fmap_2.
  - intros p. rewrite elem_of_difference, elem_of_singleton, Hc, !list_elem_of_fmap.
    setoid_rewrite list_elem_of_filter. split.
    + intros [(x & -> & Hx) Hne]. eauto.
    + intros (x & -> & Hne & Hx). eauto.
Qed.

Lemma ps_update_conn c peer f ps : ps_conn c ps → ps_conn c (ps_update peer f ps).
Proof.
  unfold ps_conn, ps_update. cbn [ps_clients]. rewrite <-list_fmap_compose.
  replace (fst ∘ _ <$> ps_clients ps) with (fst <$> ps_clients ps); [done|].
  apply list_fmap_ext. intros i x _. simpl. by case_decide.
Qed.

Lemma ps_message_conn c peer m ps : ps_conn c ps → ps_conn c (fst (ps_message peer m ps)).
Proof. destruct m; simpl; auto using ps_update_conn. Qed.

Lemma ps_event_conn c ev ps :
  event_ok c ev = true → ps_conn c ps → ps_conn (connect_step c ev) (fst (ps_event ev ps)).
Proof.
  intros Hev Hps. destruct ev as [|p|p|p pk]; cbn [ps_event connect_step fst].
  - done.
  - destruct Hps as [Hnd Hc]. apply bool_decide_eq_true in Hev.
    split; cbn [ps_clients]; rewrite ?fmap_app; cbn.
    + apply NoDup_app. split_and!; [done| |apply NoDup_singleton].
      intros x Hx ->%list_elem_of_singleton. by apply Hev, Hc.
    + intros x. rewrite elem_of_union, elem_of_singleton, elem_of_app, list_elem_of_singleton, Hc.
      tauto.
  - by apply ps_conn_filter.
  - destruct (decode (packet_data pk)); [by apply ps_message_conn|done].
Qed.

Lemma ps_subscribed_update peer key p f ps :
  ps_subscribed peer key (ps_update p f ps) ↔
    ∃ subs, (peer, subs) ∈ ps_clients ps ∧
            key ∈ (if decide (peer = p) then f subs else subs).
Proof.
  unfold ps_subscribed, ps_update. cbn [ps_clients]. setoid_rewrite list_elem_of_fmap. split.
  - intros (subs & ([q old] & E & Hin) & Hk). cbn [fst snd] in E.
    exists old. case_decide; simplify_eq; case_decide; naive_solver.
  - intros (old & Hin & Hk). eexists. split; [|exact Hk].
    exists (peer, old). split; [|done]. cbn [fst snd]. by case_decide.
Qed.

Lemma subscribed_connect peer key p ps :
  ps_subscribed peer key (MkPubSub (ps_topics ps) (ps_clients ps ++ [(p, ∅)])) ↔
    ps_subscribed peer key ps.
Proof.
  unfold ps_subscribed. cbn [ps_clients]. split.
  - intros (subs & [Hin|[= -> ->]%list_elem_of_singleton]%elem_of_app & Hk); [eauto|].
    by apply elem_of_empty in Hk.
  - intros (subs & Hin & Hk). exists subs. by rewrite elem_of_app; auto.
Qed.

Lemma subscribed_disconnect peer key p ps :
  ps_subscribed peer key
    (MkPubSub (ps_topics ps) (filter (λ x, x.1 ≠ p) (ps_clients ps))) ↔
    p ≠ peer ∧ ps_subscribed peer key ps.
Proof.
  unfold ps_subscribed. cbn [ps_clients]. setoid_rewrite list_elem_of_filter.
  cbn [fst]. naive_solver.
Qed.

(** A peer updates its own subscriptions by [f], which decides [key] as [b]
    or leaves it. *)
Lemma subscribed_update peer key f ps (b : option bool) c was :
  peer ∈ c → ps_conn c ps → (ps_subscribed peer key ps ↔ was = true) →
  (∀ subs, key ∈ f subs ↔
     match b with Some b => b = true | None => key ∈ subs end) →
  (ps_subscribed peer key (ps_update peer f ps) ↔ default was b = true).
Proof.
  intros Hin [_ Hc] Hwas Hf. rewrite ps_subscribed_update.
  setoid_rewrite decide_True; [|done..]. setoid_rewrite Hf.
  destruct b as [b|]; [|done]. simpl. split; [by intros (? & _ & ?)|].
  intros Hb. apply Hc, list_elem_of_fmap in Hin as ([q subs] & -> & Hin). eauto.
Qed.

Lemma subscribed_update_other peer key p f ps :
  p ≠ peer → ps_subscribed peer key (ps_update p f ps) ↔ ps_subscribed peer key ps.
Proof.
  intros Hne. rewrite ps_subscribed_update. unfold ps_subscribed.
  by setoid_rewrite decide_False; [|congruence..].
Qed.

Lemma ps_message_subscribed c p m ps peer key was :
  p ∈ c → ps_conn c ps → (ps_subscribed peer key ps ↔ was = true) →
  (ps_subscribed peer key (fst (ps_message p m ps)) ↔
     (if decide (p = peer) then
        match m with
        | Subscribe k => if decide (k = key) then true else was
        | Unsubscribe k => if decide (k = key) then false else was
        | _ => was
        end
      else was) = true).
Proof.
  intros Hp Hps Hwas. destruct (decide (p = peer)) as [->|Hne].
  2: { destruct m; cbn [ps_message fst]; by rewrite ?subscribed_update_other. }
  destruct m as [| | |k|k|]; cbn [ps_message fst]; try exact Hwas.
  - rewrite (subscribed_update _ _ _ _ (if decide (k = key) then Some true else None)
      c was); [by case_decide|done..|].
    intros subs. rewrite elem_of_union, elem_of_singleton. case_decide; naive_solver.
  - rewrite (subscribed_update _ _ _ _ (if decide (k = key) then Some false else None)
      c was); [by case_decide|done..|].
    intros subs. rewrite elem_of_difference, elem_of_singleton. case_decide; naive_solver.
Qed.

Lemma ps_event_subscribed c ev ps peer key was :
  event_ok c ev = true → ps_conn c ps →
  (ps_subscribed peer key ps ↔ was = true) →
  (ps_subscribed peer key (fst (ps_event ev ps)) ↔ sub_step peer key was ev = true).
Proof.
  intros Hev Hps Hwas.
  destruct ev as [|p|p|p pk]; cbn [ps_event sub_step fst]; [done|..].
  - rewrite subscribed_connect. case_decide as Hp; [subst p|done].
    split; [|done]. intros (subs & Hin & _). apply bool_decide_eq_true in Hev.
    destruct Hev. apply Hps, list_elem_of_fmap. by exists (peer, subs).
  - rewrite subscribed_disconnect. case_decide; naive_solver.
  - apply bool_decide_eq_true in Hev.
    pose proof (λ m, ps_message_subscribed c p m ps peer key was Hev Hps Hwas) as Hm.
    destruct (decode (packet_data pk)) as [m|]; [by rewrite Hm|by case_decide].
Qed.

Lemma ps_events_subscribed c evs ps peer key was :
  events_ok c evs = true → ps_conn c ps → (ps_subscribed peer key ps ↔ was = true) →
  (ps_subscribed peer key (fst (ps_events evs ps)) ↔
     sub_history peer key was evs = true).
Proof.
  revert c ps was. induction evs as [|ev evs IH]; intros c ps was Hev Hps Hwas; [done|].
  cbn [events_ok] in Hev. apply andb_true_iff in Hev as [Hev Hevs].
  pose proof (ps_event_conn _ _ _ Hev Hps) as Hps1.
  pose proof (ps_event_subscribed _ _ _ peer key _ Hev Hps Hwas) as Hsub1.
  cbn [ps_events]. destruct (ps_event ev ps) as [ps1 out1].
  specialize (IH _ ps1 _ Hevs Hps1 Hsub1). by destruct (ps_events evs ps1).
Qed.
End history.

(** ** The refinement over a run *)

Section run.
Context {plat : Platform}.
Implicit Types (s : ServerObj) (ps : PubSub).

Lemma events_ok_app c evs later :
  events_ok c (evs ++ later) = true → events_ok c evs = true.
Proof.
  revert c. induction evs as [|ev evs IH]; intros c; [done|]. cbn [events_ok app].
  rewrite !andb_true_iff. naive_solver.
Qed.

Lemma ready_app s evs later : ready s (evs ++ later) → ready s evs.
Proof.
  intros (Hreg & (Hk & H1 & Hb) & Hev). split_and!; [done| |by eapply events_ok_app].
  split_and!; [done..|]. unfold connects in *. rewrite List.filter_app, length_app in Hb. lia.
Qed.

(** One call of [process], when the events [later] come in later calls. *)
Lemma process_refines_later s ps evs later rest :
  drain (w_service (o_world s)) = (evs, rest) →
  ready s (evs ++ later) → refines s ps →
  (Z.of_nat (length (ps_topics ps) + length evs) < 2 ^ 64)%Z →
  ∃ s', process s = (Ok tt, s') ∧
    ready s' later ∧ refines s' (fst (ps_events evs ps)) ∧
    sends (w_log (o_world s')) =
      sends (w_log (o_world s)) ++ (on_wire <$> snd (ps_events evs ps)) ∧
    w_service (o_world s') = rest ∧ m_server (o_base s') = m_server (o_base s).
Proof.
  intros Hd Hready Href Hb.
  set (I := λ evs' s', (ready s' (evs' ++ later) ∧
    m_server (o_base s') = m_server (o_base s)) ∧ ref_inv (fst (ps_events evs ps))
    (sends (w_log (o_world s)) ++ (on_wire <$> snd (ps_events evs ps))) evs' s').
  assert (Hrun : returns process (λ _ s', ready s' [] ∧ I [] s' ∧
    w_service (o_world s') = snd (drain (w_service (o_world s)))) s).
  { apply process_returns.
    - intros evs' s' rest' ([Hr' ?] & ps' & Hr & ? & ? & Ht).
      split; [split; [by apply ready_polled|done]|].
      exists ps'. split; [by destruct Hr|].
      split; [done|]. split; [done|]. rewrite <-Ht. simpl. by rewrite sends_app, app_nil_r.
    - intros ev evs' s' Hr' [[Hr Hh] HI].
      pose proof (dispatch_ready ev (evs' ++ later) s' Hr) as H1.
      pose proof (dispatch_server ev (evs' ++ later) s' Hr) as H3.
      pose proof (ref_inv_step _ _ _ _ _ Hr' HI) as H2. unfold returns, wp in *.
      destruct (dispatch ev s') as [[[]| | |] s'']; try done.
      split; [split; [by destruct H1 as [[]]|by rewrite H3]|done].
    - rewrite Hd. by eapply ready_app.
    - rewrite Hd. split; [done|]. by exists ps. }
  apply returns_inv in Hrun
    as ([] & s' & Hs' & _ & ([Hl Hm] & ps' & ? & _ & Hf & Ht) & Hser).
  exists s'. rewrite <-Hf, <-Ht, Hser, Hd. split_and!; [done..| |done|done].
  by rewrite app_nil_r.
Qed.

Lemma process_refines s ps evs rest :
  drain (w_service (o_world s)) = (evs, rest) →
  ready s evs → refines s ps →
  (Z.of_nat (length (ps_topics ps) + length evs) < 2 ^ 64)%Z →
  ∃ s', process s = (Ok tt, s') ∧
    registry_ok s' ∧ refines s' (fst (ps_events evs ps)) ∧
    sends (w_log (o_world s')) =
      sends (w_log (o_world s)) ++ (on_wire <$> snd (ps_events evs ps)).
Proof.
  intros Hd Hready Href Hb.
  destruct (process_refines_later s ps evs [] rest Hd) as (s' & ? & (? & _) & ? & ? & _);
    [by rewrite app_nil_r|done..|]. by exists s'.
Qed.

(** The server's record of the subscription of a peer. *)
Definition subscribed s (peer : ENetPeer) (key : Z) : Prop :=
  ∃ k c, m_client_map (o_base s) !! k = Some c ∧ m_peer c = peer ∧
    key ∈ subscribed_topics (m_data c).

Lemma subscribed_refines s ps peer key :
  registry_ok s → refines s ps → (subscribed s peer key ↔ ps_subscribed peer key ps).
Proof.
  intros Hreg [_ Hc]. split.
  - intros (k & c & Hk & <- & Hin).
    assert (Hp : Some k ∈ m_clients (o_base s)).
    { apply (reg_clients _ Hreg). exists k. eauto. }
    apply list_elem_of_lookup in Hp as [i Hi].
    destruct (Forall2_lookup_l _ _ _ _ _ Hc Hi) as ([q subs] & Hq & Hv).
    simpl in Hv. rewrite Hk in Hv. injection Hv as <- <-.
    exists (subscribed_topics (m_data c)). split; [|done]. by eapply list_elem_of_lookup_2.
  - intros (subs & [i Hi]%list_elem_of_lookup & Hin).
    destruct (Forall2_lookup_r _ _ _ _ _ Hc Hi) as (p & _ & Hv).
    apply client_view_Some in Hv as (k & c & -> & Hk & [= -> ->]). by exists k, c.
Qed.

Lemma refines_conn s ps : registry_ok s → refines s ps → ps_conn (conn s) ps.
Proof.
  intros Hreg [_ Hc]. split.
  - apply NoDup_alt. intros i j q Hi Hj.
    rewrite list_lookup_fmap in Hi, Hj.
    apply fmap_Some in Hi as ([q1 s1] & Hi & ->), Hj as ([q2 s2] & Hj & E).
    cbn [fst] in E. subst q2.
    destruct (Forall2_lookup_r _ _ _ _ _ Hc Hi) as (p1 & Hp1 & Hv1).
    destruct (Forall2_lookup_r _ _ _ _ _ Hc Hj) as (p2 & Hp2 & Hv2).
    apply client_view_Some in Hv1 as (k1 & c1 & -> & Hk1 & [= -> ->]).
    apply client_view_Some in Hv2 as (k2 & c2 & -> & Hk2 & [= E ->]).
    apply (client_unique _ _ _ _ _ Hreg Hk1 Hk2) in E as ->.
    eapply NoDup_lookup; [apply Hreg|done..].
  - intros q. rewrite elem_of_conn, list_elem_of_fmap. split.
    + intros (k & c & Hk & <-).
      assert (Hp : Some k ∈ m_clients (o_base s)).
      { apply (reg_clients _ Hreg). exists k. eauto. }
      apply list_elem_of_lookup in Hp as [i Hi].
      destruct (Forall2_lookup_l _ _ _ _ _ Hc Hi) as (x & Hx & Hv).
      simpl in Hv. rewrite Hk in Hv. injection Hv as <-.
      eexists. split; [|by eapply list_elem_of_lookup_2]. done.
    + intros (x & -> & [i Hi]%list_elem_of_lookup).
      destruct (Forall2_lookup_r _ _ _ _ _ Hc Hi) as (p & _ & Hv).
      apply client_view_Some in Hv as (k & c & -> & Hk & ->). eauto.
Qed.

(** The receivers of a publication, one entry each. *)
Lemma ps_receivers_spec c from key ps :
  ps_conn c ps →
  NoDup (ps_receivers from key ps) ∧
  ∀ q, q ∈ ps_receivers from key ps ↔ q ≠ from ∧ ps_subscribed q key ps.
Proof.
  intros [Hnd _]. unfold ps_receivers, ps_subscribed. split.
  - eapply sublist_NoDup; [exact Hnd|]. apply fmap_sublist, sublist_filter.
  - intros q. rewrite list_elem_of_fmap. setoid_rewrite list_elem_of_filter. split.
    + intros ([q' subs] & -> & [? ?] & ?). eauto.
    + intros (Hne & subs & Hin & Hk). by exists (q, subs).
Qed.

(** Any table stands for some service state. *)
Lemma refines_exists s topics :
  registry_ok s → topics_rel (m_topic_map (o_derived s)) topics →
  ∃ cs, refines s (MkPubSub topics cs).
Proof.
  intros Hreg Ht.
  assert (∀ ptrs, (∀ p, p ∈ ptrs → live s p) →
    ∃ cs, Forall2 (λ p c, client_view s p = Some c) ptrs cs) as Hex.
  { induction ptrs as [|p ptrs IH]; intros Hl; [by exists []|].
    destruct IH as [cs Hcs]; [intros q Hq; apply Hl; by right|].
    destruct (Hl p) as (k & -> & [c Hc]); [by left|].
    eexists (_ :: cs). constructor; [|done]. simpl. by rewrite Hc. }
  destruct (Hex (m_clients (o_base s))) as [cs Hcs]; [apply Hreg|].
  by exists cs.
Qed.
End run.

(** ** Publications *)

(** What a publish packet does, whatever else the server is doing. *)
Lemma publish_dispatch {plat : Platform} (s : ServerObj) peer pk key payload topics :
  registry_ok s → topics_rel (m_topic_map (o_derived s)) topics → topics_bound topics →
  peer ∈ conn s → decode (packet_data pk) = Some (Publish key payload) →
  ∃ s' receivers, dispatch (EVENT_RECEIVE peer pk) s = (Ok tt, s') ∧
    sends (w_log (o_world s')) = sends (w_log (o_world s)) ++
      ((λ q, (q, packet (Origin_value Origin_server) (Fanout key payload))) <$> receivers) ∧
    NoDup receivers ∧
    (∀ q, q ∈ receivers ↔ q ≠ peer ∧ subscribed s q key) ∧
    (∀ q k, subscribed s' q k ↔ subscribed s q k).
Proof.
  intros Hreg Ht Hb Hp Hdec.
  destruct (refines_exists s topics Hreg Ht) as [cs Href].
  set (ps := MkPubSub topics cs) in *.
  destruct (connected_client _ _ Hreg Hp) as (ptr & self & Hd & Hself & <- & _).
  destruct (message_effect_refines ptr self (Publish key payload) s ps) as [Hr Hs]; [done..|].
  pose proof (message_effect_frame ptr self (Publish key payload) s) as Hf.
  pose proof (on_message_reaches ptr self (packet_data pk) s Hself
    (λ p, proj1 (reg_clients _ Hreg p))) as Hm. rewrite Hdec in Hm.
  apply returns_inv in Hm as ([] & s1 & Hs1 & Heq).
  eexists _, (ps_receivers (m_peer self) key ps). split.
  { cbn [dispatch]. unfold with_destructor.
    rewrite (bind_Ok _ _ _ _ _ (peer_data_run _ _)), Hd. simpl. by rewrite Hs1. }
  assert (Hreg1 : registry_ok s1).
  { eapply frame_registry_ok; [|exact Hreg]. etrans; [exact Hf|].
    symmetry. by apply equiv_frame. }
  destruct (ps_receivers_spec (conn s) (m_peer self) key ps) as [Hnd Hin];
    [by apply refines_conn|].
  split_and!; [|done| |].
  - cbn. rewrite sends_app, app_nil_r, (equiv_sends _ _ (oequiv_world _ _ Heq)), Hs.
    simpl. by rewrite <-list_fmap_compose.
  - intros q. by rewrite Hin, (subscribed_refines s ps).
  - intros q k. unfold subscribed at 1. cbn.
    change (subscribed s1 q k ↔ subscribed s q k).
    rewrite (subscribed_refines s1 ps), (subscribed_refines s ps); [done..|].
    eapply refines_equiv; [symmetry; exact Heq|]. exact Hr.
Qed.

(** ** Construction *)

Section construction.
Context {plat : Platform} {S : Type} `{!Lens S World}.
Context (create_logger : string → M S Logger).

Definition new_base (port h : Z) : Server ClientData :=
  MkServer (MkAddress (Some ENET_HOST_ANY) port) h ∅ [] 1.

Lemma Server_ctor_Some port h w hosts :
  (0 ≤ port ≤ 65535)%Z → w_hosts w = Some h :: hosts →
  Server_ctor port w = (Ok (new_base port h), world_hosts hosts (world_emit
    (Enet_host_create (Some (MkAddress (Some ENET_HOST_ANY) port)) 8 2) w)).
Proof.
  intros Hp Hh. unfold Server_ctor.
  rewrite (proj2 (Z.ltb_ge port 0)), (proj2 (Z.ltb_ge 65535 port)) by lia.
  cbn [orb]. rewrite uwrap_small by lia.
  unfold enet_host_create, emit, world_of, zoom. run_steps. by rewrite Hh.
Qed.

Lemma Server_ctor_None port w hosts :
  (0 ≤ port ≤ 65535)%Z → w_hosts w = None :: hosts →
  Server_ctor (CD := ClientData) port w = (Throw (runtime_error "Failed to create ENet server"),
    world_hosts hosts (world_emit
      (Enet_host_create (Some (MkAddress (Some ENET_HOST_ANY) port)) 8 2) w)).
Proof.
  intros Hp Hh. unfold Server_ctor.
  rewrite (proj2 (Z.ltb_ge port 0)), (proj2 (Z.ltb_ge 65535 port)) by lia.
  cbn [orb]. rewrite uwrap_small by lia.
  unfold enet_host_create, emit, world_of, zoom. run_steps. by rewrite Hh.
Qed.

Lemma log_run level lg format args (s : S) :
  ∃ s', log level lg format (ret args) s = (Ok tt, s') ∧ world_equiv (lget s') (lget s).
Proof.
  unfold log, emit, zoom. destruct (_ <=? _); eexists; (split; [reflexivity|]); [|done].
  cbn. rewrite lget_lset. apply world_emit_log.
Qed.

Lemma server_ctor_run port h hosts (st : S) :
  (∀ st, ∃ logger st', create_logger "server" st = (Ok logger, st') ∧ lget st' = lget st) →
  (0 ≤ port ≤ 65535)%Z → w_hosts (lget st) = Some h :: hosts →
  ∃ logger s st', BusServer_ctor create_logger port st = (Ok s, st') ∧ o_world s = lget st' ∧
    o_base s = new_base port h ∧
    o_derived s = MkServerData TopicMap_default Constructor_default logger ∧
    sends (w_log (lget st')) = sends (w_log (lget st)) ∧
    w_service (lget st') = w_service (lget st) ∧ w_run (lget st') = w_run (lget st).
Proof.
  intros Hlog Hp Hh. unfold BusServer_ctor, zoom at 1, bind at 1.
  rewrite (Server_ctor_Some port h _ hosts Hp Hh). unfold on_exception.
  set (st1 := lset _ st). destruct (Hlog st1) as (logger & st2 & Hst2 & Hw2).
  exists logger. rewrite (bind_Ok _ _ _ _ _ Hst2).
  destruct (log_run Info logger "Server started on port {}" [to_string_Z port] st2)
    as (st3 & Hst3 & Hw3). rewrite (bind_Ok _ _ _ _ _ Hst3).
  assert (Hw1 : lget st1 = world_hosts hosts (world_emit (Enet_host_create
    (Some (MkAddress (Some ENET_HOST_ANY) port)) 8 2) (lget st)))
    by (unfold st1; by rewrite lget_lset).
  rewrite Hw2, Hw1 in Hw3. eexists _, st3. split; [reflexivity|]. cbn [o_world o_base o_derived].
  split_and!; [done..| | |].
  - rewrite (equiv_sends _ _ Hw3). cbn. by rewrite sends_app, app_nil_r.
  - apply (equiv_service _ _ Hw3).
  - apply (equiv_run _ _ Hw3).
Qed.

Lemma new_server_ready logger (s : ServerObj) port h evs :
  o_base s = new_base port h →
  o_derived s = MkServerData TopicMap_default Constructor_default logger →
  (Z.of_nat (connects evs) < 2 ^ 64 - 1)%Z → events_ok ∅ evs = true →
  ready s evs ∧ refines s PubSub_empty.
Proof.
  destruct s as [w b d]. cbn. intros -> -> Hn Hev. split; [split_and!|].
  - split; simpl; [constructor| |done].
    intros p. split; [by intros ?%elem_of_nil|by intros (? & -> & ? & ?)].
  - split; [by intros ? []|]. simpl. lia.
  - done.
  - split; [apply topics_rel_default|constructor].
Qed.
End construction.

(** ** Properties *)

(** C1: [Server::process] implements the publish/subscribe service.  On
    every run of events that ENet's connection protocol allows (packets may
    hold any bytes), the loop returns, the server stands for the state the
    service reaches, and the packets it sends to its peers are exactly the
    service's messages, in order, encoded by the wire protocol. *)
Theorem server_implements_pubsub {plat : Platform} (s : ServerObj) ps evs rest :
  drain (w_service (o_world s)) = (evs, rest) →
  ready s evs → refines s ps →
  (Z.of_nat (length (ps_topics ps) + length evs) < 2 ^ 64)%Z →
  ∃ s', process s = (Ok tt, s') ∧
    registry_ok s' ∧ refines s' (fst (ps_events evs ps)) ∧
    sends (w_log (o_world s')) =
      sends (w_log (o_world s)) ++ (on_wire <$> snd (ps_events evs ps)).
Proof. apply process_refines. Qed.

(** C10: after any run from a server without clients, the server holds a
    peer as subscribed to a key exactly when the peer's history says so: its
    last subscribe or unsubscribe for the key since its last connection was a
    subscribe, and it has not disconnected since. *)
Theorem subscriptions_follow_history {plat : Platform} (s : ServerObj) topics evs rest :
  drain (w_service (o_world s)) = (evs, rest) →
  ready s evs → refines s (MkPubSub topics []) →
  (Z.of_nat (length topics + length evs) < 2 ^ 64)%Z →
  ∃ s', process s = (Ok tt, s') ∧
    ∀ peer key, subscribed s' peer key ↔ sub_history peer key false evs = true.
Proof.
  intros Hd Hready Href Hb.
  destruct (process_refines s _ evs rest Hd Hready Href Hb) as (s' & Hs' & Hreg & Href' & _).
  exists s'. split; [done|]. intros peer key. rewrite (subscribed_refines _ _ _ _ Hreg Href').
  destruct Hready as (Hreg0 & _ & Hev).
  apply (ps_events_subscribed (conn s)); [done|by apply refines_conn|].
  split; [|done]. by intros (subs & ?%elem_of_nil & _).
Qed.

(** C9: a published payload goes to every other client subscribed to the
    key, once each, and to nobody else (not to the publisher): each gets a
    fanout packet with the key and the payload unchanged, and nobody's
    subscriptions change. *)
Theorem publish_reaches_exactly_subscribers {plat : Platform} (s : ServerObj)
    peer pk key payload topics :
  registry_ok s → topics_rel (m_topic_map (o_derived s)) topics → topics_bound topics →
  peer ∈ conn s → decode (packet_data pk) = Some (Publish key payload) →
  ∃ s' receivers, dispatch (EVENT_RECEIVE peer pk) s = (Ok tt, s') ∧
    sends (w_log (o_world s')) = sends (w_log (o_world s)) ++
      ((λ q, (q, packet (Origin_value Origin_server) (Fanout key payload))) <$> receivers) ∧
    NoDup receivers ∧
    (∀ q, q ∈ receivers ↔ q ≠ peer ∧ subscribed s q key) ∧
    (∀ q k, subscribed s' q k ↔ subscribed s q k).
Proof. apply publish_dispatch. Qed.

(** A topic request is answered to its sender alone, at once, with the
    topic's key and name; afterwards the registry holds that key for the
    topic, and every topic that had a key keeps it. *)
Theorem topic_request_answered {plat : Platform} (s : ServerObj) peer pk name :
  registry_ok s → peer ∈ conn s → decode (packet_data pk) = Some (Topic_request name) →
  ∃ s' key, dispatch (EVENT_RECEIVE peer pk) s = (Ok tt, s') ∧
    sends (w_log (o_world s')) = sends (w_log (o_world s)) ++
      [on_wire (peer, Topic_response key name)] ∧
    TopicMap_get name (m_topic_map (o_derived s')) = Some key ∧
    (∀ topic k, TopicMap_get topic (m_topic_map (o_derived s)) = Some k →
       TopicMap_get topic (m_topic_map (o_derived s')) = Some k).
Proof.
  intros Hreg Hp Hdec.
  destruct (connected_client _ _ Hreg Hp) as (ptr & self & Hd & Hself & <- & _).
  pose proof (on_message_reaches ptr self (packet_data pk) s Hself
    (λ p, proj1 (reg_clients _ Hreg p))) as Hm. rewrite Hdec in Hm. cbn in Hm.
  destruct (topic_answer name (m_topic_map (o_derived s))) as [key t] eqn:Ea.
  apply returns_inv in Hm as ([] & s1 & Hs1 & Heq).
  eexists _, key. split.
  { cbn [dispatch]. unfold with_destructor.
    rewrite (bind_Ok _ _ _ _ _ (peer_data_run _ _)), Hd. simpl. by rewrite Hs1. }
  cbn [o_world o_derived lset obj_world_lens lget].
  rewrite <-(oequiv_derived _ _ (symmetry Heq)). cbn.
  unfold topic_answer in Ea. unfold TopicMap_get. split_and!.
  - rewrite sends_app, app_nil_r, (equiv_sends _ _ (oequiv_world _ _ Heq)). cbn.
    by rewrite !sends_app, app_nil_r.
  - destruct (m_map _ !! name) eqn:E; injection Ea as <- <-; [done|].
    apply lookup_insert_eq.
  - intros topic k Hk. destruct (m_map _ !! name) eqn:E; injection Ea as <- <-; [done|].
    simpl. rewrite lookup_insert_ne; [done|congruence].
Qed.

(** A packet shorter than the header is dropped: the only effect of
    [on_message] is one warning with the client, the size expected and the
    size received; nothing is sent. *)
Theorem malformed_packet_ignored {plat : Platform} (s : ServerObj) key c data :
  m_client_map (o_base s) !! key = Some c → length data < sizeof_Header →
  BusServer_on_message (Some key) data s =
    (Ok tt, lset (world_emit (Quill_log (logger_name (m_logger (o_derived s))) Warning
      "Ignoring malformed packet from client {}: expected at least {} bytes, got {}"
      [to_string_Z (m_id c); "16"; to_string_Z (Z.of_nat (length data))])
      (o_world s)) s).
Proof.
  intros Hc Hlen. unfold BusServer_on_message.
  rewrite (proj2 (Nat.ltb_lt _ _) Hlen). unfold LOG, ClassLogger_logger.
  rewrite (bind_Ok (gets _) _ s _ s eq_refl). unfold log.
  replace (_ <=? _) with true by by destruct (logger_level _).
  rewrite (bind_Ok _ _ s [to_string_Z (m_id c); "16"; to_string_Z (Z.of_nat (length data))] s).
  - done.
  - by rewrite (bind_Ok _ _ _ _ _ (id_arg_run _ _ _ Hc)).
Qed.

(** The server looks only at the message a packet holds: two packets
    with the same type, key and payload have the same effect whatever their
    version, origin and reserved fields, and a packet without a client's
    message (unknown type, or a type only the server sends) has none. *)
Theorem header_fields_ignored {plat : Platform} (s : ServerObj) key c data1 data2 :
  registry_ok s → m_client_map (o_base s) !! key = Some c →
  decode data1 = decode data2 →
  ∃ s1 s2, BusServer_on_message (Some key) data1 s = (Ok tt, s1) ∧
    BusServer_on_message (Some key) data2 s = (Ok tt, s2) ∧
    (s1 ≈ s2)%cpp ∧
    (match decode data1 with
     | Some (Topic_request _ | Publish _ _ | Subscribe _ | Unsubscribe _) => True
     | _ => (s1 ≈ s)%cpp
     end).
Proof.
  intros Hreg Hc Hdec.
  assert (Hlive : ∀ p, p ∈ m_clients (o_base s) → live s p) by apply Hreg.
  pose proof (on_message_reaches key c data1 s Hc Hlive) as H1.
  pose proof (on_message_reaches key c data2 s Hc Hlive) as H2.
  rewrite <-Hdec in H2.
  apply returns_inv in H1 as ([] & s1 & Hs1 & H1).
  apply returns_inv in H2 as ([] & s2 & Hs2 & H2).
  exists s1, s2. split_and!; [done..| |].
  - rewrite H1. by symmetry.
  - by destruct (decode data1) as [[]|].
Qed.

(** The constructor on a valid port, with a host from ENet, yields a
    server bound to the port that stands for the empty service and is ready
    for the events that follow; without a host it throws. *)
Theorem server_starts_empty {plat : Platform} {S} `{!Lens S World}
    (create_logger : string → M S Logger) port h hosts (st : S) evs :
  (∀ st, ∃ logger st', create_logger "server" st = (Ok logger, st') ∧ lget st' = lget st) →
  (0 ≤ port ≤ 65535)%Z → w_hosts (lget st) = h :: hosts →
  (Z.of_nat (connects evs) < 2 ^ 64 - 1)%Z →
  events_ok ∅ evs = true →
  match h with
  | Some _ => ∃ s st', BusServer_ctor create_logger port st = (Ok s, st') ∧
      ready s evs ∧ refines s PubSub_empty ∧
      m_address (o_base s) = MkAddress (Some ENET_HOST_ANY) port ∧
      o_world s = lget st' ∧ sends (w_log (lget st')) = sends (w_log (lget st))
  | None => ∃ st', BusServer_ctor create_logger port st =
      (Throw (runtime_error "Failed to create ENet server"), st')
  end.
Proof.
  intros Hlog Hp Hh Hn Hev. destruct h as [h|].
  - destruct (server_ctor_run create_logger port h hosts st Hlog Hp Hh)
      as (logger & s & st' & Hs & Hw & Hb & Hd & Hsends & _).
    destruct (new_server_ready logger s port h evs Hb Hd Hn Hev) as [Hr Href].
    exists s, st'. split_and!; try done. by rewrite Hb.
  - unfold BusServer_ctor. erewrite bind_Throw; [by eexists|].
    unfold zoom. by rewrite (Server_ctor_None port _ hosts Hp Hh).
Qed.

(** ** Witnesses: two clients, a subscription and a publication *)

Section witnesses.
#[local] Instance x86 : Platform := little_endian.

Definition from_client (m : bus_msg) : list byte := packet (Origin_value Origin_client) m.

Definition sample_run : list ENetEvent :=
  [EVENT_CONNECT 40; EVENT_CONNECT 41;
   EVENT_RECEIVE 41 (MkPacket 7 (from_client (Topic_request "alerts")));
   EVENT_RECEIVE 41 (MkPacket 8 (from_client (Subscribe 1)));
   EVENT_RECEIVE 40 (MkPacket 9 [x00; x01]);
   EVENT_RECEIVE 40 (MkPacket 10 (from_client (Publish 1 [x68; x69])))].

Definition sample_world : World :=
  MkWorld 0 (λ _, None) [Some 3%Z] [] ((λ ev, (1%Z, ev)) <$> sample_run) ∅
    (λ _, None) 0 [].

Definition sample_logger : Logger := MkLogger "server" (ConsoleSink "default") Info.

Definition sample_server : ServerObj :=
  MkObj sample_world (MkServer (MkAddress (Some 0%Z) 6767) 3 ∅ [] 1)
    (MkServerData TopicMap_default Constructor_default sample_logger).

(** The same server with the two clients connected and one subscribed. *)
Definition sample_server_2 : ServerObj :=
  MkObj (world_peer_data {[40 := Some 1; 41 := Some 2]}%Z sample_world)
    (MkServer (MkAddress (Some 0%Z) 6767) 3
       {[1%Z := MkClient 1 40 3 (MkClientData ∅);
         2%Z := MkClient 2 41 3 (MkClientData {[1%Z]})]} [Some 1; Some 2]%Z 3)
    (MkServerData TopicMap_default Constructor_default sample_logger).

Lemma sample_ready : ready sample_server sample_run.
Proof.
  split_and!.
  - split; simpl; [constructor| |done].
    intros p. split; [by intros ?%elem_of_nil|by intros (? & -> & ? & ?)].
  - split; [by intros ? []|]. vm_compute. done.
  - vm_compute. reflexivity.
Qed.

Lemma sample_refines : refines sample_server PubSub_empty.
Proof. split; [apply topics_rel_default|constructor]. Qed.

Lemma sample_2_clients key c :
  m_client_map (o_base sample_server_2) !! key = Some c →
  (key = 1 ∧ c = MkClient 1 40 3 (MkClientData ∅) ∨
   key = 2 ∧ c = MkClient 2 41 3 (MkClientData {[1]}))%Z.
Proof.
  simpl. rewrite lookup_insert. case_decide; [naive_solver|].
  rewrite lookup_singleton. case_decide; naive_solver.
Qed.

Lemma sample_2_subscribed q : subscribed sample_server_2 q 1 ↔ q = 41%Z.
Proof.
  split.
  - intros (key & c & [[_ ->]|[_ ->]]%sample_2_clients & <- & Hin); [|done].
    by apply elem_of_empty in Hin.
  - intros ->. exists 2%Z, (MkClient 2 41 3 (MkClientData {[1%Z]})).
    split_and!; [by vm_compute|done|].
    cbn [m_data subscribed_topics]. set_solver.
Qed.

Lemma sample_2_registry : registry_ok sample_server_2.
Proof.
  pose proof sample_2_clients as Hmap. split.
  - simpl. apply (bool_decide_unpack _). vm_compute. exact I.
  - intros p. unfold live. change (m_clients _) with [Some 1; Some 2]%Z.
    rewrite !elem_of_cons, elem_of_nil. split.
    + intros [->|[->|[]]]; (eexists; split; [done|]); vm_compute; by eexists.
    + intros (key & -> & c & [[-> _]|[-> _]]%Hmap); auto.
  - intros key c [[-> ->]|[-> ->]]%Hmap; by vm_compute.
Qed.

Lemma server_implements_pubsub_witness :
  ∃ s', process sample_server = (Ok tt, s') ∧
    sends (w_log (o_world s')) =
      [(41%Z, packet x02 (Topic_response 1 "alerts"));
       (41%Z, packet x02 (Fanout 1 [x68; x69]))].
Proof.
  destruct (server_implements_pubsub sample_server PubSub_empty sample_run [])
    as (s' & Hs' & _ & _ & Hsends).
  - vm_compute. reflexivity.
  - apply sample_ready.
  - apply sample_refines.
  - vm_compute. reflexivity.
  - exists s'. split; [exact Hs'|]. rewrite Hsends. vm_compute. reflexivity.
Defined.

Lemma subscriptions_follow_history_witness :
  ∃ s', process sample_server = (Ok tt, s') ∧ subscribed s' 41 1 ∧ ¬ subscribed s' 40 1.
Proof.
  destruct (subscriptions_follow_history sample_server [] sample_run [])
    as (s' & Hs' & Hsub).
  - vm_compute. reflexivity.
  - apply sample_ready.
  - apply sample_refines.
  - vm_compute. reflexivity.
  - exists s'. split; [exact Hs'|]. rewrite !Hsub. vm_compute. split; [reflexivity|discriminate].
Defined.

Lemma publish_reaches_exactly_subscribers_witness :
  ∃ s' receivers,
    dispatch (EVENT_RECEIVE 40 (MkPacket 10 (from_client (Publish 1 [x68; x69]))))
      sample_server_2 = (Ok tt, s') ∧
    sends (w_log (o_world s')) =
      [] ++ ((λ q, (q, packet (Origin_value Origin_server) (Fanout 1 [x68; x69])))
               <$> receivers) ∧
    NoDup receivers ∧
    (∀ q, q ∈ receivers ↔ q ≠ 40%Z ∧ subscribed sample_server_2 q 1) ∧
    (∀ q k, subscribed s' q k ↔ subscribed sample_server_2 q k).
Proof.
  apply (publish_reaches_exactly_subscribers sample_server_2 40 _ 1 [x68; x69] []).
  - apply sample_2_registry.
  - apply topics_rel_default.
  - done.
  - apply (bool_decide_unpack _). vm_compute. exact I.
  - vm_compute. reflexivity.
Defined.

Lemma topic_request_answered_witness :
  ∃ s' key,
    dispatch (EVENT_RECEIVE 41 (MkPacket 7 (from_client (Topic_request "alerts"))))
      sample_server_2 = (Ok tt, s') ∧
    sends (w_log (o_world s')) =
      [] ++ [(41%Z, packet (Origin_value Origin_server) (Topic_response key "alerts"))] ∧
    TopicMap_get "alerts" (m_topic_map (o_derived s')) = Some key ∧
    (∀ topic k, TopicMap_get topic (m_topic_map (o_derived sample_server_2)) = Some k →
       TopicMap_get topic (m_topic_map (o_derived s')) = Some k).
Proof.
  apply (topic_request_answered sample_server_2 41
    (MkPacket 7 (from_client (Topic_request "alerts"))) "alerts").
  - apply sample_2_registry.
  - apply (bool_decide_unpack _). vm_compute. exact I.
  - vm_compute. reflexivity.
Defined.

Lemma malformed_packet_ignored_witness :
  BusServer_on_message (Some 1%Z) [x00; x01] sample_server_2 =
    (Ok tt, lset (world_emit (Quill_log "server" Warning
      "Ignoring malformed packet from client {}: expected at least {} bytes, got {}"
      ["1"; "16"; "2"]) (o_world sample_server_2)) sample_server_2).
Proof.
  rewrite (malformed_packet_ignored sample_server_2 1
    (MkClient 1 40 3 (MkClientData ∅)) [x00; x01]).
  - vm_compute. reflexivity.
  - vm_compute. reflexivity.
  - simpl. unfold sizeof_Header. lia.
Defined.

(** A packet from a newer client: another version, another origin. *)
Lemma header_fields_ignored_witness :
  ∃ s1 s2,
    BusServer_on_message (Some 1%Z) (from_client (Subscribe 5)) sample_server_2 = (Ok tt, s1) ∧
    BusServer_on_message (Some 1%Z)
      (Header_bytes (MkHeader 9 2 x03 x04 (host_to_network64 5))) sample_server_2 =
        (Ok tt, s2) ∧ (s1 ≈ s2)%cpp.
Proof.
  destruct (header_fields_ignored sample_server_2 1 (MkClient 1 40 3 (MkClientData ∅))
    (from_client (Subscribe 5)) (Header_bytes (MkHeader 9 2 x03 x04 (host_to_network64 5))))
    as (s1 & s2 & H1 & H2 & H & _).
  - apply sample_2_registry.
  - vm_compute. reflexivity.
  - vm_compute. reflexivity.
  - by exists s1, s2.
Defined.

Lemma server_starts_empty_witness :
  ∃ s w', BusServer_ctor (λ _, ret sample_logger) 6767 sample_world = (Ok s, w') ∧
    ready s sample_run ∧ refines s PubSub_empty ∧
    m_address (o_base s) = MkAddress (Some 0%Z) 6767 ∧ o_world s = w' ∧
    sends (w_log w') = [].
Proof.
  destruct (server_starts_empty (λ _, ret sample_logger) 6767 (Some 3%Z) []
    sample_world sample_run) as (s & w' & Hs & Hr & Href & Ha & Hw & Hsends).
  - intros w. by exists sample_logger, w.
  - lia.
  - reflexivity.
  - vm_compute. reflexivity.
  - vm_compute. reflexivity.
  - exists s, w'. by split_and!.
Defined.
End witnesses.
