(* ===== verification/Daemon.v ===== *)
(** * The server program (include/spraybus/server/logging.hpp,
      src/spraybus/server/logging.cpp, drivers/main.cpp)

    Logger creation, and [main]: the environment gives the port, and the
    server polls until SIGINT.  Quill is a parameter: the functions that
    register sinks and loggers. *)

From Stdlib.Strings Require Import Byte.
From stdpp Require Import base gmap sets list strings.
From S2P Require Import Prelude Protocol TopicMap World Common NetServer BusServer.

(** ** logging.cpp *)

(** The state of the process: the world, the static variable [logfile], and
    the state of quill. *)
Record Process (Q : Type) : Type := MkProcess {
  p_world : World;
  p_logfile : option string;
  p_quill : Q;
}.
Arguments MkProcess {Q}.
Arguments p_world {Q}.
Arguments p_logfile {Q}.
Arguments p_quill {Q}.

#[export] Instance process_world_lens Q : Lens (Process Q) World.
Proof.
  refine {| lget := p_world; lset := λ w p, MkProcess w (p_logfile p) (p_quill p) |};
    by intros; destruct s.
Defined.

Section logging.
Context {Q : Type}.
(** [quill::Frontend::create_or_get_logger] over [create_or_get_sink]. *)
Context (create_or_get_logger : string → Sink → Q → Logger * Q).

Definition init_logging : M (Process Q) unit := emit Quill_backend_start.

Definition set_logfile (filename : string) : M (Process Q) unit :=
  modify (λ p, MkProcess (p_world p) (Some filename) (p_quill p)).

Definition quill_logger (name : string) (sink : Sink) : M (Process Q) Logger := λ p,
  let r := create_or_get_logger name sink (p_quill p) in
  (Ok (fst r), MkProcess (p_world p) (p_logfile p) (snd r)).

Definition create_logger (name : string) : M (Process Q) Logger :=
  let! logfile := gets p_logfile in
  match logfile with
  | Some logfile => quill_logger name (FileSink logfile)
  | None => quill_logger name (ConsoleSink "default")
  end.
End logging.

(** ** main.cpp *)

Section main.
Context {plat : Platform} {Q : Type}.
Context (create_or_get_logger : string → Sink → Q → Logger * Q).

(** Code on the server object, which holds the world while it runs. *)
Definition on_server {A} (m : M ServerObj A) (s : ServerObj) : M (Process Q) (A * ServerObj) :=
  λ p, match m (lset (p_world p) s) with
       | (Ok a, s') => (Ok (a, s'), lset (o_world s') p)
       | (Throw e, s') => (Throw e, lset (o_world s') p)
       | (Undefined, s') => (Undefined, lset (o_world s') p)
       | (OutOfFuel, s') => (OutOfFuel, lset (o_world s') p)
       end.

(** An exception leaves [main] and ends the process. *)
Definition server_main : M (Process Q) Z :=
  let! value := get_env_or "SPRAYBUS_PORT" "6767" in
  let! port := of_outcome (stoi value) in
  init_logging ;;;
  networking_init ;;;
  let! server := BusServer_ctor (create_logger create_or_get_logger) port.1 in
  let! r := on_server (run_forever process) server in
  let! _ := on_server BusServer_dtor r.2 in
  ret 0%Z.
End main.

(** ** Lemmas: the server never reads [should_run] *)

Section server_keeps.
Context {plat : Platform}.

Lemma keeps_base (f : Server ClientData → Server ClientData) :
  keeps_runs (base (D := ServerData) f).
Proof. apply keeps_part. by intros. Qed.

Lemma keeps_deref p : keeps_runs (deref (CD := ClientData) (D := ServerData) p).
Proof.
  intros s. unfold deref. destruct p as [key|]; [|done].
  by destruct (m_client_map (o_base s) !! key).
Qed.

#[local] Hint Resolve keeps_base keeps_deref : keeps.

Lemma keeps_update_data p f : keeps_runs (update_data (CD := ClientData) (D := ServerData) p f).
Proof. unfold update_data. keeps fail. Qed.

Lemma keeps_Client_send p m : keeps_runs (Client_send (CD := ClientData) (D := ServerData) p m).
Proof. unfold Client_send, enet_peer_send, enet_host_flush. keeps fail. Qed.

Lemma keeps_id_arg p : keeps_runs (id_arg p).
Proof. unfold id_arg. keeps fail. Qed.

#[local] Hint Resolve keeps_update_data keeps_Client_send keeps_id_arg : keeps.

Lemma keeps_LOG level f a : keeps_runs a → keeps_runs (LOG level f a).
Proof. intros. unfold LOG, ClassLogger_logger. keeps ltac:(apply keeps_log). Qed.

Lemma keeps_forward c k d p : keeps_runs (forward c k d p).
Proof. unfold forward. keeps ltac:(apply keeps_log). Qed.

#[local] Hint Resolve keeps_forward : keeps.

Lemma keeps_on_message p m : keeps_runs (BusServer_on_message p m).
Proof.
  unfold BusServer_on_message, clients.
  keeps ltac:(first [apply keeps_log|apply keeps_part; by intros]).
Qed.

Lemma keeps_create_client peer :
  keeps_runs (create_client (CD := ClientData) (D := ServerData) peer).
Proof. unfold create_client. keeps fail. Qed.

Lemma keeps_destroy_client p :
  keeps_runs (destroy_client (CD := ClientData) (D := ServerData) p).
Proof. unfold destroy_client. keeps fail. Qed.

#[local] Hint Resolve keeps_on_message keeps_create_client keeps_destroy_client : keeps.

Lemma keeps_dispatch ev : keeps_runs (dispatch (CD := ClientData) (D := ServerData) ev).
Proof.
  unfold dispatch, peer_data, on_connect, on_disconnect, on_message, BusServer_derived,
    BusServer_on_connect, BusServer_on_disconnect.
  keeps ltac:(apply keeps_log).
Qed.

Lemma keeps_process_loop fuel :
  keeps_runs (process_loop (CD := ClientData) (D := ServerData) fuel).
Proof.
  pose proof keeps_dispatch. induction fuel as [|fuel IH]; cbn [process_loop]; keeps fail.
Qed.

Lemma keeps_process : keeps_runs (process (CD := ClientData) (D := ServerData)).
Proof.
  unfold process. pose proof keeps_process_loop. apply keeps_bind; [done|intros _]. keeps fail.
Qed.
End server_keeps.

(** ** Specification: the polls of a run *)

(** The events that [n] calls of [process] take from the results of ENet. *)
Fixpoint polls (n : nat) (results : list (Z * ENetEvent)) :
    list ENetEvent * list (Z * ENetEvent) :=
  match n with
  | O => ([], results)
  | S n' =>
      (fst (drain results) ++ fst (polls n' (snd (drain results))),
       snd (polls n' (snd (drain results))))
  end.

Section serve.
Context {plat : Platform}.
Implicit Types (s : ServerObj) (ps : PubSub).

(** Changing parts of the world that the table of clients does not use. *)
Lemma ready_world w s evs :
  w_peer_data w = w_peer_data (o_world s) → ready s evs → ready (lset w s) evs.
Proof.
  intros Hw ([] & Hids & Hev). split_and!; [|done|done]. split; [done|done|].
  cbn. by rewrite Hw.
Qed.

(** The run loop of the server, over [n] polls. *)
Lemma serve n s ps :
  let evs := fst (polls n (w_service (o_world s))) in
  ready s evs → refines s ps →
  (Z.of_nat (length (ps_topics ps) + length evs) < 2 ^ 64)%Z →
  ∃ s', iterations n process s = (Ok tt, s') ∧
    refines s' (fst (ps_events evs ps)) ∧
    sends (w_log (o_world s')) =
      sends (w_log (o_world s)) ++ (on_wire <$> snd (ps_events evs ps)) ∧
    m_server (o_base s') = m_server (o_base s).
Proof.
  revert s ps. induction n as [|n IH]; intros s ps; cbn [polls iterations fst].
  { intros _ Href _. exists s. by rewrite app_nil_r. }
  intros Hready Href Hb. rewrite length_app in Hb.
  set (s1 := lset (world_run n (o_world s)) s).
  destruct (drain (w_service (o_world s))) as [evs rest] eqn:Hd. cbn [fst snd] in *.
  destruct (process_refines_later s1 ps evs (fst (polls n rest)) rest)
    as (s2 & Hs2 & Hready2 & Href2 & Hsends2 & Hser2 & Hm2);
    [done|by apply ready_world|by destruct Href|lia|].
  pose proof (ps_events_topics evs ps). rewrite <-Hser2 in Hready2.
  destruct (IH s2 (fst (ps_events evs ps))) as (s3 & Hs3 & Href3 & Hsends3 & Hm3);
    [done|done|rewrite Hser2; lia|].
  exists s3. rewrite Hser2 in Href3, Hsends3. rewrite ps_events_app. split_and!.
  - rewrite (bind_Ok _ _ s tt s2); [done|]. unfold iteration.
    by rewrite (bind_Ok _ _ s tt s1).
  - done.
  - rewrite Hsends3, Hsends2. cbn [snd]. by rewrite fmap_app, app_assoc.
  - by rewrite Hm3, Hm2.
Qed.
End serve.

(** ** Lemmas on main *)

Section main_lemmas.
Context {plat : Platform} {Q : Type}.
Context (create_or_get_logger : string → Sink → Q → Logger * Q).
Implicit Types (p : Process Q).

Lemma create_logger_run name p :
  create_logger create_or_get_logger name p =
    let sink := match p_logfile p with
                | Some f => FileSink f
                | None => ConsoleSink "default"
                end in
    let r := create_or_get_logger name sink (p_quill p) in
    (Ok (fst r), MkProcess (p_world p) (p_logfile p) (snd r)).
Proof.
  by destruct p as [w [f|] q].
Qed.

Lemma get_env_or_run name d p :
  get_env_or name d p = (Ok (default d (w_env (p_world p) name)), p).
Proof. unfold get_env_or, getenv, bind, gets, world_of. cbn. by destruct (w_env _ _). Qed.

Lemma networking_init_process p :
  networking_init p =
    if (w_initialize (p_world p) =? 0)%Z then
      (Ok tt, lset (world_emit Atexit_enet_deinitialize
                      (world_emit Enet_initialize (p_world p))) p)
    else (Throw (runtime_error "Failed to initialize ENet"),
          lset (world_emit Enet_initialize (p_world p)) p).
Proof.
  rewrite networking_init_run. unfold init_outcome, init_world. cbn [lget process_world_lens].
  by destruct (w_initialize (p_world p) =? 0)%Z.
Qed.

Lemma create_logger_main p port h hosts :
  (0 ≤ port ≤ 65535)%Z → w_hosts (p_world p) = Some h :: hosts →
  ∃ s p' logger, BusServer_ctor (create_logger create_or_get_logger) port p = (Ok s, p') ∧
    o_world s = p_world p' ∧ o_base s = new_base port h ∧
    o_derived s = MkServerData TopicMap_default Constructor_default logger ∧
    sends (w_log (p_world p')) = sends (w_log (p_world p)) ∧
    w_service (p_world p') = w_service (p_world p) ∧
    w_run (p_world p') = w_run (p_world p).
Proof.
  intros Hp Hh.
  destruct (server_ctor_run (create_logger create_or_get_logger) port h hosts p)
    as (logger & s & p' & ?); [|done..|by exists s, p', logger].
  intros st. rewrite create_logger_run. by eexists _, _.
Qed.

Lemma connects_length evs : connects evs ≤ length evs.
Proof. apply List.filter_length_le. Qed.

Lemma BusServer_dtor_run (s : ServerObj) :
  ∃ s', BusServer_dtor s = (Ok tt, s') ∧
    world_equiv (o_world s')
      (world_emit (Enet_host_destroy (m_server (o_base s))) (o_world s)) ∧
    last (w_log (o_world s')) = Some (Enet_host_destroy (m_server (o_base s))).
Proof.
  unfold BusServer_dtor, LOG.
  destruct (log_run Info (m_logger (o_derived s)) "Server shutting down" [] s)
    as (s1 & Hs1 & Hw1).
  assert (Hb : o_base s1 = o_base s).
  { revert Hs1. unfold log, emit, zoom. destruct (_ <=? _); by intros [= <-]. }
  rewrite (bind_Ok _ _ s tt s1) by by rewrite <-Hs1.
  unfold Server_dtor, emit, zoom, bind, gets, modify. cbn. eexists; split; [done|].
  rewrite Hb. cbn. split; [|apply last_snoc]. by rewrite Hw1.
Qed.

(** What the program does once its server is built. *)
Lemma server_run p (s : ServerObj) ps :
  let evs := fst (polls (w_run (p_world p)) (w_service (p_world p))) in
  ready s evs → o_world s = p_world p → refines s ps →
  (Z.of_nat (length (ps_topics ps) + length evs) < 2 ^ 64)%Z →
  ∃ p', (let! r := on_server (run_forever process) s in
         let! _ := on_server BusServer_dtor r.2 in
         ret 0%Z) p = (Ok 0%Z, p') ∧
    sends (w_log (p_world p')) =
      sends (w_log (p_world p)) ++ (on_wire <$> snd (ps_events evs ps)) ∧
    last (w_log (p_world p')) = Some (Enet_host_destroy (m_server (o_base s))).
Proof.
  intros evs Hready Hw Href Hb.
  set (s1 := lset (world_emit Install_sigint_handler (p_world p)) s).
  destruct (serve (w_run (p_world p)) s1 ps) as (s2 & Hs2 & Href2 & Hsends2 & Hm2);
    [by apply ready_world; [rewrite Hw|]|by destruct Href|done|].
  destruct (BusServer_dtor_run s2) as (s3 & Hs3 & Hw3 & Hlast3).
  set (p2 := lset (o_world s2) p).
  rewrite (bind_Ok _ _ p (tt, s2) p2).
  2: { unfold on_server. rewrite run_forever_run by apply keeps_process.
       unfold runs_left. cbn [lget obj_world_lens o_world lset].
       change (MkObj _ (o_base _) (o_derived _)) with s1. by rewrite Hs2. }
  cbn [snd]. rewrite (bind_Ok _ _ p2 (tt, s3) (lset (o_world s3) p2)).
  2: { unfold on_server. replace (lset (p_world p2) s2) with s2 by by destruct s2.
       by rewrite Hs3. }
  eexists; split; [reflexivity|]. cbn [p_world lset process_world_lens]. split.
  - rewrite (equiv_sends _ _ Hw3). cbn. rewrite sends_app, app_nil_r, Hsends2. cbn.
    by rewrite sends_app, app_nil_r.
  - by rewrite Hlast3, Hm2.
Qed.

(** The whole program. *)
Lemma server_main_run p port parsed h hosts :
  let w := p_world p in
  let evs := fst (polls (w_run w) (w_service w)) in
  stoi (default "6767" (w_env w "SPRAYBUS_PORT")) = Ok (port, parsed) →
  (0 ≤ port ≤ 65535)%Z → w_initialize w = 0%Z → w_hosts w = Some h :: hosts →
  events_ok ∅ evs = true → (Z.of_nat (length evs) < 2 ^ 64 - 1)%Z →
  ∃ p', server_main create_or_get_logger p = (Ok 0%Z, p') ∧
    sends (w_log (p_world p')) =
      sends (w_log w) ++ (on_wire <$> snd (ps_events evs PubSub_empty)) ∧
    last (w_log (p_world p')) = Some (Enet_host_destroy h).
Proof.
  intros w evs Hport Hp Hinit Hh Hev Hlen. unfold server_main.
  rewrite (bind_Ok _ _ _ _ _ (get_env_or_run _ _ _)).
  rewrite (bind_Ok _ _ p (port, parsed) p) by (unfold of_outcome; by rewrite <-Hport).
  set (p1 := lset (world_emit Quill_backend_start w) p).
  rewrite (bind_Ok _ _ p tt p1) by done.
  set (p2 := lset (world_emit Atexit_enet_deinitialize
    (world_emit Enet_initialize (p_world p1))) p1).
  rewrite (bind_Ok _ _ p1 tt p2).
  2: { rewrite networking_init_process. change (w_initialize (p_world p1)) with (w_initialize w).
       by rewrite Hinit. }
  destruct (create_logger_main p2 port h hosts) as
    (s & p3 & logger & Hs & Hw3 & Hb & Hd & Hsends & Hser & Hrun); [done..|].
  cbn [fst]. rewrite (bind_Ok _ _ _ _ _ Hs).
  assert (He : fst (polls (w_run (p_world p3)) (w_service (p_world p3))) = evs)
    by (rewrite Hser, Hrun; done).
  destruct (new_server_ready logger s port h evs Hb Hd) as [Hr Href]; [|done|].
  { pose proof (connects_length evs). lia. }
  destruct (server_run p3 s PubSub_empty) as (p4 & Hp4 & Hsends4 & Hlast);
    rewrite ?He; [done..| |].
  { cbn. lia. }
  exists p4. split; [exact Hp4|]. rewrite Hlast, Hsends4, He, Hsends, Hb. split; [|done].
  unfold p2, p1. cbn. by rewrite !sends_app, !app_nil_r.
Qed.
End main_lemmas.

(** ** Properties *)

(** C7: with a port in range in the environment (6767 when it is not set),
    ENet initialised and a host from ENet, the program serves until SIGINT:
    whatever the clients send, over all the polls made before the signal, it
    sends exactly what the publish/subscribe service sends, and it then
    destroys its host last and exits with 0. *)
Theorem server_main_serves {plat : Platform} {Q}
    (create_or_get_logger : string → Sink → Q → Logger * Q) (p : Process Q)
    port parsed h hosts :
  let w := p_world p in
  let evs := fst (polls (w_run w) (w_service w)) in
  stoi (default "6767" (w_env w "SPRAYBUS_PORT")) = Ok (port, parsed) →
  (0 ≤ port ≤ 65535)%Z → w_initialize w = 0%Z → w_hosts w = Some h :: hosts →
  events_ok ∅ evs = true → (Z.of_nat (length evs) < 2 ^ 64 - 1)%Z →
  ∃ p', server_main create_or_get_logger p = (Ok 0%Z, p') ∧
    sends (w_log (p_world p')) =
      sends (w_log w) ++ (on_wire <$> snd (ps_events evs PubSub_empty)) ∧
    last (w_log (p_world p')) = Some (Enet_host_destroy h).
Proof. apply server_main_run. Qed.

(** C40: a misconfigured environment ends the program before it serves, with
    the exception of the first check that fails: a port that is not a number,
    ENet not initialised, a port out of range, no host; no packet is sent and
    no event is taken.  A number followed by other characters is accepted. *)
Theorem server_main_errors {plat : Platform} {Q}
    (create_or_get_logger : string → Sink → Q → Logger * Q) (p : Process Q) :
  let w := p_world p in
  let rejected e := ∃ p', server_main create_or_get_logger p = (Throw e, p') ∧
    sends (w_log (p_world p')) = sends (w_log w) ∧ w_service (p_world p') = w_service w in
  match stoi (default "6767" (w_env w "SPRAYBUS_PORT")) with
  | Ok (port, _) =>
      if negb (w_initialize w =? 0)%Z then
        rejected (runtime_error "Failed to initialize ENet")
      else if ((port <? 0) || (65535 <? port))%Z then
        rejected (out_of_range ("Server port must be between 0 and 65535: " +:+
                                to_string_Z port))
      else
        hd None (w_hosts w) = None → rejected (runtime_error "Failed to create ENet server")
  | Throw e => rejected e
  | Undefined | OutOfFuel => False
  end.
Proof.
  intros w rejected. pose proof (stoi_ends (default "6767" (w_env w "SPRAYBUS_PORT"))) as Hends.
  unfold rejected, server_main. rewrite (bind_Ok _ _ _ _ _ (get_env_or_run _ _ _)). fold w.
  destruct (stoi _) as [[port parsed]|e| |]; try done.
  2: { exists p. by split_and!. }
  rewrite (bind_Ok _ _ p (port, parsed) p) by done.
  set (p1 := lset (world_emit Quill_backend_start w) p).
  rewrite (bind_Ok _ _ p tt p1) by done.
  pose proof (networking_init_process p1) as Hinit. change (w_initialize (p_world p1)) with
    (w_initialize w) in Hinit.
  destruct (w_initialize w =? 0)%Z; cbn [negb].
  2: { rewrite (bind_Throw _ _ _ _ _ Hinit). eexists; split; [done|]. cbn.
       by rewrite !sends_app, !app_nil_r. }
  rewrite (bind_Ok _ _ _ _ _ Hinit). cbn [fst]. unfold BusServer_ctor, zoom, bind.
  unfold Server_ctor at 1 2. destruct (_ || _).
  { eexists; split; [reflexivity|]. cbn. by rewrite !sends_app, !app_nil_r. }
  unfold enet_host_create, emit, world_of, zoom. run_steps. intros Hh.
  destruct (w_hosts w) as [|[h|] hosts] eqn:E; try done;
    (eexists; split; [reflexivity|]; cbn; by rewrite !sends_app, !app_nil_r).
Qed.

(** A logger created after [set_logfile] writes to the file of the last
    call, and to the console when there was none; it is the logger quill
    returns for that name and sink. *)
Theorem create_logger_sink {Q} (create_or_get_logger : string → Sink → Q → Logger * Q)
    files name (p : Process Q) :
  let configured := snd (for_each files set_logfile p) in
  let sink := match last files with
              | Some f => FileSink f
              | None => match p_logfile p with
                        | Some f => FileSink f
                        | None => ConsoleSink "default"
                        end
              end in
  create_logger create_or_get_logger name configured =
    (Ok (fst (create_or_get_logger name sink (p_quill p))),
     MkProcess (p_world p) (p_logfile configured)
       (snd (create_or_get_logger name sink (p_quill p)))).
Proof.
  assert (H : snd (for_each files set_logfile p) =
    MkProcess (p_world p) (match last files with Some f => Some f | None => p_logfile p end)
      (p_quill p)).
  { revert p. induction files as [|f files IH]; intros p; [by destruct p|].
    cbn [for_each]. rewrite (bind_Ok _ _ p tt _) by done. rewrite IH, last_cons.
    by destruct (last files). }
  cbn zeta. rewrite H, create_logger_run. cbn. by destruct (last files).
Qed.

(** ** Witnesses *)

Section witnesses.
#[local] Instance daemon_platform : Platform := little_endian.

(** Quill, reduced to the loggers it has created. *)
Definition sample_quill (name : string) (sink : Sink) (q : list Logger) :
    Logger * list Logger :=
  (MkLogger name sink Info, MkLogger name sink Info :: q).

(** Two polls: two clients connect; then one subscribes and the other
    publishes. *)
Definition sample_polls : list (Z * ENetEvent) :=
  [(1%Z, EVENT_CONNECT 40); (1%Z, EVENT_CONNECT 41); (0%Z, EVENT_NONE);
   (1%Z, EVENT_RECEIVE 41 (MkPacket 1 (packet (Origin_value Origin_client) (Subscribe 1))));
   (1%Z, EVENT_RECEIVE 40
      (MkPacket 2 (packet (Origin_value Origin_client) (Publish 1 [x68; x69]))))].

Definition sample_process (port : option string) : Process (list Logger) :=
  MkProcess
    (MkWorld 0 (λ _, None) [Some 3%Z] [] sample_polls ∅
       (λ name, if String.eqb name "SPRAYBUS_PORT" then port else None) 2 [])
    None [].

Lemma server_main_serves_witness :
  ∃ p', server_main sample_quill (sample_process (Some " 7000")) = (Ok 0%Z, p') ∧
    sends (w_log (p_world p')) =
      [(41%Z, packet (Origin_value Origin_server) (Fanout 1 [x68; x69]))] ∧
    last (w_log (p_world p')) = Some (Enet_host_destroy 3).
Proof.
  destruct (server_main_serves sample_quill (sample_process (Some " 7000")) 7000 5 3 [])
    as (p' & Hp & Hsends & Hlast).
  - vm_compute. reflexivity.
  - lia.
  - reflexivity.
  - reflexivity.
  - vm_compute. reflexivity.
  - vm_compute. reflexivity.
  - exists p'. split; [exact Hp|]. split; [|exact Hlast].
    rewrite Hsends. vm_compute. reflexivity.
Defined.

Lemma server_main_errors_witness :
  ∃ p', server_main sample_quill (sample_process (Some "70000")) =
      (Throw (out_of_range "Server port must be between 0 and 65535: 70000"), p') ∧
    sends (w_log (p_world p')) = [].
Proof.
  destruct (server_main_errors sample_quill (sample_process (Some "70000")))
    as (p' & Hp & Hsends & _).
  by exists p'.
Defined.
End witnesses.
