(* ===== verification/NetClient.v ===== *)
(** * Low-level client (include/spraybus/networking/client/client.hpp)

    The owning packet wrapper [Packet] and the connection [Client] over ENet.
    Wrappers are objects with an address, so that moves, self-moves and
    destruction are modelled on a store. *)

From Stdlib.Strings Require Import Byte.
From stdpp Require Import base gmap list strings.
From S2P Require Import Prelude World Common.

(** ** State: the world and the [Packet] objects alive, by address *)

Record NetState : Type := MkNetState {
  n_world : World;
  n_packets : gmap nat (option ENetPacket);
}.

#[export] Instance net_world_lens : Lens NetState World.
Proof.
  refine {| lget := n_world; lset := λ w s, MkNetState w (n_packets s) |};
    by intros; destruct s.
Defined.

Definition set_packets (f : gmap nat (option ENetPacket) → gmap nat (option ENetPacket)) :
    M NetState unit :=
  modify (λ s, MkNetState (n_world s) (f (n_packets s))).

(** The member [m_packet] of the wrapper at [l]; a wrapper that is not alive
    must not be used. *)
Definition packet_at (l : nat) : M NetState (option ENetPacket) := λ s,
  match n_packets s !! l with
  | Some p => (Ok p, s)
  | None => (Undefined, s)
  end.

(** ** Packet *)

Definition enet_packet_destroy (p : ENetPacket) : M NetState unit :=
  emit (Enet_packet_destroy (packet_id p)).

(** The constructor from an [ENetPacket] pointer. *)
Definition Packet_take (l : nat) (p : ENetPacket) : M NetState unit :=
  set_packets (<[l := Some p]>).

(** [Packet()]. *)
Definition Packet_default (l : nat) : M NetState unit :=
  set_packets (<[l := None]>).

(** [Packet(Packet&& other)]. *)
Definition Packet_move (l other : nat) : M NetState unit :=
  let! p := packet_at other in
  set_packets (<[l := p]>) ;;;
  set_packets (<[other := None]>).

(** [operator=(Packet&& other)]. *)
Definition Packet_move_assign (l other : nat) : M NetState unit :=
  if l =? other then ret tt
  else
    let! mine := packet_at l in
    match mine with
    | Some p => enet_packet_destroy p
    | None => ret tt
    end ;;;
    let! p := packet_at other in
    set_packets (<[l := p]>) ;;;
    set_packets (<[other := None]>).

(** [~Packet()]. *)
Definition Packet_dtor (l : nat) : M NetState unit :=
  let! mine := packet_at l in
  match mine with
  | Some p => enet_packet_destroy p
  | None => ret tt
  end ;;;
  set_packets (delete l).

(** [data()], which dereferences [m_packet]. *)
Definition Packet_data (l : nat) : M NetState (list byte) :=
  let! mine := packet_at l in
  match mine with
  | Some p => ret (packet_data p)
  | None => undefined
  end.

(** The address of the unnamed temporary in [packet = Packet(m_event.packet)];
    named wrappers live at other addresses. *)
Definition temporary : nat := 0.

(** ** Client *)

(** The members set by the constructor ([m_event] is written by each call of
    [enet_host_service] just before it is read). *)
Record NetClient : Type := MkNetClient {
  nc_client : ENetHost;
  nc_address : ENetAddress;
  nc_peer : ENetPeer;
}.

Definition is_connect_event (ev : ENetEvent) : bool :=
  match ev with EVENT_CONNECT _ => true | _ => false end.

Definition NetClient_ctor (host : string) (port : Z) : M NetState NetClient :=
  let! client := enet_host_create None 1 2 in
  match client with
  | None =>
      throw (runtime_error
        "An error occurred while trying to create an ENet client host.")
  | Some client =>
      let! address := enet_address_set_host host (MkAddress None 0) in
      let address := MkAddress (address_host address) port in
      let! peer := enet_host_connect client address 2 in
      match peer with
      | None =>
          throw (runtime_error "No available peers for initiating an ENet connection.")
      | Some peer =>
          let! r := enet_host_service client 5000 in
          if negb ((0 <? fst r)%Z && is_connect_event (snd r)) then
            emit (Enet_peer_reset peer) ;;;
            throw (runtime_error "Connection to localhost:6767 failed.")
          else ret (MkNetClient client address peer)
      end
  end.

(** The loop of the destructor. *)
Fixpoint NetClient_dtor_loop (fuel : nat) (client : ENetHost) : M NetState unit :=
  match fuel with
  | O => out_of_fuel
  | S fuel' =>
      let! r := enet_host_service client 3000 in
      if (0 <? fst r)%Z then
        match snd r with
        | EVENT_DISCONNECT _ => ret tt
        | EVENT_RECEIVE _ p => enet_packet_destroy p ;;; NetClient_dtor_loop fuel' client
        | _ => NetClient_dtor_loop fuel' client
        end
      else ret tt
  end.

(** Each iteration uses up one result of ENet. *)
Definition NetClient_dtor (c : NetClient) : M NetState unit :=
  emit (Enet_peer_disconnect (nc_peer c)) ;;;
  let! results := gets (λ s, w_service (n_world s)) in
  NetClient_dtor_loop (S (length results)) (nc_client c) ;;;
  emit (Enet_host_destroy (nc_client c)).

Definition NetClient_process (c : NetClient) (packet : nat) : M NetState bool :=
  let! r := enet_host_service (nc_client c) 0 in
  if (0 <? fst r)%Z then
    match snd r with
    | EVENT_RECEIVE _ p =>
        Packet_take temporary p ;;;
        Packet_move_assign packet temporary ;;;
        Packet_dtor temporary ;;;
        ret true
    | EVENT_DISCONNECT _ => throw (runtime_error "Disconnected from server.")
    | _ => ret false
    end
  else ret false.

(** The result object of [recv] is constructed in place at [result]. *)
Definition NetClient_recv (c : NetClient) (result : nat) (timeout_ms : Z) :
    M NetState unit :=
  let! r := enet_host_service (nc_client c) timeout_ms in
  if (0 <? fst r)%Z then
    match snd r with
    | EVENT_RECEIVE _ p => Packet_take result p
    | EVENT_DISCONNECT _ => throw (runtime_error "Disconnected from server.")
    | _ => throw (runtime_error "Timeout while waiting for packet.")
    end
  else throw (runtime_error "Timeout while waiting for packet.").

Definition NetClient_send (c : NetClient) (data : list byte) : M NetState unit :=
  let packet := enet_packet_create data ENET_PACKET_FLAG_RELIABLE in
  enet_peer_send (nc_peer c) 0 packet ;;;
  enet_host_flush (nc_client c).

(** ** Code that does not change a calm view of the world *)

Section calls.
Context {V : Type} {view : World → V} `{!Calm view}.

Lemma keeps_packet_at l : keeps_view view (packet_at l).
Proof. intros s. unfold packet_at. by destruct (n_packets s !! l). Qed.

Lemma keeps_set_packets f : keeps_view view (set_packets f).
Proof. by apply keeps_modify. Qed.

#[local] Hint Resolve keeps_packet_at keeps_set_packets : keeps.

Lemma keeps_Packet_dtor l : keeps_view view (Packet_dtor l).
Proof. unfold Packet_dtor, enet_packet_destroy. keeps fail. Qed.

Lemma keeps_Packet_data l : keeps_view view (Packet_data l).
Proof. unfold Packet_data. keeps fail. Qed.

#[local] Hint Resolve keeps_Packet_dtor : keeps.

Lemma keeps_NetClient_ctor h p : keeps_view view (NetClient_ctor h p).
Proof. unfold NetClient_ctor, enet_address_set_host. keeps fail. Qed.

Lemma keeps_NetClient_dtor_loop fuel h : keeps_view view (NetClient_dtor_loop fuel h).
Proof.
  induction fuel as [|fuel IH]; cbn [NetClient_dtor_loop]; unfold enet_packet_destroy; keeps fail.
Qed.

#[local] Hint Resolve keeps_NetClient_dtor_loop : keeps.

Lemma keeps_NetClient_dtor c : keeps_view view (NetClient_dtor c).
Proof. unfold NetClient_dtor. keeps fail. Qed.

Lemma keeps_NetClient_process c l : keeps_view view (NetClient_process c l).
Proof.
  unfold NetClient_process, Packet_take, Packet_move_assign, enet_packet_destroy. keeps fail.
Qed.

Lemma keeps_NetClient_recv c l t : keeps_view view (NetClient_recv c l t).
Proof. unfold NetClient_recv, Packet_take. keeps fail. Qed.

Lemma keeps_NetClient_send c d : keeps_view view (NetClient_send c d).
Proof. unfold NetClient_send, enet_peer_send, enet_host_flush. keeps fail. Qed.
End calls.

#[export] Hint Resolve keeps_packet_at keeps_set_packets keeps_Packet_dtor keeps_Packet_data
  keeps_NetClient_ctor keeps_NetClient_dtor keeps_NetClient_process keeps_NetClient_recv
  keeps_NetClient_send : keeps.

(** ** Specification of ownership: sequences of operations on wrappers *)

Inductive packet_op : Type :=
  | OpTake (l : nat) (p : ENetPacket)
  | OpDefault (l : nat)
  | OpMove (l other : nat)
  | OpMoveAssign (l other : nat)
  | OpDtor (l : nat).

Definition run_packet_op (op : packet_op) : M NetState unit :=
  match op with
  | OpTake l p => Packet_take l p
  | OpDefault l => Packet_default l
  | OpMove l other => Packet_move l other
  | OpMoveAssign l other => Packet_move_assign l other
  | OpDtor l => Packet_dtor l
  end.

Fixpoint run_packet_ops (ops : list packet_op) : M NetState unit :=
  match ops with
  | [] => ret tt
  | op :: rest => run_packet_op op ;;; run_packet_ops rest
  end.

(** The addresses of the wrappers alive after an operation, and whether the
    operation respects the lifetimes of the language: objects are constructed
    at free addresses and used while alive. *)
Definition op_step (op : packet_op) (alive : gset nat) : option (gset nat) :=
  match op with
  | OpTake l _ | OpDefault l => if decide (l ∈ alive) then None else Some ({[l]} ∪ alive)
  | OpMove l other =>
      if decide (l ∉ alive ∧ other ∈ alive) then Some ({[l]} ∪ alive) else None
  | OpMoveAssign l other =>
      if decide (l ∈ alive ∧ other ∈ alive) then Some alive else None
  | OpDtor l => if decide (l ∈ alive) then Some (alive ∖ {[l]}) else None
  end.

Fixpoint ops_step (ops : list packet_op) (alive : gset nat) : option (gset nat) :=
  match ops with
  | [] => Some alive
  | op :: rest => op_step op alive ≫= ops_step rest
  end.

(** The packets handed to the wrappers, and those the wrappers own. *)
Definition taken (ops : list packet_op) : list Z :=
  omap (λ op, match op with OpTake _ p => Some (packet_id p) | _ => None end) ops.

Definition owned (store : gmap nat (option ENetPacket)) : list Z :=
  omap (λ lp, packet_id <$> lp.2) (map_to_list store).

(** ** Lemmas on ownership *)

Definition opt_id (x : option ENetPacket) : list Z :=
  match x with Some p => [packet_id p] | None => [] end.

Lemma owned_lookup store l x :
  store !! l = Some x → owned store ≡ₚ opt_id x ++ owned (delete l store).
Proof.
  intros H. unfold owned. rewrite <-(map_to_list_delete _ _ _ H). simpl.
  by destruct x.
Qed.

Lemma owned_insert store l x :
  owned (<[l := x]> store) ≡ₚ opt_id x ++ owned (delete l store).
Proof.
  rewrite (owned_lookup _ l x) by apply lookup_insert_eq. by rewrite delete_insert_eq.
Qed.

(** Moving the contents of [other] to [l]. *)
Lemma owned_move store l other x :
  l ≠ other → store !! other = Some x →
  owned (<[other := None]> (<[l := x]> store)) ≡ₚ owned (delete l store).
Proof.
  intros Hne Hx. rewrite owned_insert. simpl.
  rewrite delete_insert_ne by done. rewrite owned_insert.
  rewrite (owned_lookup (delete l store) other x) by by rewrite lookup_delete_ne.
  by rewrite delete_delete.
Qed.

(** What one operation does: it returns, the addresses alive follow the
    language, and the packets owned before, plus the one taken, are those
    destroyed and those owned after. *)
Definition op_post (op : packet_op) (alive' : gset nat) (s : NetState)
    (_ : unit) (s' : NetState) : Prop :=
  dom (n_packets s') = alive' ∧
  ∃ gone, destroyed (w_log (n_world s')) = destroyed (w_log (n_world s)) ++ gone ∧
    taken [op] ++ owned (n_packets s) ≡ₚ gone ++ owned (n_packets s').

Lemma destroyed_app l l' : destroyed (l ++ l') = destroyed l ++ destroyed l'.
Proof. apply omap_app. Qed.

Lemma packet_at_run l s x :
  n_packets s !! l = Some x → packet_at l s = (Ok x, s).
Proof. unfold packet_at. by intros ->. Qed.

(** Destroying what a wrapper holds, if it holds something. *)
Lemma destroy_held_run (x : option ENetPacket) s :
  ∃ s', match x with Some p => enet_packet_destroy p | None => ret tt end s = (Ok tt, s') ∧
    n_packets s' = n_packets s ∧
    destroyed (w_log (n_world s')) = destroyed (w_log (n_world s)) ++ opt_id x.
Proof.
  destruct x as [p|]; eexists; (split; [done|]); (split; [done|]).
  - simpl. by rewrite destroyed_app.
  - by rewrite app_nil_r.
Qed.

Lemma elem_of_dom_packets (store : gmap nat (option ENetPacket)) l :
  l ∈ dom store → ∃ x, store !! l = Some x.
Proof. by intros [x Hx]%elem_of_dom; eauto. Qed.

Lemma move_assign_post l other alive s :
  dom (n_packets s) = alive → l ∈ alive → other ∈ alive →
  returns (Packet_move_assign l other) (op_post (OpMoveAssign l other) alive s) s.
Proof.
  intros <- [y Hy]%elem_of_dom_packets [x Hx]%elem_of_dom_packets.
  unfold Packet_move_assign. destruct (Nat.eqb_spec l other) as [->|Hne].
  { split; [done|]. exists []. by rewrite app_nil_r. }
  unfold returns, wp. rewrite (bind_Ok _ _ _ _ _ (packet_at_run _ _ _ Hy)).
  destruct (destroy_held_run y s) as (s1 & E1 & Hp1 & Hd1). rewrite (bind_Ok _ _ _ _ _ E1).
  rewrite <-Hp1 in Hx. rewrite (bind_Ok _ _ _ _ _ (packet_at_run _ _ _ Hx)).
  split; simpl.
  - rewrite !dom_insert_L, Hp1. rewrite Hp1 in Hx. apply elem_of_dom_2 in Hx, Hy. set_solver.
  - exists (opt_id y). split; [done|]. rewrite owned_move by done. rewrite Hp1.
    by apply owned_lookup.
Qed.

Lemma packet_op_post op alive alive' s :
  dom (n_packets s) = alive → op_step op alive = Some alive' →
  returns (run_packet_op op) (op_post op alive' s) s.
Proof.
  intros Hdom Hop. destruct op as [l p|l|l other|l other|l]; cbn [op_step] in Hop.
  - case_decide as Hl; [done|]. injection Hop as <-. split; simpl.
    + by rewrite dom_insert_L, Hdom.
    + exists []. rewrite app_nil_r. split; [done|]. rewrite owned_insert, delete_id; [done|].
      apply not_elem_of_dom. by rewrite Hdom.
  - case_decide as Hl; [done|]. injection Hop as <-. split; simpl.
    + by rewrite dom_insert_L, Hdom.
    + exists []. rewrite app_nil_r. split; [done|]. rewrite owned_insert, delete_id; [done|].
      apply not_elem_of_dom. by rewrite Hdom.
  - case_decide as Hl; [|done]. injection Hop as <-. destruct Hl as [Hl Ho].
    assert (l ≠ other) as Hne by by intros ->.
    rewrite <-Hdom in Hl, Ho. destruct (elem_of_dom_packets _ _ Ho) as [x Hx].
    cbn [run_packet_op]. unfold Packet_move, returns, wp.
    rewrite (bind_Ok _ _ _ _ _ (packet_at_run _ _ _ Hx)). split; simpl.
    + rewrite !dom_insert_L, Hdom. rewrite Hdom in Ho. set_solver.
    + exists []. rewrite app_nil_r. split; [done|]. rewrite owned_move by done.
      by rewrite delete_id by by apply not_elem_of_dom.
  - case_decide as Hl; [|done]. injection Hop as <-. destruct Hl.
    by apply move_assign_post.
  - case_decide as Hl; [|done]. injection Hop as <-.
    rewrite <-Hdom in Hl. destruct (elem_of_dom_packets _ _ Hl) as [x Hx].
    cbn [run_packet_op]. unfold Packet_dtor, returns, wp.
    rewrite (bind_Ok _ _ _ _ _ (packet_at_run _ _ _ Hx)).
    destruct (destroy_held_run x s) as (s1 & E1 & Hp1 & Hd1). rewrite (bind_Ok _ _ _ _ _ E1).
    split; simpl.
    + by rewrite dom_delete_L, Hp1, Hdom.
    + exists (opt_id x). split; [done|]. rewrite Hp1. by apply owned_lookup.
Qed.

Lemma taken_app ops ops' : taken (ops ++ ops') = taken ops ++ taken ops'.
Proof. apply omap_app. Qed.

Lemma packet_ops_post ops alive alive' s :
  dom (n_packets s) = alive → ops_step ops alive = Some alive' →
  ∃ s' gone, run_packet_ops ops s = (Ok tt, s') ∧ dom (n_packets s') = alive' ∧
    destroyed (w_log (n_world s')) = destroyed (w_log (n_world s)) ++ gone ∧
    taken ops ++ owned (n_packets s) ≡ₚ gone ++ owned (n_packets s').
Proof.
  revert alive s. induction ops as [|op ops IH]; intros alive s Hdom Hops.
  { exists s, []. cbn in Hops. injection Hops as <-. by rewrite app_nil_r. }
  cbn [ops_step mbind option_bind] in Hops.
  destruct (op_step op alive) as [alive1|] eqn:Hop; [|done]. cbn in Hops.
  pose proof (packet_op_post op alive alive1 s Hdom Hop) as Hpost.
  apply returns_inv in Hpost as ([] & s1 & Hs1 & Hdom1 & gone1 & Hd1 & Hperm1).
  destruct (IH alive1 s1 Hdom1 Hops) as (s2 & gone2 & Hs2 & Hdom2 & Hd2 & Hperm2).
  exists s2, (gone1 ++ gone2). cbn [run_packet_ops]. rewrite (bind_Ok _ _ _ _ _ Hs1).
  split_and!; [done|done|by rewrite Hd2, Hd1, app_assoc|].
  change (taken (op :: ops)) with (taken ([op] ++ ops)).
  rewrite taken_app, <-!app_assoc, <-Hperm2.
  by rewrite (Permutation_app_swap_app (taken [op])), (Permutation_app_swap_app gone1), Hperm1.
Qed.

(** ** Specification of the connection *)

(** The packets among the results of [enet_host_service] that were taken. *)
Definition received (results : list (Z * ENetEvent)) : list Z :=
  omap (λ r, if (0 <? r.1)%Z then
               match r.2 with EVENT_RECEIVE _ p => Some (packet_id p) | _ => None end
             else None) results.

(** A result carries a packet or it does not. *)
Lemma received_cases r :
  received [r] = [] ∨ ∃ ret peer p, r = (ret, EVENT_RECEIVE peer p) ∧ (0 < ret)%Z.
Proof.
  destruct r as [ret [| | |peer p]]; cbn; destruct (0 <? ret)%Z eqn:Hret; auto.
  right. exists ret, peer, p. split; [done|]. by apply Z.ltb_lt.
Qed.

(** Between [s] and [s'] the packets [out] were sent, every packet taken from
    ENet was destroyed, in the order received, and the wrappers are back to
    what they were. *)
Definition balanced (out : list (ENetPeer * list byte)) (s s' : NetState) : Prop :=
  ∃ used calls,
    w_service (n_world s) = used ++ w_service (n_world s') ∧
    w_log (n_world s') = w_log (n_world s) ++ calls ∧
    destroyed calls = received used ∧ sends calls = out ∧
    n_packets s' = n_packets s.

(** What the constructor does with ENet's answers: the result and the calls. *)
Definition connected_address (w : World) (host : string) (port : Z) : ENetAddress :=
  MkAddress (w_resolve w host) port.

Definition handshake (r : Z * ENetEvent) : bool :=
  (0 <? r.1)%Z && is_connect_event r.2.

Definition connect_outcome (host : string) (port : Z) (w : World) :
    outcome NetClient * list effect :=
  let address := connected_address w host port in
  match hd None (w_hosts w) with
  | None =>
      (Throw (runtime_error
         "An error occurred while trying to create an ENet client host."),
       [Enet_host_create None 1 2])
  | Some h =>
      match hd None (w_peers w) with
      | None =>
          (Throw (runtime_error "No available peers for initiating an ENet connection."),
           [Enet_host_create None 1 2; Enet_host_connect h address 2])
      | Some p =>
          if handshake (hd (0%Z, EVENT_NONE) (w_service w)) then
            (Ok (MkNetClient h address p),
             [Enet_host_create None 1 2; Enet_host_connect h address 2;
              Enet_host_service h 5000])
          else
            (Throw (runtime_error "Connection to localhost:6767 failed."),
             [Enet_host_create None 1 2; Enet_host_connect h address 2;
              Enet_host_service h 5000; Enet_peer_reset p])
      end
  end.

(** Whether the constructor got as far as waiting for the handshake. *)
Definition handshake_reached (w : World) : bool :=
  match hd None (w_hosts w), hd None (w_peers w) with
  | Some _, Some _ => true
  | _, _ => false
  end.

(** The results the destructor takes: up to the first that is not positive or
    is a disconnection. *)
Fixpoint dtor_used (results : list (Z * ENetEvent)) :
    list (Z * ENetEvent) * list (Z * ENetEvent) :=
  match results with
  | [] => ([], [])
  | (r, ev) :: rest =>
      if (0 <? r)%Z then
        match ev with
        | EVENT_DISCONNECT _ => ([(r, ev)], rest)
        | _ => ((r, ev) :: fst (dtor_used rest), snd (dtor_used rest))
        end
      else ([(r, ev)], rest)
  end.

(** ** Lemmas on the connection *)

Lemma balanced_refl s : balanced [] s s.
Proof. exists [], []. by rewrite app_nil_r. Qed.

Lemma balanced_trans out1 out2 s1 s2 s3 :
  balanced out1 s1 s2 → balanced out2 s2 s3 → balanced (out1 ++ out2) s1 s3.
Proof.
  intros (u1 & c1 & Hu1 & Hc1 & Hd1 & <- & Hp1) (u2 & c2 & Hu2 & Hc2 & Hd2 & <- & Hp2).
  exists (u1 ++ u2), (c1 ++ c2). split_and!.
  - by rewrite Hu1, Hu2, app_assoc.
  - by rewrite Hc2, Hc1, app_assoc.
  - unfold destroyed, received in *. by rewrite !omap_app, Hd1, Hd2.
  - apply sends_app.
  - by rewrite Hp2.
Qed.

Lemma balanced_quiet s1 s2 s3 : balanced [] s1 s2 → balanced [] s2 s3 → balanced [] s1 s3.
Proof. apply balanced_trans. Qed.

(** What holds whether or not the packets received are destroyed: results of
    ENet are taken in order, no packet is destroyed twice or without having
    been received, and the wrappers alive are unchanged. *)
Definition progress (s s' : NetState) : Prop :=
  (∃ used calls, w_service (n_world s) = used ++ w_service (n_world s') ∧
    w_log (n_world s') = w_log (n_world s) ++ calls ∧
    destroyed calls ⊆+ received used) ∧
  n_packets s' = n_packets s.

#[export] Instance progress_preorder : PreOrder progress.
Proof.
  split.
  - intros s. split; [|done]. exists [], []. by rewrite app_nil_r.
  - intros s1 s2 s3 [(u1 & c1 & Hu1 & Hc1 & Hd1) Hp1] [(u2 & c2 & Hu2 & Hc2 & Hd2) Hp2].
    split; [|by rewrite Hp2]. exists (u1 ++ u2), (c1 ++ c2). split_and!.
    + by rewrite Hu1, Hu2, app_assoc.
    + by rewrite Hc2, Hc1, app_assoc.
    + unfold destroyed, received in *. rewrite !omap_app. by apply submseteq_app.
Qed.

Lemma balanced_progress out s s' : balanced out s s' → progress s s'.
Proof.
  intros (used & calls & Hu & Hc & Hd & _ & Hp). split; [|done].
  exists used, calls. by rewrite Hd.
Qed.

Lemma balanced_sends out s s' :
  balanced out s s' → sends (w_log (n_world s')) = sends (w_log (n_world s)) ++ out.
Proof. intros (used & calls & _ & -> & _ & <- & _). apply sends_app. Qed.

Definition after_emit (e : effect) (s : NetState) : NetState :=
  MkNetState (world_emit e (n_world s)) (n_packets s).

Definition after_service (h : ENetHost) (t : Z) (s : NetState) : NetState :=
  MkNetState
    (world_service (tl (w_service (n_world s)))
       (world_emit (Enet_host_service h t) (n_world s)))
    (n_packets s).

Lemma emit_run e s : emit e s = (Ok tt, after_emit e s).
Proof. done. Qed.

Lemma service_run h t s :
  enet_host_service h t s =
    (Ok (hd (0%Z, EVENT_NONE) (w_service (n_world s))), after_service h t s).
Proof.
  unfold enet_host_service, emit, world_of, zoom. run_steps. destruct s as [w ps]. simpl.
  unfold after_service. destruct w as [? ? ? ? [|r rest] ? ? ? ?]; done.
Qed.

Lemma balanced_emit e s :
  destroyed [e] = [] → balanced (sends [e]) s (after_emit e s).
Proof. intros He. exists [], [e]. by split_and!. Qed.

(** A result that carries no packet. *)
Lemma balanced_service h t s :
  received [hd (0%Z, EVENT_NONE) (w_service (n_world s))] = [] →
  balanced [] s (after_service h t s).
Proof.
  intros Hr. destruct (w_service (n_world s)) as [|r rest] eqn:E; simpl in Hr.
  - exists [], [Enet_host_service h t]. simpl. by rewrite E.
  - exists [r], [Enet_host_service h t]. simpl. by rewrite E.
Qed.

(** A packet received and destroyed. *)
Lemma balanced_receive h t s r peer p :
  hd (0%Z, EVENT_NONE) (w_service (n_world s)) = (r, EVENT_RECEIVE peer p) →
  (0 < r)%Z →
  balanced [] s (after_emit (Enet_packet_destroy (packet_id p)) (after_service h t s)).
Proof.
  intros Hr Hpos. destruct (w_service (n_world s)) as [|[r' ev] rest] eqn:E; simpl in Hr;
    [discriminate|]. injection Hr as -> ->.
  exists [(r, EVENT_RECEIVE peer p)],
    [Enet_host_service h t; Enet_packet_destroy (packet_id p)].
  simpl. rewrite E. split_and!; [done|by rewrite <-app_assoc| |done..].
  unfold received. simpl. by rewrite (proj2 (Z.ltb_lt _ _) Hpos).
Qed.

Lemma received_nonpositive r ev : (0 <? r)%Z = false → received [(r, ev)] = [].
Proof. unfold received. simpl. by intros ->. Qed.

Lemma received_other r ev :
  match ev with EVENT_RECEIVE _ _ => False | _ => True end → received [(r, ev)] = [].
Proof. unfold received. simpl. destruct ev, (0 <? r)%Z; done. Qed.

Lemma dtor_used_app results :
  results = fst (dtor_used results) ++ snd (dtor_used results).
Proof.
  induction results as [|[r ev] rest IH]; [done|]. cbn [dtor_used].
  destruct (0 <? r)%Z; [|done]. destruct ev; simpl; by rewrite <-?IH.
Qed.

Lemma dtor_loop_returns h fuel s :
  length (w_service (n_world s)) < fuel →
  returns (NetClient_dtor_loop fuel h)
    (λ _ s', balanced [] s s' ∧
       w_service (n_world s') = snd (dtor_used (w_service (n_world s))) ∧
       w_hosts (n_world s') = w_hosts (n_world s) ∧
       w_peers (n_world s') = w_peers (n_world s)) s.
Proof.
  revert s. induction fuel as [|fuel IH]; intros s Hlen; [lia|].
  cbn [NetClient_dtor_loop]. apply returns_bind. unfold returns at 1, wp. rewrite service_run.
  destruct (w_service (n_world s)) as [|[r ev] rest] eqn:E.
  { split; [|by simpl; rewrite E]. apply balanced_service. by rewrite E. }
  cbn [hd fst snd dtor_used].
  assert (Hafter : w_service (n_world (after_service h 3000 s)) = rest) by (simpl; by rewrite E).
  assert (Hnext : ∀ s', balanced [] s s' → w_service (n_world s') = rest →
    w_hosts (n_world s') = w_hosts (n_world s) → w_peers (n_world s') = w_peers (n_world s) →
    returns (NetClient_dtor_loop fuel h)
      (λ _ s', balanced [] s s' ∧ w_service (n_world s') = snd (dtor_used rest) ∧
         w_hosts (n_world s') = w_hosts (n_world s) ∧
         w_peers (n_world s') = w_peers (n_world s)) s').
  { intros s' Hb Hw Hh Hp. eapply returns_mono; [apply IH; rewrite Hw; simpl in Hlen; lia|].
    intros [] s'' (? & -> & -> & ->). rewrite Hw. split; [by eapply balanced_quiet|done]. }
  destruct (0 <? r)%Z eqn:Hr.
  2: { split; [|done]. apply balanced_service. rewrite E. by apply received_nonpositive. }
  destruct ev as [|peer|peer|peer p]; cbn [snd].
  - apply Hnext; [|done..]. apply balanced_service. rewrite E. by apply received_other.
  - apply Hnext; [|done..]. apply balanced_service. rewrite E. by apply received_other.
  - split; [|done]. apply balanced_service. rewrite E. by apply received_other.
  - apply returns_bind. unfold enet_packet_destroy, returns at 1, wp. rewrite emit_run.
    apply Hnext; [|done..]. eapply balanced_receive; [by rewrite E|]. by apply Z.ltb_lt.
Qed.

Lemma dtor_returns c s :
  returns (NetClient_dtor c)
    (λ _ s', balanced [] s s' ∧
       w_service (n_world s') = snd (dtor_used (w_service (n_world s))) ∧
       w_hosts (n_world s') = w_hosts (n_world s) ∧
       w_peers (n_world s') = w_peers (n_world s) ∧
       ∃ calls, w_log (n_world s') = w_log (n_world s) ++
         [Enet_peer_disconnect (nc_peer c)] ++ calls ++ [Enet_host_destroy (nc_client c)]) s.
Proof.
  unfold NetClient_dtor. apply returns_bind. unfold returns at 1, wp. rewrite emit_run.
  apply returns_bind. unfold returns at 1, wp. unfold gets at 1.
  apply returns_bind. eapply returns_mono; [apply dtor_loop_returns; lia|].
  intros [] s' (Hb & Hw & Hh & Hp).
  pose proof Hb as (used & calls & _ & Hcalls & _ & _).
  unfold returns, wp. rewrite emit_run. split_and!; [|done..|].
  - eapply balanced_quiet; [|by apply (balanced_emit (Enet_host_destroy _))].
    eapply balanced_quiet; [|exact Hb]. by apply (balanced_emit (Enet_peer_disconnect _)).
  - exists calls. simpl. rewrite Hcalls. simpl. by rewrite <-!app_assoc.
Qed.

Lemma ctor_run host port s :
  ∃ s', NetClient_ctor host port s = (fst (connect_outcome host port (n_world s)), s') ∧
    w_log (n_world s') = w_log (n_world s) ++ snd (connect_outcome host port (n_world s)) ∧
    n_packets s' = n_packets s ∧
    w_service (n_world s') =
      (if handshake_reached (n_world s) then tl (w_service (n_world s))
       else w_service (n_world s)).
Proof.
  unfold NetClient_ctor, connect_outcome, handshake_reached, enet_host_create,
    enet_host_connect, enet_host_service, enet_address_set_host, connected_address,
    emit, world_of, zoom. run_steps.
  destruct s as [[init resolve hosts peers service pdata env run log] ps]. simpl.
  destruct hosts as [|[h|] hosts]; simpl; eauto.
  destruct peers as [|[p|] peers]; destruct (resolve host); simpl;
    try (destruct service as [|r service]; simpl;
      [|fold (handshake r); destruct (handshake r); simpl]);
    eexists; (split; [done|]); simpl; by rewrite <-?app_assoc.
Qed.

(** A connection that succeeds. *)
Lemma ctor_ok host port s h hosts p peers r q rest :
  let w := n_world s in
  w_hosts w = Some h :: hosts → w_peers w = Some p :: peers →
  w_service w = (r, EVENT_CONNECT q) :: rest → (0 < r)%Z →
  NetClient_ctor host port s =
    (Ok (MkNetClient h (connected_address w host port) p),
     MkNetState
       (MkWorld (w_initialize w) (w_resolve w) hosts peers rest (w_peer_data w) (w_env w) (w_run w)
          (w_log w ++ [Enet_host_create None 1 2;
                       Enet_host_connect h (connected_address w host port) 2;
                       Enet_host_service h 5000])) (n_packets s)).
Proof.
  intros w Hh Hp Hs Hr%Z.ltb_lt. unfold NetClient_ctor, enet_host_create,
    enet_host_connect, enet_host_service, enet_address_set_host, connected_address,
    emit, world_of, zoom. run_steps.
  subst w. destruct s as [[init resolve ? ? ? pdata env run log] pk]. cbn in *. subst.
  simpl. destruct (resolve host); simpl; rewrite Hr;
    unfold world_emit, world_log, world_hosts, world_peers, world_service; simpl;
    by rewrite <-!app_assoc.
Qed.

Lemma connect_destroys_nothing host port w : destroyed (snd (connect_outcome host port w)) = [].
Proof. unfold connect_outcome. by repeat case_match. Qed.

Lemma connect_sends_nothing host port w : sends (snd (connect_outcome host port w)) = [].
Proof. unfold connect_outcome. by repeat case_match. Qed.

Lemma ctor_sends host port s s' r :
  NetClient_ctor host port s = (r, s') → sends (w_log (n_world s')) = sends (w_log (n_world s)).
Proof.
  intros Hrun. destruct (ctor_run host port s) as (s1 & Hrun1 & Hlog & _).
  rewrite Hrun in Hrun1. injection Hrun1 as _ <-.
  by rewrite Hlog, sends_app, connect_sends_nothing, app_nil_r.
Qed.

(** The calls of the constructor carry no packet. *)
Lemma ctor_balanced host port s s' :
  NetClient_ctor host port s = (fst (connect_outcome host port (n_world s)), s') →
  received [hd (0%Z, EVENT_NONE) (w_service (n_world s))] = [] →
  balanced [] s s'.
Proof.
  intros Hrun Hr. destruct (ctor_run host port s) as (s1 & Hrun1 & Hlog & Hpk & Hser).
  rewrite Hrun in Hrun1. injection Hrun1 as <-.
  exists (if handshake_reached (n_world s) then take 1 (w_service (n_world s)) else []).
  eexists. split_and!; [|exact Hlog| | |done].
  - rewrite Hser. destruct (handshake_reached _); [|done].
    by destruct (w_service (n_world s)).
  - trans ([] : list Z).
    + unfold connect_outcome. repeat case_match; done.
    + destruct (handshake_reached _); [|done]. by destruct (w_service (n_world s)).
  - unfold connect_outcome. repeat case_match; done.
Qed.

Lemma ctor_progress host port s s' r :
  NetClient_ctor host port s = (r, s') → progress s s'.
Proof.
  intros Hrun. destruct (ctor_run host port s) as (s1 & Hrun1 & Hlog & Hpk & Hser).
  rewrite Hrun in Hrun1. injection Hrun1 as _ <-. split; [|done].
  exists (if handshake_reached (n_world s) then take 1 (w_service (n_world s)) else []).
  eexists. split_and!; [|exact Hlog|].
  - rewrite Hser. destruct (handshake_reached _); [|done]. by destruct (w_service (n_world s)).
  - rewrite connect_destroys_nothing. apply submseteq_nil_l.
Qed.

Lemma send_run c data s :
  NetClient_send c data s =
    (Ok tt, after_emit (Enet_host_flush (nc_client c))
      (after_emit (Enet_peer_send (nc_peer c) 0 (MkOutPacket data ENET_PACKET_FLAG_RELIABLE)) s)).
Proof. done. Qed.

Lemma send_balanced c data s s' :
  NetClient_send c data s = (Ok tt, s') → balanced [(nc_peer c, data)] s s'.
Proof.
  rewrite send_run. intros [= <-].
  apply (balanced_trans [(nc_peer c, data)] [] _ (after_emit (Enet_peer_send (nc_peer c) 0
    (MkOutPacket data ENET_PACKET_FLAG_RELIABLE)) s)).
  - exact (balanced_emit (Enet_peer_send (nc_peer c) 0
      (MkOutPacket data ENET_PACKET_FLAG_RELIABLE)) s eq_refl).
  - exact (balanced_emit (Enet_host_flush (nc_client c)) _ eq_refl).
Qed.

(** ** Lemmas on receiving *)

Lemma Packet_dtor_run l x s :
  n_packets s !! l = Some x →
  Packet_dtor l s =
    (Ok tt, MkNetState (match x with
                        | Some p => world_emit (Enet_packet_destroy (packet_id p)) (n_world s)
                        | None => n_world s
                        end) (delete l (n_packets s))).
Proof.
  intros H. unfold Packet_dtor. rewrite (bind_Ok _ _ _ _ _ (packet_at_run _ _ _ H)).
  by destruct x.
Qed.

(** Replace the contents of the wrapper at [l], which holds [x], by [p]. *)
Definition replaced (l : nat) (x : option ENetPacket) (p : ENetPacket) (s : NetState) : NetState :=
  MkNetState (match x with
              | Some q => world_emit (Enet_packet_destroy (packet_id q)) (n_world s)
              | None => n_world s
              end) (<[l := Some p]> (n_packets s)).

Lemma assign_temporary_run l x p s :
  l ≠ temporary → n_packets s !! temporary = None → n_packets s !! l = Some x →
  (Packet_take temporary p ;;; Packet_move_assign l temporary ;;;
   Packet_dtor temporary ;;; ret true) s = (Ok true, replaced l x p s).
Proof.
  intros Hne Ht Hx. unfold Packet_take, Packet_move_assign, Packet_dtor, packet_at,
    enet_packet_destroy, emit, zoom, set_packets. run_steps.
  rewrite (proj2 (Nat.eqb_neq _ _) Hne). simpl.
  rewrite lookup_insert_ne, Hx by done. unfold replaced.
  assert (Hstore : delete temporary (<[temporary := None]> (<[l := Some p]>
    (<[temporary := Some p]> (n_packets s)))) = <[l := Some p]> (n_packets s)).
  { rewrite delete_insert_eq, delete_insert_ne, delete_insert_eq by done.
    by rewrite delete_id. }
  destruct x as [q|]; simpl; rewrite !lookup_insert_eq; simpl;
    rewrite lookup_insert_eq; simpl; by rewrite Hstore.
Qed.

Lemma process_run c l x s :
  l ≠ temporary → n_packets s !! temporary = None → n_packets s !! l = Some x →
  let s1 := after_service (nc_client c) 0 s in
  NetClient_process c l s =
    match hd (0%Z, EVENT_NONE) (w_service (n_world s)) with
    | (r, EVENT_RECEIVE _ p) =>
        if (0 <? r)%Z then (Ok true, replaced l x p s1) else (Ok false, s1)
    | (r, EVENT_DISCONNECT _) =>
        if (0 <? r)%Z then (Throw (runtime_error "Disconnected from server."), s1)
        else (Ok false, s1)
    | _ => (Ok false, s1)
    end.
Proof.
  intros Hne Ht Hx s1. unfold NetClient_process.
  rewrite (bind_Ok _ _ _ _ _ (service_run _ _ _)).
  destruct (hd _ _) as [r []]; simpl; destruct (0 <? r)%Z; try done.
  by apply assign_temporary_run.
Qed.

Lemma recv_run c l t s :
  let s1 := after_service (nc_client c) t s in
  NetClient_recv c l t s =
    match hd (0%Z, EVENT_NONE) (w_service (n_world s)) with
    | (r, EVENT_RECEIVE _ p) =>
        if (0 <? r)%Z then (Ok tt, MkNetState (n_world s1) (<[l := Some p]> (n_packets s1)))
        else (Throw (runtime_error "Timeout while waiting for packet."), s1)
    | (r, EVENT_DISCONNECT _) =>
        if (0 <? r)%Z then (Throw (runtime_error "Disconnected from server."), s1)
        else (Throw (runtime_error "Timeout while waiting for packet."), s1)
    | _ => (Throw (runtime_error "Timeout while waiting for packet."), s1)
    end.
Proof.
  intros s1. unfold NetClient_recv. rewrite (bind_Ok _ _ _ _ _ (service_run _ _ _)).
  by destruct (hd _ _) as [r []]; simpl; destruct (0 <? r)%Z.
Qed.

(** ** Properties *)

(** C26: unique ownership.  For every sequence of constructions, moves,
    (self-)move-assignments and destructions that respects object lifetimes,
    no null or dead wrapper is misused and the packets taken are, each once,
    those destroyed and those still owned: none is destroyed twice, and when
    no wrapper is left alive every packet has been destroyed. *)
Theorem packet_unique_ownership ops alive w :
  ops_step ops ∅ = Some alive →
  ∃ s' gone, run_packet_ops ops (MkNetState w ∅) = (Ok tt, s') ∧
    dom (n_packets s') = alive ∧
    destroyed (w_log (n_world s')) = destroyed (w_log w) ++ gone ∧
    taken ops ≡ₚ gone ++ owned (n_packets s') ∧
    (alive = ∅ → taken ops ≡ₚ gone).
Proof.
  intros Hops. destruct (packet_ops_post ops ∅ alive (MkNetState w ∅))
    as (s' & gone & Hrun & Hdom & Hd & Hperm); [apply dom_empty_L|done|].
  assert (taken ops ≡ₚ gone ++ owned (n_packets s')) as Hperm'.
  { rewrite <-Hperm. cbn [n_packets]. unfold owned. by rewrite map_to_list_empty, app_nil_r. }
  exists s', gone. split_and!; [done..|]. intros ->.
  apply dom_empty_inv_L in Hdom. rewrite Hdom in Hperm'. unfold owned in Hperm'.
  by rewrite map_to_list_empty, app_nil_r in Hperm'.
Qed.

(** C38: the connection succeeds exactly when ENet creates a host, has a peer
    and reports the connection within the timeout; each failure throws its own
    message.  The calls made are exactly those listed by [connect_outcome]:
    none destroys the host. *)
Theorem connect_behaviour host port s :
  ∃ s', NetClient_ctor host port s = (fst (connect_outcome host port (n_world s)), s') ∧
    w_log (n_world s') = w_log (n_world s) ++ snd (connect_outcome host port (n_world s)) ∧
    n_packets s' = n_packets s ∧
    (∀ h, Enet_host_destroy h ∉ snd (connect_outcome host port (n_world s))) ∧
    match fst (connect_outcome host port (n_world s)) with
    | Ok c => hd None (w_hosts (n_world s)) = Some (nc_client c) ∧
        hd None (w_peers (n_world s)) = Some (nc_peer c) ∧
        handshake (hd (0%Z, EVENT_NONE) (w_service (n_world s))) = true
    | Throw (runtime_error _) =>
        hd None (w_hosts (n_world s)) = None ∨ hd None (w_peers (n_world s)) = None ∨
        handshake (hd (0%Z, EVENT_NONE) (w_service (n_world s))) = false
    | _ => False
    end.
Proof.
  destruct (ctor_run host port s) as (s' & Hrun & Hlog & Hpk & _).
  exists s'. split_and!; [done..| |]; unfold connect_outcome.
  - intros h. destruct (hd None (w_hosts _)); [destruct (hd None (w_peers _))|];
      [destruct (handshake _)|..]; cbn [snd];
      rewrite !elem_of_cons, elem_of_nil; naive_solver.
  - destruct (hd None (w_hosts _)); [|by left].
    destruct (hd None (w_peers _)); [|by right; left].
    destruct (handshake _); [done|by right; right].
Qed.

(** The destructor terminates whatever ENet reports; it asks for the
    disconnection first and destroys the host last, destroys every packet that
    arrives in between, and stops polling at the first disconnection or
    non-positive result. *)
Theorem disconnect_behaviour c s :
  ∃ s' calls used rest, NetClient_dtor c s = (Ok tt, s') ∧
    dtor_used (w_service (n_world s)) = (used, rest) ∧
    w_service (n_world s') = rest ∧ n_packets s' = n_packets s ∧
    w_log (n_world s') = w_log (n_world s) ++
      [Enet_peer_disconnect (nc_peer c)] ++ calls ++ [Enet_host_destroy (nc_client c)] ∧
    destroyed calls = received used.
Proof.
  pose proof (dtor_returns c s) as ([] & s' & Hs' & Hb & Hw & _ & _ & calls & Hcalls)%returns_inv.
  destruct Hb as (used & calls' & Hu & Hc' & Hd & _ & Hp).
  destruct (dtor_used (w_service (n_world s))) as [used' rest] eqn:E. cbn [snd] in Hw.
  exists s', calls, used', rest. split_and!; try done.
  rewrite Hcalls in Hc'. apply app_inv_head in Hc'. subst calls'.
  rewrite !destroyed_app in Hd. simpl in Hd. rewrite app_nil_r in Hd. rewrite Hd. f_equal.
  apply (app_inv_tail rest). rewrite <-Hw, <-Hu.
  by rewrite (dtor_used_app (w_service (n_world s))), E, Hw.
Qed.

(** ** Witnesses *)

Section witnesses.
Definition sample_net_world : World := MkWorld 0 (λ _, None) [] [] [] ∅ (λ _, None) 0 [].

(** Two packets; one is overwritten by an assignment, the other moves twice
    and is assigned to itself. *)
Definition sample_ops : list packet_op :=
  [OpTake 1 (MkPacket 7 []); OpTake 2 (MkPacket 8 []); OpMoveAssign 2 1; OpMove 3 2;
   OpMoveAssign 3 3; OpDtor 1; OpDtor 2; OpDtor 3].

Lemma packet_unique_ownership_witness :
  ∃ s' gone, run_packet_ops sample_ops (MkNetState sample_net_world ∅) = (Ok tt, s') ∧
    destroyed (w_log (n_world s')) = gone ∧ [7%Z; 8%Z] ≡ₚ gone.
Proof.
  destruct (packet_unique_ownership sample_ops ∅ sample_net_world)
    as (s' & gone & Hrun & _ & Hd & _ & Hall).
  - vm_compute. reflexivity.
  - exists s', gone. split; [exact Hrun|]. split; [exact Hd|]. exact (Hall eq_refl).
Defined.
End witnesses.
