(* ===== verification/BusClient.v ===== *)
(** * Pub/sub client (include/spraybus/client/client.hpp, src/spraybus/client/client.cpp)

    The high-level client: the topic caches, topic resolution over a temporary
    connection, publication, subscription and polling. *)

From Stdlib.Strings Require Import Byte.
From stdpp Require Import base gmap list strings.
From S2P Require Import Prelude Protocol World Common NetClient.

(** ** Data *)

Record FanoutMessage : Type := MkFanoutMessage {
  topic_key : Z;
  topic : string;
  payload : list byte;
}.

(** The members of [Client], with the state of the networking layer. *)
Record BusClient : Type := MkBusClient {
  c_net : NetState;
  m_client : NetClient;
  m_host : string;
  m_port : Z;
  m_protocol_constructor : Constructor;
  m_topic_map : gmap string Z;
  m_inverse_topic_map : gmap Z string;
}.

Definition with_net (x : NetState) (c : BusClient) : BusClient :=
  MkBusClient x (m_client c) (m_host c) (m_port c) (m_protocol_constructor c)
    (m_topic_map c) (m_inverse_topic_map c).
Definition with_constructor (x : Constructor) (c : BusClient) : BusClient :=
  MkBusClient (c_net c) (m_client c) (m_host c) (m_port c) x
    (m_topic_map c) (m_inverse_topic_map c).
Definition with_topic_maps (x : gmap string Z) (y : gmap Z string) (c : BusClient) : BusClient :=
  MkBusClient (c_net c) (m_client c) (m_host c) (m_port c) (m_protocol_constructor c) x y.

#[export] Instance client_net_lens : Lens BusClient NetState.
Proof. refine {| lget := c_net; lset := with_net |}; by intros; destruct s. Defined.

#[export] Instance client_constructor_lens : Lens BusClient Constructor.
Proof.
  refine {| lget := m_protocol_constructor; lset := with_constructor |};
    by intros; destruct s.
Defined.

#[export] Instance client_world_lens : Lens BusClient World.
Proof.
  refine {| lget := λ c, n_world (c_net c);
            lset := λ w c, with_net (MkNetState w (n_packets (c_net c))) c |};
    by intros; destruct s as [[]].
Defined.

(** A caller's state next to the client, for callbacks that capture it. *)
#[export] Instance pair_fst_lens A B : Lens (A * B) A.
Proof. refine {| lget := fst; lset := λ a s, (a, s.2) |}; by intros; destruct s. Defined.
#[export] Instance pair_snd_lens A B : Lens (A * B) B.
Proof. refine {| lget := snd; lset := λ b s, (s.1, b) |}; by intros; destruct s. Defined.

#[export] Instance client_pair_world_lens U : Lens (BusClient * U) World.
Proof.
  refine {| lget := λ s, n_world (c_net s.1);
            lset := λ w s, (with_net (MkNetState w (n_packets (c_net s.1))) s.1, s.2) |};
    by intros; destruct s as [[[]]].
Defined.

(** The address of the local variable [packet]. *)
Definition local_packet : nat := 1.

(** Destructors of local variables, run at scope exit. *)
Definition net_cleanup {S} `{!Lens S NetState} (m : M NetState unit) (s : S) : S :=
  lset (snd (m (lget s))) s.

(** ** Operations *)

Section operations.
Context {plat : Platform}.

Definition BusClient_ctor (host : string) (port : Z) : M NetState BusClient :=
  let! client := NetClient_ctor host port in
  let! net := gets id in
  ret (MkBusClient net client host port Constructor_default ∅ ∅).

(** [m_topic_map[topic_name] = topic_key; m_inverse_topic_map[topic_key] = topic_name]. *)
Definition remember (topic_name : string) (key : Z) : M BusClient unit :=
  modify (λ c, with_topic_maps (<[topic_name := key]> (m_topic_map c))
                 (m_inverse_topic_map c) c) ;;;
  modify (λ c, with_topic_maps (m_topic_map c)
                 (<[key := topic_name]> (m_inverse_topic_map c)) c).

(** The end of [get_topic_key]: read the response from [packet]. *)
Definition read_response : M BusClient Z :=
  let! data := zoom (Packet_data local_packet) in
  let! response := of_outcome (Message_ctor data) in
  if bool_decide (m_type_ (m_header response) = Type_value Type_topic_response) then
    let topic_name := Message_payload_as_string response in
    let topic_key := Header_topic_key (m_header response) in
    remember topic_name topic_key ;;;
    ret topic_key
  else
    throw (runtime_error ("Unexpected response type: " +:+
             Type_to_string (m_type_ (m_header response)))).

Definition BusClient_get_topic_key (topic : string) : M BusClient Z :=
  let! it := gets (λ c, m_topic_map c !! topic) in
  match it with
  | Some key => ret key
  | None =>
      let! msg := zoom (Constructor_topic_request topic (Origin_value Origin_client)) in
      let! host := gets m_host in
      let! port := gets m_port in
      let! temporary_client := zoom (NetClient_ctor host port) in
      with_destructor (net_cleanup (NetClient_dtor temporary_client))
        (zoom (NetClient_send temporary_client msg) ;;;
         zoom (NetClient_recv temporary_client local_packet 1000) ;;;
         with_destructor (net_cleanup (Packet_dtor local_packet))
           read_response)
  end.

(** The overloads of [publish]: on a key or a topic, of bytes or a string. *)
Definition BusClient_publish_key (key : Z) (payload : list byte) : M BusClient unit :=
  let! msg := zoom (Constructor_publish key payload (Origin_value Origin_client)) in
  let! client := gets m_client in
  zoom (NetClient_send client msg).

Definition BusClient_publish (topic : string) (payload : list byte) : M BusClient unit :=
  let! key := BusClient_get_topic_key topic in
  let! msg := zoom (Constructor_publish key payload (Origin_value Origin_client)) in
  let! client := gets m_client in
  zoom (NetClient_send client msg).

Definition BusClient_publish_string (topic : string) (payload : string) : M BusClient unit :=
  BusClient_publish topic (as_bytes payload).

Definition BusClient_publish_key_string (key : Z) (payload : string) : M BusClient unit :=
  BusClient_publish_key key (as_bytes payload).

Definition BusClient_subscribe (topic : string) : M BusClient unit :=
  let! key := BusClient_get_topic_key topic in
  let! msg := zoom (Constructor_subscribe key (Origin_value Origin_client)) in
  let! client := gets m_client in
  zoom (NetClient_send client msg).

(** A callback may call the client again.  The local variables of what it
    calls are other objects than those of [process]: while it runs, [packet]
    is out of their way. *)
Definition with_packets (f : gmap nat (option ENetPacket) → gmap nat (option ENetPacket))
    (c : BusClient) : BusClient :=
  with_net (MkNetState (n_world (c_net c)) (f (n_packets (c_net c)))) c.

Definition in_callback {U A} (m : M (BusClient * U) A) : M (BusClient * U) A := λ s,
  let packet := n_packets (c_net s.1) !! local_packet in
  let r := m (with_packets (delete local_packet) s.1, s.2) in
  (fst r, (with_packets (partial_alter (λ _, packet) local_packet) (snd r).1, (snd r).2)).

(** The body of [process] on a received packet; the callback runs on the
    client and the caller's state [U]. *)
Definition handle_packet {U} (lambda : Message → M (BusClient * U) unit) :
    M (BusClient * U) unit :=
  let! data := zoom (zoom (T := NetState) (S := BusClient) (Packet_data local_packet)) in
  let! msg := of_outcome (Message_ctor data) in
  match Type_of (m_type_ (m_header msg)) with
  | Some Type_fanout =>
      let! it := gets (λ s, m_inverse_topic_map s.1 !! Header_topic_key (m_header msg)) in
      let topic_name := default "unknown" it in
      in_callback (lambda (Message_set_topic topic_name msg))
  | _ => ret tt
  end.

Definition BusClient_process_with {U} (lambda : Message → M (BusClient * U) unit) :
    M (BusClient * U) unit :=
  zoom (zoom (T := NetState) (S := BusClient) (Packet_default local_packet)) ;;;
  with_destructor
    (λ s, (net_cleanup (Packet_dtor local_packet) s.1, s.2))
    (let! client := gets (λ s, m_client s.1) in
     let! got := zoom (zoom (T := NetState) (S := BusClient)
                         (NetClient_process client local_packet)) in
     if got : bool then handle_packet lambda else ret tt).

(** Callbacks that leave the client alone. *)
Definition BusClient_process {U} (lambda : Message → M U unit) : M (BusClient * U) unit :=
  BusClient_process_with (λ m, zoom (lambda m)).

(** The callback of [poll] assigns the captured [fanout]. *)
Definition capture (message : Message) : M (option FanoutMessage) unit :=
  modify (λ _, Some {| topic_key := Header_topic_key (m_header message);
                       topic := m_topic message;
                       payload := m_payload message |}).

Definition BusClient_poll : M BusClient (option FanoutMessage) := λ c,
  match BusClient_process capture (c, None) with
  | (Ok _, (c', fanout)) => (Ok fanout, c')
  | (Throw e, (c', _)) => (Throw e, c')
  | (Undefined, (c', _)) => (Undefined, c')
  | (OutOfFuel, (c', _)) => (OutOfFuel, c')
  end.
End operations.

(** ** Code that does not change a calm view of the world *)

Section calls.
Context {plat : Platform} {V : Type} {view : World → V} `{!Calm view}.

Lemma keeps_net {A} (m : M NetState A) :
  keeps_view view m → keeps_view view (zoom (S := BusClient) m).
Proof. intros Hm. by apply keeps_zoom. Qed.

Lemma keeps_net_pair {U A} (m : M NetState A) :
  keeps_view view m →
  keeps_view view (zoom (S := BusClient * U) (zoom (T := NetState) (S := BusClient) m)).
Proof. intros Hm. apply keeps_zoom; [done..|]. by apply keeps_net. Qed.

Lemma keeps_constructor {A} (m : M Constructor A) :
  keeps_view view (zoom (S := BusClient) m).
Proof. by apply keeps_part. Qed.

Lemma keeps_cleanup (m : M NetState unit) :
  keeps_view view m → ∀ c : BusClient, view (lget (net_cleanup m c)) = view (lget c).
Proof. intros Hm c. apply (Hm (c_net c)). Qed.

(** A callback on the caller's state does not reach the world. *)
Lemma keeps_callback {U} (lambda : M U unit) :
  keeps_view view (zoom (S := BusClient * U) lambda).
Proof. by apply keeps_part. Qed.

#[local] Ltac net := first
  [apply keeps_net_pair|apply keeps_net|apply keeps_constructor|apply keeps_callback].

Lemma keeps_in_callback {U A} (m : M (BusClient * U) A) :
  keeps_view view m → keeps_view view (in_callback m).
Proof. intros Hm s. exact (Hm (with_packets (delete local_packet) s.1, s.2)). Qed.

Lemma keeps_handle_packet {U} (lambda : Message → M (BusClient * U) unit) :
  (∀ m, keeps_view view (lambda m)) → keeps_view view (handle_packet lambda).
Proof.
  intros Hl. assert (Hc : ∀ m, keeps_view view (in_callback (lambda m)))
    by (intros m; by apply keeps_in_callback).
  unfold handle_packet. keeps net.
Qed.

Lemma keeps_process_with {U} (lambda : Message → M (BusClient * U) unit) :
  (∀ m, keeps_view view (lambda m)) → keeps_view view (BusClient_process_with lambda).
Proof.
  intros Hl. unfold BusClient_process_with, Packet_default. pose proof (keeps_handle_packet lambda Hl).
  apply keeps_bind; [keeps net|]. intros _. apply keeps_with_destructor; [|keeps net].
  intros s. apply (keeps_cleanup _ (keeps_Packet_dtor _) s.1).
Qed.

Lemma keeps_BusClient_process {U} (lambda : Message → M U unit) :
  keeps_view view (BusClient_process lambda).
Proof. apply keeps_process_with. intros m. apply keeps_callback. Qed.

Lemma keeps_BusClient_poll : keeps_view view BusClient_poll.
Proof.
  intros c. unfold BusClient_poll. pose proof (keeps_BusClient_process capture (c, None)) as H.
  by destruct (BusClient_process capture (c, None)) as [[] []].
Qed.

Lemma keeps_get_topic_key topic : keeps_view view (BusClient_get_topic_key topic).
Proof.
  unfold BusClient_get_topic_key, read_response, remember.
  apply keeps_bind; [keeps net|]. intros [key|]; [keeps net|].
  do 3 (apply keeps_bind; [keeps net|]; intros ?). apply keeps_bind; [keeps net|]. intros t.
  apply keeps_with_destructor; [apply keeps_cleanup, keeps_NetClient_dtor|].
  do 2 (apply keeps_bind; [keeps net|]; intros ?).
  apply keeps_with_destructor; [apply keeps_cleanup, keeps_Packet_dtor|]. keeps net.
Qed.

Lemma keeps_BusClient_publish topic payload : keeps_view view (BusClient_publish topic payload).
Proof. unfold BusClient_publish. pose proof (keeps_get_topic_key topic). keeps net. Qed.

Lemma keeps_BusClient_publish_key key payload :
  keeps_view view (BusClient_publish_key key payload).
Proof. unfold BusClient_publish_key. keeps net. Qed.

Lemma keeps_BusClient_subscribe topic : keeps_view view (BusClient_subscribe topic).
Proof. unfold BusClient_subscribe. pose proof (keeps_get_topic_key topic). keeps net. Qed.
End calls.

(** ** Specification of topic resolution *)

Section lookup_spec.
Context {plat : Platform}.

(** What a response makes of the request: the result, and the entry learnt. *)
Definition response_outcome (data : list byte) : outcome Z * option (string * Z) :=
  if length data <? sizeof_Header then
    (Throw (runtime_error "Data too short to contain header"), None)
  else
    let h := Header_of_bytes data in
    if bool_decide (m_type_ h = Type_value Type_topic_response) then
      (Ok (Header_topic_key h),
       Some (string_of_bytes (drop sizeof_Header data), Header_topic_key h))
    else
      (Throw (runtime_error ("Unexpected response type: " +:+
                             Type_to_string (m_type_ h))), None).

(** What the first event after the request makes of it. *)
Definition exchange_outcome (r : Z * ENetEvent) : outcome Z * option (string * Z) :=
  let timeout := (Throw (runtime_error "Timeout while waiting for packet."), None) in
  if (0 <? r.1)%Z then
    match r.2 with
    | EVENT_RECEIVE _ p => response_outcome (packet_data p)
    | EVENT_DISCONNECT _ => (Throw (runtime_error "Disconnected from server."), None)
    | _ => timeout
    end
  else timeout.

Definition lookup_outcome (host : string) (port : Z) (w : World) :
    outcome Z * option (string * Z) :=
  match fst (connect_outcome host port w) with
  | Ok _ => exchange_outcome (hd (0%Z, EVENT_NONE) (tl (w_service w)))
  | Throw e => (Throw e, None)
  | Undefined => (Undefined, None)
  | OutOfFuel => (OutOfFuel, None)
  end.

(** The request, on the temporary connection if there is one. *)
Definition lookup_sends (topic host : string) (port : Z) (w : World) :
    list (ENetPeer * list byte) :=
  match fst (connect_outcome host port w) with
  | Ok t => [(nc_peer t, packet (Origin_value Origin_client) (Topic_request topic))]
  | _ => []
  end.

Definition learn (entry : option (string * Z)) (c : BusClient) : BusClient :=
  match entry with
  | Some (name, key) =>
      with_topic_maps (<[name := key]> (m_topic_map c))
        (<[key := name]> (m_inverse_topic_map c)) c
  | None => c
  end.

(** The wrappers at the addresses the operations use are not alive between
    calls. *)
Definition idle (c : BusClient) : Prop :=
  n_packets (c_net c) !! local_packet = None ∧ n_packets (c_net c) !! temporary = None.

(** ENet delivers no packet in place of the connection event. *)
Definition connects_first (w : World) : Prop :=
  received [hd (0%Z, EVENT_NONE) (w_service w)] = [].
End lookup_spec.

(** ** Lemmas *)

Section lookup.
Context {plat : Platform}.
Implicit Types (c : BusClient).

(** A packet held in [local_packet] and destroyed at the end of the scope. *)
Lemma read_response_run c p :
  n_packets (c_net c) !! local_packet = Some (Some p) →
  read_response c =
    (fst (response_outcome (packet_data p)), learn (snd (response_outcome (packet_data p))) c).
Proof.
  intros Hp. unfold read_response, response_outcome.
  rewrite (bind_Ok _ _ c (packet_data p) c).
  2: { rewrite (zoom_run _ _ (Ok (packet_data p)) (c_net c)); [by destruct c|].
       unfold Packet_data. by rewrite (bind_Ok _ _ _ _ _ (packet_at_run _ _ _ Hp)). }
  destruct (Nat.ltb_spec (length (packet_data p)) sizeof_Header) as [Hl|Hl].
  { by rewrite Message_ctor_short. }
  rewrite Message_ctor_long by done. unfold of_outcome, bind at 1. cbn [m_header].
  by case_bool_decide.
Qed.

(** Leaving the scope of a wrapper that holds [p]. *)
Lemma packet_cleanup c p :
  n_packets (c_net c) !! local_packet = Some (Some p) →
  net_cleanup (Packet_dtor local_packet) c =
    with_net (MkNetState (world_emit (Enet_packet_destroy (packet_id p)) (n_world (c_net c)))
                (delete local_packet (n_packets (c_net c)))) c.
Proof.
  intros H. unfold net_cleanup. cbn [lget lset client_net_lens].
  by rewrite (Packet_dtor_run _ _ _ H).
Qed.

Lemma response_outcome_ends data :
  match fst (response_outcome data) with Ok _ | Throw _ => True | _ => False end.
Proof. unfold response_outcome. by repeat case_match. Qed.

Lemma exchange_outcome_ends r :
  match fst (exchange_outcome r) with Ok _ | Throw _ => True | _ => False end.
Proof.
  unfold exchange_outcome. destruct r as [r []]; cbn [fst snd]; destruct (0 <? r)%Z;
    try done. apply response_outcome_ends.
Qed.

Lemma learn_net e n c : learn e (with_net n c) = with_net n (learn e c).
Proof. by destruct e as [[]|]. Qed.

Lemma dtor_cleanup t c :
  ∃ n, net_cleanup (NetClient_dtor t) c = with_net n c ∧ balanced [] (c_net c) n ∧
    last (w_log (n_world n)) = Some (Enet_host_destroy (nc_client t)) ∧
    w_service (n_world n) = snd (dtor_used (w_service (n_world (c_net c)))).
Proof.
  pose proof (dtor_returns t (c_net c)) as ([] & n & Hn & Hb & Hw & _ & _ & calls & Hl)%returns_inv.
  exists n. split_and!; [|done|by rewrite Hl, !app_assoc, last_snoc|done].
  unfold net_cleanup. cbn [lget lset client_net_lens].
  by rewrite Hn.
Qed.

(** The exchange on the temporary connection. *)
Lemma exchange_run t msg c :
  n_packets (c_net c) !! local_packet = None →
  let r := hd (0%Z, EVENT_NONE) (w_service (n_world (c_net c))) in
  ∃ n, (zoom (NetClient_send t msg) ;;;
        zoom (NetClient_recv t local_packet 1000) ;;;
        with_destructor (net_cleanup (Packet_dtor local_packet)) read_response) c =
      (fst (exchange_outcome r), with_net n (learn (snd (exchange_outcome r)) c)) ∧
    balanced [(nc_peer t, msg)] (c_net c) n ∧
    w_service (n_world n) = tl (w_service (n_world (c_net c))).
Proof.
  intros Hidle r. set (n1 := snd (NetClient_send t msg (c_net c))).
  pose proof (send_balanced t msg (c_net c) n1 eq_refl) as Hb1.
  rewrite (bind_Ok _ _ c tt (with_net n1 c)) by done.
  assert (Hr : hd (0%Z, EVENT_NONE) (w_service (n_world n1)) = r) by done.
  assert (Hp1 : n_packets n1 = n_packets (c_net c)) by done.
  assert (Hw1 : w_service (n_world n1) = w_service (n_world (c_net c))) by done.
  clearbody n1. set (n2 := after_service (nc_client t) 1000 n1).
  assert (Herr : ∀ e, received [r] = [] →
    NetClient_recv t local_packet 1000 n1 = (Throw e, n2) →
    exchange_outcome r = (Throw e, None) →
    ∃ n, (zoom (NetClient_recv t local_packet 1000) ;;;
          with_destructor (net_cleanup (Packet_dtor local_packet)) read_response)
          (with_net n1 c) =
        (fst (exchange_outcome r), with_net n (learn (snd (exchange_outcome r)) c)) ∧
      balanced [(nc_peer t, msg)] (c_net c) n ∧
      w_service (n_world n) = tl (w_service (n_world (c_net c)))).
  { intros e Hnone He Hx. exists n2. rewrite Hx. split; [|split; [|by unfold n2; cbn; rewrite Hw1]].
    - apply bind_Throw. by rewrite (zoom_run _ (with_net n1 c) _ _ He).
    - eapply (balanced_trans [_] []); [exact Hb1|]. apply balanced_service. by rewrite Hr. }
  pose proof (recv_run t local_packet 1000 n1) as Hrecv. cbn zeta in Hrecv.
  rewrite Hr in Hrecv. fold n2 in Hrecv.
  destruct r as [ret [|peer|peer|peer p]]; unfold exchange_outcome in *;
    cbn [fst snd] in *; destruct (0 <? ret)%Z eqn:Hret;
    try (eapply Herr; [|exact Hrecv|done];
         first [by apply received_nonpositive|by apply received_other]).
  clear Herr. set (n3 := MkNetState (n_world n2) (<[local_packet := Some p]> (n_packets n2))).
  rewrite (bind_Ok _ _ _ tt (with_net n3 c)).
  2: exact (zoom_run _ (with_net n1 c) _ _ Hrecv).
  pose proof (read_response_run (with_net n3 c) p (lookup_insert_eq _ _ _)) as Hresp.
  exists (after_emit (Enet_packet_destroy (packet_id p)) n2).
  split; [|split; [|by unfold n2; cbn; rewrite Hw1]].
  - erewrite with_destructor_run; [|exact Hresp|apply response_outcome_ends].
    f_equal. rewrite learn_net. erewrite packet_cleanup by apply lookup_insert_eq.
    cbn [c_net with_net n_world n_packets]. unfold n3. cbn [n_world n_packets].
    rewrite delete_insert_id; [done|]. unfold n2. cbn [n_packets after_service]. by rewrite Hp1.
  - eapply (balanced_trans [_] []); [exact Hb1|].
    eapply balanced_receive; [exact Hr|]. by apply Z.ltb_lt.
Qed.

(** A connection made means the handshake was waited for. *)
Lemma connect_outcome_reached host port w t :
  fst (connect_outcome host port w) = Ok t → handshake_reached w = true.
Proof.
  unfold connect_outcome, handshake_reached.
  by destruct (hd None (w_hosts w)), (hd None (w_peers w)).
Qed.

(** The state after a lookup, up to the networking layer: the request stays
    in the buffer of the constructor. *)
Definition after_lookup (topic : string) (c : BusClient) : BusClient :=
  let w := n_world (c_net c) in
  learn (snd (lookup_outcome (m_host c) (m_port c) w))
    (with_constructor
       {| m_buffer := packet (Origin_value Origin_client) (Topic_request topic) |} c).

(** The results of ENet that a lookup leaves. *)
Definition lookup_rest (host : string) (port : Z) (w : World) : list (Z * ENetEvent) :=
  match fst (connect_outcome host port w) with
  | Ok _ => snd (dtor_used (tl (tl (w_service w))))
  | _ => if handshake_reached w then tl (w_service w) else w_service w
  end.

Lemma lookup_run topic c :
  let w := n_world (c_net c) in
  m_topic_map c !! topic = None → idle c →
  ∃ n, BusClient_get_topic_key topic c =
      (fst (lookup_outcome (m_host c) (m_port c) w), with_net n (after_lookup topic c)) ∧
    progress (c_net c) n ∧
    (connects_first w →
     balanced (lookup_sends topic (m_host c) (m_port c) w) (c_net c) n) ∧
    (∀ t, fst (connect_outcome (m_host c) (m_port c) w) = Ok t →
     last (w_log (n_world n)) = Some (Enet_host_destroy (nc_client t))) ∧
    w_service (n_world n) = lookup_rest (m_host c) (m_port c) w ∧
    sends (w_log (n_world n)) = sends (w_log w) ++ lookup_sends topic (m_host c) (m_port c) w.
Proof.
  intros w Hnone [Hidle _]. unfold BusClient_get_topic_key, after_lookup.
  rewrite (bind_Ok _ _ c None c) by by rewrite <-Hnone.
  set (c1 := with_constructor {| m_buffer :=
    packet (Origin_value Origin_client) (Topic_request topic) |} c).
  rewrite (bind_Ok _ _ c (packet (Origin_value Origin_client) (Topic_request topic)) c1) by done.
  rewrite (bind_Ok _ _ c1 (m_host c) c1), (bind_Ok _ _ c1 (m_port c) c1) by done.
  destruct (ctor_run (m_host c) (m_port c) (c_net c)) as (n1 & Hrun & _ & Hpk & Hser).
  pose proof (ctor_balanced _ _ _ _ Hrun) as Hb1. pose proof (ctor_progress _ _ _ _ _ Hrun) as Hg1.
  pose proof (ctor_sends _ _ _ _ _ Hrun) as Hs1. fold w in Hs1. fold w in Hrun, Hser, Hb1.
  assert (Hzoom : zoom (NetClient_ctor (m_host c) (m_port c)) c1 =
    (fst (connect_outcome (m_host c) (m_port c) w), with_net n1 c1)).
  { unfold zoom. change (lget c1) with (c_net c). by rewrite Hrun. }
  pose proof (connect_outcome_reached (m_host c) (m_port c) w) as Hreached.
  unfold lookup_outcome, lookup_sends, lookup_rest. fold w.
  destruct (fst (connect_outcome (m_host c) (m_port c) w)) as [t|e| |] eqn:Eout.
  2: { rewrite (bind_Throw _ _ _ _ _ Hzoom). exists n1. by rewrite app_nil_r. }
  2, 3: exfalso; revert Eout; unfold connect_outcome; by repeat case_match.
  rewrite (bind_Ok _ _ _ _ _ Hzoom). rewrite (Hreached t eq_refl) in Hser.
  destruct (exchange_run t (packet (Origin_value Origin_client) (Topic_request topic))
    (with_net n1 c1)) as (n2 & Hx & Hb2 & Hw2); [by cbn; rewrite Hpk|].
  cbn [c_net with_net] in Hx, Hb2, Hw2. rewrite Hser in Hx, Hw2.
  erewrite with_destructor_run; [|exact Hx|].
  2: apply exchange_outcome_ends.
  edestruct (dtor_cleanup t) as (n3 & -> & Hb3 & Hlast & Hw3).
  rewrite learn_net in Hb3, Hw3. cbn [c_net with_net] in Hb3, Hw3. rewrite Hw2 in Hw3.
  exists n3. rewrite !learn_net. split_and!; [done| | |by intros ? [= <-]|done|].
  - etrans; [exact Hg1|]. etrans; [by eapply balanced_progress|].
    by eapply balanced_progress.
  - intros Hfirst. apply (balanced_trans [] _ _ n1); [by apply Hb1|].
    rewrite <-(app_nil_r [_]). by eapply balanced_trans.
  - by rewrite (balanced_sends _ _ _ Hb3), app_nil_r, (balanced_sends _ _ _ Hb2), Hs1.
Qed.

Lemma cached_run topic key c :
  m_topic_map c !! topic = Some key → BusClient_get_topic_key topic c = (Ok key, c).
Proof. intros H. unfold BusClient_get_topic_key. by rewrite (bind_Ok _ _ c (Some key) c); [|rewrite <-H]. Qed.
(** ** Requests on the main connection *)

(** Resolving a topic, from the cache or by a lookup. *)
Definition resolution (topic : string) (c : BusClient) : outcome Z :=
  match m_topic_map c !! topic with
  | Some key => Ok key
  | None => fst (lookup_outcome (m_host c) (m_port c) (n_world (c_net c)))
  end.

Definition resolution_sends (topic : string) (c : BusClient) :
    list (ENetPeer * list byte) :=
  match m_topic_map c !! topic with
  | Some _ => []
  | None => lookup_sends topic (m_host c) (m_port c) (n_world (c_net c))
  end.

Definition resolution_rest (topic : string) (c : BusClient) : list (Z * ENetEvent) :=
  match m_topic_map c !! topic with
  | Some _ => w_service (n_world (c_net c))
  | None => lookup_rest (m_host c) (m_port c) (n_world (c_net c))
  end.

(** The caches after resolving a topic. *)
Definition resolution_learnt (topic : string) (c : BusClient) : option (string * Z) :=
  match m_topic_map c !! topic with
  | Some _ => None
  | None => snd (lookup_outcome (m_host c) (m_port c) (n_world (c_net c)))
  end.

(** [c'] is [c] with the entry [e] learnt; the networking state and the
    packet buffer may differ. *)
Definition learnt (e : option (string * Z)) (c c' : BusClient) : Prop :=
  ∃ n b, c' = with_net n (with_constructor b (learn e c)).

(** A packet for the server. *)
Definition to_server (c : BusClient) (m : bus_msg) : ENetPeer * list byte :=
  (nc_peer (m_client c), packet (Origin_value Origin_client) m).

Lemma learn_constructor e b c :
  learn e (with_constructor b c) = with_constructor b (learn e c).
Proof. by destruct e as [[]|]. Qed.

Lemma resolve_run topic c :
  idle c →
  ∃ c', BusClient_get_topic_key topic c = (resolution topic c, c') ∧
    learnt (resolution_learnt topic c) c c' ∧ progress (c_net c) (c_net c') ∧
    (connects_first (n_world (c_net c)) ∨ is_Some (m_topic_map c !! topic) →
     balanced (resolution_sends topic c) (c_net c) (c_net c')).
Proof.
  intros Hidle. unfold resolution, resolution_learnt, resolution_sends.
  destruct (m_topic_map c !! topic) as [key|] eqn:E.
  - exists c. split_and!; [by apply cached_run| |done|intros; apply balanced_refl].
    exists (c_net c), (m_protocol_constructor c). by destruct c.
  - destruct (lookup_run topic c E Hidle) as (n & -> & Hg & Hb & _).
    eexists; split; [done|]. split_and!; [|done|by intros [?|[]%is_Some_None]; auto].
    unfold after_lookup. rewrite learn_constructor. by do 2 eexists.
Qed.

Lemma resolve_rest topic c :
  idle c →
  w_service (n_world (c_net (snd (BusClient_get_topic_key topic c)))) = resolution_rest topic c.
Proof.
  intros Hidle. unfold resolution_rest. destruct (m_topic_map c !! topic) as [key|] eqn:E.
  - by rewrite (cached_run _ _ _ E).
  - by destruct (lookup_run topic c E Hidle) as (n & -> & _ & _ & _ & ? & _).
Qed.

Lemma resolve_sends topic c :
  idle c →
  sends (w_log (n_world (c_net (snd (BusClient_get_topic_key topic c))))) =
    sends (w_log (n_world (c_net c))) ++ resolution_sends topic c.
Proof.
  intros Hidle. unfold resolution_sends. destruct (m_topic_map c !! topic) as [key|] eqn:E.
  - by rewrite (cached_run _ _ _ E), app_nil_r.
  - by destruct (lookup_run topic c E Hidle) as (n & -> & _ & _ & _ & _ & ?).
Qed.

Lemma resolution_ends topic c :
  match resolution topic c with Ok _ | Throw _ => True | _ => False end.
Proof.
  unfold resolution, lookup_outcome. destruct (m_topic_map c !! topic); [done|].
  destruct (fst (connect_outcome _ _ _)) as [t|e| |] eqn:E; [apply exchange_outcome_ends|done|..];
    revert E; unfold connect_outcome; by repeat case_match.
Qed.

(** ** Construction *)

(** No wrapper is alive before the client is built. *)
Definition free (net : NetState) : Prop :=
  n_packets net !! local_packet = None ∧ n_packets net !! temporary = None.

Lemma client_ctor_run h p net :
  ∃ net', NetClient_ctor h p net = (fst (connect_outcome h p (n_world net)), net') ∧
    progress net net' ∧
    BusClient_ctor h p net =
      (outcome_map (λ t, MkBusClient net' t h p Constructor_default ∅ ∅)
         (fst (connect_outcome h p (n_world net))), net').
Proof.
  destruct (ctor_run h p net) as (net' & Hrun & _). exists net'.
  split_and!; [done|by eapply ctor_progress|]. unfold BusClient_ctor, bind, gets. rewrite Hrun.
  by destruct (fst (connect_outcome h p (n_world net))).
Qed.

(** A client whose connection succeeds. *)
Lemma client_ctor_ok host port net h hosts p peers r q rest :
  let w := n_world net in
  free net → w_hosts w = Some h :: hosts → w_peers w = Some p :: peers →
  w_service w = (r, EVENT_CONNECT q) :: rest → (0 < r)%Z →
  ∃ c, BusClient_ctor host port net = (Ok c, c_net c) ∧ idle c ∧
    m_host c = host ∧ m_port c = port ∧ m_topic_map c = ∅ ∧ m_inverse_topic_map c = ∅ ∧
    nc_peer (m_client c) = p ∧ w_hosts (n_world (c_net c)) = hosts ∧
    w_peers (n_world (c_net c)) = peers ∧ w_service (n_world (c_net c)) = rest ∧
    sends (w_log (n_world (c_net c))) = sends (w_log w) ∧
    w_run (n_world (c_net c)) = w_run w.
Proof.
  intros w Hfree Hh Hp Hs Hr. pose proof (ctor_ok host port net h hosts p peers r q rest Hh Hp Hs Hr)
    as Hctor. fold w in Hctor.
  destruct (NetClient_ctor host port net) as [o net1] eqn:E. injection Hctor as -> Hn.
  exists (MkBusClient net1 (MkNetClient h (connected_address w host port) p) host port
    Constructor_default ∅ ∅).
  split; [unfold BusClient_ctor; by rewrite (bind_Ok _ _ _ _ _ E)|]. cbn [c_net]. rewrite Hn.
  split_and!; try done. cbn. by rewrite sends_app, app_nil_r.
Qed.

Lemma connect_outcome_ends h p w :
  match fst (connect_outcome h p w) with Ok _ | Throw _ => True | _ => False end.
Proof. unfold connect_outcome. by repeat case_match. Qed.

Lemma learnt_idle e c c' : learnt e c c' → progress (c_net c) (c_net c') → idle c → idle c'.
Proof.
  intros (n & b & ->) [_ Hp] Hidle. unfold idle in *. cbn [c_net with_net] in *. by rewrite Hp.
Qed.

(** Building a message and sending it on the main connection. *)
Lemma send_msg_run m c :
  ∃ n b, (let! msg := zoom (build (Origin_value Origin_client) m) in
          let! client := gets m_client in
          zoom (NetClient_send client msg)) c = (Ok tt, with_net n (with_constructor b c)) ∧
    balanced [to_server c m] (c_net c) n.
Proof.
  set (p := packet (Origin_value Origin_client) m).
  exists (snd (NetClient_send (m_client c) p (c_net c))), {| m_buffer := p |}.
  split; [|by apply send_balanced].
  rewrite (bind_Ok _ _ c p (with_constructor {| m_buffer := p |} c)); [done|].
  unfold zoom. by rewrite build_run.
Qed.

(** Resolving a topic, then sending the message about its key. *)
Lemma request_run topic (mk : Z → bus_msg) c :
  idle c →
  ∃ c', (let! key := BusClient_get_topic_key topic in
         let! msg := zoom (build (Origin_value Origin_client) (mk key)) in
         let! client := gets m_client in
         zoom (NetClient_send client msg)) c =
      (outcome_map (λ _, tt) (resolution topic c), c') ∧
    learnt (resolution_learnt topic c) c c' ∧ progress (c_net c) (c_net c') ∧
    (connects_first (n_world (c_net c)) ∨ is_Some (m_topic_map c !! topic) →
     balanced (resolution_sends topic c ++
        match resolution topic c with Ok key => [to_server c (mk key)] | _ => [] end)
       (c_net c) (c_net c')).
Proof.
  intros Hidle. destruct (resolve_run topic c Hidle) as (c1 & Hrun & Hl & Hg & Hb).
  pose proof (resolution_ends topic c) as Hends.
  destruct (resolution topic c) as [key|e| |]; try done.
  - rewrite (bind_Ok _ _ _ _ _ Hrun).
    destruct (send_msg_run (mk key) c1) as (n & b & -> & Hb2).
    eexists; split; [done|]. destruct Hl as (n1 & b1 & ->). split_and!.
    + exists n, b. done.
    + etrans; [exact Hg|]. by eapply balanced_progress.
    + intros Hfirst. eapply balanced_trans; [by apply Hb|].
      unfold to_server in *. by destruct (resolution_learnt topic c) as [[]|].
  - rewrite (bind_Throw _ _ _ _ _ Hrun). exists c1. by rewrite app_nil_r.
Qed.

(** A request leaves the results that the resolution leaves. *)
Lemma request_rest topic (mk : Z → bus_msg) c r c' :
  idle c →
  (let! key := BusClient_get_topic_key topic in
   let! msg := zoom (build (Origin_value Origin_client) (mk key)) in
   let! client := gets m_client in
   zoom (NetClient_send client msg)) c = (r, c') →
  w_service (n_world (c_net c')) = resolution_rest topic c.
Proof.
  intros Hidle. rewrite <-resolve_rest by done. unfold bind at 1.
  destruct (BusClient_get_topic_key topic c) as [[key|e| |] c1]; try by intros [= _ <-].
  unfold bind at 1, zoom at 1. rewrite build_run. by intros [= _ <-].
Qed.

(** What a request sends, whatever comes in the place of the handshake. *)
Lemma request_sends topic (mk : Z → bus_msg) c r c' :
  idle c →
  (let! key := BusClient_get_topic_key topic in
   let! msg := zoom (build (Origin_value Origin_client) (mk key)) in
   let! client := gets m_client in
   zoom (NetClient_send client msg)) c = (r, c') →
  sends (w_log (n_world (c_net c'))) = sends (w_log (n_world (c_net c))) ++ resolution_sends topic c ++
    match resolution topic c with Ok key => [to_server c (mk key)] | _ => [] end.
Proof.
  intros Hidle. pose proof (resolve_sends topic c Hidle) as Hs.
  destruct (resolve_run topic c Hidle) as (c1 & Hrun & Hl & _). rewrite Hrun in Hs. cbn [snd] in Hs.
  pose proof (resolution_ends topic c) as Hends.
  destruct (resolution topic c) as [key|e| |]; try done.
  - rewrite (bind_Ok _ _ _ _ _ Hrun). destruct (send_msg_run (mk key) c1) as (n & b & -> & Hb).
    intros [= _ <-]. cbn [c_net with_net]. rewrite (balanced_sends _ _ _ Hb), Hs, <-app_assoc.
    unfold to_server. destruct Hl as (n1 & b1 & ->). by destruct (resolution_learnt topic c) as [[]|].
  - rewrite (bind_Throw _ _ _ _ _ Hrun). intros [= _ <-]. by rewrite app_nil_r.
Qed.

(** ** Processing *)

(** What a received packet gives the callback: the message, named after the
    cache, if it is a fanout. *)
Definition packet_delivery (inverse : gmap Z string) (data : list byte) :
    outcome (option Message) :=
  if length data <? sizeof_Header then
    Throw (runtime_error "Data too short to contain header")
  else
    let h := Header_of_bytes data in
    match Type_of (m_type_ h) with
    | Some Type_fanout =>
        Ok (Some {| m_header := h; m_payload := drop sizeof_Header data;
                    m_topic := default "unknown" (inverse !! Header_topic_key h) |})
    | _ => Ok None
    end.

Definition delivery (inverse : gmap Z string) (r : Z * ENetEvent) :
    outcome (option Message) :=
  if (0 <? r.1)%Z then
    match r.2 with
    | EVENT_RECEIVE _ p => packet_delivery inverse (packet_data p)
    | EVENT_DISCONNECT _ => Throw (runtime_error "Disconnected from server.")
    | _ => Ok None
    end
  else Ok None.

(** The callback on what is delivered, from the state [u]. *)
Definition deliver {U} (lambda : Message → M U unit) (d : outcome (option Message)) :
    M U unit :=
  match d with
  | Ok (Some m) => lambda m
  | Ok None => ret tt
  | Throw e => throw e
  | Undefined => undefined
  | OutOfFuel => out_of_fuel
  end.

Lemma handle_packet_run {U} (lambda : Message → M (BusClient * U) unit) c u p :
  n_packets (c_net c) !! local_packet = Some (Some p) →
  handle_packet lambda (c, u) =
    deliver (λ m, in_callback (lambda m))
      (packet_delivery (m_inverse_topic_map c) (packet_data p)) (c, u).
Proof.
  intros Hp. unfold handle_packet, packet_delivery.
  rewrite (bind_Ok _ _ (c, u) (packet_data p) (c, u)).
  2: { unfold zoom. cbn [lget lset pair_fst_lens fst snd client_net_lens].
       unfold Packet_data. rewrite (bind_Ok _ _ _ _ _ (packet_at_run _ _ _ Hp)).
       by destruct c. }
  destruct (Nat.ltb_spec (length (packet_data p)) sizeof_Header) as [Hl|Hl].
  { by rewrite Message_ctor_short. }
  rewrite Message_ctor_long by done. unfold of_outcome, bind at 1. cbn [m_header].
  by destruct (Type_of _) as [[]|].
Qed.

(** A callback that returns or throws. *)
Definition callback_ends {U} (lambda : Message → M U unit) : Prop :=
  ∀ m u, match fst (lambda m u) with Ok _ | Throw _ => True | _ => False end.

Lemma delivery_ends inverse r :
  match delivery inverse r with Ok _ | Throw _ => True | _ => False end.
Proof. unfold delivery, packet_delivery. by repeat case_match. Qed.

Lemma deliver_ends {U} (lambda : Message → M U unit) inverse r u :
  callback_ends lambda →
  match fst (deliver lambda (delivery inverse r) u) with
  | Ok _ | Throw _ => True | _ => False end.
Proof.
  intros Hend. pose proof (delivery_ends inverse r).
  destruct (delivery inverse r) as [[m|]|e| |]; try done. apply Hend.
Qed.
Lemma zoom_net_run {U A} (m : M NetState A) c (u : U) r n :
  m (c_net c) = (r, n) →
  zoom (zoom (T := NetState) (S := BusClient) m) (c, u) = (r, (with_net n c, u)).
Proof. intros H. unfold zoom. cbn [lget pair_fst_lens fst client_net_lens]. by rewrite H. Qed.

(** The body of [process] while the wrapper [packet] is alive. *)
Lemma process_body_run {U} (lambda : Message → M (BusClient * U) unit) c u r n :
  NetClient_process (m_client c) local_packet (c_net c) = (r, n) →
  (let! client := gets (λ s, m_client s.1) in
   let! got := zoom (zoom (T := NetState) (S := BusClient)
                       (NetClient_process client local_packet)) in
   if got : bool then handle_packet lambda else ret tt) (c, u) =
    match r with
    | Ok true => handle_packet lambda (with_net n c, u)
    | Ok false => (Ok tt, (with_net n c, u))
    | Throw e => (Throw e, (with_net n c, u))
    | Undefined => (Undefined, (with_net n c, u))
    | OutOfFuel => (OutOfFuel, (with_net n c, u))
    end.
Proof.
  intros H. rewrite (bind_Ok _ _ (c, u) (m_client c) (c, u)) by done.
  unfold bind. rewrite (zoom_net_run _ _ _ _ _ H). by destruct r as [[]| | |].
Qed.

(** The client while [packet] is alive and empty. *)
Definition with_empty_packet (s : NetState) : NetState :=
  MkNetState (n_world s) (<[local_packet := None]> (n_packets s)).

(** The call of the networking layer inside [process]. *)
Lemma process_call_run t s :
  n_packets s !! temporary = None →
  let s1 := after_service (nc_client t) 0 (with_empty_packet s) in
  NetClient_process t local_packet (with_empty_packet s) =
    match hd (0%Z, EVENT_NONE) (w_service (n_world s)) with
    | (r, EVENT_RECEIVE _ p) =>
        if (0 <? r)%Z then (Ok true, replaced local_packet None p s1) else (Ok false, s1)
    | (r, EVENT_DISCONNECT _) =>
        if (0 <? r)%Z then (Throw (runtime_error "Disconnected from server."), s1)
        else (Ok false, s1)
    | _ => (Ok false, s1)
    end.
Proof.
  intros Htmp. apply (process_run t local_packet None (with_empty_packet s)); [done|..];
    cbn [n_packets with_empty_packet]; [by rewrite lookup_insert_ne|by rewrite lookup_insert_eq].
Qed.

(** The client while [process] holds the packet [p] that it received. *)
Definition holding (p : ENetPacket) (c : BusClient) : BusClient :=
  with_packets (partial_alter (λ _, Some (Some p)) local_packet) c.

Lemma holding_lookup p c : n_packets (c_net (holding p c)) !! local_packet = Some (Some p).
Proof. apply lookup_partial_alter_eq. Qed.

Lemma holding_cleanup p c :
  idle c →
  net_cleanup (Packet_dtor local_packet) (holding p c) =
    with_net (after_emit (Enet_packet_destroy (packet_id p)) (c_net c)) c.
Proof.
  intros [Hidle _]. rewrite (packet_cleanup _ p) by apply holding_lookup.
  destruct c as [[w ps] t h port b f g]. unfold holding, with_packets, after_emit, with_net.
  cbn in *. do 2 f_equal. apply map_eq. intros i. destruct (decide (i = local_packet)) as [->|].
  - by rewrite lookup_delete_eq, Hidle.
  - by rewrite lookup_delete_ne, lookup_partial_alter_ne.
Qed.

(** The body of [process] once a packet is there: the callback runs on the
    client without the packet. *)
Lemma handle_holding_run {U} (lambda : Message → M (BusClient * U) unit) p c (u : U) :
  idle c →
  handle_packet lambda (holding p c, u) =
    let x := deliver lambda (packet_delivery (m_inverse_topic_map c) (packet_data p)) (c, u) in
    (fst x, (holding p (snd x).1, (snd x).2)).
Proof.
  intros [Hidle _]. rewrite (handle_packet_run lambda _ u p) by apply holding_lookup.
  assert (Hhide : with_packets (delete local_packet) (holding p c) = c).
  { destruct c as [[w ps] ? ? ? ? ? ?]. unfold holding, with_packets, with_net. cbn in *.
    by rewrite delete_partial_alter, decide_True, delete_id by done. }
  cbn [holding with_packets m_inverse_topic_map with_net]. fold (holding p c).
  destruct (packet_delivery _ _) as [[m|]|e| |]; try done. cbn [deliver].
  unfold in_callback. cbn [fst snd]. by rewrite Hhide, holding_lookup.
Qed.

(** Where the networking layer leaves the packet. *)
Lemma receive_holding h p c :
  with_net (replaced local_packet None p (after_service h 0 (with_empty_packet (c_net c))))
    (with_net (with_empty_packet (c_net c)) c) =
  holding p (with_net (after_service h 0 (c_net c)) c).
Proof.
  destruct c as [[w ps] ? ? ? ? ? ?]. unfold holding, with_packets, with_net, replaced. cbn.
  do 2 f_equal. rewrite insert_insert_eq. apply map_eq. intros i.
  destruct (decide (i = local_packet)) as [->|];
    [by rewrite lookup_insert_eq, lookup_partial_alter_eq
    |by rewrite lookup_insert_ne, lookup_partial_alter_ne].
Qed.

(** [process], whatever its callback does, as long as it returns or throws
    with the client idle: the packet outlives the callback and is destroyed
    after it. *)
Lemma process_with_run {U} (lambda : Message → M (BusClient * U) unit) c (u : U) :
  idle c →
  let r := hd (0%Z, EVENT_NONE) (w_service (n_world (c_net c))) in
  let c1 := with_net (after_service (nc_client (m_client c)) 0 (c_net c)) c in
  match r with
  | (ret, EVENT_RECEIVE peer p) =>
      (0 < ret)%Z →
      let x := deliver lambda (packet_delivery (m_inverse_topic_map c) (packet_data p)) (c1, u) in
      match fst x with Ok _ | Throw _ => True | _ => False end → idle (snd x).1 →
      BusClient_process_with lambda (c, u) =
        (fst x, (with_net (after_emit (Enet_packet_destroy (packet_id p)) (c_net (snd x).1)) (snd x).1,
                 (snd x).2))
  | _ => True
  end ∧
  (received [r] = [] →
   BusClient_process_with lambda (c, u) =
     (outcome_map (λ _, tt) (delivery (m_inverse_topic_map c) r), (c1, u))).
Proof.
  intros Hidle r c1. pose proof Hidle as [Hpk Htmp]. unfold BusClient_process_with.
  set (c0 := with_net (with_empty_packet (c_net c)) c).
  rewrite (bind_Ok _ _ (c, u) tt (c0, u)) by done.
  pose proof (process_call_run (m_client c0) (c_net c) Htmp :
    NetClient_process (m_client c0) local_packet (c_net c0) = _) as Hproc. fold r in Hproc.
  assert (Hnone : net_cleanup (Packet_dtor local_packet)
    (with_net (after_service (nc_client (m_client c)) 0 (with_empty_packet (c_net c))) c0) = c1).
  { unfold net_cleanup. cbn [lget lset client_net_lens c_net with_net].
    rewrite (Packet_dtor_run _ None) by apply lookup_insert_eq.
    cbn [after_service n_packets with_empty_packet]. by rewrite delete_insert_id. }
  destruct r as [ret ev]. split.
  - destruct ev as [| | |peer p]; try done. intros Hret%Z.ltb_lt Hends Hidle'.
    rewrite Hret in Hproc.
    pose proof (process_body_run lambda c0 u _ _ Hproc) as Hbody. cbv iota in Hbody.
    rewrite receive_holding, handle_holding_run in Hbody by done. cbn zeta in Hbody.
    erewrite with_destructor_run; [|exact Hbody|exact Hends].
    cbn [fst snd]. by rewrite holding_cleanup.
  - intros Hr. unfold delivery. cbn [fst snd] in *.
    destruct ev as [| | |peer p], (0 <? ret)%Z eqn:Hret;
      try (erewrite with_destructor_run; [|by apply (process_body_run _ _ _ _ _ Hproc)|done];
           by rewrite <-Hnone).
    unfold received in Hr. cbn in Hr. by rewrite Hret in Hr.
Qed.

Lemma delivery_none inverse r :
  received [r] = [] → match delivery inverse r with Ok (Some _) => False | _ => True end.
Proof.
  unfold delivery, received. destruct r as [ret [| | |peer p]]; cbn; by destruct (0 <? ret)%Z.
Qed.

Lemma deliver_zoom {U} (lambda : Message → M U unit) d c (u : U) :
  deliver (λ m, zoom (S := BusClient * U) (lambda m)) d (c, u) =
    (fst (deliver lambda d u), (c, snd (deliver lambda d u))).
Proof.
  destruct d as [[m|]|e| |]; try done. cbn [deliver]. unfold zoom. cbn.
  by destruct (lambda m u).
Qed.

Lemma process_idle_run {U} (lambda : Message → M U unit) c (u : U) :
  idle c → callback_ends lambda →
  let r := hd (0%Z, EVENT_NONE) (w_service (n_world (c_net c))) in
  let o := deliver lambda (delivery (m_inverse_topic_map c) r) u in
  ∃ n, BusClient_process lambda (c, u) = (fst o, (with_net n c, snd o)) ∧
    balanced [] (c_net c) n ∧ w_service (n_world n) = tl (w_service (n_world (c_net c))).
Proof.
  intros Hidle Hend r o.
  destruct (process_with_run (λ m, zoom (lambda m)) c u Hidle) as [Hgot Hnone]. fold r in Hgot, Hnone.
  pose proof (deliver_ends lambda (m_inverse_topic_map c) r u Hend) as Hends. fold o in Hends.
  destruct (received_cases r) as [Hr|(ret & peer & p & Er & Hret)].
  - eexists. split_and!; [|by apply balanced_service|done].
    unfold BusClient_process. rewrite (Hnone Hr). unfold o.
    pose proof (delivery_none (m_inverse_topic_map c) r Hr).
    by destruct (delivery (m_inverse_topic_map c) r) as [[]|e| |].
  - rewrite Er in Hgot. cbn zeta in Hgot. specialize (Hgot Hret).
    rewrite deliver_zoom in Hgot. cbn [fst snd] in Hgot. unfold o in *. rewrite Er in *.
    unfold delivery in *. cbn [fst snd] in *. rewrite (proj2 (Z.ltb_lt _ _) Hret) in *.
    eexists. split_and!; [by apply Hgot|by eapply balanced_receive|done].
Qed.

Definition fanout_of (m : Message) : FanoutMessage :=
  {| topic_key := Header_topic_key (m_header m); topic := m_topic m; payload := m_payload m |}.

Lemma poll_run c :
  idle c →
  let r := hd (0%Z, EVENT_NONE) (w_service (n_world (c_net c))) in
  ∃ n, BusClient_poll c =
      (outcome_map (fmap fanout_of) (delivery (m_inverse_topic_map c) r), with_net n c) ∧
    balanced [] (c_net c) n ∧
    w_service (n_world n) = tl (w_service (n_world (c_net c))).
Proof.
  intros Hidle r. destruct (process_idle_run capture c None Hidle) as (n & Hrun & Hb & Hs); [done|].
  exists n. split; [|done]. unfold BusClient_poll. rewrite Hrun. fold r.
  pose proof (delivery_ends (m_inverse_topic_map c) r).
  by destruct (delivery (m_inverse_topic_map c) r) as [[m|]|e| |].
Qed.

(** A response teaches the entry it carries. *)
Lemma response_outcome_learns data n k :
  snd (response_outcome data) = Some (n, k) → decode data = Some (Topic_response k n).
Proof.
  unfold response_outcome, decode.
  destruct (Nat.ltb_spec (length data) sizeof_Header) as [?|Hl]; [done|].
  rewrite Message_ctor_long by done. case_bool_decide as Ht; [|done].
  intros [= <- <-]. unfold read_msg, Message_payload_as_string. cbn [m_header m_payload].
  by rewrite Ht.
Qed.

(** ** Sequences of operations *)

(** A caller's operations; the caller may catch what they throw and go on. *)
Inductive client_op : Type :=
  | OpGetTopicKey (topic : string)
  | OpPublish (topic : string) (payload : list byte)
  | OpPublishKey (key : Z) (payload : list byte)
  | OpSubscribe (topic : string)
  | OpPoll.

Definition run_client_op (op : client_op) (c : BusClient) : BusClient :=
  match op with
  | OpGetTopicKey t => snd (BusClient_get_topic_key t c)
  | OpPublish t p => snd (BusClient_publish t p c)
  | OpPublishKey k p => snd (BusClient_publish_key k p c)
  | OpSubscribe t => snd (BusClient_subscribe t c)
  | OpPoll => snd (BusClient_poll c)
  end.

Definition run_client_ops (ops : list client_op) (c : BusClient) : BusClient :=
  fold_left (λ c op, run_client_op op c) ops c.

(** Every topic response that ENet will deliver carries an entry of [T]. *)
Definition heard (T : string → Z → Prop) (results : list (Z * ENetEvent)) : Prop :=
  ∀ r peer p n k, (r, EVENT_RECEIVE peer p) ∈ results →
    decode (packet_data p) = Some (Topic_response k n) → T n k.

(** Every topic response ENet will deliver agrees with the map [srv]. *)
Definition told (srv : gmap string Z) : list (Z * ENetEvent) → Prop :=
  heard (λ n k, srv !! n = Some k).

Definition injective_map (srv : gmap string Z) : Prop :=
  ∀ n n' k, srv !! n = Some k → srv !! n' = Some k → n = n'.

Record caches_agree (srv : gmap string Z) (c : BusClient) : Prop := {
  agree_forward : ∀ n k, m_topic_map c !! n = Some k → srv !! n = Some k;
  agree_inverse : ∀ n k, m_inverse_topic_map c !! k = Some n ↔ m_topic_map c !! n = Some k;
}.

Lemma learn_agrees srv n k c :
  injective_map srv → srv !! n = Some k → caches_agree srv c →
  caches_agree srv (learn (Some (n, k)) c).
Proof.
  intros Hinj Hs [Hf Hi]. split; cbn [learn m_topic_map m_inverse_topic_map with_topic_maps].
  - intros n' k'. rewrite lookup_insert_Some. naive_solver.
  - intros n' k'. rewrite !lookup_insert_Some, Hi. split.
    + intros [[-> ->]|[Hk Hm]]; [by left|]. right. split; [|done]. intros ->.
      specialize (Hf _ _ Hm). congruence.
    + intros [[-> ->]|[Hn Hm]]; [by left|]. right. split; [|done]. intros ->.
      apply Hn. eapply Hinj; [exact Hs|by apply Hf].
Qed.

Lemma lookup_learns T topic c n k :
  heard T (w_service (n_world (c_net c))) →
  resolution_learnt topic c = Some (n, k) → T n k.
Proof.
  intros Htold. unfold resolution_learnt, lookup_outcome.
  destruct (m_topic_map c !! topic); [done|]. destruct (fst (connect_outcome _ _ _)); try done.
  unfold exchange_outcome. destruct (w_service (n_world (c_net c))) as [|r0 [|[r ev] rest]];
    cbn [tl hd fst snd]; try done.
  destruct (0 <? r)%Z; [|done]. destruct ev as [| | |peer p]; try done.
  intros Hl%response_outcome_learns. eapply (Htold r peer p); [|done].
  rewrite !elem_of_cons. auto.
Qed.

(** A key that is found is cached or learnt. *)
Lemma resolution_key topic c k :
  resolution topic c = Ok k →
  m_topic_map c !! topic = Some k ∨ ∃ n, resolution_learnt topic c = Some (n, k).
Proof.
  unfold resolution, resolution_learnt. destruct (m_topic_map c !! topic) as [k'|]; [by intros [= ->]; left|].
  intros H. right. unfold lookup_outcome in *. destruct (fst (connect_outcome _ _ _)); try done.
  unfold exchange_outcome in *. destruct (hd _ _) as [r [| | |peer p]]; cbn [fst snd] in *;
    destruct (0 <? r)%Z; try done.
  unfold response_outcome in *. destruct (_ <? _); [done|]. case_bool_decide; [|done].
  injection H as <-. by eexists.
Qed.

(** *** Invariants of the caches

    A property [P] of the caches that holds as long as the entries learnt are
    in [T]. *)
Class CacheInvariant (T : string → Z → Prop) (P : BusClient → Prop) : Prop := {
  cache_other n b c : P c → P (with_net n (with_constructor b c));
  cache_learn n k c : T n k → P c → P (learn (Some (n, k)) c);
}.

(** Between operations: the wrappers are free, the caches satisfy [P], and
    the responses still to come are in [T]. *)
Record client_inv (T : string → Z → Prop) (P : BusClient → Prop) (c : BusClient) : Prop := {
  inv_idle : idle c;
  inv_heard : heard T (w_service (n_world (c_net c)));
  inv_caches : P c;
}.

Lemma heard_progress T s s' :
  progress s s' → heard T (w_service (n_world s)) → heard T (w_service (n_world s')).
Proof.
  intros [(used & _ & Hu & _) _] Hh r peer p n k Hin. apply (Hh r peer). rewrite Hu, elem_of_app. by right.
Qed.

Lemma learnt_inv T P `{!CacheInvariant T P} e c c' :
  client_inv T P c → learnt e c c' → progress (c_net c) (c_net c') →
  match e with Some (n, k) => T n k | None => True end →
  client_inv T P c'.
Proof.
  intros [Hi Ht Hc] Hl Hg He. split.
  - by eapply learnt_idle.
  - by eapply heard_progress.
  - destruct Hl as (n & b & ->). apply cache_other.
    destruct e as [[t k]|]; [by apply cache_learn|done].
Qed.

Lemma client_op_inv T P `{!CacheInvariant T P} op c :
  client_inv T P c → client_inv T P (run_client_op op c).
Proof.
  intros Hok. pose proof (inv_idle _ _ _ Hok) as Hidle.
  assert (Hres : ∀ topic c', learnt (resolution_learnt topic c) c c' →
    progress (c_net c) (c_net c') → client_inv T P c').
  { intros topic c' Hl Hg. eapply learnt_inv; [done..|].
    destruct (resolution_learnt topic c) as [[]|] eqn:E; [|done].
    eapply lookup_learns; [apply Hok|exact E]. }
  destruct op as [t|t p|k p|t|]; cbn [run_client_op].
  - destruct (resolve_run t c Hidle) as (c' & -> & Hl & Hg & _). by eapply Hres.
  - destruct (request_run t (λ k, Publish k p) c Hidle) as (c' & Hrun & Hl & Hg & _).
    unfold BusClient_publish. cbn [build] in Hrun. rewrite Hrun. by eapply Hres.
  - destruct (send_msg_run (Publish k p) c) as (n & b & Hrun & Hb).
    unfold BusClient_publish_key. cbn [build] in Hrun. rewrite Hrun. cbn [snd].
    eapply (learnt_inv T P None); [done..| |by eapply balanced_progress|done].
    by exists n, b.
  - destruct (request_run t Subscribe c Hidle) as (c' & Hrun & Hl & Hg & _).
    unfold BusClient_subscribe. cbn [build] in Hrun. rewrite Hrun. by eapply Hres.
  - destruct (poll_run c Hidle) as (n & -> & Hb & _). cbn [snd].
    eapply (learnt_inv T P None); [done..| |by eapply balanced_progress|done].
    exists n, (m_protocol_constructor c). by destruct c.
Qed.

(** Agreement with a registry. *)
Record client_ok (srv : gmap string Z) (c : BusClient) : Prop := {
  ok_idle : idle c;
  ok_told : told srv (w_service (n_world (c_net c)));
  ok_caches : caches_agree srv c;
}.

Lemma client_ok_inv srv c :
  client_ok srv c ↔ client_inv (λ n k, srv !! n = Some k) (caches_agree srv) c.
Proof. split; by intros []; split. Qed.

Lemma caches_agree_invariant srv :
  injective_map srv → CacheInvariant (λ n k, srv !! n = Some k) (caches_agree srv).
Proof.
  intros Hinj. split; [by intros n b c []|]. intros n k c. by apply learn_agrees.
Qed.

Lemma client_op_ok srv op c :
  injective_map srv → client_ok srv c → client_ok srv (run_client_op op c).
Proof.
  intros Hinj Hok%client_ok_inv. apply client_ok_inv.
  pose proof (caches_agree_invariant srv Hinj). by apply client_op_inv.
Qed.

Lemma client_op_keeps {V} (view : World → V) `{!Calm view} op c :
  view (n_world (c_net (run_client_op op c))) = view (n_world (c_net c)).
Proof.
  destruct op as [t|t p|k p|t|]; cbn [run_client_op].
  - exact (keeps_get_topic_key t c).
  - exact (keeps_BusClient_publish t p c).
  - exact (keeps_BusClient_publish_key k p c).
  - exact (keeps_BusClient_subscribe t c).
  - exact (keeps_BusClient_poll c).
Qed.

(** Every operation takes results of ENet in order. *)
Lemma client_op_progress op c :
  idle c → progress (c_net c) (c_net (run_client_op op c)).
Proof.
  intros Hidle. destruct op as [t|t p|k p|t|]; cbn [run_client_op].
  - by destruct (resolve_run t c Hidle) as (c' & -> & _ & ? & _).
  - destruct (request_run t (λ k, Publish k p) c Hidle) as (c' & Hrun & _ & Hg & _).
    unfold BusClient_publish. cbn [build] in Hrun. by rewrite Hrun.
  - destruct (send_msg_run (Publish k p) c) as (n & b & Hrun & Hb).
    unfold BusClient_publish_key. cbn [build] in Hrun. rewrite Hrun.
    by eapply balanced_progress.
  - destruct (request_run t Subscribe c Hidle) as (c' & Hrun & _ & Hg & _).
    unfold BusClient_subscribe. cbn [build] in Hrun. by rewrite Hrun.
  - destruct (poll_run c Hidle) as (n & -> & Hb & _). by eapply balanced_progress.
Qed.

Lemma client_ops_ok srv ops c :
  injective_map srv → client_ok srv c → client_ok srv (run_client_ops ops c).
Proof.
  intros Hinj. revert c. induction ops as [|op ops IH]; intros c Hok; [done|].
  by apply IH, client_op_ok.
Qed.

Lemma packet_delivery_fanout inverse data m :
  packet_delivery inverse data = Ok (Some m) →
  decode data = Some (Fanout (Header_topic_key (m_header m)) (m_payload m)) ∧
  m_topic m = default "unknown" (inverse !! Header_topic_key (m_header m)).
Proof.
  unfold packet_delivery, decode.
  destruct (Nat.ltb_spec (length data) sizeof_Header) as [?|Hl]; [done|].
  rewrite Message_ctor_long by done. unfold read_msg. cbn [m_header m_payload].
  destruct (Type_of _) as [[]|]; intros [= <-]. done.
Qed.
Lemma polled_name srv c f :
  caches_agree srv c → idle c → fst (BusClient_poll c) = Ok (Some f) →
  srv !! topic f = Some (topic_key f) ∨
  topic f = "unknown" ∧ ∀ n, m_topic_map c !! n ≠ Some (topic_key f).
Proof.
  intros Hc Hidle. destruct (poll_run c Hidle) as (n & -> & _). cbn [fst].
  destruct (delivery _ _) as [[m|]|e| |] eqn:Ed; try done. intros [= <-].
  unfold delivery in Ed. destruct (hd _ _) as [r [|peer|peer|peer p]]; cbn [fst snd] in Ed;
    destruct (0 <? r)%Z; try done.
  apply packet_delivery_fanout in Ed as [_ Ht]. cbn [fanout_of topic topic_key]. rewrite Ht.
  destruct (m_inverse_topic_map c !! Header_topic_key (m_header m)) as [name|] eqn:E; cbn.
  - left. by apply (agree_forward _ _ Hc), (agree_inverse _ _ Hc).
  - right. split; [done|]. intros name Hn%(agree_inverse _ _ Hc).
    assert (None = Some name) by (by rewrite <-E, <-Hn). done.
Qed.

Lemma response_outcome_decode data name key :
  decode data = Some (Topic_response key name) →
  response_outcome data = (Ok key, Some (name, key)).
Proof.
  intros Hd. unfold response_outcome, decode in *.
  destruct (Nat.ltb_spec (length data) sizeof_Header) as [?|Hl].
  { by rewrite Message_ctor_short in Hd. }
  rewrite Message_ctor_long in Hd by done. unfold read_msg, Message_payload_as_string in Hd.
  cbn [m_header m_payload] in Hd. case_bool_decide as Ht.
  - rewrite Ht in Hd. cbn in Hd. injection Hd as <- <-. done.
  - exfalso. apply Ht. revert Hd. by destruct (m_type_ (Header_of_bytes data)).
Qed.

Lemma response_outcome_iff data name key :
  snd (response_outcome data) = Some (name, key) ↔
    fst (response_outcome data) = Ok key ∧ decode data = Some (Topic_response key name).
Proof.
  split.
  - intros H. pose proof (response_outcome_learns _ _ _ H) as Hd.
    by rewrite (response_outcome_decode _ _ _ Hd).
  - intros [_ Hd]. by rewrite (response_outcome_decode _ _ _ Hd).
Qed.

(** An entry is learnt exactly when the first event after the handshake is
    the response that carries it. *)
Lemma lookup_outcome_learns host port w name key :
  snd (lookup_outcome host port w) = Some (name, key) ↔
    fst (lookup_outcome host port w) = Ok key ∧ ∃ r peer p rest,
      tl (w_service w) = (r, EVENT_RECEIVE peer p) :: rest ∧
      decode (packet_data p) = Some (Topic_response key name).
Proof.
  unfold lookup_outcome. destruct (fst (connect_outcome host port w)); [|naive_solver..].
  unfold exchange_outcome. destruct (tl (w_service w)) as [|[r ev] rest]; cbn [hd fst snd];
    [naive_solver|].
  destruct (0 <? r)%Z; [|naive_solver]. destruct ev as [| | |peer p]; [naive_solver..|].
  rewrite response_outcome_iff. split.
  - intros [? ?]. eauto 8.
  - intros [? (? & ? & ? & ? & [= <- <- <- <-] & ?)]. done.
Qed.

Lemma connect_outcome_ok host port w h hosts p peers r q rest :
  w_hosts w = Some h :: hosts → w_peers w = Some p :: peers →
  w_service w = (r, EVENT_CONNECT q) :: rest → (0 < r)%Z →
  fst (connect_outcome host port w) = Ok (MkNetClient h (connected_address w host port) p).
Proof.
  intros Hh Hp Hs Hr%Z.ltb_lt. unfold connect_outcome. rewrite Hh, Hp, Hs. unfold handshake.
  cbn [hd fst snd is_connect_event]. by rewrite Hr.
Qed.

(** A topic that the next connection resolves. *)
Lemma resolution_ok topic c h hosts p peers r1 q1 r2 q2 pk rest key name :
  let w := n_world (c_net c) in
  m_topic_map c !! topic = None →
  w_hosts w = Some h :: hosts → w_peers w = Some p :: peers →
  w_service w = (r1, EVENT_CONNECT q1) :: (r2, EVENT_RECEIVE q2 pk) :: rest →
  (0 < r1)%Z → (0 < r2)%Z → decode (packet_data pk) = Some (Topic_response key name) →
  resolution topic c = Ok key ∧
  resolution_sends topic c =
    [(p, packet (Origin_value Origin_client) (Topic_request topic))] ∧
  connects_first w ∧ resolution_learnt topic c = Some (name, key) ∧
  resolution_rest topic c = snd (dtor_used rest).
Proof.
  intros w Hn Hh Hp Hs Hr1 Hr2%Z.ltb_lt Hd.
  pose proof (connect_outcome_ok (m_host c) (m_port c) w h hosts p peers r1 q1 _ Hh Hp Hs Hr1)
    as Hconn.
  unfold resolution, resolution_sends, resolution_learnt, resolution_rest, lookup_outcome,
    lookup_sends, lookup_rest. rewrite Hn. fold w. rewrite Hconn, Hs.
  unfold exchange_outcome. cbn [tl hd fst snd]. rewrite Hr2, (response_outcome_decode _ _ _ Hd).
  split_and!; [done|done| |done|done]. unfold connects_first. rewrite Hs. by apply received_other.
Qed.

(** What a client that knows the names [inverse] makes of a packet. *)
Definition fanout_in (inverse : gmap Z string) (data : list byte) : option FanoutMessage :=
  match decode data with
  | Some (Fanout key data) =>
      Some {| topic_key := key; topic := default "unknown" (inverse !! key); payload := data |}
  | _ => None
  end.

Lemma packet_delivery_decode (inverse : gmap Z string) data :
  outcome_map (fmap fanout_of) (packet_delivery inverse data) =
    if length data <? sizeof_Header then
      Throw (runtime_error "Data too short to contain header")
    else Ok (fanout_in inverse data).
Proof.
  unfold packet_delivery, fanout_in, decode.
  destruct (Nat.ltb_spec (length data) sizeof_Header) as [?|Hl]; [done|].
  rewrite Message_ctor_long by done. unfold read_msg. cbn [m_header m_payload].
  by destruct (Type_of _) as [[]|].
Qed.
End lookup.

(** ** Properties *)

Section properties.
Context {plat : Platform}.

(** C16: a topic already resolved is answered from the cache without any
    call or change.  Otherwise the client opens a temporary connection,
    sends one topic request on it and waits for one answer: a topic
    response gives its key and is cached under the name it carries, in both
    maps; every other answer, a disconnection, a timeout or a failed
    connection throws and caches nothing.  On every path the response
    packet is destroyed once, and a connection that was made is closed. *)
Theorem get_topic_key_behaviour topic c :
  idle c →
  let w := n_world (c_net c) in
  match m_topic_map c !! topic with
  | Some key => BusClient_get_topic_key topic c = (Ok key, c)
  | None =>
      let answer := lookup_outcome (m_host c) (m_port c) w in
      ∃ n, BusClient_get_topic_key topic c =
          (fst answer, with_net n (learn (snd answer) (with_constructor
             {| m_buffer := packet (Origin_value Origin_client) (Topic_request topic) |} c))) ∧
        (connects_first w →
         balanced (lookup_sends topic (m_host c) (m_port c) w) (c_net c) n) ∧
        (∀ t, fst (connect_outcome (m_host c) (m_port c) w) = Ok t →
         last (w_log (n_world n)) = Some (Enet_host_destroy (nc_client t))) ∧
        (∀ name key, snd answer = Some (name, key) ↔
           fst answer = Ok key ∧ ∃ r peer p rest,
             tl (w_service w) = (r, EVENT_RECEIVE peer p) :: rest ∧
             decode (packet_data p) = Some (Topic_response key name))
  end.
Proof.
  intros Hidle w. destruct (m_topic_map c !! topic) as [key|] eqn:E; [by apply cached_run|].
  destruct (lookup_run topic c E Hidle) as (n & Hrun & _ & Hb & Hlast & _).
  exists n. split_and!; [exact Hrun|exact Hb|exact Hlast|]. apply lookup_outcome_learns.
Qed.

(** C17: publishing on a topic resolves it and then sends exactly one
    publish packet, with the key and the payload, on the main connection;
    if the resolution throws, the exception is passed on and no publish
    packet is sent.  The overload on a key sends the packet at once, and
    the overloads on strings send the bytes of the string. *)
Theorem publish_behaviour topic payload text c :
  idle c → connects_first (n_world (c_net c)) →
  (∃ c', BusClient_publish topic payload c = (outcome_map (λ _, tt) (resolution topic c), c') ∧
     learnt (resolution_learnt topic c) c c' ∧
     balanced (resolution_sends topic c ++
       match resolution topic c with
       | Ok key => [to_server c (Publish key payload)]
       | _ => []
       end) (c_net c) (c_net c')) ∧
  (∀ key, ∃ c', BusClient_publish_key key payload c = (Ok tt, c') ∧ learnt None c c' ∧
     balanced [to_server c (Publish key payload)] (c_net c) (c_net c')) ∧
  BusClient_publish_string topic text c = BusClient_publish topic (as_bytes text) c ∧
  (∀ key, BusClient_publish_key_string key text c = BusClient_publish_key key (as_bytes text) c).
Proof.
  intros Hidle Hfirst. split_and!; [| |done|done].
  - destruct (request_run topic (λ k, Publish k payload) c Hidle) as (c' & Hrun & Hl & _ & Hb).
    exists c'. split_and!; [exact Hrun|done|by apply Hb; left].
  - intros key. destruct (send_msg_run (Publish key payload) c) as (n & b & Hrun & Hb).
    eexists; split_and!; [exact Hrun|by exists n, b|done].
Qed.

(** Subscribing resolves the topic and then sends exactly one subscribe
    packet with its key on the main connection, or passes the exception on
    and sends none. *)
Theorem subscribe_behaviour topic c :
  idle c → connects_first (n_world (c_net c)) →
  ∃ c', BusClient_subscribe topic c = (outcome_map (λ _, tt) (resolution topic c), c') ∧
    learnt (resolution_learnt topic c) c c' ∧
    balanced (resolution_sends topic c ++
      match resolution topic c with Ok key => [to_server c (Subscribe key)] | _ => [] end)
      (c_net c) (c_net c').
Proof.
  intros Hidle Hfirst.
  destruct (request_run topic Subscribe c Hidle) as (c' & Hrun & Hl & _ & Hb).
  exists c'. split_and!; [exact Hrun|done|by apply Hb; left].
Qed.

(** C19: [process] gives the callback exactly the fanout messages, once,
    named after the cache; nothing ready, other events and other types of
    message leave everything as it is, a disconnection and a packet too
    short throw.  The packet received is destroyed exactly once on every
    path, also when the callback throws, no packet is sent, and one result
    of ENet is used. *)
Theorem process_behaviour {U} (lambda : Message → M U unit) c (u : U) :
  idle c → callback_ends lambda →
  let r := hd (0%Z, EVENT_NONE) (w_service (n_world (c_net c))) in
  let o := deliver lambda (delivery (m_inverse_topic_map c) r) u in
  ∃ n, BusClient_process lambda (c, u) = (fst o, (with_net n c, snd o)) ∧
    balanced [] (c_net c) n ∧ w_service (n_world n) = tl (w_service (n_world (c_net c))).
Proof. apply process_idle_run. Qed.

(** [poll] returns the fanout message that [process] delivers, with the
    key and payload of the packet and the cached name of the topic or
    "unknown", and nothing otherwise. *)
Theorem poll_behaviour c :
  idle c →
  ∃ n, balanced [] (c_net c) n ∧
    (∀ r peer p rest, w_service (n_world (c_net c)) = (r, EVENT_RECEIVE peer p) :: rest →
       (0 < r)%Z →
       if length (packet_data p) <? sizeof_Header then
         BusClient_poll c =
           (Throw (runtime_error "Data too short to contain header"), with_net n c)
       else
         BusClient_poll c =
           (Ok match decode (packet_data p) with
               | Some (Fanout key data) =>
                   Some {| topic_key := key;
                           topic := default "unknown" (m_inverse_topic_map c !! key);
                           payload := data |}
               | _ => None
               end, with_net n c)) ∧
    (∀ r peer rest, w_service (n_world (c_net c)) = (r, EVENT_DISCONNECT peer) :: rest →
       (0 < r)%Z →
       BusClient_poll c = (Throw (runtime_error "Disconnected from server."), with_net n c)) ∧
    (hd 0%Z (map fst (w_service (n_world (c_net c)))) = 0%Z →
       BusClient_poll c = (Ok None, with_net n c)).
Proof.
  intros Hidle. destruct (poll_run c Hidle) as (n & Hrun & Hb & _). exists n.
  split_and!; [done|..].
  - intros r peer p rest Hs Hr%Z.ltb_lt. rewrite Hrun, Hs. unfold delivery.
    cbn [hd fst snd]. rewrite Hr, packet_delivery_decode. by destruct (_ <? _).
  - intros r peer rest Hs Hr%Z.ltb_lt. rewrite Hrun, Hs. unfold delivery.
    cbn [hd fst snd]. by rewrite Hr.
  - rewrite Hrun. destruct (w_service _) as [|[r ev] rest]; [done|]. cbn.
    by intros ->.
Qed.

(** C11: if the responses that ENet delivers agree with an injective map of
    names to keys (the registry of the server), then after any sequence of
    operations, whatever they throw, the caches are included in that map,
    the inverse cache is exactly the inverse of the other, and a fanout
    polled bears the name of its key, or "unknown" when the key was never
    resolved. *)
Theorem caches_follow_registry srv ops c0 :
  injective_map srv → client_ok srv c0 →
  let c := run_client_ops ops c0 in
  caches_agree srv c ∧
  ∀ f, fst (BusClient_poll c) = Ok (Some f) →
    srv !! topic f = Some (topic_key f) ∨
    topic f = "unknown" ∧ ∀ n, m_topic_map c !! n ≠ Some (topic_key f).
Proof.
  intros Hinj Hok c. pose proof (client_ops_ok srv ops c0 Hinj Hok) as [Hidle _ Hc].
  split; [done|]. intros f. by apply polled_name.
Qed.
End properties.

(** ** Witnesses *)

Section witnesses.
#[local] Instance client_platform : Platform := little_endian.

(** A client connected through peer 40.  The next lookup connects through
    peer 50 and is answered with key 5; then a fanout on key 5 arrives. *)
Definition sample_response : ENetPacket :=
  MkPacket 7 (packet (Origin_value Origin_server) (Topic_response 5 "t")).
Definition sample_fanout : ENetPacket :=
  MkPacket 8 (packet (Origin_value Origin_server) (Fanout 5 [x68; x69])).
Definition sample_events : list (Z * ENetEvent) :=
  [(1%Z, EVENT_CONNECT 50); (1%Z, EVENT_RECEIVE 50 sample_response);
   (1%Z, EVENT_DISCONNECT 50); (1%Z, EVENT_RECEIVE 40 sample_fanout)].
Definition sample_client_on (events : list (Z * ENetEvent)) : BusClient :=
  MkBusClient
    (MkNetState (MkWorld 0 (λ _, Some 1%Z) [Some 4%Z] [Some 50%Z] events ∅
                   (λ _, None) 0 []) ∅)
    (MkNetClient 3 (MkAddress (Some 1%Z) 6767) 40) "localhost" 6767
    Constructor_default ∅ ∅.
Definition sample_client : BusClient := sample_client_on sample_events.
Definition sample_polling : BusClient :=
  with_topic_maps {["t" := 5%Z]} {[5%Z := "t"]}
    (sample_client_on [(1%Z, EVENT_RECEIVE 40 sample_fanout)]).

Lemma sample_idle events : idle (sample_client_on events).
Proof. done. Qed.

Lemma sample_connects_first : connects_first (n_world (c_net sample_client)).
Proof. done. Qed.

Lemma get_topic_key_behaviour_witness :
  ∃ n, BusClient_get_topic_key "t" sample_client =
      (Ok 5%Z, with_net n (learn (Some ("t", 5%Z)) (with_constructor
         {| m_buffer := packet (Origin_value Origin_client) (Topic_request "t") |}
         sample_client))) ∧
    balanced [(50%Z, packet (Origin_value Origin_client) (Topic_request "t"))]
      (c_net sample_client) n ∧
    last (w_log (n_world n)) = Some (Enet_host_destroy 4).
Proof.
  destruct (get_topic_key_behaviour "t" sample_client (sample_idle _))
    as (n & Hrun & Hb & Hlast & _).
  exists n. split; [exact Hrun|]. split; [by apply Hb|].
  by apply (Hlast (MkNetClient 4 (MkAddress (Some 1%Z) 6767) 50)).
Defined.

Lemma publish_behaviour_witness :
  ∃ c', BusClient_publish "t" [x68] sample_client = (Ok tt, c') ∧
    balanced [(50%Z, packet (Origin_value Origin_client) (Topic_request "t"));
              (40%Z, packet (Origin_value Origin_client) (Publish 5 [x68]))]
      (c_net sample_client) (c_net c').
Proof.
  destruct (publish_behaviour "t" [x68] "h" sample_client (sample_idle _) sample_connects_first)
    as ((c' & Hrun & _ & Hb) & _).
  exists c'. split; [exact Hrun|exact Hb].
Defined.

Lemma subscribe_behaviour_witness :
  ∃ c', BusClient_subscribe "t" sample_client = (Ok tt, c') ∧
    balanced [(50%Z, packet (Origin_value Origin_client) (Topic_request "t"));
              (40%Z, packet (Origin_value Origin_client) (Subscribe 5))]
      (c_net sample_client) (c_net c').
Proof.
  destruct (subscribe_behaviour "t" sample_client (sample_idle _) sample_connects_first)
    as (c' & Hrun & _ & Hb).
  exists c'. split; [exact Hrun|exact Hb].
Defined.

(** A callback that counts the messages. *)
Definition count_messages (_ : Message) : M nat unit := modify S.

Lemma process_behaviour_witness :
  ∃ n, BusClient_process count_messages (sample_polling, 0) =
      (Ok tt, (with_net n sample_polling, 1)) ∧
    balanced [] (c_net sample_polling) n ∧ w_service (n_world n) = [].
Proof.
  apply (process_behaviour count_messages sample_polling 0); [apply sample_idle|done].
Defined.

Lemma poll_behaviour_witness :
  ∃ n, balanced [] (c_net sample_polling) n ∧
    BusClient_poll sample_polling =
      (Ok (Some (MkFanoutMessage 5 "t" [x68; x69])), with_net n sample_polling).
Proof.
  destruct (poll_behaviour sample_polling (sample_idle _)) as (n & Hb & Hr & _).
  exists n. split; [done|].
  exact (Hr 1%Z 40%Z sample_fanout [] eq_refl eq_refl).
Defined.

Lemma sample_told : told {["t" := 5%Z]} sample_events.
Proof.
  intros r peer p n k Hin Hd. unfold sample_events in Hin.
  rewrite !elem_of_cons, elem_of_nil in Hin.
  destruct Hin as [[=]|[[= -> -> ->]|[[=]|[[= -> -> ->]|[]]]]].
  - vm_compute in Hd. injection Hd as <- <-. done.
  - vm_compute in Hd. discriminate.
Qed.

Lemma sample_client_ok : client_ok {["t" := 5%Z]} sample_client.
Proof.
  split; [apply sample_idle|apply sample_told|]. split; cbn; [|done].
  intros n k. by rewrite lookup_empty.
Qed.

Lemma caches_follow_registry_witness :
  let c := run_client_ops [OpSubscribe "t"] sample_client in
  caches_agree {["t" := 5%Z]} c ∧
  fst (BusClient_poll c) = Ok (Some (MkFanoutMessage 5 "t" [x68; x69])).
Proof.
  destruct (caches_follow_registry {["t" := 5%Z]} [OpSubscribe "t"] sample_client)
    as [Hc _].
  - intros n n' k [<- _]%lookup_singleton_Some [<- _]%lookup_singleton_Some. done.
  - apply sample_client_ok.
  - split; [exact Hc|]. vm_compute. reflexivity.
Defined.
End witnesses.
