(* ===== verification/Callbacks.v ===== *)
(** * Client programs with callbacks (include/spraybus/client/client.hpp)

    [Client::process] gives its callback control while it holds a packet, and
    the callback may call the same client again: publish an answer, resolve a
    topic, even process further messages.  This file has the programs that use
    a client this way, and what holds of all of them. *)

From Stdlib.Strings Require Import Byte.
From stdpp Require Import base gmap list strings.
From S2P Require Import Prelude Protocol World NetClient BusClient.

(** ** Programs *)

Inductive call_result : Type :=
  | RUnit
  | RKey (key : Z)
  | RMessage (message : option FanoutMessage).

(** A program calls the client, or gives [process] a callback that is a
    program again; it sees the result or the exception, and goes on. *)
Inductive client_prog : Type :=
  | PDone
  | PThrow (e : exn)
  | PCall (op : client_op) (k : call_result + exn → client_prog)
  | PProcess (lambda : Message → client_prog) (k : option exn → client_prog).

Section programs.
Context {plat : Platform}.

Definition run_call (op : client_op) : M BusClient call_result :=
  match op with
  | OpGetTopicKey t => let! k := BusClient_get_topic_key t in ret (RKey k)
  | OpPublish t p => BusClient_publish t p ;;; ret RUnit
  | OpPublishKey k p => BusClient_publish_key k p ;;; ret RUnit
  | OpSubscribe t => BusClient_subscribe t ;;; ret RUnit
  | OpPoll => let! m := BusClient_poll in ret (RMessage m)
  end.

(** [try { ... } catch]. *)
Definition catching {S A B} (m : M S A) (k : A + exn → M S B) : M S B := λ s,
  match m s with
  | (Ok a, s') => k (inl a) s'
  | (Throw e, s') => k (inr e) s'
  | (Undefined, s') => (Undefined, s')
  | (OutOfFuel, s') => (OutOfFuel, s')
  end.

(** The messages that callbacks were given are kept, in order. *)
Fixpoint run_prog (p : client_prog) : M (BusClient * list Message) unit :=
  match p with
  | PDone => ret tt
  | PThrow e => throw e
  | PCall op k => catching (zoom (run_call op)) (λ r, run_prog (k r))
  | PProcess lambda k =>
      catching
        (BusClient_process_with (λ m,
           zoom (modify (λ seen : list Message, seen ++ [m])) ;;; run_prog (lambda m)))
        (λ r, run_prog (k match r with inl _ => None | inr e => Some e end))
  end.
End programs.

(** ** Lemmas *)

Section lemmas.
Context {plat : Platform}.
Implicit Types (c : BusClient) (prog : client_prog).

Definition ends {A} (o : outcome A) : Prop :=
  match o with Ok _ | Throw _ => True | _ => False end.

Lemma outcome_map_ends {A B} (f : A → B) o : ends o → ends (outcome_map f o).
Proof. by destruct o. Qed.

Lemma run_call_state op c : snd (run_call op c) = run_client_op op c.
Proof. destruct op; cbn [run_call run_client_op]; by rewrite bind_ret_run. Qed.

Lemma run_call_ends op c : idle c → ends (fst (run_call op c)).
Proof.
  intros Hidle. pose proof (λ t, resolution_ends t c) as Hres.
  destruct op as [t|t d|k d|t|]; cbn [run_call]; rewrite bind_ret_run; cbn [fst];
    apply outcome_map_ends.
  - destruct (resolve_run t c Hidle) as (c' & -> & _). apply Hres.
  - destruct (request_run t (λ k, Publish k d) c Hidle) as (c' & Hrun & _).
    unfold BusClient_publish. cbn [build] in Hrun. rewrite Hrun. by apply outcome_map_ends, Hres.
  - destruct (send_msg_run (Publish k d) c) as (n & b & Hrun & _).
    unfold BusClient_publish_key. cbn [build] in Hrun. by rewrite Hrun.
  - destruct (request_run t Subscribe c Hidle) as (c' & Hrun & _).
    unfold BusClient_subscribe. cbn [build] in Hrun. rewrite Hrun. by apply outcome_map_ends, Hres.
  - destruct (poll_run c Hidle) as (n & -> & _). apply outcome_map_ends, delivery_ends.
Qed.

(** A packet received is destroyed after what its callback does. *)
Lemma progress_around h t s s' r peer p :
  hd (0%Z, EVENT_NONE) (w_service (n_world s)) = (r, EVENT_RECEIVE peer p) → (0 < r)%Z →
  progress (after_service h t s) s' →
  progress s (after_emit (Enet_packet_destroy (packet_id p)) s').
Proof.
  intros Hr Hpos%Z.ltb_lt [(used & calls & Hu & Hc & Hd) Hp]. split; [|exact Hp].
  destruct (w_service (n_world s)) as [|r0 rest] eqn:E; cbn in Hr; [discriminate|]. subst r0.
  cbn [after_service n_world w_service w_log world_service world_emit world_log] in Hu, Hc.
  rewrite E in Hu. cbn [tl] in Hu.
  exists ((r, EVENT_RECEIVE peer p) :: used),
    (Enet_host_service h t :: calls ++ [Enet_packet_destroy (packet_id p)]).
  split_and!.
  - cbn. by rewrite Hu.
  - cbn. by rewrite Hc, <-!app_assoc.
  - unfold destroyed, received in *. cbn. rewrite Hpos, omap_app. cbn.
    rewrite Permutation_app_comm. cbn. by apply submseteq_skip.
Qed.

(** *** All programs

    [P] is an invariant of the caches, and [N] holds of the messages that a
    client with [P] gives a callback. *)

Section kept.
Context (T : string → Z → Prop) (P : BusClient → Prop) `{!CacheInvariant T P}
  (N : Message → Prop).
Context (named : ∀ c m data, P c →
  packet_delivery (m_inverse_topic_map c) data = Ok (Some m) → N m).

(** A program from [c] that has seen [seen]. *)
Definition runs (m : M (BusClient * list Message) unit) c (seen : list Message) : Prop :=
  ∃ o c' new, m (c, seen) = (o, (c', seen ++ new)) ∧ ends o ∧ client_inv T P c' ∧
    progress (c_net c) (c_net c') ∧ Forall N new.

Lemma runs_catching {A} (m : M (BusClient * list Message) A) k c seen :
  (∃ o c' new, m (c, seen) = (o, (c', seen ++ new)) ∧ ends o ∧ client_inv T P c' ∧
    progress (c_net c) (c_net c') ∧ Forall N new) →
  (∀ r c seen, client_inv T P c → runs (k r) c seen) →
  runs (catching m k) c seen.
Proof.
  intros (o & c' & new & Hm & Ho & Hc' & Hg & Hn) Hk.
  assert (∃ r, catching m k (c, seen) = k r (c', seen ++ new)) as [r Hr].
  { unfold catching. rewrite Hm. destruct o as [a|e| |]; try done; by eexists. }
  destruct (Hk r c' (seen ++ new) Hc') as (o2 & c2 & new2 & H2 & Ho2 & Hc2 & Hg2 & Hn2).
  exists o2, c2, (new ++ new2). rewrite Hr, H2, app_assoc.
  split_and!; [done..|by etrans|by apply Forall_app].
Qed.

Lemma inv_net n c :
  client_inv T P c → (∃ used, w_service (n_world (c_net c)) = used ++ w_service (n_world n)) →
  n_packets n = n_packets (c_net c) → client_inv T P (with_net n c).
Proof.
  intros [Hi Hh Hc] [used Hu] Hp. split.
  - unfold idle in *. cbn. by rewrite Hp.
  - intros r peer p name k Hin. apply (Hh r peer). rewrite Hu. apply elem_of_app. by right.
  - apply (cache_other (T := T) n (m_protocol_constructor c)) in Hc. by destruct c.
Qed.

(** [process] with a callback that keeps the invariant. *)
Lemma process_runs lambda c seen :
  client_inv T P c →
  (∀ m c seen, client_inv T P c → N m → runs (lambda m) c seen) →
  runs (BusClient_process_with lambda) c seen.
Proof.
  intros Hc Hl. pose proof Hc as [Hidle _ HP].
  destruct (process_with_run lambda c seen Hidle) as [Hgot Hnone].
  set (r := hd _ _) in *. set (c1 := with_net (after_service _ _ _) c) in *.
  assert (Hc1 : client_inv T P c1).
  { apply inv_net; [done| |done]. exists (take 1 (w_service (n_world (c_net c)))).
    cbn. by destruct (w_service _). }
  destruct (received_cases r) as [Hr|(ret & peer & p & Er & Hret)].
  - exists (outcome_map (λ _, tt) (delivery (m_inverse_topic_map c) r)), c1, [].
    rewrite app_nil_r. split_and!; [by apply Hnone| |done| |constructor].
    + apply outcome_map_ends, delivery_ends.
    + eapply balanced_progress, (balanced_service (nc_client (m_client c)) 0). exact Hr.
  - rewrite Er in Hgot. specialize (Hgot Hret). cbn zeta in Hgot.
    assert (Hx : runs (deliver lambda (packet_delivery (m_inverse_topic_map c) (packet_data p)))
      c1 seen).
    { pose proof (delivery_ends (m_inverse_topic_map c) (1%Z, EVENT_RECEIVE peer p)) as Hends.
      cbn in Hends. destruct (packet_delivery _ _) as [[m|]|e| |] eqn:Em; try done; cbn [deliver].
      - apply Hl; [done|]. by eapply named.
      - exists (Ok tt), c1, []. rewrite app_nil_r. by split_and!.
      - exists (Throw e), c1, []. rewrite app_nil_r. by split_and!. }
    destruct Hx as (o & c' & new & Hx & Ho & Hc' & Hg & Hn). rewrite Hx in Hgot. cbn [fst snd] in Hgot.
    exists o, (with_net (after_emit (Enet_packet_destroy (packet_id p)) (c_net c')) c'), new.
    split_and!; [by apply Hgot; [done|apply Hc']|done| | |done].
    + apply inv_net; [done| |done]. by exists [].
    + eapply progress_around; [exact Er|done|exact Hg].
Qed.

Lemma prog_runs prog c seen : client_inv T P c → runs (run_prog prog) c seen.
Proof.
  revert c seen. induction prog as [|e|op k IH|lambda IHl k IHk]; intros c seen Hc; cbn [run_prog].
  - exists (Ok tt), c, []. rewrite app_nil_r. by split_and!.
  - exists (Throw e), c, []. rewrite app_nil_r. by split_and!.
  - apply runs_catching; [|intros; by apply IH].
    pose proof (inv_idle _ _ _ Hc) as Hidle.
    exists (fst (run_call op c)), (run_client_op op c), []. rewrite app_nil_r. split_and!.
    + unfold zoom. cbn [lget pair_fst_lens fst]. rewrite <-run_call_state.
      by destruct (run_call op c).
    + by apply run_call_ends.
    + by apply client_op_inv.
    + by apply client_op_progress.
    + constructor.
  - apply runs_catching; [|intros; by apply IHk].
    apply process_runs; [done|]. intros m c1 seen1 Hc1 Hm.
    destruct (IHl m c1 (seen1 ++ [m]) Hc1) as (o & c' & new & Hrun & Ho & Hc' & Hg & Hn).
    exists o, c', (m :: new). split_and!; [|done..|by constructor].
    rewrite (bind_Ok _ _ (c1, seen1) tt (c1, seen1 ++ [m])) by done.
    by rewrite Hrun, <-app_assoc.
Qed.
End kept.

(** *** Names

    The caches agree with [srv], and still hold the names [known]. *)
Definition names_kept (srv : gmap string Z) (known : gmap Z string) (c : BusClient) : Prop :=
  caches_agree srv c ∧ known ⊆ m_inverse_topic_map c.

Lemma learnt_names srv known :
  injective_map srv → CacheInvariant (λ n k, srv !! n = Some k) (names_kept srv known).
Proof.
  intros Hinj. split; [by intros n b c [[] ?]|]. intros n k c Hs [Hc Hk].
  split; [by apply learn_agrees|]. cbn. apply map_subseteq_spec. intros k' n' Hn'.
  eapply lookup_weaken in Hn'; [|exact Hk]. destruct (decide (k = k')) as [<-|];
    [|by rewrite lookup_insert_ne].
  rewrite lookup_insert_eq. f_equal. apply (agree_inverse _ _ Hc), (agree_forward _ _ Hc) in Hn'.
  by eapply Hinj.
Qed.

Lemma delivered_name srv known c m data :
  names_kept srv known c → packet_delivery (m_inverse_topic_map c) data = Ok (Some m) →
  srv !! m_topic m = Some (Header_topic_key (m_header m)) ∨ m_topic m = "unknown".
Proof.
  intros [Hc _] [_ ->]%packet_delivery_fanout.
  destruct (m_inverse_topic_map c !! _) as [name|] eqn:E; [left|by right].
  by apply (agree_forward _ _ Hc), (agree_inverse _ _ Hc).
Qed.
End lemmas.

(** ** Properties *)

Section properties.
Context {plat : Platform}.

(** C20: a program may call its client from anywhere, also from the callback
    of [process], and call [process] there again, to any depth: whatever ENet
    answers and whatever is thrown and caught, it returns or throws, never
    uses a packet that is gone or runs forever, takes ENet's results in order,
    destroys no packet twice or without having received it, and leaves no
    packet behind in a local variable. *)
Theorem programs_are_safe prog c seen :
  idle c →
  ∃ o c' new, run_prog prog (c, seen) = (o, (c', seen ++ new)) ∧ ends o ∧ idle c' ∧
    progress (c_net c) (c_net c').
Proof.
  intros Hidle.
  assert (CacheInvariant (λ _ _, True) (λ _, True)) by by split.
  destruct (prog_runs (λ _ _, True) (λ _, True) (λ _, True) ltac:(done) prog c seen)
    as (o & c' & new & Hrun & Ho & [Hi _ _] & Hg & _); [by split|].
  by exists o, c', new.
Qed.

(** When the responses agree with an injective registry, then in every
    such program the caches agree with it throughout, no name of a key is
    ever replaced (so that the name a callback was given stays the name of
    its key while the callback runs), and every message that a callback is
    given bears the registry's name of its key, or "unknown". *)
Theorem programs_keep_names srv prog c seen :
  injective_map srv → client_ok srv c →
  ∃ o c' new, run_prog prog (c, seen) = (o, (c', seen ++ new)) ∧ client_ok srv c' ∧
    m_inverse_topic_map c ⊆ m_inverse_topic_map c' ∧
    Forall (λ m, srv !! m_topic m = Some (Header_topic_key (m_header m)) ∨ m_topic m = "unknown")
      new.
Proof.
  intros Hinj [Hidle Htold Hc]. pose proof (learnt_names srv (m_inverse_topic_map c) Hinj).
  destruct (prog_runs _ _ _ (delivered_name srv (m_inverse_topic_map c)) prog c seen)
    as (o & c' & new & Hrun & _ & [Hi Ht [Hc' Hsub]] & _ & Hn); [by split|].
  exists o, c', new. by split_and!.
Qed.
End properties.

(** ** Witnesses *)

Section witnesses.
#[local] Instance callbacks_platform : Platform := little_endian.

Definition fanout_packet (id : Z) (payload : list byte) : ENetPacket :=
  MkPacket id (packet (Origin_value Origin_server) (Fanout 5 payload)).

(** Two messages are there; the callback of the first answers it, and lets
    the second be processed while it holds the first. *)
Definition sample_answering : BusClient :=
  with_topic_maps {["t" := 5%Z]} {[5%Z := "t"]}
    (sample_client_on [(1%Z, EVENT_RECEIVE 40 (fanout_packet 8 [x68]));
                       (1%Z, EVENT_RECEIVE 40 (fanout_packet 9 [x69]))]).

Definition answering_prog : client_prog :=
  PProcess
    (λ m, PCall (OpPublish "t" (m_payload m ++ [x21])) (λ _,
      PProcess (λ m', PCall (OpPublish "t" (m_payload m')) (λ _, PDone)) (λ _, PDone)))
    (λ _, PDone).

(** The packets are destroyed as their callbacks end. *)
Example answering_run :
  let r := run_prog answering_prog (sample_answering, []) in
  fst r = Ok tt ∧ map m_payload (snd (snd r)) = [[x68]; [x69]] ∧
  destroyed (w_log (n_world (c_net (fst (snd r))))) = [9%Z; 8%Z] ∧
  map (λ d, decode d.2) (sends (w_log (n_world (c_net (fst (snd r)))))) =
    [Some (Publish 5 [x68; x21]); Some (Publish 5 [x69])].
Proof. vm_compute. by split_and!. Qed.

Lemma programs_are_safe_witness :
  ∃ o c' new, run_prog answering_prog (sample_answering, []) = (o, (c', [] ++ new)) ∧
    ends o ∧ idle c' ∧ progress (c_net sample_answering) (c_net c').
Proof. apply programs_are_safe. apply sample_idle. Defined.

Lemma programs_keep_names_witness :
  ∃ o c' new, run_prog answering_prog (sample_answering, []) = (o, (c', [] ++ new)) ∧
    client_ok {["t" := 5%Z]} c'.
Proof.
  destruct (programs_keep_names {["t" := 5%Z]} answering_prog sample_answering [])
    as (o & c' & new & Hrun & Hok & _ & _).
  - intros n n' k [<- _]%lookup_singleton_Some [<- _]%lookup_singleton_Some. done.
  - split; [apply sample_idle| |].
    + intros r peer p n k Hin Hd. cbn in Hin. rewrite !elem_of_cons, elem_of_nil in Hin.
      destruct Hin as [[= -> -> ->]|[[= -> -> ->]|[]]]; vm_compute in Hd; discriminate.
    + split; cbn; intros n k; [done|].
      rewrite !lookup_singleton_Some. naive_solver.
  - exists o, c', new. split; [exact Hrun|exact Hok].
Defined.
End witnesses.
