(* ===== verification/Bindings.v ===== *)
(** * Python bindings (python/src/spraybus/_bindings.cpp)

    The extension module [_native]: the class [Message], the class [Client]
    and the one-time initialisation of ENet.  The objects of the Python
    program are a store of clients, by identity, over one networking layer.
    What pybind11 makes of a Python object (text, an integer, bytes) is a
    parameter, [Loads]; an argument that does not convert raises TypeError
    before the function runs.  Values go back to Python as they are, but for
    names, whose decoding is a parameter too. *)

From Stdlib.Strings Require Import Byte.
From stdpp Require Import base gmap list strings.
From S2P Require Import Prelude Protocol World Common NetClient BusClient.

(** ** State *)

(** A process that has loaded the module: the networking layer, the static
    [std::once_flag], and the [Client] objects alive.  The networking state
    stored with a client is the one at the end of its last call. *)
Record Native : Type := MkNative {
  py_net : NetState;
  py_once : bool;
  py_clients : gmap nat BusClient;
}.

Definition set_once (x : bool) (s : Native) : Native :=
  MkNative (py_net s) x (py_clients s).
Definition set_clients (x : gmap nat BusClient) (s : Native) : Native :=
  MkNative (py_net s) (py_once s) x.

#[export] Instance native_net_lens : Lens Native NetState.
Proof.
  refine {| lget := py_net; lset := λ n s, MkNative n (py_once s) (py_clients s) |};
    by intros; destruct s.
Defined.

#[export] Instance native_world_lens : Lens Native World.
Proof.
  refine {| lget := λ s, n_world (py_net s);
            lset := λ w s, MkNative (MkNetState w (n_packets (py_net s))) (py_once s)
                             (py_clients s) |};
    by intros; destruct s as [[]].
Defined.

(** ** The helpers of the file *)

(** [std::call_once]: the flag is set when the callable returns; when it
    throws, the flag stays clear and the exception is passed on. *)
Definition init_networking_once : M Native unit :=
  let! once := gets py_once in
  if once : bool then ret tt else networking_init ;;; modify (set_once true).

(** A [py::bytes] object is its bytes; without arguments it is empty. *)
Definition payload_bytes (message : FanoutMessage) : list byte :=
  if bool_decide (payload message = []) then [] else payload message.

(** The span covers the characters of the string. *)
Definition byte_span (payload : string) : list byte := as_bytes payload.

(** ** The class Message *)

Section message.
(** Python's text; pybind11's conversion of a [std::string] to it, which
    raises when the characters are not UTF-8, and
    [bytes.decode(encoding, errors)]. *)
Context {Str : Type} (to_str : string → Str + exn)
  (bytes_decode : list byte → string → string → outcome Str).

Definition Message_topic_key (message : FanoutMessage) : Z := topic_key message.

Definition Message_topic (message : FanoutMessage) : Str + exn :=
  to_str (topic message).

Definition Message_payload_text (message : FanoutMessage) (encoding errors : option string) :
    outcome Str :=
  bytes_decode (payload_bytes message) (default "utf-8" encoding) (default "strict" errors).
End message.

(** ** The class Client *)

Section client.
Context {plat : Platform}.

(** A call on the client [self]: its networking layer is the process's. *)
Definition on_client {A} (self : nat) (m : M BusClient A) : M Native A := λ s,
  match py_clients s !! self with
  | None => (Undefined, s)
  | Some c =>
      let r := m (with_net (py_net s) c) in
      (fst r, MkNative (c_net (snd r)) (py_once s) (<[self := snd r]> (py_clients s)))
  end.

(** What pybind11 raises when an argument does not convert; its text goes on
    with the signatures. *)
Definition argument_error : exn := type_error "incompatible arguments".

(** pybind11 converts a Python integer to [uint16_t] if it is one of 16 bits. *)
Definition is_uint16 (port : Z) : bool := bool_decide (0 ≤ port < 2 ^ 16)%Z.

(** The lambda given to [py::init]: the object [self] exists only if the
    constructor returns. *)
Definition Client_new (self : nat) (host : string) (port : Z) : M Native unit :=
  init_networking_once ;;;
  let! client := zoom (BusClient_ctor host port) in
  modify (λ s, set_clients (<[self := client]> (py_clients s)) s).

(** [Client(host, port)], for any integer [port]. *)
Definition Client_init (self : nat) (host : string) (port : Z) : M Native unit :=
  if is_uint16 port then Client_new self host port else throw argument_error.

Definition Client_get_topic_key (self : nat) (topic : string) : M Native Z :=
  on_client self (BusClient_get_topic_key topic).

Definition Client_publish (self : nat) (topic : string) (payload : list byte) :
    M Native unit :=
  let bytes := string_of_bytes payload in
  on_client self (BusClient_publish topic (byte_span bytes)).

Definition Client_subscribe (self : nat) (topic : string) : M Native unit :=
  on_client self (BusClient_subscribe topic).

(** [py::none()] is [None]; [py::cast] copies the message. *)
Definition Client_poll (self : nat) : M Native (option FanoutMessage) :=
  let! message := on_client self BusClient_poll in
  match message with
  | None => ret None
  | Some message => ret (Some message)
  end.

(** The last reference to [self] goes: its holder, a [std::unique_ptr],
    destroys the client. *)
Definition Client_dealloc (self : nat) : M Native unit :=
  on_client self (let! client := gets m_client in zoom (NetClient_dtor client)) ;;;
  modify (λ s, set_clients (delete self (py_clients s)) s).
End client.

(** ** Specification: Python programs

    A program makes calls in some order and catches what they raise.  The
    calls of different threads are taken one at a time. *)

Inductive py_op : Type :=
  | PyClient (self : nat) (host : string) (port : Z)
  | PyGetTopicKey (self : nat) (topic : string)
  | PyPublish (self : nat) (topic : string) (payload : list byte)
  | PySubscribe (self : nat) (topic : string)
  | PyPoll (self : nat)
  | PyDel (self : nat).

Inductive py_value : Type :=
  | PyNone
  | PyInt (z : Z)
  | PyMessage (m : FanoutMessage).

Section session.
Context {plat : Platform}.

Definition py_run (op : py_op) : M Native py_value :=
  match op with
  | PyClient self h p => Client_init self h p ;;; ret PyNone
  | PyGetTopicKey self t => let! k := Client_get_topic_key self t in ret (PyInt k)
  | PyPublish self t d => Client_publish self t d ;;; ret PyNone
  | PySubscribe self t => Client_subscribe self t ;;; ret PyNone
  | PyPoll self =>
      let! m := Client_poll self in
      ret match m with Some m => PyMessage m | None => PyNone end
  | PyDel self => Client_dealloc self ;;; ret PyNone
  end.

(** Python makes calls on objects that exist, and a new object has a new
    identity. *)
Definition py_ready (op : py_op) (s : Native) : bool :=
  match op with
  | PyClient self _ _ => bool_decide (py_clients s !! self = None)
  | PyGetTopicKey self _ | PyPublish self _ _ | PySubscribe self _ | PyPoll self
  | PyDel self => bool_decide (is_Some (py_clients s !! self))
  end.

(** The calls of a program, in order, with their results; those it cannot
    make (on an object whose construction raised) are left out. *)
Fixpoint py_session (ops : list py_op) (s : Native) :
    list (py_op * outcome py_value) * Native :=
  match ops with
  | [] => ([], s)
  | op :: rest =>
      if py_ready op s then
        let r := py_run op s in
        let q := py_session rest (snd r) in
        ((op, fst r) :: fst q, snd q)
      else py_session rest s
  end.
End session.

(** ** Arguments

    What pybind11 makes of a Python object where the module asks for a
    [std::string], an integer or [py::bytes]; nothing when it does not
    convert. *)
Class Loads (Obj : Type) : Type := {
  load_string : Obj → option string;
  load_int : Obj → option Z;
  load_bytes : Obj → option (list byte);
}.

(** The calls of Python, with the objects they are given. *)
Inductive py_call (Obj : Type) : Type :=
  | CallClient (self : nat) (host port : Obj)
  | CallGetTopicKey (self : nat) (topic : Obj)
  | CallPublish (self : nat) (topic payload : Obj)
  | CallSubscribe (self : nat) (topic : Obj)
  | CallPoll (self : nat)
  | CallDel (self : nat).
Arguments CallClient {Obj}. Arguments CallGetTopicKey {Obj}. Arguments CallPublish {Obj}.
Arguments CallSubscribe {Obj}. Arguments CallPoll {Obj}. Arguments CallDel {Obj}.

Section arguments.
Context {plat : Platform} {Obj : Type} `{!Loads Obj}.

(** The call with its arguments converted, in the order of the parameters. *)
Definition load_call (call : py_call Obj) : option py_op :=
  match call with
  | CallClient self h p =>
      match load_string h, load_int p with
      | Some host, Some port => Some (PyClient self host port)
      | _, _ => None
      end
  | CallGetTopicKey self t => PyGetTopicKey self <$> load_string t
  | CallPublish self t d =>
      match load_string t, load_bytes d with
      | Some topic, Some payload => Some (PyPublish self topic payload)
      | _, _ => None
      end
  | CallSubscribe self t => PySubscribe self <$> load_string t
  | CallPoll self => Some (PyPoll self)
  | CallDel self => Some (PyDel self)
  end.

Definition py_invoke (call : py_call Obj) : M Native py_value :=
  match load_call call with
  | Some op => py_run op
  | None => throw argument_error
  end.

Definition call_ready (call : py_call Obj) (s : Native) : bool :=
  match call with
  | CallClient self _ _ => bool_decide (py_clients s !! self = None)
  | CallGetTopicKey self _ | CallPublish self _ _ | CallSubscribe self _ | CallPoll self
  | CallDel self => bool_decide (is_Some (py_clients s !! self))
  end.

(** A program, as [py_session] but for its arguments. *)
Fixpoint py_program (calls : list (py_call Obj)) (s : Native) :
    list (py_call Obj * outcome py_value) * Native :=
  match calls with
  | [] => ([], s)
  | call :: rest =>
      if call_ready call s then
        let r := py_invoke call s in
        let q := py_program rest (snd r) in
        ((call, fst r) :: fst q, snd q)
      else py_program rest s
  end.

(** The arguments of the call convert. *)
Definition arguments_ok (call : py_call Obj) : bool :=
  match load_call call with
  | Some (PyClient _ _ port) => is_uint16 port
  | Some _ => true
  | None => false
  end.

Lemma call_ready_op call op s : load_call call = Some op → call_ready call s = py_ready op s.
Proof.
  destruct call; cbn; try (destruct (load_string _); [|done]); try (destruct (load_int _); [|done]);
    try (destruct (load_bytes _); [|done]); by intros [= <-].
Qed.

Lemma py_invoke_rejected call s :
  arguments_ok call = false → py_invoke call s = (Throw argument_error, s).
Proof.
  unfold arguments_ok, py_invoke. destruct (load_call call) as [[]|]; try done.
  intros H. cbn [py_run]. unfold Client_init. by rewrite H.
Qed.

(** Calls whose arguments do not convert leave no trace. *)
Lemma py_program_filter calls s :
  snd (py_program calls s) = snd (py_program (List.filter arguments_ok calls) s).
Proof.
  revert s. induction calls as [|call calls IH]; intros s; [done|]. cbn [List.filter py_program].
  destruct (arguments_ok call) eqn:E.
  - cbn [py_program]. destruct (call_ready call s); [apply IH|apply IH].
  - destruct (call_ready call s); [|apply IH]. rewrite py_invoke_rejected by done. apply IH.
Qed.
End arguments.

(** ** Lemmas on single calls *)

Section calls.
Context {plat : Platform}.
Implicit Types (s : Native) (c : BusClient).

(** The C++ operation behind a call, and its result in Python. *)
Definition op_self (op : py_op) : nat :=
  match op with
  | PyClient self _ _ | PyGetTopicKey self _ | PyPublish self _ _ | PySubscribe self _
  | PyPoll self | PyDel self => self
  end.

Definition to_client_op (op : py_op) : option client_op :=
  match op with
  | PyGetTopicKey _ t => Some (OpGetTopicKey t)
  | PyPublish _ t d => Some (OpPublish t d)
  | PySubscribe _ t => Some (OpSubscribe t)
  | PyPoll _ => Some OpPoll
  | PyClient _ _ _ | PyDel _ => None
  end.

Definition client_value (op : client_op) : M BusClient py_value :=
  match op with
  | OpGetTopicKey t => let! k := BusClient_get_topic_key t in ret (PyInt k)
  | OpPublish t p => BusClient_publish t p ;;; ret PyNone
  | OpPublishKey k p => BusClient_publish_key k p ;;; ret PyNone
  | OpSubscribe t => BusClient_subscribe t ;;; ret PyNone
  | OpPoll =>
      let! m := BusClient_poll in
      ret match m with Some m => PyMessage m | None => PyNone end
  end.

Lemma client_value_state op c : snd (client_value op c) = run_client_op op c.
Proof.
  destruct op; cbn [client_value run_client_op]; by rewrite bind_ret_run.
Qed.

Lemma payload_bytes_eq m : payload_bytes m = payload m.
Proof. unfold payload_bytes. by case_bool_decide. Qed.

Lemma published_bytes d : byte_span (string_of_bytes d) = d.
Proof. apply as_bytes_string_of_bytes. Qed.

(** A call on a live object is the C++ operation on its client. *)
Lemma py_run_client op cop s c :
  to_client_op op = Some cop → py_clients s !! op_self op = Some c →
  py_run op s =
    let r := client_value cop (with_net (py_net s) c) in
    (fst r, MkNative (c_net (snd r)) (py_once s) (<[op_self op := snd r]> (py_clients s))).
Proof.
  destruct op as [|self t|self t d|self t|self|]; intros [= <-]; cbn [op_self]; intros Hc;
    cbn [py_run client_value]; unfold Client_get_topic_key, Client_publish, Client_subscribe;
    rewrite ?published_bytes, !bind_ret_run; cbn [fst snd]; try (unfold on_client; by rewrite Hc).
  unfold Client_poll, on_client, bind. rewrite Hc.
  by destruct (BusClient_poll (with_net (py_net s) c)) as [[[m|]| | |] c'].
Qed.

Lemma Client_new_run self h p s :
  Client_new self h p s =
    let started := if py_once s then (Ok tt, s)
                   else (init_outcome (n_world (py_net s)),
                         set_once (w_initialize (n_world (py_net s)) =? 0)%Z
                           (lset (init_world (n_world (py_net s))) s)) in
    match fst started with
    | Ok _ =>
        let made := BusClient_ctor h p (py_net (snd started)) in
        (outcome_map (λ _, tt) (fst made),
         MkNative (snd made) (py_once (snd started))
           match fst made with
           | Ok c => <[self := c]> (py_clients s)
           | _ => py_clients s
           end)
    | r => (r, snd started)
    end.
Proof.
  unfold Client_new, init_networking_once. unfold bind at 1 2, gets at 1.
  destruct (py_once s) eqn:E.
  - cbn [fst snd ret]. unfold bind, zoom. cbn [lget native_net_lens].
    destruct (BusClient_ctor h p (py_net s)) as [[] n]; done.
  - unfold bind at 1. rewrite networking_init_run. cbn [lget native_world_lens].
    unfold init_outcome. destruct (_ =? _)%Z; [|by destruct s; cbn in E; subst].
    cbn [modify fst snd]. unfold bind, zoom. cbn.
    destruct (BusClient_ctor h p _) as [[] n]; done.
Qed.

(** The object exists if the constructor returns, and only then. *)
Lemma Client_init_client self h p s :
  py_clients s !! self = None →
  (is_Some (py_clients (snd (Client_init self h p s)) !! self) ↔
   ∃ u, fst (Client_init self h p s) = Ok u).
Proof.
  intros Hnone. unfold Client_init. destruct (is_uint16 p);
    [|cbn; rewrite Hnone; split; [by intros [? ?]|by intros [? ?]]].
  rewrite Client_new_run. cbn zeta.
  set (started := if py_once s then _ else _).
  assert (Hc : py_clients (snd started) = py_clients s)
    by (unfold started; by destruct (py_once s)).
  assert (Hno : ¬ is_Some (py_clients s !! self)) by (rewrite Hnone; by intros [? ?]).
  destruct (fst started) as [[]|e| |]; cbn [fst snd]; rewrite ?Hc;
    [|split; [by intros ?%Hno|by intros [? ?]]..].
  cbn [py_clients]. destruct (fst (BusClient_ctor _ _ _)) as [c|e| |]; cbn [outcome_map];
    [|split; [by intros ?%Hno|by intros [? ?]]..].
  rewrite lookup_insert_eq. split; by eexists.
Qed.
End calls.

(** ** Invariants of programs *)

Section invariants.
Context {plat : Platform}.
Implicit Types (s : Native) (c : BusClient).

(** The wrappers are free, every response to come is in [T], and the caches
    of every client satisfy [P]. *)
Record native_inv (T : string → Z → Prop) (P : BusClient → Prop) s : Prop := {
  native_free : free (py_net s);
  native_heard : heard T (w_service (n_world (py_net s)));
  native_caches : ∀ self c, py_clients s !! self = Some c → P c;
}.

(** Empty caches satisfy [P]. *)
Definition holds_fresh (P : BusClient → Prop) : Prop :=
  ∀ n t h p, P (MkBusClient n t h p Constructor_default ∅ ∅).

(** [P] does not depend on the networking state. *)
Lemma cache_net T P `{!CacheInvariant T P} n c : P c → P (with_net n c).
Proof.
  intros H. apply (cache_other (T := T) n (m_protocol_constructor c)) in H. by destruct c.
Qed.

Lemma native_client T P `{!CacheInvariant T P} s self c :
  native_inv T P s → py_clients s !! self = Some c → client_inv T P (with_net (py_net s) c).
Proof. intros [Hf Hh Hc] Hs. split; [exact Hf|exact Hh|]. by eapply cache_net, Hc. Qed.

(** The state after a call that moves the networking layer on. *)
Lemma native_progress T P s net once clients :
  native_inv T P s → progress (py_net s) net →
  (∀ self c, clients !! self = Some c → py_clients s !! self = Some c ∨ P c) →
  native_inv T P (MkNative net once clients).
Proof.
  intros [[Hf1 Hf2] Hh Hc] Hg Hs. split; cbn.
  - destruct Hg as [_ Hp]. split; by rewrite Hp.
  - by eapply heard_progress.
  - intros self c [?|?]%Hs; [by eapply Hc|done].
Qed.

Lemma init_progress s :
  progress (py_net s) (MkNetState (init_world (n_world (py_net s))) (n_packets (py_net s))).
Proof.
  split; [|done]. unfold init_world. cbn [n_world].
  destruct (_ =? _)%Z; [exists [], [Enet_initialize; Atexit_enet_deinitialize]
                       |exists [], [Enet_initialize]];
    (split_and!; [done|cbn; by rewrite <-?app_assoc|done]).
Qed.

(** The other objects stay. *)
Lemma Client_init_others self h p s i :
  i ≠ self → py_clients (snd (Client_init self h p s)) !! i = py_clients s !! i.
Proof.
  intros Hne. unfold Client_init. destruct (is_uint16 p); [|done]. rewrite Client_new_run. cbn zeta.
  set (started := if py_once s then _ else _).
  assert (Hc : py_clients (snd started) = py_clients s)
    by (unfold started; by destruct (py_once s)).
  destruct (fst started) as [[]|e| |]; cbn [snd]; [|by rewrite Hc..]. cbn [py_clients].
  destruct (fst (BusClient_ctor _ _ _)); [|done..]. by rewrite lookup_insert_ne.
Qed.

Lemma Client_init_inv T P self h p s :
  holds_fresh P → native_inv T P s → native_inv T P (snd (Client_init self h p s)).
Proof.
  intros Hfresh Hs. unfold Client_init. destruct (is_uint16 p); [|done].
  rewrite Client_new_run. cbn zeta.
  set (started := if py_once s then _ else _).
  assert (Hst : native_inv T P (snd started)).
  { unfold started. destruct (py_once s); [done|]. cbn [snd].
    eapply (native_progress _ _ s); [done| |by left].
    apply init_progress. }
  assert (Hc : py_clients (snd started) = py_clients s)
    by (unfold started; by destruct (py_once s)).
  destruct (fst started) as [[]|e| |]; cbn [snd]; [|done..].
  destruct (client_ctor_run h p (py_net (snd started))) as (n & _ & Hg & ->). cbn [fst snd].
  eapply (native_progress _ _ (snd started)); [done..|]. intros i c Hi. rewrite Hc.
  destruct (fst (connect_outcome _ _ _)) as [t|e| |]; cbn [outcome_map] in Hi; [|by left..].
  apply lookup_insert_Some in Hi as [[_ <-]|[_ Hi]]; [right; apply Hfresh|by left].
Qed.

Lemma Client_dealloc_run self s c :
  py_clients s !! self = Some c →
  Client_dealloc self s =
    (Ok tt, MkNative (snd (NetClient_dtor (m_client c) (py_net s))) (py_once s)
              (delete self (py_clients s))).
Proof.
  intros Hc. unfold Client_dealloc.
  destruct (proj1 (returns_inv _ _ _) (dtor_returns (m_client c) (py_net s)))
    as ([] & n & Hn & _).
  rewrite (bind_Ok _ _ s tt (MkNative n (py_once s)
    (<[self := with_net n (with_net (py_net s) c)]> (py_clients s)))).
  - unfold modify, set_clients. cbn [py_net py_once py_clients]. by rewrite Hn, delete_insert_eq.
  - unfold on_client. rewrite Hc. unfold bind, gets, zoom.
    cbn [lget client_net_lens c_net with_net m_client]. by rewrite Hn.
Qed.

Lemma dtor_progress t net : progress net (snd (NetClient_dtor t net)).
Proof.
  destruct (proj1 (returns_inv _ _ _) (dtor_returns t net)) as ([] & n & -> & Hb & _).
  by eapply balanced_progress.
Qed.

Lemma py_ready_live op s :
  py_ready op s = true →
  match op with
  | PyClient self _ _ => py_clients s !! self = None
  | _ => ∃ c, py_clients s !! op_self op = Some c
  end.
Proof. by destruct op; cbn; intros H%bool_decide_eq_true. Qed.

Lemma py_run_inv T P `{!CacheInvariant T P} op s :
  holds_fresh P → py_ready op s = true → native_inv T P s →
  native_inv T P (snd (py_run op s)).
Proof.
  intros Hfresh Hready%py_ready_live Hs. destruct (to_client_op op) as [cop|] eqn:Ecop.
  - assert (∃ c, py_clients s !! op_self op = Some c) as [c Hc] by by destruct op.
    rewrite (py_run_client op cop s c Ecop Hc). cbn [fst snd]. rewrite client_value_state.
    pose proof (native_client T P s _ c Hs Hc) as Hci.
    pose proof (client_op_progress cop _ (inv_idle _ _ _ Hci)) as Hg.
    pose proof (client_op_inv T P cop _ Hci) as [_ _ HP].
    eapply native_progress; [done..|]. intros i c' [[_ <-]|[_ ?]]%lookup_insert_Some; auto.
  - destruct op as [self h p| | | | |self]; try done; cbn [py_run]; rewrite bind_ret_run.
    + by apply Client_init_inv.
    + destruct Hready as [c Hc]. rewrite (Client_dealloc_run self s c Hc). cbn [snd].
      eapply native_progress; [done|apply dtor_progress|].
      intros i c' [_ ?]%lookup_delete_Some. by left.
Qed.

(** Every call takes results of ENet in order. *)
Lemma Client_init_progress self h p s :
  progress (py_net s) (py_net (snd (Client_init self h p s))).
Proof.
  unfold Client_init. destruct (is_uint16 p); [|reflexivity].
  rewrite Client_new_run. cbn zeta. set (started := if py_once s then _ else _).
  assert (Hst : progress (py_net s) (py_net (snd started)))
    by (unfold started; destruct (py_once s); [done|]; apply init_progress).
  destruct (fst started) as [[]|e| |]; cbn [snd]; [|exact Hst..].
  destruct (client_ctor_run h p (py_net (snd started))) as (n & _ & Hg & ->). cbn [fst snd py_net].
  by transitivity (py_net (snd started)).
Qed.

Lemma py_run_progress op s :
  py_ready op s = true → free (py_net s) → progress (py_net s) (py_net (snd (py_run op s))).
Proof.
  intros Hready%py_ready_live Hfree. destruct (to_client_op op) as [cop|] eqn:Ecop.
  - assert (∃ c, py_clients s !! op_self op = Some c) as [c Hc] by by destruct op.
    rewrite (py_run_client op cop s c Ecop Hc). cbn [fst snd]. rewrite client_value_state.
    by apply (client_op_progress cop (with_net (py_net s) c)).
  - destruct op as [self h p| | | | |self]; try done; cbn [py_run]; rewrite bind_ret_run.
    + apply Client_init_progress.
    + destruct Hready as [c Hc]. rewrite (Client_dealloc_run self s c Hc). apply dtor_progress.
Qed.

(** What holds of every call made, whenever the invariant holds before it,
    holds of every result of a program. *)
Lemma py_session_inv T P `{!CacheInvariant T P} (Q : py_op → outcome py_value → Prop) ops s :
  holds_fresh P → native_inv T P s →
  (∀ op s, py_ready op s = true → native_inv T P s → Q op (fst (py_run op s))) →
  native_inv T P (snd (py_session ops s)) ∧
  Forall (λ r, Q r.1 r.2) (fst (py_session ops s)).
Proof.
  intros Hfresh Hs HQ. revert s Hs. induction ops as [|op ops IH]; intros s Hs; [done|].
  cbn [py_session]. destruct (py_ready op s) eqn:Hready; [|by apply IH]. cbn [fst snd].
  destruct (IH _ (py_run_inv T P op s Hfresh Hready Hs)) as [Hend Hall].
  split; [done|]. constructor; [|done]. by apply HQ.
Qed.
End invariants.

(** ** Types of the results *)

Section types.
Context {plat : Platform}.

(** A key fits in the [uint64_t] that pybind11 converts. *)
Definition keys_typed (c : BusClient) : Prop :=
  ∀ n k, m_topic_map c !! n = Some k → is_u64 k.

(** What a call may give: a value of its type, or a [std::runtime_error],
    which Python sees as a RuntimeError; a port that has not 16 bits is a
    TypeError; destroying a client raises nothing. *)
Definition py_typed (op : py_op) (r : outcome py_value) : Prop :=
  match op, r with
  | PyClient _ _ port, r =>
      if is_uint16 port then
        match r with
        | Ok v => v = PyNone
        | Throw e => ∃ text, e = runtime_error text
        | _ => False
        end
      else r = Throw argument_error
  | PyDel _, Ok v => v = PyNone
  | PyDel _, _ => False
  | _, Throw e => ∃ text, e = runtime_error text
  | PyGetTopicKey _ _, Ok v => ∃ k, v = PyInt k ∧ is_u64 k
  | PyPoll _, Ok v => v = PyNone ∨ ∃ m, v = PyMessage m ∧ is_u64 (topic_key m)
  | _, Ok v => v = PyNone
  | _, _ => False
  end.

Definition key_entry (_ : string) (k : Z) : Prop := is_u64 k.

#[export] Instance keys_typed_invariant : CacheInvariant key_entry keys_typed.
Proof.
  split; [by intros n b c H|]. intros n k c Hk Hc n' k'. cbn [learn m_topic_map with_topic_maps].
  intros [[<- <-]|[_ ?]]%lookup_insert_Some; [done|by eapply Hc].
Qed.

Lemma keys_typed_fresh : holds_fresh keys_typed.
Proof. intros n t h p name k. cbn. by rewrite lookup_empty. Qed.

Lemma key_entry_heard results : heard key_entry results.
Proof. intros r peer p n k _ Hd%decode_wf. exact Hd. Qed.

Lemma resolution_typed topic c :
  keys_typed c →
  match resolution topic c with
  | Ok k => is_u64 k
  | Throw e => ∃ text, e = runtime_error text
  | _ => False
  end.
Proof.
  intros Hc. unfold resolution. destruct (m_topic_map c !! topic) as [k|] eqn:E; [by eapply Hc|].
  unfold lookup_outcome, connect_outcome. destruct (hd None (w_hosts _)); [|by eexists].
  destruct (hd None (w_peers _)); [|by eexists]. destruct (handshake _); [|by eexists].
  cbn [fst]. unfold exchange_outcome. destruct (hd _ (tl _)) as [r [| | |q p]]; cbn [fst snd];
    destruct (0 <? r)%Z; try by eexists.
  pose proof (response_outcome_learns (packet_data p)) as Hl. unfold response_outcome in *.
  destruct (_ <? _); [by eexists|]. case_bool_decide; [|by eexists].
  cbn [fst snd] in *. eapply (decode_wf _ _ (Hl _ _ eq_refl)).
Qed.

Lemma delivery_typed inverse r :
  match delivery inverse r with
  | Ok (Some m) => is_u64 (Header_topic_key (m_header m))
  | Ok None => True
  | Throw e => ∃ text, e = runtime_error text
  | _ => False
  end.
Proof.
  unfold delivery. destruct (0 <? r.1)%Z; [|done].
  destruct r.2 as [| | |q p]; try done; [by eexists|].
  destruct (packet_delivery inverse (packet_data p)) as [[m|]|e| |] eqn:E; [|done|..].
  1: { apply packet_delivery_fanout in E as [Hd _]. exact (decode_wf _ _ Hd). }
  all: unfold packet_delivery in E; destruct (length (packet_data p) <? sizeof_Header);
    [|by repeat case_match]; by simplify_eq; try eexists.
Qed.

Lemma py_typed_client op cop s c :
  to_client_op op = Some cop → py_clients s !! op_self op = Some c →
  native_inv key_entry keys_typed s → py_typed op (fst (py_run op s)).
Proof.
  intros Ecop Hc Hs. rewrite (py_run_client op cop s c Ecop Hc). cbn [fst].
  pose proof (native_client _ _ s _ c Hs Hc) as [Hidle _ Hk].
  set (c1 := with_net (py_net s) c) in *.
  destruct op as [|self t|self t d|self t|self|]; try discriminate; injection Ecop as <-; cbn [client_value];
    rewrite bind_ret_run; cbn [fst].
  - destruct (resolve_run t c1 Hidle) as (c' & -> & _). pose proof (resolution_typed t c1 Hk).
    destruct (resolution t c1); cbn; eauto.
  - destruct (request_run t (λ k, Publish k d) c1 Hidle) as (c' & Hrun & _).
    unfold BusClient_publish. cbn [build] in Hrun. rewrite Hrun.
    pose proof (resolution_typed t c1 Hk). by destruct (resolution t c1).
  - destruct (request_run t Subscribe c1 Hidle) as (c' & Hrun & _).
    unfold BusClient_subscribe. cbn [build] in Hrun. rewrite Hrun.
    pose proof (resolution_typed t c1 Hk). by destruct (resolution t c1).
  - destruct (poll_run c1 Hidle) as (n & -> & _). cbn [fst].
    pose proof (delivery_typed (m_inverse_topic_map c1)
      (hd (0%Z, EVENT_NONE) (w_service (n_world (c_net c1))))) as Ht.
    destruct (delivery _ _) as [[m|]|e| |]; cbn; eauto.
Qed.

Lemma py_typed_run op s :
  py_ready op s = true → native_inv key_entry keys_typed s → py_typed op (fst (py_run op s)).
Proof.
  intros Hready%py_ready_live Hs. destruct (to_client_op op) as [cop|] eqn:Ecop.
  { assert (∃ c, py_clients s !! op_self op = Some c) as [c Hc] by by destruct op.
    by eapply py_typed_client. }
  destruct op as [self h p| | | | |self]; try done; cbn [py_run]; rewrite bind_ret_run; cbn [fst].
  - unfold Client_init, py_typed. destruct (is_uint16 p); [|done]. rewrite Client_new_run. cbn zeta.
    set (started := if py_once s then _ else _).
    assert (Hst : match fst started with
      Ok _ => True | Throw e => ∃ text, e = runtime_error text | _ => False end).
    { unfold started. destruct (py_once s); [done|]. unfold init_outcome. cbn [fst].
      destruct (_ =? _)%Z; [done|by eexists]. }
    destruct (fst started) as [[]|e| |]; [|done..]. cbn [fst].
    destruct (client_ctor_run h p (py_net (snd started))) as (n & _ & _ & ->). cbn [fst].
    unfold connect_outcome. repeat case_match; simplify_eq; cbn in *; simplify_eq; eauto.
  - destruct Hready as [c Hc]. by rewrite (Client_dealloc_run self s c Hc).
Qed.

(** The same of calls whose arguments may not convert. *)
Definition call_typed {Obj} `{!Loads Obj} (call : py_call Obj) (r : outcome py_value) : Prop :=
  match load_call call with
  | Some op => py_typed op r
  | None => r = Throw argument_error
  end.

(** TypeError is raised for arguments that do not convert, and for no other
    reason. *)
Lemma call_typed_error {Obj} `{!Loads Obj} (call : py_call Obj) r :
  call_typed call r → r = Throw argument_error ↔ arguments_ok call = false.
Proof.
  unfold call_typed, arguments_ok, argument_error. destruct (load_call call) as [op|]; [|done].
  assert (Hrt : ∀ text, @Throw py_value (runtime_error text) = Throw (type_error "incompatible arguments") ↔ true = false)
    by (intros text; split; [intros [=]|done]).
  destruct op as [self h p| | | | |]; cbn [py_typed]; [destruct (is_uint16 p); [|done]|..];
    destruct r as [v|e| |]; try done; by intros [text ->].
Qed.

Lemma py_program_typed {Obj} `{!Loads Obj} (calls : list (py_call Obj)) s :
  native_inv key_entry keys_typed s →
  Forall (λ r, call_typed r.1 r.2) (fst (py_program calls s)).
Proof.
  revert s. induction calls as [|call calls IH]; intros s Hs; [done|]. cbn [py_program].
  destruct (call_ready call s) eqn:Hready; [|by apply IH]. cbn [fst].
  unfold call_typed, py_invoke. destruct (load_call call) as [op|] eqn:E.
  - rewrite (call_ready_op _ _ _ E) in Hready. constructor.
    + cbn [fst snd]. rewrite E. by apply py_typed_run.
    + by apply IH, (py_run_inv key_entry keys_typed); [apply keys_typed_fresh|..].
  - constructor; [cbn [fst snd]; by rewrite E|by apply IH].
Qed.
End types.

(** ** Lemmas on the one-time initialisation *)

Section init.
Context {plat : Platform}.

(** A construction whose arguments convert. *)
Definition is_construction (op : py_op) : bool :=
  match op with PyClient _ _ port => is_uint16 port | _ => false end.

(** The calls of [networking_init] among those made. *)
Definition init_calls (w : World) : list effect := List.filter is_init (w_log w).

(** What [n] constructions add to them, in all. *)
Definition init_added (once : bool) (result : Z) (n : nat) : list effect :=
  if (result =? 0)%Z then
    if once || (n =? 0) then [] else [Enet_initialize; Atexit_enet_deinitialize]
  else if once then [] else replicate n Enet_initialize.

Lemma init_view_eq w w' :
  init_view w = init_view w' → w_initialize w = w_initialize w' ∧ init_calls w = init_calls w'.
Proof. intros [= H1 H2]. by split. Qed.

Lemma init_calls_init_world w :
  init_calls (init_world w) = init_calls w ++ init_added false (w_initialize w) 1.
Proof.
  unfold init_calls, init_world, init_added. destruct (_ =? _)%Z; cbn;
    by rewrite !List.filter_app, <-?app_assoc.
Qed.

Lemma ctor_init_view h p n :
  init_view (n_world (snd (BusClient_ctor h p n))) = init_view (n_world n).
Proof.
  destruct (client_ctor_run h p n) as (n' & Hn & _ & ->).
  pose proof (keeps_NetClient_ctor (view := init_view) h p n) as Hv. by rewrite Hn in Hv.
Qed.

(** One call: the flag, and the calls of [networking_init]. *)
Lemma py_run_init op s :
  py_ready op s = true →
  let result := w_initialize (n_world (py_net s)) in
  let s' := snd (py_run op s) in
  w_initialize (n_world (py_net s')) = result ∧
  init_calls (n_world (py_net s')) = init_calls (n_world (py_net s)) ++
    init_added (py_once s) result (if is_construction op then 1 else 0) ∧
  py_once s' = py_once s || (is_construction op && (result =? 0)%Z) ∧
  (is_construction op = true → py_once s = false → (result =? 0)%Z = false →
   fst (py_run op s) = Throw (runtime_error "Failed to initialize ENet") ∧
   py_clients s' = py_clients s).
Proof.
  intros Hready%py_ready_live result s'. destruct (to_client_op op) as [cop|] eqn:Ecop.
  - assert (∃ c, py_clients s !! op_self op = Some c) as [c Hc] by by destruct op.
    unfold s'. rewrite (py_run_client op cop s c Ecop Hc). cbn [fst snd py_net py_once].
    rewrite client_value_state.
    destruct (init_view_eq _ _ (client_op_keeps init_view cop (with_net (py_net s) c)))
      as [-> ->].
    destruct op; try discriminate; cbn [is_construction init_added]; unfold init_added;
      destruct (result =? 0)%Z, (py_once s); by rewrite ?app_nil_r.
  - unfold s'. destruct op as [self h p| | | | |self]; try discriminate;
      cbn [py_run is_construction]; rewrite bind_ret_run; cbn [fst snd].
    + unfold Client_init. destruct (is_uint16 p);
        [|cbn; rewrite orb_false_r; unfold init_added;
          by destruct (result =? 0)%Z, (py_once s); rewrite ?app_nil_r].
      rewrite Client_new_run. cbn zeta. unfold init_outcome. fold result.
      destruct (py_once s) eqn:Eonce; [|destruct (result =? 0)%Z eqn:Er]; cbn [fst snd].
      * cbn [py_net py_once]. destruct (init_view_eq _ _ (ctor_init_view h p (py_net s))) as [-> ->].
        split_and!; [done| |done|done]. unfold init_added.
        destruct (result =? 0)%Z; by rewrite app_nil_r.
      * match goal with |- context [BusClient_ctor h p ?n] => set (n1 := n) end. cbn [py_net py_once set_once].
        destruct (init_view_eq _ _ (ctor_init_view h p n1)) as [-> ->]. subst n1.
        cbn [lset native_world_lens py_net n_world set_once]. rewrite init_calls_init_world.
        split_and!; [|done|done|done]. unfold init_world. by destruct (_ =? _)%Z.
      * cbn [lget lset native_world_lens py_net n_world set_once py_once].
        rewrite init_calls_init_world. split_and!; [|done|done|done].
        unfold init_world. by destruct (_ =? _)%Z.
    + destruct Hready as [c Hc]. rewrite (Client_dealloc_run self s c Hc). cbn [snd py_net py_once].
      pose proof (keeps_NetClient_dtor (view := init_view) (m_client c) (py_net s)) as Hv.
      apply init_view_eq in Hv as [Hi Hl]. cbn [lget net_world_lens] in Hi, Hl.
      rewrite Hi, Hl. unfold init_added.
      destruct (result =? 0)%Z, (py_once s); by rewrite ?app_nil_r.
Qed.

(** The constructions among the calls made. *)
Definition constructions (rs : list (py_op * outcome py_value)) : nat :=
  length (List.filter (λ r, is_construction r.1) rs).

Lemma init_added_cons once result (c : bool) n :
  init_added once result (if c then 1 else 0) ++
    init_added (once || (c && (result =? 0)%Z)) result n =
  init_added once result ((if c then 1 else 0) + n).
Proof.
  unfold init_added. destruct (result =? 0)%Z eqn:E, once, c; by destruct n.
Qed.

Lemma py_session_init ops s :
  let result := w_initialize (n_world (py_net s)) in
  let r := py_session ops s in
  let n := constructions (fst r) in
  w_initialize (n_world (py_net (snd r))) = result ∧
  init_calls (n_world (py_net (snd r))) =
    init_calls (n_world (py_net s)) ++ init_added (py_once s) result n ∧
  py_once (snd r) = py_once s || ((0 <? n) && (result =? 0)%Z).
Proof.
  revert s. induction ops as [|op ops IH]; intros s; cbn zeta.
  { cbn. unfold init_added, constructions. rewrite orb_false_r.
    split_and!; [done| |done]. destruct (_ =? _)%Z, (py_once s); by rewrite app_nil_r. }
  cbn [py_session]. destruct (py_ready op s) eqn:Hready; [|apply IH]. cbn [fst snd].
  destruct (py_run_init op s Hready) as (Hi & Hl & Ho & _).
  destruct (IH (snd (py_run op s))) as (Hi2 & Hl2 & Ho2). rewrite Hi in Hi2, Hl2, Ho2.
  assert (Hn : constructions ((op, fst (py_run op s)) :: fst (py_session ops (snd (py_run op s)))) =
    (if is_construction op then 1 else 0) +
      constructions (fst (py_session ops (snd (py_run op s)))))
    by (unfold constructions; cbn; by destruct (is_construction op)).
  rewrite Hn. split_and!; [done| |].
  - by rewrite Hl2, Hl, Ho, <-app_assoc, init_added_cons.
  - rewrite Ho2, Ho. destruct (is_construction op), (py_once s), (_ =? _)%Z; cbn; try done;
      by rewrite ?andb_false_r.
Qed.

(** While ENet cannot be initialised, no client comes into being. *)
Lemma py_session_failing ops s :
  py_once s = false → w_initialize (n_world (py_net s)) ≠ 0%Z → py_clients s = ∅ →
  let r := py_session ops s in
  py_clients (snd r) = ∅ ∧
  Forall (λ x, x.2 = Throw (if is_construction x.1
                            then runtime_error "Failed to initialize ENet"
                            else argument_error)) (fst r).
Proof.
  intros Ho Hr%Z.eqb_neq Hc. revert s Ho Hr Hc. induction ops as [|op ops IH];
    intros s Ho Hr Hc; [done|]. cbn [py_session].
  destruct (py_ready op s) eqn:Hready; [|by apply IH]. cbn [fst snd].
  destruct (py_run_init op s Hready) as (Hi & _ & Ho2 & Hfail). rewrite Ho, Hr, andb_false_r in Ho2.
  assert (Hop : fst (py_run op s) = Throw (if is_construction op
      then runtime_error "Failed to initialize ENet" else argument_error) ∧
    py_clients (snd (py_run op s)) = py_clients s).
  { destruct (is_construction op) eqn:E; [by apply Hfail|]. apply py_ready_live in Hready.
    rewrite Hc in Hready. destruct op as [self h p| | | | |];
      [|by destruct Hready as [? ?%lookup_empty_Some]..].
    cbn [py_run is_construction] in *. unfold Client_init. by rewrite E. }
  destruct Hop as [Hres Hc2].
  destruct (IH (snd (py_run op s))) as [? Hall]; [done|by rewrite Hi|by rewrite Hc2|].
  split; [done|]. by constructor.
Qed.
End init.

(** ** Messages polled by Python *)

Section polled.
Context {plat : Platform}.

(** A message that a call gives bears the name of its key in [srv], or
    "unknown". *)
Definition py_named (srv : gmap string Z) (op : py_op) (r : outcome py_value) : Prop :=
  ∀ m, r = Ok (PyMessage m) → srv !! topic m = Some (topic_key m) ∨ topic m = "unknown".

Lemma py_named_run srv op s :
  injective_map srv → py_ready op s = true →
  native_inv (λ n k, srv !! n = Some k) (caches_agree srv) s →
  py_named srv op (fst (py_run op s)).
Proof.
  intros Hinj Hready%py_ready_live Hs m Hm. pose proof (caches_agree_invariant srv Hinj).
  destruct op as [self h p|self t|self t d|self t|self|self]; cbn [py_run] in Hm;
    rewrite bind_ret_run in Hm; cbn [fst] in Hm.
  1, 2, 3, 4, 6: match type of Hm with outcome_map _ ?o = _ => by destruct o end.
  destruct Hready as [c Hc]. cbn [op_self] in Hc.
  destruct (native_client _ _ s self c Hs Hc) as [Hidle _ Hca].
  unfold Client_poll, on_client, bind in Hm. rewrite Hc in Hm.
  destruct (BusClient_poll (with_net (py_net s) c)) as [[[f|]| | |] c'] eqn:Ep;
    cbn in Hm; try discriminate. injection Hm as <-.
  destruct (polled_name srv _ f Hca Hidle) as [?|[? _]]; [by rewrite Ep|by left|by right].
Qed.
End polled.

(** ** Properties *)

Section properties.
Context {plat : Platform}.

(** C27: whatever calls a Python program makes on however many clients, with
    whatever objects as arguments and whatever ENet answers, every call returns
    a value of its declared type (an integer of 64 bits for [get_topic_key],
    [None] or a message whose key has 64 bits for [poll], [None] for the others)
    or raises RuntimeError; it raises TypeError if and only if an argument does
    not convert (a port must be an integer of 16 bits), and then it has no
    effect at all; letting go of a client raises nothing, and no call uses a
    packet or a client that is gone or runs forever. *)
Theorem python_results_typed {Obj} `{!Loads Obj} (calls : list (py_call Obj)) s :
  free (py_net s) → py_clients s = ∅ →
  Forall (λ r, call_typed r.1 r.2 ∧ (r.2 = Throw argument_error ↔ arguments_ok r.1 = false))
    (fst (py_program calls s)) ∧
  snd (py_program calls s) = snd (py_program (List.filter arguments_ok calls) s).
Proof.
  intros Hfree Hc. split; [|apply py_program_filter].
  eapply Forall_impl; [apply py_program_typed|].
  - split; [done|apply key_entry_heard|]. intros i c. by rewrite Hc, lookup_empty.
  - intros [call r] Ht. cbn [fst snd] in *. split; [exact Ht|]. by apply call_typed_error.
Qed.

(** C21: ENet is initialised once however many clients a program constructs,
    and not before the first: [enet_initialize] and the registration of
    [enet_deinitialize] are called once, by the first construction.  If
    ENet cannot be initialised, every construction tries again and raises
    RuntimeError, nothing is registered, and no client exists.  A construction
    whose port does not convert does not come so far. *)
Theorem networking_initialised_once ops s :
  py_once s = false → py_clients s = ∅ →
  let w := n_world (py_net s) in
  let r := py_session ops s in
  let n := constructions (fst r) in
  let w' := n_world (py_net (snd r)) in
  if (w_initialize w =? 0)%Z then
    init_calls w' =
      init_calls w ++ (if n =? 0 then [] else [Enet_initialize; Atexit_enet_deinitialize]) ∧
    py_once (snd r) = (0 <? n)
  else
    init_calls w' = init_calls w ++ replicate n Enet_initialize ∧
    py_once (snd r) = false ∧ py_clients (snd r) = ∅ ∧
    Forall (λ x, x.2 = Throw (if is_construction x.1
                              then runtime_error "Failed to initialize ENet"
                              else argument_error)) (fst r).
Proof.
  intros Ho Hc w r n w'. destruct (py_session_init ops s) as (_ & Hl & Ho2).
  fold r in Hl, Ho2. fold n in Hl, Ho2. fold w w' in Hl. fold w in Ho2.
  unfold init_added in Hl. rewrite Ho in Hl, Ho2. cbn [orb] in Hl, Ho2.
  destruct (w_initialize w =? 0)%Z eqn:Er.
  - by rewrite andb_true_r in Ho2.
  - rewrite andb_false_r in Ho2. apply Z.eqb_neq in Er.
    destruct (py_session_failing ops s Ho Er Hc) as [? Hall]. split_and!; done.
Qed.

(** When the responses ENet delivers agree with an injective registry of
    topics, the caches of all clients of a Python program agree with it
    after any sequence of calls, and every message polled bears the name
    that the registry gives its key, or "unknown". *)
Theorem python_clients_agree srv ops s :
  injective_map srv → free (py_net s) → py_clients s = ∅ →
  told srv (w_service (n_world (py_net s))) →
  (∀ self c, py_clients (snd (py_session ops s)) !! self = Some c → caches_agree srv c) ∧
  Forall (λ r, py_named srv r.1 r.2) (fst (py_session ops s)).
Proof.
  intros Hinj Hfree Hc Htold. pose proof (caches_agree_invariant srv Hinj).
  destruct (py_session_inv (λ n k, srv !! n = Some k) (caches_agree srv) (py_named srv) ops s)
    as [[_ _ Hca] Hall].
  - intros n t h p. split; cbn; [intros ? ?|intros ? ?]; by rewrite !lookup_empty.
  - split; [done..|]. intros i c. by rewrite Hc, lookup_empty.
  - intros op s' Hready Hs'. by apply py_named_run.
  - split; [exact Hca|exact Hall].
Qed.
End properties.

(** ** Witnesses *)

Section witnesses.
#[local] Instance native_platform : Platform := little_endian.

(** Two clients connect, through peers 40 and 41; the first resolves "t"
    over peer 50 and subscribes; a fanout arrives; both are let go. *)
Definition sample_native (initialize : Z) : Native :=
  MkNative
    (MkNetState (MkWorld initialize (λ _, Some 1%Z) [Some 3%Z; Some 4%Z; Some 5%Z]
       [Some 40%Z; Some 41%Z; Some 50%Z]
       [(1%Z, EVENT_CONNECT 40); (1%Z, EVENT_CONNECT 41); (1%Z, EVENT_CONNECT 50);
        (1%Z, EVENT_RECEIVE 50 (MkPacket 7
           (packet (Origin_value Origin_server) (Topic_response 5 "t"))));
        (1%Z, EVENT_DISCONNECT 50);
        (1%Z, EVENT_RECEIVE 40 (MkPacket 8
           (packet (Origin_value Origin_server) (Fanout 5 [x68]))))]
       ∅ (λ _, None) 0 []) ∅) false ∅.

Definition sample_program : list py_op :=
  [PyClient 1 "localhost" 6767; PyClient 2 "localhost" 6767; PySubscribe 1 "t"; PyPoll 1;
   PyGetTopicKey 1 "t"; PyPoll 3; PyDel 2].

(** The results; the call on an object that does not exist is not made. *)
Example sample_session :
  map snd (fst (py_session sample_program (sample_native 0))) =
    [Ok PyNone; Ok PyNone; Ok PyNone; Ok (PyMessage (MkFanoutMessage 5 "t" [x68]));
     Ok (PyInt 5); Ok PyNone].
Proof. vm_compute. reflexivity. Qed.

Lemma sample_native_free i : free (py_net (sample_native i)).
Proof. done. Qed.

(** Python objects: text, integers, bytes, and others. *)
Inductive sample_object : Type := Text (t : string) | Int (z : Z) | Bytes (d : list byte) | Other.

#[local] Instance sample_loads : Loads sample_object := {|
  load_string := λ o, match o with
    | Text t => Some t | Bytes d => Some (string_of_bytes d) | _ => None end;
  load_int := λ o, match o with Int z => Some z | _ => None end;
  load_bytes := λ o, match o with Bytes d => Some d | _ => None end;
|}.

Definition sample_calls : list (py_call sample_object) :=
  [CallClient 1 (Text "localhost") (Int 70000); CallClient 1 (Text "localhost") (Int 6767);
   CallPublish 1 (Text "t") (Text "h"); CallPoll 2; CallGetTopicKey 1 Other].

(** The port, the payload and the topic do not convert. *)
Lemma python_results_typed_witness :
  Forall (λ r, call_typed r.1 r.2 ∧ (r.2 = Throw argument_error ↔ arguments_ok r.1 = false))
    (fst (py_program sample_calls (sample_native 0))) ∧
  map snd (fst (py_program sample_calls (sample_native 0))) =
    [Throw argument_error; Ok PyNone; Throw argument_error; Throw argument_error] ∧
  snd (py_program sample_calls (sample_native 0)) =
    snd (py_program [CallClient 1 (Text "localhost") (Int 6767); CallPoll 2] (sample_native 0)).
Proof.
  destruct (python_results_typed sample_calls (sample_native 0)) as [Hall Heq];
    [apply sample_native_free|reflexivity|].
  split; [exact Hall|]. split; [vm_compute; reflexivity|exact Heq].
Defined.

Lemma networking_initialised_once_witness :
  (init_calls (n_world (py_net (snd (py_session sample_program (sample_native 0))))) =
    [Enet_initialize; Atexit_enet_deinitialize]) ∧
  (init_calls (n_world (py_net (snd (py_session sample_program (sample_native 1))))) =
    [Enet_initialize; Enet_initialize]).
Proof.
  split.
  - exact (proj1 (networking_initialised_once sample_program (sample_native 0) eq_refl eq_refl)).
  - exact (proj1 (networking_initialised_once sample_program (sample_native 1) eq_refl eq_refl)).
Defined.

Lemma python_clients_agree_witness :
  Forall (λ r, py_named {["t" := 5%Z]} r.1 r.2)
    (fst (py_session sample_program (sample_native 0))).
Proof.
  refine (proj2 (python_clients_agree {["t" := 5%Z]} sample_program (sample_native 0) _ _ _ _)).
  - intros n n' k [<- _]%lookup_singleton_Some [<- _]%lookup_singleton_Some. done.
  - apply sample_native_free.
  - reflexivity.
  - intros r peer p n k Hin Hd. cbn in Hin. rewrite !elem_of_cons, elem_of_nil in Hin.
    destruct Hin as [[=]|[[=]|[[=]|[[= -> -> ->]|[[=]|[[= -> -> ->]|[]]]]]]];
      vm_compute in Hd; [injection Hd as <- <-; reflexivity|discriminate].
Defined.
End witnesses.
