(* ===== verification/AsyncClient.v ===== *)
(** * Python asyncio client (python/src/spraybus/async_client.py)

    The class [AsyncClient]: an event loop and a worker thread that owns the
    native client, as one transition system.  A step is taken by the loop (a
    call of a coroutine up to its next [await], or a callback scheduled by
    [call_soon_threadsafe], in the order they were scheduled) or by the worker
    (from one access to shared state to the next), in any interleaving.  The
    native client is an interface, [NativeClient].

    Futures, queues and callbacks are asyncio's and the standard library's.
    The event loop stays open, and two tasks do not close the same client at
    the same time.  An exception that the native client raised has a traceback
    whose frames refer to the client: [client = None] destroys a client that
    raised nothing, and one that did lives on until Python lets go of the
    exceptions, at some later step or never.  A topic is text that has a UTF-8
    encoding.  [_require_loop] and [_require_messages]
    are called only where [connect] has set what they return, and the worker's
    [else] branch for other command names is never taken: both are left out. *)

From Stdlib.Strings Require Import Byte.
From stdpp Require Import base gmap list strings.
From S2P Require Import Prelude Protocol World NetClient BusClient Bindings.

(** ** The native client *)

(** What a command asks of it: the names and arguments of [_Command], but for
    "close". *)
Inductive request : Type :=
  | ReqPublish (topic : string) (payload : list byte)
  | ReqSubscribe (topic : string)
  | ReqGetTopicKey (topic : string).

(** The operations of [_native.Client], on the object of the given identity in
    a state [C] of the process, and the
    attribute [topic] of a [_native.Message], which raises when the name is
    not text.  Text is represented by its UTF-8 characters. *)
Class NativeClient (C : Type) : Type := {
  native_open : nat → string → Z → M C unit;
  native_run : nat → request → M C py_value;
  native_poll : nat → M C (option FanoutMessage);
  native_drop : nat → M C unit;
  native_topic : FanoutMessage → string + exn;
}.

(** What the asyncio client relies on, with the set of the objects alive: the
    identity of a new object is free, the methods of an object alive return or
    raise, and so does its destruction, after which it is gone. *)
Class NativeLaws (C : Type) `{!NativeClient C} : Type := {
  native_ok : gset nat → C → Prop;
  native_open_ok i host port alive c : native_ok alive c → i ∉ alive →
    match native_open i host port c with
    | (Ok _, c') => native_ok ({[i]} ∪ alive) c'
    | (Throw _, c') => native_ok alive c'
    | _ => False
    end;
  native_run_ok i r alive c : native_ok alive c → i ∈ alive →
    match native_run i r c with
    | (Ok _, c') | (Throw _, c') => native_ok alive c'
    | _ => False
    end;
  native_poll_ok i alive c : native_ok alive c → i ∈ alive →
    match native_poll i c with
    | (Ok _, c') | (Throw _, c') => native_ok alive c'
    | _ => False
    end;
  native_drop_ok i alive c : native_ok alive c → i ∈ alive →
    match native_drop i c with
    | (Ok _, c') => native_ok (alive ∖ {[i]}) c'
    | _ => False
    end;
}.

(** pybind11's conversion of a [std::string] to text. *)
Class StrCast : Type := str_cast : string → string + exn.

(** The extension module. *)
Section bindings.
Context {plat : Platform} {cast : StrCast}.

#[export] Instance native_bindings : NativeClient Native := {|
  native_open := Client_init;
  native_run := λ i r, match r with
    | ReqPublish t d => py_run (PyPublish i t d)
    | ReqSubscribe t => py_run (PySubscribe i t)
    | ReqGetTopicKey t => py_run (PyGetTopicKey i t)
    end;
  native_poll := Client_poll;
  native_drop := Client_dealloc;
  native_topic := Message_topic str_cast;
|}.
End bindings.

(** ** Data *)

Inductive command : Type :=
  | CmdClose
  | CmdRequest (r : request).

(** [_Command]; the futures are numbered. *)
Record Command : Type := MkCommand { cmd_name : command; cmd_future : nat }.

(** [Message | _WorkerError]. *)
Inductive item : Type :=
  | ItemMessage (m : FanoutMessage)
  | ItemError (e : exn).

Inductive future_state : Type :=
  | Pending
  | Result (v : py_value)
  | Exception (e : exn)
  | Cancelled.

(** What was given to [call_soon_threadsafe]: [complete], [publish], and
    [messages.put_nowait], with the future or the queue they captured. *)
Inductive callback : Type :=
  | CbComplete (f : nat) (r : py_value + exn)
  | CbPublish (q : nat) (e : exn)
  | CbPut (q : nat) (m : FanoutMessage).

(** Where the worker is in [_run]; [client] tells whether its local variable
    holds a native client. *)
Inductive worker_state : Type :=
  | NotRunning
  | Starting
  | Connected
  | Waiting
  | Handling (c : Command)
  | Polling
  | Failing (client : bool) (e : exn)
  | Publishing (client : bool) (e : exn)
  | Draining (client : bool) (e : exn)
  | Ending (client : bool).

(** Where the coroutine [close] is. *)
Inductive close_state : Type :=
  | NotClosing
  | SeenAlive
  | Awaiting (f : nat)
  | Joining.

(** The object and the state around it.  [connect] makes a queue of messages
    and a thread each time; they are numbered by [generation], which is also
    the identity of the native client of the thread.  The two last fields are
    Python's: whether that client has raised, and the clients that threads have
    let go of but tracebacks keep alive. *)
Record AsyncClient (C : Type) : Type := MkAsync {
  a_native : C;
  a_commands : list Command;
  a_callbacks : list callback;
  a_queues : gmap nat (list item);
  a_futures : gmap nat future_state;
  a_fresh : nat;
  a_generation : nat;
  a_thread : bool;                 (* _thread is not None *)
  a_started : option nat;
  a_worker : worker_state;
  a_worker_error : option exn;
  a_closed : bool;
  a_closing : close_state;
  a_receivers : list nat;          (* the queues that calls of recv wait on *)
  a_raised : bool;
  a_kept : gset nat;
}.
Arguments MkAsync {C}.
Arguments a_native {C}. Arguments a_commands {C}. Arguments a_callbacks {C}.
Arguments a_queues {C}. Arguments a_futures {C}. Arguments a_fresh {C}.
Arguments a_generation {C}. Arguments a_thread {C}. Arguments a_started {C}.
Arguments a_worker {C}. Arguments a_worker_error {C}. Arguments a_closed {C}.
Arguments a_closing {C}. Arguments a_receivers {C}. Arguments a_raised {C}.
Arguments a_kept {C}.

(** What happens in a step, for the theorems. *)
Inductive event : Type :=
  | EvIssued (c : Command)                   (* a command is queued *)
  | EvDone (c : Command) (r : py_value + exn) (* the worker has its outcome *)
  | EvPolled (q : nat) (m : FanoutMessage)   (* the worker polled a message *)
  | EvReceived (q : nat) (m : FanoutMessage) (* recv returned it *)
  | EvRaised (e : exn).                      (* a call raised *)

(** [Payload]: Python's text, [bytes], or another buffer of bytes. *)
Inductive Payload (Str : Type) : Type :=
  | PayloadStr (text : Str)
  | PayloadBytes (data : list byte)
  | PayloadBuffer (data : list byte).
Arguments PayloadStr {Str} text.
Arguments PayloadBytes {Str} data.
Arguments PayloadBuffer {Str} data.

(** [_payload_bytes]; [str.encode] is Python's. *)
Definition payload_data {Str} (encode : Str → string → list byte + exn)
    (payload : Payload Str) (encoding : string) : list byte + exn :=
  match payload with
  | PayloadStr text => encode text encoding
  | PayloadBytes data => inl data
  | PayloadBuffer data => inl data
  end.

(** [Message.text]; [bytes.decode] is Python's. *)
Definition Message_text {Str} (decode : list byte → string → string → Str + exn)
    (m : FanoutMessage) (encoding errors : option string) : Str + exn :=
  decode (payload m) (default "utf-8" encoding) (default "strict" errors).

Section client.
Context {C : Type} `{!NativeClient C} (host : string) (port : Z).
Implicit Types (s : AsyncClient C).

(** [__init__]. *)
Definition AsyncClient_init (c : C) : AsyncClient C :=
  MkAsync c [] [] ∅ ∅ 0 0 false None NotRunning None false NotClosing [] false ∅.

(** *** Updates *)

Definition set_native (x : C) s : AsyncClient C :=
  MkAsync x (a_commands s) (a_callbacks s) (a_queues s) (a_futures s) (a_fresh s)
    (a_generation s) (a_thread s) (a_started s) (a_worker s) (a_worker_error s) (a_closed s)
    (a_closing s) (a_receivers s) (a_raised s) (a_kept s).
Definition set_commands (x : list Command) s : AsyncClient C :=
  MkAsync (a_native s) x (a_callbacks s) (a_queues s) (a_futures s) (a_fresh s)
    (a_generation s) (a_thread s) (a_started s) (a_worker s) (a_worker_error s) (a_closed s)
    (a_closing s) (a_receivers s) (a_raised s) (a_kept s).
Definition set_callbacks (x : list callback) s : AsyncClient C :=
  MkAsync (a_native s) (a_commands s) x (a_queues s) (a_futures s) (a_fresh s)
    (a_generation s) (a_thread s) (a_started s) (a_worker s) (a_worker_error s) (a_closed s)
    (a_closing s) (a_receivers s) (a_raised s) (a_kept s).
Definition set_queues (x : gmap nat (list item)) s : AsyncClient C :=
  MkAsync (a_native s) (a_commands s) (a_callbacks s) x (a_futures s) (a_fresh s)
    (a_generation s) (a_thread s) (a_started s) (a_worker s) (a_worker_error s) (a_closed s)
    (a_closing s) (a_receivers s) (a_raised s) (a_kept s).
Definition set_futures (x : gmap nat future_state) s : AsyncClient C :=
  MkAsync (a_native s) (a_commands s) (a_callbacks s) (a_queues s) x (a_fresh s)
    (a_generation s) (a_thread s) (a_started s) (a_worker s) (a_worker_error s) (a_closed s)
    (a_closing s) (a_receivers s) (a_raised s) (a_kept s).
Definition set_worker (x : worker_state) s : AsyncClient C :=
  MkAsync (a_native s) (a_commands s) (a_callbacks s) (a_queues s) (a_futures s) (a_fresh s)
    (a_generation s) (a_thread s) (a_started s) x (a_worker_error s) (a_closed s)
    (a_closing s) (a_receivers s) (a_raised s) (a_kept s).
Definition set_worker_error (x : option exn) s : AsyncClient C :=
  MkAsync (a_native s) (a_commands s) (a_callbacks s) (a_queues s) (a_futures s) (a_fresh s)
    (a_generation s) (a_thread s) (a_started s) (a_worker s) x (a_closed s)
    (a_closing s) (a_receivers s) (a_raised s) (a_kept s).
Definition set_closing (x : close_state) s : AsyncClient C :=
  MkAsync (a_native s) (a_commands s) (a_callbacks s) (a_queues s) (a_futures s) (a_fresh s)
    (a_generation s) (a_thread s) (a_started s) (a_worker s) (a_worker_error s) (a_closed s)
    x (a_receivers s) (a_raised s) (a_kept s).
Definition set_receivers (x : list nat) s : AsyncClient C :=
  MkAsync (a_native s) (a_commands s) (a_callbacks s) (a_queues s) (a_futures s) (a_fresh s)
    (a_generation s) (a_thread s) (a_started s) (a_worker s) (a_worker_error s) (a_closed s)
    (a_closing s) x (a_raised s) (a_kept s).
Definition set_raised (x : bool) s : AsyncClient C :=
  MkAsync (a_native s) (a_commands s) (a_callbacks s) (a_queues s) (a_futures s) (a_fresh s)
    (a_generation s) (a_thread s) (a_started s) (a_worker s) (a_worker_error s) (a_closed s)
    (a_closing s) (a_receivers s) x (a_kept s).
Definition set_kept (x : gset nat) s : AsyncClient C :=
  MkAsync (a_native s) (a_commands s) (a_callbacks s) (a_queues s) (a_futures s) (a_fresh s)
    (a_generation s) (a_thread s) (a_started s) (a_worker s) (a_worker_error s) (a_closed s)
    (a_closing s) (a_receivers s) (a_raised s) x.

(** [self._thread = None; self._closed = True]. *)
Definition set_thread_gone s : AsyncClient C :=
  MkAsync (a_native s) (a_commands s) (a_callbacks s) (a_queues s) (a_futures s) (a_fresh s)
    (a_generation s) false (a_started s) (a_worker s) (a_worker_error s) true
    NotClosing (a_receivers s) (a_raised s) (a_kept s).

(** [loop.create_future()]: its number is [a_fresh s] before the call. *)
Definition create_future s : AsyncClient C :=
  MkAsync (a_native s) (a_commands s) (a_callbacks s) (a_queues s)
    (<[a_fresh s := Pending]> (a_futures s)) (S (a_fresh s))
    (a_generation s) (a_thread s) (a_started s) (a_worker s) (a_worker_error s) (a_closed s)
    (a_closing s) (a_receivers s) (a_raised s) (a_kept s).

(** [loop.call_soon_threadsafe(...)]. *)
Definition call_soon (cb : callback) s : AsyncClient C :=
  set_callbacks (a_callbacks s ++ [cb]) s.

(** [self._commands.put(_Command(...))] with a new future. *)
Definition put_command (name : command) s : AsyncClient C :=
  set_commands (a_commands s ++ [MkCommand name (a_fresh s)]) (create_future s).

(** ** The loop's side *)

(** [_ensure_running]: what it raises. *)
Definition ensure_running s : option exn :=
  if a_closed s then Some (runtime_error "spraybus client is closed")
  else match a_worker_error s with
       | Some e => Some e
       | None => if a_thread s then None
                 else Some (runtime_error "spraybus client is not connected")
       end.

(** [connect], up to the await of [_started]. *)
Definition connect s : AsyncClient C :=
  if a_thread s then s else
    let q := S (a_generation s) in
    let f := a_fresh s in
    MkAsync (a_native s) (a_commands s) (a_callbacks s) (<[q := []]> (a_queues s))
      (<[f := Pending]> (a_futures s)) (S f) q true (Some f) Starting None false
      (a_closing s) (a_receivers s) false (a_kept s).

(** [close], up to [put] when it has seen the thread alive. *)
Definition close s : AsyncClient C :=
  if negb (a_thread s) then
    MkAsync (a_native s) (a_commands s) (a_callbacks s) (a_queues s) (a_futures s) (a_fresh s)
      (a_generation s) (a_thread s) (a_started s) (a_worker s) (a_worker_error s) true
      (a_closing s) (a_receivers s) (a_raised s) (a_kept s)
  else match a_worker s with
       | NotRunning => set_thread_gone s
       | _ => set_closing SeenAlive s
       end.

(** [close], from there to the await of the future. *)
Definition close_put s : AsyncClient C :=
  set_closing (Awaiting (a_fresh s)) (put_command CmdClose s).

(** [close], once what it awaits is there: the future, then the thread. *)
Definition close_resume s : option (AsyncClient C * list event) :=
  match a_closing s with
  | Awaiting f =>
      match a_futures s !! f with
      | Some (Result _) => Some (set_closing Joining s, [])
      | Some (Exception e) => Some (set_closing NotClosing s, [EvRaised e])
      | Some Cancelled => Some (set_closing NotClosing s, [])
      | _ => None
      end
  | Joining =>
      match a_worker s with
      | NotRunning => Some (set_thread_gone s, [])
      | _ => None
      end
  | _ => None
  end.

(** [__aenter__] and [__aexit__]; the exception that leaves the block is not
    looked at. *)
Definition aenter s : AsyncClient C := connect s.
Definition aexit s : AsyncClient C := close s.

(** [_call], up to the await of the future. *)
Definition call (r : request) s : AsyncClient C * list event :=
  match ensure_running s with
  | Some e => (s, [EvRaised e])
  | None => (put_command (CmdRequest r) s, [EvIssued (MkCommand (CmdRequest r) (a_fresh s))])
  end.

Definition subscribe (topic : string) s : AsyncClient C * list event :=
  call (ReqSubscribe topic) s.
Definition get_topic_key (topic : string) s : AsyncClient C * list event :=
  call (ReqGetTopicKey topic) s.

(** [publish]: a payload that cannot be encoded is refused before the call. *)
Definition publish {Str} (encode : Str → string → list byte + exn)
    (topic : string) (payload : Payload Str) (encoding : string) s : AsyncClient C * list event :=
  match payload_data encode payload encoding with
  | inl data => call (ReqPublish topic data) s
  | inr e => (s, [EvRaised e])
  end.

(** [recv], up to the await of an item. *)
Definition recv s : AsyncClient C * list event :=
  match ensure_running s with
  | Some e => (s, [EvRaised e])
  | None => (set_receivers (a_receivers s ++ [a_generation s]) s, [])
  end.

(** [recv], the [i]-th of those that wait, when its queue has an item. *)
Definition recv_resume (i : nat) s : option (AsyncClient C * list event) :=
  match a_receivers s !! i with
  | Some q =>
      match a_queues s !! q with
      | Some (ItemMessage m :: rest) =>
          Some (set_receivers (delete i (a_receivers s)) (set_queues (<[q := rest]> (a_queues s)) s),
                [EvReceived q m])
      | Some (ItemError e :: rest) =>
          Some (set_receivers (delete i (a_receivers s))
                  (set_queues (<[q := rest ++ [ItemError e]]> (a_queues s)) s),
                [EvRaised e])
      | _ => None
      end
  | None => None
  end.

(** A round of the loop of [messages]; the item it yields is that of [recv]. *)
Definition messages s : AsyncClient C * list event := recv s.

(** A task that awaits the future [f] is cancelled. *)
Definition cancel (f : nat) s : option (AsyncClient C) :=
  match a_futures s !! f with
  | Some Pending => Some (set_futures (<[f := Cancelled]> (a_futures s)) s)
  | _ => None
  end.

(** The [i]-th task that awaits an item is cancelled. *)
Definition cancel_recv (i : nat) s : option (AsyncClient C) :=
  match a_receivers s !! i with
  | Some _ => Some (set_receivers (delete i (a_receivers s)) s)
  | None => None
  end.

(** The task that closes is cancelled while it awaits the end of the thread. *)
Definition cancel_join s : option (AsyncClient C) :=
  match a_closing s with
  | Joining => Some (set_closing NotClosing s)
  | _ => None
  end.

(** [messages.put_nowait(x)] on queue [q]. *)
Definition put_item (q : nat) (x : item) s : AsyncClient C :=
  set_queues (<[q := default [] (a_queues s !! q) ++ [x]]> (a_queues s)) s.

Definition settled (r : py_value + exn) : future_state :=
  match r with inl v => Result v | inr e => Exception e end.

(** The loop runs a callback. *)
Definition run_callback (cb : callback) s : AsyncClient C :=
  match cb with
  | CbComplete f r =>
      match a_futures s !! f with
      | Some Pending => set_futures (<[f := settled r]> (a_futures s)) s
      | _ => s
      end
  | CbPublish q e => put_item q (ItemError e) (set_worker_error (Some e) s)
  | CbPut q m => put_item q (ItemMessage m) s
  end.

(** ** The worker's side *)

(** [_complete] on the future of a command. *)
Definition complete (c : Command) (r : py_value + exn) s : AsyncClient C * list event :=
  (call_soon (CbComplete (cmd_future c) r) s, [EvDone c r]).

(** [_complete] on [_started]. *)
Definition complete_started (r : py_value + exn) s : AsyncClient C :=
  match a_started s with
  | Some f => call_soon (CbComplete f r) s
  | None => s
  end.

(** [Message(topic_key=..., topic=..., payload=...)]. *)
Definition message_of_native (m : FanoutMessage) : FanoutMessage + exn :=
  match native_topic m with
  | inl topic => inl (MkFanoutMessage (Message_topic_key m) topic (payload_bytes m))
  | inr e => inr e
  end.

(** The command that [_next_command] and [_handle_command] deal with; after
    "close" the loop of [_run] is left. *)
Definition handle_command (c : Command) s : option (AsyncClient C * list event) :=
  match cmd_name c with
  | CmdClose => let r := complete c (inl PyNone) s in Some (set_worker (Ending true) (fst r), snd r)
  | CmdRequest q =>
      match native_run (a_generation s) q (a_native s) with
      | (Ok v, n) =>
          let r := complete c (inl v) (set_native n s) in Some (set_worker Polling (fst r), snd r)
      | (Throw e, n) =>
          let r := complete c (inr e) (set_raised true (set_native n s)) in
          Some (set_worker Polling (fst r), snd r)
      | _ => None
      end
  end.

(** One round of [_poll_messages]. *)
Definition poll_messages s : option (AsyncClient C * list event) :=
  match native_poll (a_generation s) (a_native s) with
  | (Ok None, n) => Some (set_worker Waiting (set_native n s), [])
  | (Ok (Some m), n) =>
      match message_of_native m with
      | inl m =>
          Some (call_soon (CbPut (a_generation s) m) (set_native n s), [EvPolled (a_generation s) m])
      | inr e => Some (set_worker (Failing true e) (set_raised true (set_native n s)), [])
      end
  | (Throw e, n) => Some (set_worker (Failing true e) (set_raised true (set_native n s)), [])
  | _ => None
  end.

(** [client = None]: the native client goes with its last reference, unless
    tracebacks have others. *)
Definition forget_client s : option (AsyncClient C * list event) :=
  if a_raised s then Some (set_worker (Ending false) (set_kept ({[a_generation s]} ∪ a_kept s) s), [])
  else match native_drop (a_generation s) (a_native s) with
       | (Ok _, n) => Some (set_worker (Ending false) (set_native n s), [])
       | _ => None
       end.

(** The exceptions whose tracebacks keep the client [q] are gone. *)
Definition release (q : nat) s : option (AsyncClient C) :=
  if decide (q ∈ a_kept s) then
    match native_drop q (a_native s) with
    | (Ok _, n) => Some (set_kept (a_kept s ∖ {[q]}) (set_native n s))
    | _ => None
    end
  else None.

(** A step of [_run]. *)
Definition worker_step s : option (AsyncClient C * list event) :=
  match a_worker s with
  | NotRunning => None
  | Starting =>
      match native_open (a_generation s) host port (a_native s) with
      | (Ok _, n) => Some (set_worker Connected (set_native n s), [])
      | (Throw e, n) => Some (set_worker (Failing false e) (set_native n s), [])
      | _ => None
      end
  | Connected => Some (set_worker Waiting (complete_started (inl PyNone) s), [])
  | Waiting =>
      match a_commands s with
      | [] => Some (set_worker Polling s, [])
      | c :: rest => Some (set_worker (Handling c) (set_commands rest s), [])
      end
  | Handling c => handle_command c s
  | Polling => poll_messages s
  | Failing client e => Some (set_worker (Publishing client e) (complete_started (inr e) s), [])
  | Publishing client e =>
      Some (set_worker (Draining client e) (call_soon (CbPublish (a_generation s) e) s), [])
  | Draining client e =>
      match a_commands s with
      | [] => Some (set_worker (Ending client) s, [])
      | c :: rest => Some (complete c (inr e) (set_commands rest s))
      end
  | Ending true => forget_client s
  | Ending false => Some (set_worker NotRunning s, [])
  end.

(** ** Steps *)

Inductive label : Type :=
  | LConnect
  | LClose
  | LClosePut
  | LCloseResume
  | LCall (r : request)
  | LRecv
  | LRecvResume (i : nat)
  | LCancel (f : nat)
  | LCancelRecv (i : nat)
  | LCancelJoin
  | LCallback
  | LWorker
  | LRelease (q : nat).

(** The steps of the loop, and [release], which any thread can cause.  The
    loop runs other code only at an [await]: not while [close] is between
    [is_alive] and [put]. *)
Definition loop_free s : bool :=
  match a_closing s with SeenAlive => false | _ => true end.

Definition loop_step (l : label) s : option (AsyncClient C * list event) :=
  match l with
  | LConnect => Some (connect s, [])
  | LClose => match a_closing s with NotClosing => Some (close s, []) | _ => None end
  | LCloseResume => close_resume s
  | LCall r => Some (call r s)
  | LRecv => Some (recv s)
  | LRecvResume i => recv_resume i s
  | LCancel f => match cancel f s with Some s' => Some (s', []) | None => None end
  | LCancelRecv i => match cancel_recv i s with Some s' => Some (s', []) | None => None end
  | LCancelJoin => match cancel_join s with Some s' => Some (s', []) | None => None end
  | LCallback =>
      match a_callbacks s with
      | [] => None
      | cb :: rest => Some (run_callback cb (set_callbacks rest s), [])
      end
  | LRelease q => match release q s with Some s' => Some (s', []) | None => None end
  | LClosePut | LWorker => None
  end.

Definition step (l : label) s : option (AsyncClient C * list event) :=
  match l with
  | LWorker => worker_step s
  | LClosePut =>
      match a_closing s with
      | SeenAlive => Some (close_put s, [EvIssued (MkCommand CmdClose (a_fresh s))])
      | _ => None
      end
  | LRelease _ => loop_step l s
  | _ => if loop_free s then loop_step l s else None
  end.

(** A run: its steps, in order, with what happens in them. *)
Fixpoint run_steps_of (ls : list label) s : option (AsyncClient C * list event) :=
  match ls with
  | [] => Some (s, [])
  | l :: rest =>
      match step l s with
      | Some (s1, evs) =>
          match run_steps_of rest s1 with
          | Some (s2, evs2) => Some (s2, evs ++ evs2)
          | None => None
          end
      | None => None
      end
  end.
End client.

(** The cases of a step of the loop, but for callbacks, and of the worker. *)
Ltac loop_cases H :=
  unfold connect, close, close_resume, call, recv, recv_resume, cancel, cancel_recv,
    cancel_join, release in H;
  repeat (case_match || simplify_eq).

Ltac worker_cases H :=
  unfold worker_step, complete_started, handle_command, poll_messages, complete, forget_client in H;
  repeat (case_match || simplify_eq).

(** ** What the events of a run show *)

Definition issued (evs : list event) : list nat :=
  omap (λ e, match e with EvIssued c => Some (cmd_future c) | _ => None end) evs.
Definition dones (evs : list event) : list (nat * (py_value + exn)) :=
  omap (λ e, match e with EvDone c r => Some (cmd_future c, r) | _ => None end) evs.
Definition polled (q : nat) (evs : list event) : list FanoutMessage :=
  omap (λ e, match e with
             | EvPolled p m => if decide (p = q) then Some m else None
             | _ => None
             end) evs.
Definition received_from (q : nat) (evs : list event) : list FanoutMessage :=
  omap (λ e, match e with
             | EvReceived p m => if decide (p = q) then Some m else None
             | _ => None
             end) evs.

(** The messages in a queue, and those on their way to queue [q]. *)
Definition queue_messages (l : list item) : list FanoutMessage :=
  omap (λ x, match x with ItemMessage m => Some m | ItemError _ => None end) l.
Definition coming (q : nat) (cbs : list callback) : list FanoutMessage :=
  omap (λ cb, match cb with
              | CbPut p m => if decide (p = q) then Some m else None
              | _ => None
              end) cbs.

(** The future of the command that the worker holds. *)
Definition hand (w : worker_state) : list nat :=
  match w with Handling c => [cmd_future c] | _ => [] end.

Lemma issued_app l k : issued (l ++ k) = issued l ++ issued k.
Proof. apply omap_app. Qed.
Lemma dones_app l k : dones (l ++ k) = dones l ++ dones k.
Proof. apply omap_app. Qed.
Lemma polled_app q l k : polled q (l ++ k) = polled q l ++ polled q k.
Proof. apply omap_app. Qed.
Lemma received_from_app q l k : received_from q (l ++ k) = received_from q l ++ received_from q k.
Proof. apply omap_app. Qed.
Lemma queue_messages_app l k : queue_messages (l ++ k) = queue_messages l ++ queue_messages k.
Proof. apply omap_app. Qed.
Lemma coming_app q l k : coming q (l ++ k) = coming q l ++ coming q k.
Proof. apply omap_app. Qed.

(** A list whose first components are distinct is a function. *)
Lemma NoDup_fst_eq {A B} (l : list (A * B)) a b b' :
  NoDup l.*1 → (a, b) ∈ l → (a, b') ∈ l → b = b'.
Proof.
  induction l as [|[x y] l IH]; cbn; [by intros _ ?%elem_of_nil|].
  intros [Hx Hl]%NoDup_cons. rewrite !elem_of_cons.
  intros [E1|H1] [E2|H2]; [congruence|..|by apply IH].
  all: exfalso; apply Hx, list_elem_of_fmap; simplify_eq; by eexists (_, _).
Qed.

Section runs.
Context {C : Type} `{!NativeClient C} (host : string) (port : Z).
Implicit Types (s : AsyncClient C) (evs : list event).
Abbreviation step := (step host port).
Abbreviation run_steps_of := (run_steps_of host port).

(** The public coroutines are calls: a step with the request, or an exception
    that leaves the client as it was. *)
Lemma publish_step {Str} (encode : Str → string → list byte + exn) topic payload encoding s :
  loop_free s = true →
  match payload_data encode payload encoding with
  | inl data => step (LCall (ReqPublish topic data)) s = Some (publish encode topic payload encoding s)
  | inr e => publish encode topic payload encoding s = (s, [EvRaised e])
  end.
Proof.
  intros Hf. unfold publish. destruct (payload_data _ _ _); [|done]. cbn. by rewrite Hf.
Qed.

(** A step of the loop, whatever its label. *)
Lemma step_cases l s s' evs :
  step l s = Some (s', evs) →
  (l = LWorker ∧ worker_step host port s = Some (s', evs)) ∨
  (l = LClosePut ∧ a_closing s = SeenAlive ∧ s' = close_put s ∧
    evs = [EvIssued (MkCommand CmdClose (a_fresh s))]) ∨
  loop_step l s = Some (s', evs).
Proof.
  destruct l; cbn [AsyncClient.step]; try (destruct (loop_free s); [by auto|discriminate]);
    [|by auto..]. destruct (a_closing s); try discriminate. intros [= <- <-]. by auto 10.
Qed.

(** An invariant of the steps is one of the runs. *)
Lemma run_invariant (I : AsyncClient C → list event → Prop) :
  (∀ l s s' evs e, I s evs → step l s = Some (s', e) → I s' (evs ++ e)) →
  ∀ ls s s' evs e, I s evs → run_steps_of ls s = Some (s', e) → I s' (evs ++ e).
Proof.
  intros Hstep ls. induction ls as [|l ls IH]; intros s s' evs e HI; cbn.
  - intros [= <- <-]. by rewrite app_nil_r.
  - destruct (step l s) as [[s1 e1]|] eqn:E1; [|discriminate].
    destruct (run_steps_of ls s1) as [[s2 e2]|] eqn:E2; [|discriminate].
    intros [= <- <-]. rewrite app_assoc. eapply IH; [|exact E2]. by eapply Hstep.
Qed.

(** What all steps but [connect] keep, the runs without it keep. *)
Lemma run_until_connect (P : AsyncClient C → Prop) :
  (∀ l s s' e, P s → l ≠ LConnect → step l s = Some (s', e) → P s') →
  ∀ ls s s' e, P s → LConnect ∉ ls → run_steps_of ls s = Some (s', e) → P s'.
Proof.
  intros Hstep ls. induction ls as [|l ls IH]; intros s s' e HP Hnc; cbn; [by intros [= <- _]|].
  apply not_elem_of_cons in Hnc as [Hne Hnc].
  destruct (step l s) as [[s1 e1]|] eqn:E1; [|discriminate].
  destruct (run_steps_of ls s1) as [[s2 e2]|] eqn:E2; [|discriminate]. intros [= <- _].
  eapply IH; [|done|exact E2]. by eapply Hstep.
Qed.

(** *** Messages *)

(** The queue a callback puts something in. *)
Definition callback_queue (cb : callback) : nat :=
  match cb with CbComplete _ _ => 0 | CbPublish q _ | CbPut q _ => q end.

(** The messages polled for each queue are those received from it, then those
    in it, then those on their way, in this order. *)
Record messages_inv s evs : Prop := {
  mi_queues : ∀ q, a_generation s < q → a_queues s !! q = None;
  mi_callbacks : Forall (λ cb, callback_queue cb ≤ a_generation s) (a_callbacks s);
  mi_order : ∀ q, polled q evs = received_from q evs ++
    queue_messages (default [] (a_queues s !! q)) ++ coming q (a_callbacks s);
}.

(** Steps that only schedule callbacks without messages. *)
Lemma messages_inv_quiet new s s' evs e :
  messages_inv s evs → a_generation s' = a_generation s → a_queues s' = a_queues s →
  a_callbacks s' = a_callbacks s ++ new →
  Forall (λ cb, callback_queue cb ≤ a_generation s) new → (∀ q, coming q new = []) →
  (∀ q, polled q e = []) → (∀ q, received_from q e = []) → messages_inv s' (evs ++ e).
Proof.
  intros [Hgen Hcb Hm] Eg Eq Ec Hnew Hc Hp Hr. split; rewrite ?Eg, ?Eq, ?Ec; [done| |].
  - by apply Forall_app.
  - intros q. by rewrite polled_app, received_from_app, coming_app, Hp, Hr, Hc, !app_nil_r.
Qed.

Lemma messages_inv_same s s' evs e :
  messages_inv s evs → a_generation s' = a_generation s → a_queues s' = a_queues s →
  a_callbacks s' = a_callbacks s →
  (∀ q, polled q e = []) → (∀ q, received_from q e = []) → messages_inv s' (evs ++ e).
Proof. intros H ? ? Hc. apply (messages_inv_quiet [] s); rewrite ?app_nil_r; auto. Qed.

Lemma messages_inv_soon cb s s' evs e :
  messages_inv s evs → a_generation s' = a_generation s → a_queues s' = a_queues s →
  a_callbacks s' = a_callbacks s ++ [cb] → callback_queue cb ≤ a_generation s →
  (∀ q, coming q [cb] = []) →
  (∀ q, polled q e = []) → (∀ q, received_from q e = []) → messages_inv s' (evs ++ e).
Proof. intros H ? ? Hc ?. apply (messages_inv_quiet [cb] s); auto. Qed.

Lemma put_item_messages q p x s :
  queue_messages (default [] (a_queues (put_item p x s) !! q)) =
    queue_messages (default [] (a_queues s !! q)) ++
      (if decide (p = q) then queue_messages [x] else []).
Proof.
  cbn. destruct (decide (p = q)) as [->|Hne].
  - rewrite lookup_insert_eq. apply queue_messages_app.
  - by rewrite lookup_insert_ne, app_nil_r.
Qed.

#[local] Ltac quiet :=
  first [by eapply messages_inv_same
        |eapply messages_inv_soon; [eassumption|reflexivity|reflexivity|reflexivity|cbn; lia|..];
         by intros].

Lemma complete_started_messages r w s evs :
  messages_inv s evs → messages_inv (set_worker w (complete_started r s)) (evs ++ []).
Proof. intros Hinv. unfold complete_started. destruct (a_started s); quiet. Qed.

Lemma worker_step_messages s s' evs e :
  messages_inv s evs → worker_step host port s = Some (s', e) → messages_inv s' (evs ++ e).
Proof.
  intros Hinv. unfold worker_step. destruct (a_worker s) as [| | | |c| |cl x|cl x|cl x|cl].
  - done.
  - destruct (native_open _ _ _ _) as [[] n]; intros [= <- <-]; quiet.
  - intros [= <- <-]. by apply complete_started_messages.
  - destruct (a_commands s); intros [= <- <-]; quiet.
  - unfold handle_command. destruct (cmd_name c) as [|r]; [intros [= <- <-]; quiet|].
    destruct (native_run _ _ _) as [[] n]; intros [= <- <-]; quiet.
  - unfold poll_messages. destruct (native_poll _ _) as [[[m'|]|x| |] n];
      [destruct (message_of_native m') as [m|]|..]; intros [= <- <-]; try quiet. destruct Hinv as [Hgen Hcb Hm]. split; [done| |].
    + cbn. apply Forall_app. split; [done|]. by repeat constructor.
    + intros q. cbn [call_soon set_callbacks set_native a_callbacks a_queues].
      by rewrite polled_app, received_from_app, coming_app, Hm, app_nil_r, <-!app_assoc.
  - intros [= <- <-]. by apply complete_started_messages.
  - intros [= <- <-]. quiet.
  - destruct (a_commands s); intros [= <- <-]; quiet.
  - destruct cl; [|intros [= <- <-]; quiet]. unfold forget_client.
    destruct (a_raised s); [|destruct (native_drop _ _) as [[] n]]; intros [= <- <-]; quiet.
Qed.

Lemma run_callback_messages cb rest s evs :
  a_callbacks s = cb :: rest → messages_inv s evs →
  messages_inv (run_callback cb (set_callbacks rest s)) evs.
Proof.
  intros Hcb [Hgen Hall Hm]. rewrite Hcb in Hall, Hm. apply Forall_cons in Hall as [Hq Hall].
  destruct cb as [f r|p x|p m]; cbn [run_callback callback_queue] in *.
  - cbn. by destruct (a_futures s !! f) as [[]|].
  - split; [|done|].
    + intros q Hlt. cbn in *. rewrite lookup_insert_ne by lia. by apply Hgen.
    + intros q. rewrite put_item_messages, Hm. cbn. destruct (decide (p = q)); by rewrite app_nil_r.
  - split; [|done|].
    + intros q Hlt. cbn in *. rewrite lookup_insert_ne by lia. by apply Hgen.
    + intros q. rewrite put_item_messages, Hm. cbn. destruct (decide (p = q)); cbn;
        by rewrite ?app_nil_r, <-?app_assoc.
Qed.

Lemma recv_resume_messages i s s' evs e :
  messages_inv s evs → recv_resume i s = Some (s', e) → messages_inv s' (evs ++ e).
Proof.
  intros [Hgen Hcb Hm]. unfold recv_resume. destruct (a_receivers s !! i) as [p|]; [|done].
  destruct (a_queues s !! p) as [[|[m|x] rest]|] eqn:Ep; [done| | |done]; intros [= <- <-].
  all: assert (Hle : p ≤ a_generation s)
    by (destruct (decide (p ≤ a_generation s)); [done|]; rewrite Hgen in Ep by lia; done).
  all: split; [intros q Hlt; cbn in *; rewrite lookup_insert_ne by lia; by apply Hgen|done|].
  all: intros q; rewrite polled_app, received_from_app, Hm; cbn;
    destruct (decide (p = q)) as [->|Hne];
    [rewrite lookup_insert_eq, Ep|by rewrite lookup_insert_ne, !app_nil_r].
  - cbn. by rewrite app_nil_r, <-!app_assoc.
  - cbn. by rewrite queue_messages_app, !app_nil_r.
Qed.

Lemma connect_messages s evs : messages_inv s evs → messages_inv (connect s) evs.
Proof.
  intros [Hgen Hcb Hm]. unfold connect. destruct (a_thread s); [done|]. split; cbn.
  - intros q Hlt. rewrite lookup_insert_ne by lia. apply Hgen. lia.
  - eapply Forall_impl; [exact Hcb|]. cbn. lia.
  - intros q. rewrite Hm. destruct (decide (q = S (a_generation s))) as [->|Hne].
    + rewrite lookup_insert_eq, Hgen by lia. done.
    + by rewrite lookup_insert_ne.
Qed.

Lemma step_messages l s s' evs e :
  messages_inv s evs → step l s = Some (s', e) → messages_inv s' (evs ++ e).
Proof.
  intros Hinv [[-> Hw]|[(-> & _ & -> & ->)|Hl]]%step_cases.
  - by eapply worker_step_messages.
  - quiet.
  - destruct l; cbn [loop_step] in Hl; try discriminate.
    + injection Hl as <- <-. rewrite app_nil_r. by apply connect_messages.
    + destruct (a_closing s); try discriminate. injection Hl as <- <-. unfold close.
      destruct (negb _); [quiet|]. destruct (a_worker s); quiet.
    + unfold close_resume in Hl. destruct (a_closing s) as [| |f|]; try discriminate.
      * destruct (a_futures s !! f) as [[]|]; try discriminate; injection Hl as <- <-; quiet.
      * destruct (a_worker s); try discriminate. injection Hl as <- <-. quiet.
    + unfold call in Hl. destruct (ensure_running s); injection Hl as <- <-; quiet.
    + unfold recv in Hl. destruct (ensure_running s); injection Hl as <- <-; quiet.
    + by eapply recv_resume_messages.
    + unfold cancel in Hl. destruct (a_futures s !! f) as [[]|]; try discriminate.
      injection Hl as <- <-. quiet.
    + unfold cancel_recv in Hl. destruct (a_receivers s !! i); [|done]. injection Hl as <- <-. quiet.
    + unfold cancel_join in Hl. destruct (a_closing s); try discriminate. injection Hl as <- <-. quiet.
    + destruct (a_callbacks s) as [|cb rest] eqn:Hcb; [discriminate|]. injection Hl as <- <-.
      rewrite app_nil_r. by apply run_callback_messages.
    + loop_cases Hl. quiet.
Qed.

(** *** Commands *)

(** Commands leave the queue in the order they entered it, each with one
    outcome; a future is completed only with the outcome of its command. *)
Record commands_inv s evs : Prop := {
  ci_order : issued evs =
    (dones evs).*1 ++ hand (a_worker s) ++ (cmd_future <$> a_commands s);
  ci_nodup : NoDup (issued evs);
  ci_issued : ∀ f, f ∈ issued evs → is_Some (a_futures s !! f);
  ci_fresh : ∀ f, is_Some (a_futures s !! f) → f < a_fresh s;
  ci_started : ∀ f, a_started s = Some f → is_Some (a_futures s !! f) ∧ f ∉ issued evs;
  ci_callbacks : ∀ f r, CbComplete f r ∈ a_callbacks s →
    is_Some (a_futures s !! f) ∧ (f ∈ issued evs → (f, r) ∈ dones evs);
  ci_settled : ∀ f r, a_futures s !! f = Some (settled r) → f ∈ issued evs → (f, r) ∈ dones evs;
}.

(** Steps that touch neither commands nor futures; completions of [_started]
    may be scheduled. *)
Lemma commands_inv_quiet new s s' evs e :
  commands_inv s evs →
  issued e = [] → dones e = [] → hand (a_worker s') = hand (a_worker s) →
  a_commands s' = a_commands s → a_futures s' = a_futures s → a_fresh s' = a_fresh s →
  a_started s' = a_started s → a_callbacks s' = a_callbacks s ++ new →
  (∀ f r, CbComplete f r ∈ new → a_started s = Some f) → commands_inv s' (evs ++ e).
Proof.
  intros [Ho Hn Hi Hf Hst Hcb Hs] Ei Ed Eh Ec Ef Er Et Eb Hnew.
  split; rewrite ?issued_app, ?dones_app, ?Ei, ?Ed, ?app_nil_r, ?Eh, ?Ec, ?Ef, ?Er, ?Et, ?Eb;
    try done.
  intros f r [?|Hin]%elem_of_app; [by apply Hcb|].
  apply Hnew, Hst in Hin as [? ?]. done.
Qed.

Lemma commands_inv_same s s' evs e :
  commands_inv s evs →
  issued e = [] → dones e = [] → hand (a_worker s') = hand (a_worker s) →
  a_commands s' = a_commands s → a_futures s' = a_futures s → a_fresh s' = a_fresh s →
  a_started s' = a_started s → a_callbacks s' = a_callbacks s → commands_inv s' (evs ++ e).
Proof.
  intros. eapply (commands_inv_quiet []); rewrite ?app_nil_r; try done.
  by intros f r ?%elem_of_nil.
Qed.

(** A callback without a completion is scheduled. *)
Lemma commands_inv_soon cb s s' evs e :
  commands_inv s evs → (∀ f r, cb ≠ CbComplete f r) →
  issued e = [] → dones e = [] → hand (a_worker s') = hand (a_worker s) →
  a_commands s' = a_commands s → a_futures s' = a_futures s → a_fresh s' = a_fresh s →
  a_started s' = a_started s → a_callbacks s' = a_callbacks s ++ [cb] →
  commands_inv s' (evs ++ e).
Proof.
  intros Hinv Hcb. intros. eapply (commands_inv_quiet [cb]); try done.
  by intros f r [= <-]%list_elem_of_singleton; destruct (Hcb f r).
Qed.

(** A command enters the queue, with a new future. *)
Lemma commands_inv_put name s s' evs :
  commands_inv s evs → s' = put_command name s ∨ s' = close_put s ∧ name = CmdClose →
  commands_inv s' (evs ++ [EvIssued (MkCommand name (a_fresh s))]).
Proof.
  intros [Ho Hn Hi Hf Hst Hcb Hs] Es.
  assert (Hnew : a_futures s !! a_fresh s = None).
  { destruct (a_futures s !! a_fresh s) eqn:E; [|done]. specialize (Hf (a_fresh s)).
    rewrite E in Hf. specialize (Hf ltac:(by eexists)). lia. }
  assert (Hnot : a_fresh s ∉ issued evs).
  { intros [x Hx]%Hi. congruence. }
  assert (Hkeep : ∀ f, is_Some (a_futures s !! f) →
    is_Some (<[a_fresh s := Pending]> (a_futures s) !! f)).
  { intros f Hx. destruct (decide (f = a_fresh s)) as [->|];
      [by rewrite lookup_insert_eq|by rewrite lookup_insert_ne]. }
  assert (Hshape : commands_inv (put_command name s) (evs ++ [EvIssued (MkCommand name (a_fresh s))])).
  { split; rewrite ?issued_app, ?dones_app, ?app_nil_r; cbn.
    - by rewrite Ho, fmap_app, <-!app_assoc.
    - apply NoDup_app. split_and!; [done| |apply NoDup_singleton].
      intros f Hin ->%list_elem_of_singleton. done.
    - intros f [Hin| ->%list_elem_of_singleton]%elem_of_app; [by apply Hkeep, Hi|].
      by rewrite lookup_insert_eq.
    - intros f. destruct (decide (f = a_fresh s)) as [->|]; [lia|].
      rewrite lookup_insert_ne by done. intros Hx%Hf. lia.
    - intros f [Hx Hnin]%Hst. split; [by apply Hkeep|]. rewrite not_elem_of_app. split; [done|].
      intros ->%list_elem_of_singleton. rewrite Hnew in Hx. by destruct Hx.
    - intros f r [Hx Hd]%Hcb. split; [by apply Hkeep|].
      intros [?| ->%list_elem_of_singleton]%elem_of_app; [by apply Hd|].
      rewrite Hnew in Hx. by destruct Hx.
    - intros f r [[<- Hx]|[Hne Hx]]%lookup_insert_Some; [by destruct r|].
      intros [?| ->%list_elem_of_singleton]%elem_of_app; [by apply Hs|done]. }
  destruct Es as [->|[-> ->]]; [done|]. by destruct Hshape.
Qed.

(** The worker has the outcome of the next command. *)
Lemma commands_inv_done c r s s' evs :
  commands_inv s evs →
  hand (a_worker s) ++ (cmd_future <$> a_commands s) =
    cmd_future c :: hand (a_worker s') ++ (cmd_future <$> a_commands s') →
  a_futures s' = a_futures s → a_fresh s' = a_fresh s → a_started s' = a_started s →
  a_callbacks s' = a_callbacks s ++ [CbComplete (cmd_future c) r] →
  commands_inv s' (evs ++ [EvDone c r]).
Proof.
  intros [Ho Hn Hi Hf Hst Hcb Hs] Eh Ef Er Et Eb.
  assert (Hin : cmd_future c ∈ issued evs).
  { rewrite Ho, Eh. apply elem_of_app. right. by left. }
  split; rewrite ?issued_app, ?dones_app, ?app_nil_r, ?Ef, ?Er, ?Et, ?Eb; cbn; try done.
  - by rewrite Ho, fmap_app, Eh, <-app_assoc.
  - intros f r' [[Hx Hd]%Hcb|[= -> ->]%list_elem_of_singleton]%elem_of_app.
    + split; [done|]. intros. apply elem_of_app. left. by apply Hd.
    + split; [by apply Hi|]. intros _. apply elem_of_app. right. by left.
  - intros f r' Hx Hf'. apply elem_of_app. left. by apply Hs.
Qed.

#[local] Ltac same := by eapply commands_inv_same.

Lemma complete_started_commands r w s evs :
  hand w = hand (a_worker s) → commands_inv s evs →
  commands_inv (set_worker w (complete_started r s)) (evs ++ []).
Proof.
  intros Hw Hinv. unfold complete_started. destruct (a_started s) as [f|] eqn:Ef; [|same].
  eapply (commands_inv_quiet [CbComplete f r]); [exact Hinv|try done..].
  intros f' r' [= -> ->]%list_elem_of_singleton. done.
Qed.

Lemma worker_step_commands s s' evs e :
  commands_inv s evs → worker_step host port s = Some (s', e) → commands_inv s' (evs ++ e).
Proof.
  intros Hinv. unfold worker_step.
  destruct (a_worker s) as [| | | |c| |cl x|cl x|cl x|cl] eqn:Ew.
  - done.
  - destruct (native_open _ _ _ _) as [[] n]; intros [= <- <-];
      (eapply commands_inv_same; [exact Hinv|..]; try done; by rewrite Ew).
  - intros [= <- <-]. apply complete_started_commands; [by rewrite Ew|done].
  - destruct (a_commands s) as [|c rest] eqn:Ec; intros [= <- <-].
    + eapply commands_inv_same; [exact Hinv|..]; try done; by rewrite Ew.
    + rewrite app_nil_r. destruct Hinv as [Ho ? ? ? ? ? ?]. split; try done.
      cbn. by rewrite Ho, Ew, Ec.
  - unfold handle_command. destruct (cmd_name c) as [|r].
    { intros [= <- <-]. apply (commands_inv_done c _ s); try done. by rewrite Ew. }
    destruct (native_run _ _ _) as [[] n]; intros [= <- <-];
      apply (commands_inv_done c _ s); try done; by rewrite Ew.
  - unfold poll_messages. destruct (native_poll _ _) as [[[m'|]|x| |] n];
      [destruct (message_of_native m') as [m|]|..]; intros [= <- <-];
      [eapply (commands_inv_soon (CbPut _ _)); [exact Hinv|..]; done
      |eapply commands_inv_same; [exact Hinv|..]; try done; by rewrite Ew..].
  - intros [= <- <-]. apply complete_started_commands; [by rewrite Ew|done].
  - intros [= <- <-]. eapply (commands_inv_soon (CbPublish _ _)); [exact Hinv|..]; try done.
    by rewrite Ew.
  - destruct (a_commands s) as [|c rest] eqn:Ec; intros [= <- <-].
    + eapply commands_inv_same; [exact Hinv|..]; try done; by rewrite Ew.
    + apply (commands_inv_done c _ s); try done. cbn. by rewrite Ew, Ec.
  - destruct cl; [unfold forget_client; destruct (a_raised s); [|destruct (native_drop _ _) as [[] n]]|];
      intros [= <- <-]; (eapply commands_inv_same; [exact Hinv|..]; try done; by rewrite Ew).
Qed.

(** A pending future is settled or cancelled. *)
Lemma commands_inv_settle f x s evs :
  commands_inv s evs → a_futures s !! f = Some Pending →
  (∀ r, x = settled r → f ∈ issued evs → (f, r) ∈ dones evs) →
  commands_inv (set_futures (<[f := x]> (a_futures s)) s) evs.
Proof.
  intros [Ho Hn Hi Hf Hst Hcb Hs] Hp Hx.
  assert (Hdom : ∀ g, is_Some (<[f := x]> (a_futures s) !! g) ↔ is_Some (a_futures s !! g)).
  { intros g. destruct (decide (f = g)) as [<-|];
      [rewrite lookup_insert_eq, Hp; split; by eexists|by rewrite lookup_insert_ne]. }
  split; cbn; try done.
  - intros g Hg. by apply Hdom, Hi.
  - intros g Hg%Hdom. by apply Hf.
  - intros g [? ?]%Hst. by rewrite Hdom.
  - intros g r [? ?]%Hcb. by rewrite Hdom.
  - intros g r [[<- ->]|[_ Hg]]%lookup_insert_Some; [by apply Hx|by apply Hs].
Qed.

Lemma run_callback_commands cb rest s evs :
  a_callbacks s = cb :: rest → commands_inv s evs →
  commands_inv (run_callback cb (set_callbacks rest s)) evs.
Proof.
  intros Hcb [Ho Hn Hi Hf Hst Hall Hs].
  assert (Hrest : commands_inv (set_callbacks rest s) evs).
  { split; try done. intros f r Hin. apply Hall. rewrite Hcb. by right. }
  destruct cb as [f r|q x|q m]; cbn [run_callback].
  - destruct (a_futures (set_callbacks rest s) !! f) as [[]|] eqn:Ef; try done.
    apply commands_inv_settle; [done..|]. intros r' Er Hin.
    destruct (Hall f r) as [_ Hd]; [rewrite Hcb; by left|].
    assert (r = r') as <- by (destruct r, r'; cbn in Er; congruence). by apply Hd.
  - by destruct Hrest.
  - by destruct Hrest.
Qed.

Lemma connect_commands s evs : commands_inv s evs → hand (a_worker s) = [] ∨ a_thread s = true →
  commands_inv (connect s) evs.
Proof.
  intros Hinv Hw. unfold connect. destruct (a_thread s); [done|].
  destruct Hw as [Hw|]; [|done]. destruct Hinv as [Ho Hn Hi Hf Hst Hcb Hs].
  assert (Hnone : a_futures s !! a_fresh s = None).
  { destruct (a_futures s !! a_fresh s) eqn:E; [|done]. specialize (Hf (a_fresh s)).
    rewrite E in Hf. specialize (Hf ltac:(by eexists)). lia. }
  assert (Hkeep : ∀ f, is_Some (a_futures s !! f) →
    is_Some (<[a_fresh s := Pending]> (a_futures s) !! f)).
  { intros f Hx. destruct (decide (f = a_fresh s)) as [->|];
      [by rewrite lookup_insert_eq|by rewrite lookup_insert_ne]. }
  split; cbn; try done.
  - by rewrite Ho, Hw.
  - intros f Hin. by apply Hkeep, Hi.
  - intros f. destruct (decide (f = a_fresh s)) as [->|]; [lia|].
    rewrite lookup_insert_ne by done. intros Hx%Hf. lia.
  - intros f [= <-]. rewrite lookup_insert_eq. split; [done|]. intros [x Hx]%Hi. congruence.
  - intros f r [? ?]%Hcb. split; [by apply Hkeep|done].
  - intros f r [[<- Hx]|[_ Hx]]%lookup_insert_Some; [by destruct r|by apply Hs].
Qed.

(** *** The thread *)

(** A thread that runs is the object's. *)
Definition thread_inv s : Prop := a_worker s ≠ NotRunning → a_thread s = true.

(** What the steps do to the worker and the native clients: nothing but its
    own steps, the start of a new one, and the release of a client. *)
Lemma step_thread l s s' e :
  step l s = Some (s', e) →
  l = LWorker ∧ a_thread s' = a_thread s ∧ a_worker s ≠ NotRunning ∨
  ((a_native s' = a_native s ∧ a_kept s' = a_kept s ∨ ∃ q, l = LRelease q) ∧
    (a_worker s' = a_worker s ∧ a_generation s' = a_generation s ∧
       (a_thread s' = a_thread s ∨ a_worker s = NotRunning) ∨
     l = LConnect ∧ a_thread s = false ∧ a_worker s' = Starting ∧ a_thread s' = true ∧
       a_generation s' = S (a_generation s))).
Proof.
  intros [[-> Hw]|[(-> & _ & -> & ->)|Hl]]%step_cases; [left|right; by split; auto|right].
  - split; [done|]. unfold worker_step, complete_started, handle_command,
      poll_messages, complete, forget_client in Hw.
    destruct (a_worker s); [done|..]; split; try done; repeat case_match; simplify_eq; done.
  - destruct l; cbn [loop_step] in Hl; try discriminate.
    + injection Hl as <- <-. unfold connect. destruct (a_thread s) eqn:Et; cbn; rewrite ?Et; by split; auto 10.
    + destruct (a_closing s); try discriminate. injection Hl as <- <-. unfold close.
      destruct (a_thread s) eqn:Et; cbn; [|by split; auto].
      destruct (a_worker s) eqn:Ew; cbn; rewrite ?Et, ?Ew; by split; auto 10.
    + unfold close_resume in Hl. repeat case_match; simplify_eq; cbn; by split; auto 10.
    + unfold call in Hl. destruct (ensure_running s); injection Hl as <- <-; by split; auto 10.
    + unfold recv in Hl. destruct (ensure_running s); injection Hl as <- <-; by split; auto 10.
    + unfold recv_resume in Hl. repeat case_match; simplify_eq; cbn; by split; auto 10.
    + unfold cancel in Hl. destruct (a_futures s !! f) as [[]|]; try discriminate.
      injection Hl as <- <-. cbn. by split; auto 10.
    + loop_cases Hl. by split; auto 10.
    + loop_cases Hl. by split; auto 10.
    + destruct (a_callbacks s) as [|cb rest]; [discriminate|]. injection Hl as <- <-.
      destruct cb; cbn; [|by split; auto 10..]. destruct (a_futures s !! f) as [[]|]; by split; auto 10.
    + loop_cases Hl. split; [right; by eexists|auto 10].
Qed.

Lemma step_thread_inv l s s' e : thread_inv s → step l s = Some (s', e) → thread_inv s'.
Proof.
  intros Ht [(_ & Et & Ew)|[_ [(Ew & _ & [Et|En])|(_ & _ & _ & Et & _)]]]%step_thread; intros Hw.
  - rewrite Et. by apply Ht.
  - rewrite Et. apply Ht. by rewrite <-Ew.
  - congruence.
  - done.
Qed.

Lemma step_commands l s s' evs e :
  thread_inv s → commands_inv s evs → step l s = Some (s', e) → commands_inv s' (evs ++ e).
Proof.
  intros Ht Hinv [[-> Hw]|[(-> & _ & -> & ->)|Hl]]%step_cases.
  - by eapply worker_step_commands.
  - eapply (commands_inv_put CmdClose); [done|by right].
  - destruct l; cbn [loop_step] in Hl; try discriminate.
    + injection Hl as <- <-. rewrite app_nil_r. apply connect_commands; [done|].
      destruct (a_thread s) eqn:Et; [by right|left].
      destruct (a_worker s) eqn:Ew; try done; exfalso;
        (assert (false = true); [|done]; rewrite <-Et; apply Ht; by rewrite Ew).
    + destruct (a_closing s); try discriminate. injection Hl as <- <-. unfold close.
      destruct (negb _); [same|]. destruct (a_worker s) eqn:Ew; same.
    + unfold close_resume in Hl. destruct (a_closing s) as [| |f|]; try discriminate.
      * destruct (a_futures s !! f) as [[]|]; try discriminate; injection Hl as <- <-; same.
      * destruct (a_worker s) eqn:Ew; try discriminate. injection Hl as <- <-. same.
    + unfold call in Hl. destruct (ensure_running s); injection Hl as <- <-; [same|].
      eapply commands_inv_put; [done|by left].
    + unfold recv in Hl. destruct (ensure_running s); injection Hl as <- <-; same.
    + unfold recv_resume in Hl. destruct (a_receivers s !! i) as [p|]; [|done].
      destruct (a_queues s !! p) as [[|[m|x] rest]|]; try done; injection Hl as <- <-; same.
    + unfold cancel in Hl. destruct (a_futures s !! f) as [[]|] eqn:Ef; try discriminate.
      injection Hl as <- <-. rewrite app_nil_r. apply commands_inv_settle; [done..|].
      intros r Hr. by destruct r.
    + unfold cancel_recv in Hl. destruct (a_receivers s !! i); [|done]. injection Hl as <- <-. same.
    + unfold cancel_join in Hl. destruct (a_closing s); try discriminate. injection Hl as <- <-. same.
    + destruct (a_callbacks s) as [|cb rest] eqn:Hcb; [discriminate|]. injection Hl as <- <-.
      rewrite app_nil_r. by apply run_callback_commands.
    + loop_cases Hl. same.
Qed.

(** *** All together *)

Record async_inv s evs : Prop := {
  async_messages : messages_inv s evs;
  async_commands : commands_inv s evs;
  async_thread : thread_inv s;
}.

Lemma async_inv_init c : async_inv (AsyncClient_init c) [].
Proof.
  split; [split|split|]; cbn; try done; try (by constructor).
  - by intros f ?%elem_of_nil.
  - by intros f [x Hx%lookup_empty_Some].
  - by intros f r ?%elem_of_nil.
  - by intros ?.
Qed.

Lemma step_async_inv l s s' evs e :
  async_inv s evs → step l s = Some (s', e) → async_inv s' (evs ++ e).
Proof.
  intros [Hm Hc Ht] Hstep.
  split; [by eapply step_messages|by eapply step_commands|by eapply step_thread_inv].
Qed.

Lemma run_keeps_inv ls s s' evs e :
  async_inv s evs → run_steps_of ls s = Some (s', e) → async_inv s' (evs ++ e).
Proof. apply (run_invariant async_inv). intros; by eapply step_async_inv. Qed.

(** The states and events of the runs from a new object. *)
Lemma run_async_inv c ls s evs :
  run_steps_of ls (AsyncClient_init c) = Some (s, evs) → async_inv s evs.
Proof. apply (run_keeps_inv ls (AsyncClient_init c) s []), async_inv_init. Qed.

(** A settled future stays as it is. *)
Lemma step_future l s s' e f x :
  (∀ f, is_Some (a_futures s !! f) → f < a_fresh s) → step l s = Some (s', e) →
  a_futures s !! f = Some x → x ≠ Pending → a_futures s' !! f = Some x.
Proof.
  intros Hfresh Hstep Hf Hx.
  assert (Hnew : a_fresh s ≠ f) by (specialize (Hfresh f ltac:(by eexists)); lia).
  assert (Hins : ∀ y, <[a_fresh s := y]> (a_futures s) !! f = Some x)
    by (intros y; by rewrite lookup_insert_ne).
  assert (Hpend : ∀ g y, a_futures s !! g = Some Pending →
    <[g := y]> (a_futures s) !! f = Some x).
  { intros g y Hg. rewrite lookup_insert_ne; [done|]. intros ->. congruence. }
  destruct (step_cases _ _ _ _ Hstep) as [[-> Hw]|[(-> & _ & -> & ->)|Hl]]; [|apply Hins|].
  - worker_cases Hw; done.
  - destruct l; cbn [loop_step] in Hl; try discriminate.
    10: { destruct (a_callbacks s) as [|cb rest]; [discriminate|]. injection Hl as <- <-.
         destruct cb as [g r|q y|q m]; cbn; [|done..].
         destruct (a_futures s !! g) as [[]|] eqn:Eg; cbn; try done. by apply Hpend. }
    all: loop_cases Hl; cbn; auto.
Qed.

(** So it does in the runs that follow. *)
Lemma run_future ls s evs s' e f x :
  async_inv s evs → run_steps_of ls s = Some (s', e) →
  a_futures s !! f = Some x → x ≠ Pending → a_futures s' !! f = Some x.
Proof.
  intros Hinv Hrun Hf Hx.
  set (I := λ s evs, async_inv s evs ∧ a_futures s !! f = Some x).
  assert (HI : I s' (evs ++ e)); [|apply HI].
  eapply (run_invariant I); [|by split|exact Hrun].
  intros l s1 s2 evs1 e1 [H1 Hf1] Hstep. split; [by eapply step_async_inv|].
  eapply step_future; [apply H1|done..].
Qed.

(** The error of a worker stays until [connect]. *)
Lemma step_error l s s' e :
  step l s = Some (s', e) → l ≠ LConnect → is_Some (a_worker_error s) →
  is_Some (a_worker_error s').
Proof.
  intros Hstep Hne He. destruct (step_cases _ _ _ _ Hstep) as [[-> Hw]|[(-> & _ & -> & ->)|Hl]];
    [|done|].
  - worker_cases Hw; done.
  - destruct l; cbn [loop_step] in Hl; try done.
    9: { destruct (a_callbacks s) as [|cb rest]; [discriminate|]. injection Hl as <- <-.
         destruct cb; cbn; [|by eexists|done]. by destruct (a_futures s !! f) as [[]|]. }
    all: loop_cases Hl; done.
Qed.

Lemma run_error ls s s' e :
  is_Some (a_worker_error s) → LConnect ∉ ls → run_steps_of ls s = Some (s', e) →
  is_Some (ensure_running s').
Proof.
  intros He Hnc Hrun. assert (Hs' : is_Some (a_worker_error s')).
  { eapply (run_until_connect (λ s, is_Some (a_worker_error s))); [|exact He|done|exact Hrun].
    intros l s1 s2 e1 H1 Hne Hstep. by eapply step_error. }
  unfold ensure_running. destruct (a_closed s'); [by eexists|].
  destruct Hs' as [x ->]. by eexists.
Qed.
End runs.

(** ** Properties *)

Section properties.
Context {C : Type} `{!NativeClient C} (host : string) (port : Z).
Implicit Types (s : AsyncClient C) (evs : list event).
Abbreviation run_steps_of := (run_steps_of host port).

(** C12: however the loop and the worker interleave, and whatever the native
    client does: the commands are taken in the order in which they were
    issued, each once; what a call returns is the outcome that the worker
    found for its command (or the call was cancelled), never that of another
    command or of an earlier connection; and a future that is settled stays
    as it is. *)
Theorem answers_are_outcomes c ls s evs :
  run_steps_of ls (AsyncClient_init c) = Some (s, evs) →
  NoDup (issued evs) ∧
  issued evs = (dones evs).*1 ++ hand (a_worker s) ++ (cmd_future <$> a_commands s) ∧
  ∀ f, f ∈ issued evs →
    ∃ x, a_futures s !! f = Some x ∧
      (∀ r, x = settled r → (f, r) ∈ dones evs ∧ ∀ r', (f, r') ∈ dones evs → r' = r) ∧
      (x ≠ Pending → ∀ ls' s' evs', run_steps_of ls' s = Some (s', evs') →
         a_futures s' !! f = Some x).
Proof.
  intros Hrun. pose proof (run_async_inv host port _ _ _ _ Hrun) as Hinv.
  pose proof (async_commands _ _ Hinv) as [Ho Hn Hi _ _ _ Hs].
  split_and!; [done..|]. intros f Hin. destruct (Hi f Hin) as [x Hx]. exists x.
  split_and!; [done| |].
  - intros r ->. pose proof (Hs f r Hx Hin) as Hd. split; [done|]. intros r' Hd'.
    rewrite Ho in Hn. apply NoDup_app in Hn as (Hn & _ & _). by eapply NoDup_fst_eq.
  - intros Hp ls' s' evs' Hrun'. by eapply run_future.
Qed.

(** C22: the messages that the worker polled on a connection are received in
    the order in which it polled them, none lost, doubled or moved to another
    connection: they are those that [recv] has returned, then those in the
    connection's queue, then those that callbacks still bring. *)
Theorem messages_in_order c ls s evs q :
  run_steps_of ls (AsyncClient_init c) = Some (s, evs) →
  polled q evs = received_from q evs ++
    queue_messages (default [] (a_queues s !! q)) ++ coming q (a_callbacks s).
Proof.
  intros Hrun. apply (mi_order _ _ (async_messages _ _ (run_async_inv host port _ _ _ _ Hrun))).
Qed.

(** C34: the error of a connection that is over reaches the next one: when
    the callback that publishes it is still scheduled while the client is
    closed and connected again, the new connection starts, and from then on
    every call on it raises the old error. *)
Theorem stale_error_reaches_next_connection s q e rest :
  a_worker s = NotRunning → a_thread s = true → a_closing s = NotClosing →
  a_callbacks s = CbPublish q e :: rest →
  ∃ s', run_steps_of [LClose; LConnect; LCallback] s = Some (s', []) ∧
    a_worker s' = Starting ∧ a_generation s' = S (a_generation s) ∧
    ensure_running s' = Some e ∧
    ∀ ls s'' evs, run_steps_of ls s' = Some (s'', evs) → LConnect ∉ ls →
      is_Some (ensure_running s'').
Proof.
  intros Hw Ht Hc Hcb.
  assert (Hfree : loop_free s = true) by (unfold loop_free; by rewrite Hc).
  eexists. split.
  { cbn [AsyncClient.run_steps_of AsyncClient.step loop_step].
    rewrite Hfree, Hc. unfold close. rewrite Ht, Hw. cbn. by rewrite Hcb. }
  split_and!; [done..|]. intros ls s'' evs Hrun Hnc. by eapply run_error; [|done|exact Hrun].
Qed.
End properties.

(** ** Witnesses *)

Section witnesses.
#[local] Instance async_platform : Platform := little_endian.

(** A conversion that knows ASCII. *)
Definition ascii_cast : StrCast := λ t,
  if forallb (λ b, Byte.to_N b <? 128)%N (as_bytes t) then inl t
  else inr (runtime_error "not text").
#[local] Instance async_cast : StrCast := ascii_cast.

(** The client connects, resolves "t" and subscribes; a fanout comes, which
    [recv] awaits; then [close]. *)
Definition sample_async : Native :=
  MkNative
    (MkNetState (MkWorld 0 (λ _, Some 1%Z) [Some 3%Z; Some 5%Z] [Some 40%Z; Some 50%Z]
       [(1%Z, EVENT_CONNECT 40); (1%Z, EVENT_CONNECT 50);
        (1%Z, EVENT_RECEIVE 50 (MkPacket 7
           (packet (Origin_value Origin_server) (Topic_response 5 "t"))));
        (1%Z, EVENT_DISCONNECT 50);
        (1%Z, EVENT_RECEIVE 40 (MkPacket 8
           (packet (Origin_value Origin_server) (Fanout 5 [x68]))))]
       ∅ (λ _, None) 0 []) ∅) false ∅.

Definition sample_labels : list label :=
  [LConnect; LWorker; LCall (ReqSubscribe "t"); LWorker; LCallback; LWorker; LRecv; LWorker;
   LWorker; LCallback; LCallback; LRecvResume 0; LWorker; LClose; LClosePut; LWorker].

Definition sample_message : FanoutMessage := MkFanoutMessage 5 "t" [x68].

Example sample_async_run :
  snd <$> run_steps_of "localhost" 6767 sample_labels (AsyncClient_init sample_async) =
    let subscription := MkCommand (CmdRequest (ReqSubscribe "t")) 1 in
    Some [EvIssued subscription; EvDone subscription (inl PyNone); EvPolled 1 sample_message;
          EvReceived 1 sample_message; EvIssued (MkCommand CmdClose 2)].
Proof. vm_compute. reflexivity. Qed.

(** Both commands are issued; the worker holds that of [close]. *)
Lemma answers_are_outcomes_witness :
  match run_steps_of "localhost" 6767 sample_labels (AsyncClient_init sample_async) with
  | Some (s, evs) => NoDup (issued evs) ∧ issued evs = (dones evs).*1 ++ [2]
  | None => False
  end.
Proof.
  destruct (run_steps_of _ _ _ _) as [[s evs]|] eqn:E.
  - destruct (answers_are_outcomes "localhost" 6767 _ _ _ _ E) as (Hn & Ho & _).
    split; [exact Hn|]. rewrite Ho. vm_compute in E. injection E as <- <-. reflexivity.
  - vm_compute in E. discriminate.
Defined.

Lemma messages_in_order_witness :
  match run_steps_of "localhost" 6767 sample_labels (AsyncClient_init sample_async) with
  | Some (s, evs) => polled 1 evs = received_from 1 evs ++ []
  | None => False
  end.
Proof.
  destruct (run_steps_of _ _ _ _) as [[s evs]|] eqn:E.
  - pose proof (messages_in_order "localhost" 6767 _ _ _ _ 1 E) as H.
    vm_compute in E. injection E as <- <-. exact H.
  - vm_compute in E. discriminate.
Defined.

(** ENet cannot be initialised: the constructor raises, and the worker ends
    before the loop has run [publish]. *)
Lemma stale_error_reaches_next_connection_witness :
  match run_steps_of "localhost" 6767
    [LConnect; LWorker; LWorker; LCallback; LWorker; LWorker; LWorker]
    (AsyncClient_init (sample_native 1)) with
  | Some (s, _) =>
      ∃ s', run_steps_of "localhost" 6767 [LClose; LConnect; LCallback] s = Some (s', []) ∧
        a_worker s' = Starting ∧
        ensure_running s' = Some (runtime_error "Failed to initialize ENet")
  | None => False
  end.
Proof.
  destruct (run_steps_of _ _ _ _) as [[s evs]|] eqn:E; [|vm_compute in E; discriminate].
  destruct (stale_error_reaches_next_connection "localhost" 6767 s 1
    (runtime_error "Failed to initialize ENet") []) as (s' & Hrun & Hw & _ & He & _).
  1-4: vm_compute in E; injection E as <- <-; reflexivity.
  exists s'. split; [exact Hrun|]. split; [exact Hw|exact He].
Defined.
End witnesses.
