(* ===== verification/AsyncProgress.v ===== *)
(** * Progress of the asyncio client (python/src/spraybus/async_client.py)

    Every call that the worker can still take is answered, in every fair
    execution in which the worker does not poll messages without end; the
    commands that no worker takes any more are lost; and a "close" that was
    given up ends the next connection.  The extension module of [Bindings] keeps
    the laws of the interface. *)

From Stdlib.Strings Require Import Byte.
From stdpp Require Import base gmap list strings.
From S2P Require Import Prelude Protocol World NetClient BusClient Bindings AsyncClient.

#[export] Instance request_eq_dec : EqDecision request.
Proof. solve_decision. Defined.

#[export] Instance label_eq_dec : EqDecision label.
Proof. solve_decision. Defined.

(** ** Progress *)

Section progress.
Context {C : Type} `{!NativeClient C, !NativeLaws C} (host : string) (port : Z).
Implicit Types (s : AsyncClient C) (evs : list event).
Abbreviation step := (step host port).
Abbreviation run_steps_of := (run_steps_of host port).

(** Whether the worker's local variable holds a client. *)
Definition has_client (w : worker_state) : bool :=
  match w with
  | NotRunning | Starting => false
  | Connected | Waiting | Handling _ | Polling => true
  | Failing b _ | Publishing b _ | Draining b _ | Ending b => b
  end.

(** The objects alive: the worker's, and those that tracebacks keep. *)
Definition alive s : gset nat :=
  (if has_client (a_worker s) then {[a_generation s]} else ∅) ∪ a_kept s.

(** The native clients are in order; those kept are of this connection or of
    earlier ones, not the one that the worker makes or holds. *)
Record native_inv_of s : Prop := {
  nat_ok : native_ok (alive s) (a_native s);
  nat_kept : ∀ q, q ∈ a_kept s → q ≤ a_generation s;
  nat_new : a_worker s = Starting ∨ has_client (a_worker s) = true → a_generation s ∉ a_kept s;
}.

Lemma worker_alive s : has_client (a_worker s) = true → a_generation s ∈ alive s.
Proof. unfold alive. intros ->. set_solver. Qed.

(** Steps after which the same objects are alive. *)
Lemma native_inv_same s s' :
  native_inv_of s → a_generation s' = a_generation s → a_kept s' = a_kept s →
  has_client (a_worker s') = has_client (a_worker s) →
  (a_worker s' = Starting → a_worker s = Starting) → native_ok (alive s) (a_native s') →
  native_inv_of s'.
Proof.
  intros [_ Hk Hn] Eg Ek Eh Ew Hok. unfold alive in *.
  split; unfold alive; rewrite ?Eg, ?Ek, ?Eh; [done..|]. intros [?|?]; apply Hn; auto.
Qed.

Lemma forget_native s s' e :
  native_inv_of s → a_worker s = Ending true → forget_client s = Some (s', e) → native_inv_of s'.
Proof.
  intros [Hok Hk Hn] Ew. unfold forget_client, alive in *. rewrite Ew in *. cbn [has_client] in *.
  destruct (a_raised s).
  - intros [= <- _]. split; [|set_solver|by intros [|]].
    unfold alive. cbn. by rewrite (left_id_L ∅ (∪)).
  - pose proof (native_drop_ok (a_generation s) _ _ Hok ltac:(set_solver)) as H.
    destruct (native_drop _ _) as [[] n]; try done. intros [= <- _].
    split; [|done|by intros [|]]. unfold alive. cbn.
    specialize (Hn (or_intror eq_refl)).
    by replace (∅ ∪ a_kept s) with (({[a_generation s]} ∪ a_kept s) ∖ {[a_generation s]}) by set_solver.
Qed.

Lemma release_native q s s' : native_inv_of s → release q s = Some s' → native_inv_of s'.
Proof.
  intros [Hok Hk Hn]. unfold release. destruct (decide _) as [Hq|]; [|done].
  pose proof (native_drop_ok q _ _ Hok ltac:(unfold alive; set_solver)) as H.
  destruct (native_drop _ _) as [[] n]; try done. intros [= <-].
  split; [|set_solver|set_solver]. unfold alive in *. cbn.
  destruct (has_client (a_worker s)) eqn:Eh.
  - assert (q ≠ a_generation s) by (intros ->; by destruct (Hn (or_intror eq_refl))).
    by replace ({[a_generation s]} ∪ a_kept s ∖ {[q]}) with (({[a_generation s]} ∪ a_kept s) ∖ {[q]}) by set_solver.
  - by replace (∅ ∪ a_kept s ∖ {[q]}) with ((∅ ∪ a_kept s) ∖ {[q]}) by set_solver.
Qed.

Lemma worker_native s s' e :
  native_inv_of s → worker_step host port s = Some (s', e) → native_inv_of s'.
Proof.
  intros Hn. pose proof (nat_ok _ Hn) as Hok. pose proof (worker_alive s) as Hal. unfold worker_step.
  destruct (a_worker s) as [| | | |c| |cl x|cl x|cl x|cl] eqn:Ew; cbn [has_client] in *.
  - done.
  - pose proof (nat_new _ Hn (or_introl Ew)) as Hnew. unfold alive in Hok. rewrite Ew in Hok. cbn in Hok.
    rewrite (left_id_L ∅ (∪)) in Hok. pose proof (native_open_ok _ host port _ _ Hok Hnew) as H.
    destruct (native_open _ _ _ _) as [[] n]; try done; intros [= <- _];
      (split; [|apply Hn|]); unfold alive; cbn; rewrite ?(left_id_L ∅ (∪)); try done.
  - intros [= <- _]. apply (native_inv_same s); unfold complete_started; rewrite ?Ew;
      by destruct (a_started s).
  - destruct (a_commands s); intros [= <- _]; by apply (native_inv_same s); rewrite ?Ew.
  - unfold handle_command. destruct (cmd_name c) as [|r];
      [intros [= <- _]; by apply (native_inv_same s); rewrite ?Ew|].
    pose proof (native_run_ok _ r _ _ Hok (Hal eq_refl)) as H.
    destruct (native_run _ _ _) as [[] n]; try done; intros [= <- _];
      by apply (native_inv_same s); rewrite ?Ew.
  - pose proof (native_poll_ok _ _ _ Hok (Hal eq_refl)) as H. unfold poll_messages.
    destruct (native_poll _ _) as [[[m'|]|x| |] n]; [destruct (message_of_native m') as [m|]|..]; try done;
      intros [= <- _]; apply (native_inv_same s); cbn; rewrite ?Ew; done.
  - intros [= <- _]. apply (native_inv_same s); unfold complete_started; rewrite ?Ew;
      by destruct (a_started s).
  - intros [= <- _]. by apply (native_inv_same s); rewrite ?Ew.
  - destruct (a_commands s); intros [= <- _]; apply (native_inv_same s); cbn; rewrite ?Ew; done.
  - destruct cl; [by apply forget_native|]. intros [= <- _]. by apply (native_inv_same s); rewrite ?Ew.
Qed.

Lemma step_native l s s' e :
  thread_inv s → native_inv_of s → step l s = Some (s', e) → native_inv_of s'.
Proof.
  intros Ht Hn Hstep.
  destruct (step_thread _ _ _ _ _ _ Hstep) as [(-> & _ & _)|[[[En Ek]|[q ->]] Ew]].
  - by apply (worker_native s s' e).
  - destruct Ew as [(Ew & Eg & _)|(-> & Et & Ew & _ & Eg)].
    + apply (native_inv_same s); rewrite ?En, ?Ew; try done. apply Hn.
    + assert (Hoff : a_worker s = NotRunning).
      { destruct (a_worker s) eqn:E; [done|..]; exfalso;
          (assert (false = true); [|done]; rewrite <-Et; apply Ht; by rewrite E). }
      destruct Hn as [Hok Hk _]. unfold alive in Hok. rewrite Hoff in Hok.
      split; unfold alive; rewrite ?Ew, ?En, ?Ek, ?Eg; [done|..].
      * intros q Hq%Hk. lia.
      * intros _ Hq%Hk. lia.
  - cbn [AsyncClient.step loop_step] in Hstep. destruct (release q s) as [s1|] eqn:Er; [|done].
    injection Hstep as <- _. by apply (release_native q s).
Qed.

(** The worker is never stuck: it ends or has a next step. *)
Lemma worker_enabled s :
  native_inv_of s → a_worker s ≠ NotRunning → is_Some (worker_step host port s).
Proof.
  intros Hn Hw. pose proof (nat_ok _ Hn) as Hok. pose proof (worker_alive s) as Hal. unfold worker_step.
  destruct (a_worker s) as [| | | |c| |cl x|cl x|cl x|cl] eqn:Ew; cbn [has_client] in *;
    try done; try by eexists.
  - pose proof (nat_new _ Hn (or_introl Ew)) as Hnew. unfold alive in Hok. rewrite Ew in Hok. cbn in Hok.
    rewrite (left_id_L ∅ (∪)) in Hok. pose proof (native_open_ok _ host port _ _ Hok Hnew).
    destruct (native_open _ _ _ _) as [[] n]; try done; by eexists.
  - by destruct (a_commands s); eexists.
  - unfold handle_command. destruct (cmd_name c) as [|r]; [by eexists|].
    pose proof (native_run_ok _ r _ _ Hok (Hal eq_refl)).
    destruct (native_run _ _ _) as [[] n]; try done; by eexists.
  - pose proof (native_poll_ok _ _ _ Hok (Hal eq_refl)). unfold poll_messages.
    destruct (native_poll _ _) as [[[m'|]|x| |] n]; [destruct (message_of_native m')|..];
      try done; by eexists.
  - by destruct (a_commands s); eexists.
  - destruct cl; [|by eexists]. unfold forget_client. destruct (a_raised s); [by eexists|].
    pose proof (native_drop_ok _ _ _ Hok (Hal eq_refl)).
    destruct (native_drop _ _) as [[] n]; try done; by eexists.
Qed.

(** *** Where a command is *)

Definition is_request (c : Command) : Prop := cmd_name c ≠ CmdClose.

(** The worker will take further commands. *)
Definition serving (w : worker_state) : Prop :=
  match w with
  | NotRunning | Ending _ => False
  | Handling c => is_request c
  | _ => True
  end.

(** The command of [f] is in the queue, behind [k] others, none of them
    "close", and the worker will take it. *)
Definition queued (f k : nat) s : Prop :=
  ∃ before c after, a_commands s = before ++ c :: after ∧ length before = k ∧
    cmd_future c = f ∧ Forall is_request before ∧ serving (a_worker s).

Definition in_hand (f : nat) s : Prop :=
  ∃ c, a_worker s = Handling c ∧ cmd_future c = f.

Definition scheduled (f : nat) s : Prop := ∃ r, CbComplete f r ∈ a_callbacks s.

Definition answered (f : nat) s : Prop :=
  ∃ x, a_futures s !! f = Some x ∧ x ≠ Pending.

(** How far the worker is from taking the next command. *)
Definition phase (w : worker_state) : nat :=
  match w with
  | Starting => 8
  | Connected => 7
  | Handling _ => 6
  | Polling => 5
  | Waiting => 4
  | Failing _ _ => 3
  | Publishing _ _ => 2
  | Draining _ _ => 1
  | _ => 0
  end.

(** One step of the worker brings the command nearer, unless it polled a
    message. *)
Lemma worker_nearer f k s s' e :
  native_inv_of s → queued f k s → worker_step host port s = Some (s', e) →
  scheduled f s' ∨ in_hand f s' ∨
  ∃ k', queued f k' s' ∧
    (k' < k ∨ k' = k ∧ (phase (a_worker s') < phase (a_worker s) ∨
       a_worker s = Polling ∧ a_worker s' = Polling)).
Proof.
  intros Hn (before & c & after & Ec & Hk & Hf & Hall & Hserve) Hw.
  unfold worker_step in Hw.
  assert (Hsame : a_commands s' = a_commands s → serving (a_worker s') → queued f k s')
    by (intros Ec' ?; exists before, c, after; by rewrite Ec').
  destruct (a_worker s) as [| | | |d| |cl x|cl x|cl x|cl] eqn:Ew; cbn [has_client] in *; try done.
  - right; right. exists k. destruct (native_open _ _ _ _) as [[] n]; try done;
      injection Hw as <- <-; (split; [by apply Hsame|]); cbn; lia.
  - right; right. exists k. injection Hw as <- <-. unfold complete_started in *.
    destruct (a_started s); (split; [by apply Hsame|]); cbn; lia.
  - rewrite Ec in Hw. destruct before as [|d before]; injection Hw as <- <-.
    + right; left. by exists c.
    + apply Forall_cons in Hall as [Hd Hall]. right; right. exists (length before).
      split; [|cbn in Hk; lia]. by exists before, c, after.
  - right; right. exists k. unfold handle_command in Hw.
    destruct (cmd_name d) as [|r] eqn:Ed; [by destruct Hserve|].
    destruct (native_run _ _ _) as [[] n]; try done; injection Hw as <- <-;
      (split; [by apply Hsame|]); cbn; lia.
  - right; right. exists k. unfold poll_messages in Hw.
    destruct (native_poll _ _) as [[[m'|]|x| |] n]; [destruct (message_of_native m') as [m|]|..];
      try done; injection Hw as <- <-; (split; [apply Hsame; cbn; by rewrite ?Ew|]); right;
      (split; [done|]); cbn; rewrite ?Ew; auto; left; lia.
  - right; right. exists k. injection Hw as <- <-. unfold complete_started in *.
    destruct (a_started s); (split; [by apply Hsame|]); cbn; lia.
  - right; right. exists k. injection Hw as <- <-. split; [by apply Hsame|]. cbn. lia.
  - rewrite Ec in Hw. destruct before as [|d before]; injection Hw as <- <-.
    + left. exists (inr x). cbn. rewrite Hf. apply elem_of_app. right. by left.
    + apply Forall_cons in Hall as [Hd Hall]. right; right. exists (length before).
      split; [|cbn in Hk; lia]. exists before, c, after. split_and!; try done. cbn. by rewrite Ew.
Qed.

(** The worker completes what it holds. *)
Lemma worker_completes f s s' e :
  in_hand f s → worker_step host port s = Some (s', e) → scheduled f s'.
Proof.
  intros (c & Ew & <-) Hw. unfold worker_step, handle_command in Hw. rewrite Ew in Hw.
  unfold scheduled. destruct (cmd_name c) as [|r];
    [|destruct (native_run _ _ _) as [[] n]; try done]; injection Hw as <- <-; cbn;
    eexists; apply elem_of_app; right; by left.
Qed.

(** *** What the other steps leave alone *)

(** Only the worker takes commands. *)
Lemma step_commands_grow l s s' e :
  step l s = Some (s', e) → l ≠ LWorker →
  ∃ new, a_commands s' = a_commands s ++ new.
Proof.
  intros [[-> _]|[(-> & _ & -> & ->)|Hl]]%step_cases Hne; [done|by eexists|].
  destruct l; cbn [loop_step] in Hl; try discriminate.
  10: { destruct (a_callbacks s) as [|cb rest]; [discriminate|]. injection Hl as <- <-.
       exists []. rewrite app_nil_r. destruct cb; cbn; [|done..].
       by destruct (a_futures s !! f) as [[]|]. }
  all: loop_cases Hl;
    first [by eexists|exists []; by rewrite app_nil_r].
Qed.

(** Only the loop takes callbacks. *)
Lemma step_callbacks_grow l s s' e :
  step l s = Some (s', e) → l ≠ LCallback →
  ∃ new, a_callbacks s' = a_callbacks s ++ new.
Proof.
  assert (H0 : ∃ new, a_callbacks s = a_callbacks s ++ new) by (exists []; by rewrite app_nil_r).
  intros [[-> Hw]|[(-> & _ & -> & ->)|Hl]]%step_cases Hne; [|done|].
  - worker_cases Hw; first [by eexists|exact H0].
  - destruct l; cbn [loop_step] in Hl; try discriminate; try done.
    all: loop_cases Hl; exact H0.
Qed.

Lemma other_step_worker l s s' e :
  thread_inv s → step l s = Some (s', e) → l ≠ LWorker → a_worker s ≠ NotRunning →
  a_worker s' = a_worker s.
Proof.
  intros Ht Hstep Hne Hw. destruct (step_thread _ _ _ _ _ _ Hstep)
    as [(? & _)|[_ [(Ew & _)|(_ & Et & _)]]]; [done|done|].
  rewrite (Ht Hw) in Et. done.
Qed.

Lemma other_step_queued l s s' e f k :
  thread_inv s → step l s = Some (s', e) → l ≠ LWorker → queued f k s →
  queued f k s' ∧ a_worker s' = a_worker s.
Proof.
  intros Ht Hstep Hne (before & c & after & Ec & Hk & Hf & Hall & Hserve).
  assert (Ew : a_worker s' = a_worker s)
    by (eapply other_step_worker; [done..|by intros H; rewrite H in Hserve]).
  destruct (step_commands_grow _ _ _ _ Hstep Hne) as [new Enew].
  split; [|done]. exists before, c, (after ++ new). rewrite Enew, Ec, <-app_assoc, Ew. done.
Qed.

Lemma other_step_in_hand l s s' e f :
  thread_inv s → step l s = Some (s', e) → l ≠ LWorker → in_hand f s → in_hand f s'.
Proof.
  intros Ht Hstep Hne (c & Ew & Hf).
  assert (Ew' : a_worker s' = a_worker s) by (eapply other_step_worker; [done..|by rewrite Ew]).
  exists c. by rewrite Ew', Ew.
Qed.

(** Running callbacks brings a completion nearer. *)
Lemma callback_nearer f j s s' e r :
  a_callbacks s !! j = Some (CbComplete f r) → is_Some (a_futures s !! f) →
  step LCallback s = Some (s', e) →
  answered f s' ∨ ∃ j', j = S j' ∧ a_callbacks s' !! j' = Some (CbComplete f r).
Proof.
  intros Hj [x Hx] [[? _]|[(? & _)|Hl]]%step_cases; [done..|]. cbn in Hl.
  destruct (a_callbacks s) as [|cb rest] eqn:Ec; [done|]. injection Hl as <- <-.
  destruct j as [|j]; cbn in Hj.
  - injection Hj as ->. left. unfold answered. cbn.
    destruct x; [|cbn; rewrite Hx; cbn; by eexists..].
    rewrite Hx. exists (settled r). cbn. rewrite lookup_insert_eq. by destruct r.
  - right. exists j. split; [done|]. destruct cb as [g y|q y|q m]; cbn; [|done..].
    by destruct (a_futures s !! g) as [[]|].
Qed.

(** *** Executions

    An execution goes on forever (receivers may come at any time); it is fair
    if a worker that can take a step takes one again and again, and the loop
    runs callbacks again and again while some are scheduled. *)
Record execution (σ : nat → AsyncClient C) (ℓ : nat → label) : Prop := {
  ex_init : ∃ c, native_ok ∅ c ∧ σ 0 = AsyncClient_init c;
  ex_step : ∀ n, ∃ e, step (ℓ n) (σ n) = Some (σ (S n), e);
}.

Record fair (σ : nat → AsyncClient C) (ℓ : nat → label) : Prop := {
  fair_worker : ∀ n, ∃ m, n ≤ m ∧ (ℓ m = LWorker ∨ worker_step host port (σ m) = None);
  fair_loop : ∀ n, ∃ m, n ≤ m ∧ (ℓ m = LCallback ∨ a_callbacks (σ m) = []);
}.

Lemma init_native c : native_ok ∅ c → native_inv_of (AsyncClient_init c).
Proof.
  intros Hc. split; unfold alive; cbn; [by rewrite (left_id_L ∅ (∪))|set_solver|set_solver].
Qed.

Lemma execution_inv σ ℓ n :
  execution σ ℓ → (∃ evs, async_inv (σ n) evs) ∧ native_inv_of (σ n).
Proof.
  intros [(c & Hc & H0) Hstep]. induction n as [|n [[evs Hinv] Hn]].
  - rewrite H0. split; [exists []; by apply async_inv_init|by apply init_native].
  - destruct (Hstep n) as [e He]. split.
    + exists (evs ++ e). by eapply step_async_inv.
    + eapply step_native; [|done..]. apply Hinv.
Qed.

Lemma execution_thread σ ℓ n : execution σ ℓ → thread_inv (σ n).
Proof. intros [[evs Hinv] _]%(λ H, execution_inv σ ℓ n H). apply Hinv. Qed.

(** A property kept by all steps but [l], while it is not taken. *)
Lemma until_step (P : AsyncClient C → Prop) (l : label) σ ℓ n d :
  execution σ ℓ →
  (∀ n, P (σ n) → ℓ n ≠ l → P (σ (S n))) →
  P (σ n) →
  (∃ m, n ≤ m ∧ m < n + d ∧ ℓ m = l ∧ P (σ m)) ∨ P (σ (n + d)).
Proof.
  intros Hex Hkeep Hn. induction d as [|d IH]; [right; by rewrite Nat.add_0_r|].
  destruct IH as [(m & ? & ? & ? & ?)|Hd]; [left; exists m; split_and!; try lia; by auto|].
  destruct (decide (ℓ (n + d) = l)) as [El|Hne].
  - left. exists (n + d). split_and!; [lia..|done|done].
  - right. rewrite Nat.add_succ_r. by apply Hkeep.
Qed.

Lemma answered_stays σ ℓ n m f :
  execution σ ℓ → n ≤ m → answered f (σ n) → answered f (σ m).
Proof.
  intros Hex Hle (x & Hf & Hx). exists x. split; [|done]. induction Hle as [|m _ IH]; [done|].
  destruct (execution_inv σ ℓ m Hex) as [[evs [_ Hc _]] _].
  destruct (ex_step _ _ Hex m) as [e He]. eapply step_future; [apply Hc|done..].
Qed.

(** A worker that serves takes a step. *)
Lemma worker_turn (P : AsyncClient C → Prop) σ ℓ n :
  execution σ ℓ → fair σ ℓ →
  (∀ s, P s → a_worker s ≠ NotRunning) →
  (∀ n, P (σ n) → ℓ n ≠ LWorker → P (σ (S n))) →
  P (σ n) →
  ∃ m e, n ≤ m ∧ P (σ m) ∧ worker_step host port (σ m) = Some (σ (S m), e).
Proof.
  intros Hex Hfair Hrun Hkeep Hn. destruct (fair_worker _ _ Hfair n) as (m & Hle & Hm).
  assert (Hstep : ∀ m, ℓ m = LWorker → ∃ e, worker_step host port (σ m) = Some (σ (S m), e)).
  { intros m' El. destruct (ex_step _ _ Hex m') as [e He]. rewrite El in He. by exists e. }
  destruct (until_step P LWorker σ ℓ n (m - n) Hex Hkeep Hn) as [(m' & ? & _ & El & HP)|HP].
  { destruct (Hstep m' El) as [e He]. by exists m', e. }
  replace (n + (m - n)) with m in HP by lia. destruct Hm as [El|Hnone].
  - destruct (Hstep m El) as [e He]. by exists m, e.
  - destruct (execution_inv σ ℓ m Hex) as [_ Hnat].
    destruct (worker_enabled (σ m) Hnat (Hrun _ HP)) as [[s' e] Hs]. by rewrite Hnone in Hs.
Qed.

(** A completion that is scheduled is run. *)
Lemma scheduled_answered σ ℓ n f :
  execution σ ℓ → fair σ ℓ → scheduled f (σ n) → ∃ m, n ≤ m ∧ answered f (σ m).
Proof.
  intros Hex Hfair [r Hin]. apply list_elem_of_lookup in Hin as [j Hj].
  revert n Hj. induction j as [j IH] using lt_wf_ind. intros n Hj.
  set (P := λ s : AsyncClient C, a_callbacks s !! j = Some (CbComplete f r)).
  assert (Hkeep : ∀ n, P (σ n) → ℓ n ≠ LCallback → P (σ (S n))).
  { intros i Hi Hne. destruct (ex_step _ _ Hex i) as [e He]. unfold P in *.
    destruct (step_callbacks_grow _ _ _ _ He Hne) as [new ->]. by apply lookup_app_l_Some. }
  destruct (fair_loop _ _ Hfair n) as (m & Hle & Hm).
  assert (Hturn : ∃ i, n ≤ i ∧ ℓ i = LCallback ∧ P (σ i)).
  { destruct (until_step P LCallback σ ℓ n (m - n) Hex Hkeep Hj) as [(i & ? & _ & ? & ?)|HP];
      [by exists i|]. replace (n + (m - n)) with m in HP by lia.
    destruct Hm as [El|Hnil]; [by exists m|]. unfold P in HP. by rewrite Hnil in HP. }
  destruct Hturn as (i & Hi & El & HP). destruct (ex_step _ _ Hex i) as [e He]. rewrite El in He.
  destruct (execution_inv σ ℓ i Hex) as [[evs [_ Hc _]] _].
  assert (Hf : is_Some (a_futures (σ i) !! f))
    by (apply (ci_callbacks _ _ Hc f r); by eapply list_elem_of_lookup_2).
  destruct (callback_nearer f j _ _ _ _ HP Hf He) as [Ha|(j' & -> & Hj')].
  - exists (S i). split; [lia|done].
  - destruct (IH j' ltac:(lia) (S i) Hj') as (m' & ? & ?). exists m'. split; [lia|done].
Qed.

Lemma in_hand_answered σ ℓ n f :
  execution σ ℓ → fair σ ℓ → in_hand f (σ n) → ∃ m, n ≤ m ∧ answered f (σ m).
Proof.
  intros Hex Hfair Hn.
  destruct (worker_turn (in_hand f) σ ℓ n Hex Hfair) as (m & e & Hle & Hm & Hw); [| |done|].
  - intros s (c & -> & _). done.
  - intros i Hi Hne. destruct (ex_step _ _ Hex i) as [e He].
    eapply other_step_in_hand; [by eapply execution_thread|done..].
  - destruct (scheduled_answered σ ℓ (S m) f Hex Hfair) as (i & ? & ?);
      [by eapply worker_completes|]. exists i. split; [lia|done].
Qed.

(** The worker leaves [_poll_messages] again and again: it does not poll one
    message after another for ever. *)
Definition unstarved (σ : nat → AsyncClient C) : Prop :=
  ∀ n, ∃ m, n ≤ m ∧ a_worker (σ m) ≠ Polling.

(** The command of [f], behind [k] others, is nearer to its answer than when
    the worker is in phase [p]. *)
Definition nearer (f k p : nat) s : Prop :=
  scheduled f s ∨ in_hand f s ∨
  ∃ k', queued f k' s ∧ (k' < k ∨ k' = k ∧ phase (a_worker s) < p).

(** A worker that polls comes to an end of it, with the command nearer. *)
Lemma polling_nearer σ ℓ n f k :
  execution σ ℓ → unstarved σ → queued f k (σ n) → a_worker (σ n) = Polling →
  ∃ m, n ≤ m ∧ nearer f k (phase Polling) (σ m).
Proof.
  intros Hex Hun Hq Hw. destruct (Hun n) as (m & Hle & Hm). remember (m - n) as d eqn:Ed.
  revert n Hle Ed Hq Hw. induction d as [|d IH]; intros n Hle Ed Hq Hw.
  { by replace m with n in Hm by lia. }
  destruct (ex_step _ _ Hex n) as [e He].
  assert (Hlater : queued f k (σ (S n)) → a_worker (σ (S n)) = Polling →
    ∃ i, n ≤ i ∧ nearer f k (phase Polling) (σ i)).
  { intros Hq' Hw'. destruct (IH (S n)) as (i & ? & ?); [lia..|done|done|]. exists i. split; [lia|done]. }
  destruct (decide (ℓ n = LWorker)) as [El|Hne].
  - rewrite El in He. destruct (execution_inv σ ℓ n Hex) as [_ Hnat].
    destruct (worker_nearer f k _ _ _ Hnat Hq He) as [?|[?|(k' & Hq' & Hlt)]].
    1, 2: exists (S n); split; [lia|]; unfold nearer; auto.
    rewrite Hw in Hlt. destruct Hlt as [?|[-> [?|[_ ?]]]]; [..|by apply Hlater]; exists (S n);
      (split; [lia|]); right; right; eauto.
  - destruct (other_step_queued _ _ _ _ f k (execution_thread σ ℓ n Hex) He Hne Hq) as [? Ew].
    apply Hlater; [done|congruence].
Qed.

(** Any worker that serves brings it nearer. *)
Lemma serving_nearer σ ℓ n f k :
  execution σ ℓ → fair σ ℓ → unstarved σ → queued f k (σ n) →
  ∃ m, n ≤ m ∧ nearer f k (phase (a_worker (σ n))) (σ m).
Proof.
  intros Hex Hfair Hun Hq. destruct (decide (phase (a_worker (σ n)) = phase Polling)) as [Ep|Hne].
  { rewrite Ep. apply (polling_nearer σ ℓ); try done. by destruct (a_worker (σ n)). }
  set (P := λ s : AsyncClient C, queued f k s ∧ a_worker s = a_worker (σ n)).
  destruct (worker_turn P σ ℓ n Hex Hfair) as (m & e & Hle & [Hm Ewm] & Hw).
  - intros s ((? & ? & ? & _ & _ & _ & _ & Hs) & _) Hr. by rewrite Hr in Hs.
  - intros i [Hi Ei] Hl. destruct (ex_step _ _ Hex i) as [e He].
    destruct (other_step_queued _ _ _ _ f k (execution_thread σ ℓ i Hex) He Hl Hi) as [Hi' Ew].
    split; [done|congruence].
  - by unfold P.
  - destruct (execution_inv σ ℓ m Hex) as [_ Hnat]. exists (S m). split; [lia|].
    destruct (worker_nearer f k _ _ _ Hnat Hm Hw) as [?|[?|(k' & Hq' & Hlt)]];
      [by left|by right; left|right; right; exists k'; split; [done|]].
    rewrite Ewm in Hlt. destruct Hlt as [?|[-> [?|[Hp _]]]]; auto. by rewrite Hp in Hne.
Qed.

(** A queued command is answered: induction on the commands ahead and the
    phase of the worker. *)
Lemma queued_answered σ ℓ n f k :
  execution σ ℓ → fair σ ℓ → unstarved σ → queued f k (σ n) → ∃ m, n ≤ m ∧ answered f (σ m).
Proof.
  intros Hex Hfair Hun. revert n. induction k as [k IHk] using lt_wf_ind. intros n.
  remember (phase (a_worker (σ n))) as p eqn:Ep. revert n Ep.
  induction p as [p IHp] using lt_wf_ind. intros n -> Hq.
  destruct (serving_nearer σ ℓ n f k Hex Hfair Hun Hq) as (m & Hle & Hm).
  assert (Hlater : (∃ i, m ≤ i ∧ answered f (σ i)) → ∃ i, n ≤ i ∧ answered f (σ i)).
  { intros (i & ? & ?). exists i. split; [lia|done]. }
  apply Hlater. destruct Hm as [Hs|[Hh|(k' & Hq' & [Hlt|[-> Hlt]])]].
  - by apply (scheduled_answered σ ℓ).
  - by apply (in_hand_answered σ ℓ).
  - by apply (IHk k' Hlt).
  - by apply (IHp _ Hlt).
Qed.

(** A worker that polls for ever polls message after message. *)
Lemma starving_polls σ ℓ n :
  execution σ ℓ → fair σ ℓ → (∀ i, n ≤ i → a_worker (σ i) = Polling) →
  ∃ i q m, n ≤ i ∧ step (ℓ i) (σ i) = Some (σ (S i), [EvPolled q m]).
Proof.
  intros Hex Hfair Hpoll. destruct (fair_worker _ _ Hfair n) as (i & Hi & Hl).
  destruct (execution_inv σ ℓ i Hex) as [_ Hnat]. pose proof (Hpoll i Hi) as Hw.
  destruct Hl as [Hl|Hl]; [|by destruct (worker_enabled _ Hnat ltac:(by rewrite Hw)) as [? E]; rewrite Hl in E].
  destruct (ex_step _ _ Hex i) as [e He]. pose proof He as Hs. rewrite Hl in Hs. cbn [AsyncClient.step] in Hs.
  pose proof (Hpoll (S i) ltac:(lia)) as Hw'. unfold worker_step in Hs. rewrite Hw in Hs.
  unfold poll_messages in Hs. repeat case_match; simplify_eq;
    match goal with E : _ = σ (S i) |- _ => rewrite <-E in Hw' end; try discriminate.
  eexists i, _, _. by split.
Qed.

(** Meanwhile it takes no command, and no other is answered. *)
Lemma starving_unanswered σ ℓ n i f :
  execution σ ℓ → (∀ i, n ≤ i → a_worker (σ i) = Polling) →
  f ∈ cmd_future <$> a_commands (σ n) → n ≤ i →
  a_futures (σ i) !! f = Some Pending ∨ a_futures (σ i) !! f = Some Cancelled.
Proof.
  intros Hex Hpoll Hf Hi.
  assert (Hq : f ∈ cmd_future <$> a_commands (σ i)).
  { induction Hi as [|i Hi IH]; [done|]. destruct (ex_step _ _ Hex i) as [e He].
    destruct (decide (ℓ i = LWorker)) as [El|Hne].
    - pose proof (Hpoll i Hi) as Hw. pose proof (Hpoll (S i) ltac:(lia)) as Hw'.
      rewrite El in He. cbn [AsyncClient.step] in He. unfold worker_step, poll_messages in He.
      rewrite Hw in He. repeat case_match; simplify_eq;
        match goal with E : _ = σ (S i) |- _ => rewrite <-E in Hw' |- * end; done.
    - destruct (step_commands_grow _ _ _ _ He Hne) as [new ->]. rewrite fmap_app, elem_of_app. by left. }
  destruct (execution_inv σ ℓ i Hex) as [[evs [_ Hc _]] _].
  assert (Hin : f ∈ issued evs) by (rewrite (ci_order _ _ Hc), !elem_of_app; auto).
  destruct (ci_issued _ _ Hc f Hin) as [x Hx]. rewrite Hx.
  assert (Hno : ∀ r, x ≠ settled r).
  { intros r ->. pose proof (ci_settled _ _ Hc f r Hx Hin) as Hd. pose proof (ci_nodup _ _ Hc) as Hn.
    rewrite (ci_order _ _ Hc) in Hn. apply NoDup_app in Hn as (_ & Hn & _).
    apply (Hn f); [apply list_elem_of_fmap; by exists (f, r)|]. rewrite elem_of_app. by right. }
  destruct x as [|v|y|]; [by left|by destruct (Hno (inl v))|by destruct (Hno (inr y))|by right].
Qed.

(** A settled future is the same from then on. *)
Lemma future_stays σ ℓ n m f x :
  execution σ ℓ → n ≤ m → a_futures (σ n) !! f = Some x → x ≠ Pending →
  a_futures (σ m) !! f = Some x.
Proof.
  intros Hex Hle Hf Hx. induction Hle as [|m _ IH]; [done|].
  destruct (execution_inv σ ℓ m Hex) as [[evs [_ Hc _]] _].
  destruct (ex_step _ _ Hex m) as [e He]. eapply step_future; [apply Hc|done..].
Qed.

(** *** The start of the thread *)

(** The worker has yet to complete [_started], the future [f]. *)
Definition starting (f : nat) s : Prop :=
  a_started s = Some f ∧
  match a_worker s with Starting | Connected | Failing _ _ => True | _ => False end.

Lemma worker_starting f s s' e :
  starting f s → worker_step host port s = Some (s', e) →
  scheduled f s' ∨ starting f s' ∧ phase (a_worker s') < phase (a_worker s).
Proof.
  intros [Hst Hw] Hstep. unfold worker_step in *.
  destruct (a_worker s); try done.
  - right. destruct (native_open _ _ _ _) as [[] n]; try done; injection Hstep as <- <-;
      (split; [by split|cbn; lia]).
  - left. injection Hstep as <- <-. unfold complete_started. rewrite Hst.
    eexists. apply elem_of_app. right. by left.
  - left. injection Hstep as <- <-. unfold complete_started. rewrite Hst.
    eexists. apply elem_of_app. right. by left.
Qed.

(** Only [connect] without a thread sets [_started]. *)
Lemma step_started l s s' e :
  step l s = Some (s', e) → a_thread s = true → a_started s' = a_started s.
Proof.
  intros Hstep Ht. destruct (step_cases _ _ _ _ _ _ Hstep) as [[-> Hw]|[(-> & _ & -> & ->)|Hl]];
    [|done|].
  - worker_cases Hw; done.
  - destruct l; cbn [loop_step] in Hl; try discriminate.
    10: { destruct (a_callbacks s) as [|cb rest]; [discriminate|]. injection Hl as <- <-.
         destruct cb; cbn; [|done..]. by destruct (a_futures s !! f) as [[]|]. }
    all: loop_cases Hl; done.
Qed.

Lemma other_step_starting l s s' e f :
  thread_inv s → step l s = Some (s', e) → l ≠ LWorker → starting f s →
  starting f s' ∧ a_worker s' = a_worker s.
Proof.
  intros Ht Hstep Hne [Hst Hw].
  assert (Hrun : a_worker s ≠ NotRunning) by (intros H; by rewrite H in Hw).
  pose proof (other_step_worker _ _ _ _ Ht Hstep Hne Hrun) as Ew.
  split; [|done]. split; [|by rewrite Ew]. rewrite (step_started _ _ _ _ Hstep); [done|by apply Ht].
Qed.

Lemma starting_answered σ ℓ n f :
  execution σ ℓ → fair σ ℓ → starting f (σ n) → ∃ m, n ≤ m ∧ answered f (σ m).
Proof.
  intros Hex Hfair. remember (phase (a_worker (σ n))) as p eqn:Ep. revert n Ep.
  induction p as [p IH] using lt_wf_ind. intros n Ep Hn.
  set (P := λ s : AsyncClient C, starting f s ∧ phase (a_worker s) = p).
  destruct (worker_turn P σ ℓ n Hex Hfair) as (m & e & Hle & (Hm & Epm) & Hw).
  - intros s [[_ Hw] _] Hr. by rewrite Hr in Hw.
  - intros i [Hi Ei] Hne. destruct (ex_step _ _ Hex i) as [e He].
    destruct (other_step_starting _ _ _ _ f (execution_thread σ ℓ i Hex) He Hne Hi) as [? Ew].
    split; [done|]. by rewrite Ew.
  - by unfold P.
  - assert (Hlater : ∃ i, S m ≤ i ∧ answered f (σ i)).
    { destruct (worker_starting f _ _ _ Hm Hw) as [Hs|[Hst Hlt]].
      - by apply (scheduled_answered σ ℓ).
      - apply (IH (phase (a_worker (σ (S m)))) ltac:(lia) (S m) eq_refl Hst). }
    destruct Hlater as (i & ? & ?). exists i. split; [lia|done].
Qed.
End progress.

(** ** Commands that are lost *)

Section lost.
Context {C : Type} `{!NativeClient C} (host : string) (port : Z).
Implicit Types (s : AsyncClient C) (evs : list event).
Abbreviation step := (step host port).
Abbreviation run_steps_of := (run_steps_of host port).

(** The worker takes no further command. *)
Definition finished (w : worker_state) : Prop :=
  match w with
  | NotRunning | Ending _ => True
  | Handling c => cmd_name c = CmdClose
  | _ => False
  end.

(** The future [f] is that of a command which no worker will take. *)
Record lost (f : nat) s : Prop := {
  lost_worker : finished (a_worker s);
  lost_hand : f ∉ hand (a_worker s);
  lost_callbacks : ∀ r, CbComplete f r ∉ a_callbacks s;
  lost_future : a_futures s !! f = Some Pending ∨ a_futures s !! f = Some Cancelled;
  lost_fresh : f < a_fresh s;
}.

Lemma lost_same f s s' :
  lost f s → a_worker s' = a_worker s → a_callbacks s' = a_callbacks s →
  a_futures s' = a_futures s → a_fresh s' = a_fresh s → lost f s'.
Proof. intros [Hw Hh Hcb Hf Hfr] Ew Ec Ef Er. split; by rewrite ?Ew, ?Ec, ?Ef, ?Er. Qed.

Lemma worker_step_lost f s s' e :
  lost f s → worker_step host port s = Some (s', e) → lost f s'.
Proof.
  intros [Hw Hh Hcb Hf Hfr] Hs. unfold worker_step in Hs.
  destruct (a_worker s) as [| | | |c| | | | |cl] eqn:Ew; try done; cbn [finished hand] in *.
  - unfold handle_command in Hs. rewrite Hw in Hs. injection Hs as <- <-.
    split; cbn; try done; [by intros ?%elem_of_nil|].
    intros r [?|[= -> _]%list_elem_of_singleton]%elem_of_app; [by eapply Hcb|].
    apply Hh. by left.
  - destruct cl; [unfold forget_client in Hs; destruct (a_raised s);
      [|destruct (native_drop _ _) as [[] n]; try done]|]; injection Hs as <- <-; split; cbn; done.
Qed.

Lemma insert_lost f g x s :
  lost f s → g ≠ f ∨ x = Cancelled →
  lost f (set_futures (<[g := x]> (a_futures s)) s).
Proof.
  intros [Hw Hh Hcb Hf Hfr] Hg. split; cbn; try done.
  destruct (decide (g = f)) as [->|]; [|by rewrite lookup_insert_ne].
  destruct Hg as [| ->]; [done|]. right. by rewrite lookup_insert_eq.
Qed.

Lemma put_command_lost f name s : lost f s → lost f (put_command name s).
Proof.
  intros Hl. pose proof (lost_fresh _ _ Hl).
  destruct (insert_lost f (a_fresh s) Pending s Hl) as [Hw Hh Hcb Hf Hfr]; [left; lia|].
  split; cbn in *; try done. lia.
Qed.

Lemma run_callback_lost f cb rest s :
  a_callbacks s = cb :: rest → lost f s → lost f (run_callback cb (set_callbacks rest s)).
Proof.
  intros Ec [Hw Hh Hcb Hf Hfr]. rewrite Ec in Hcb.
  assert (Hrest : lost f (set_callbacks rest s)).
  { split; cbn; try done. intros r Hin. apply (Hcb r). by right. }
  destruct cb as [g r|q x|q m]; cbn [run_callback].
  - destruct (a_futures (set_callbacks rest s) !! g) as [[]|]; try done.
    apply insert_lost; [done|]. left. intros ->. apply (Hcb r). by left.
  - by destruct Hrest.
  - by destruct Hrest.
Qed.

(** Until the client is connected again. *)
Lemma step_lost f l s s' e : lost f s → l ≠ LConnect → step l s = Some (s', e) → lost f s'.
Proof.
  intros Hl Hne [[-> Hw]|[(-> & _ & -> & ->)|Hs]]%step_cases.
  - by eapply worker_step_lost.
  - by destruct (put_command_lost f CmdClose s Hl).
  - destruct l; cbn [loop_step] in Hs; try done.
    9: { destruct (a_callbacks s) as [|cb rest] eqn:Ec; [discriminate|]. injection Hs as <- <-.
         by apply run_callback_lost. }
    6: { unfold cancel in Hs. destruct (a_futures s !! f0) as [[]|]; try discriminate.
         injection Hs as <- <-. apply insert_lost; auto. }
    3: { unfold call in Hs. destruct (ensure_running s); injection Hs as <- <-; [done|].
         by apply put_command_lost. }
    all: loop_cases Hs; by eapply lost_same.
Qed.

Lemma run_lost f ls s s' e :
  lost f s → LConnect ∉ ls → run_steps_of ls s = Some (s', e) → lost f s'.
Proof. apply run_until_connect. intros l s1 s2 e1. apply step_lost. Qed.

(** A worker that takes no further command never does. *)
Lemma step_finished l s s' e :
  finished (a_worker s) → l ≠ LConnect → step l s = Some (s', e) → finished (a_worker s').
Proof.
  intros Hw Hne [[-> Hs]|[(-> & _ & -> & ->)|Hs]]%step_cases; [|done|].
  - unfold worker_step, handle_command in Hs. destruct (a_worker s) as [| | | |c| | | | |cl]; try done;
      cbn [finished] in Hw.
    + rewrite Hw in Hs. by injection Hs as <- <-.
    + destruct cl; [|by simplify_eq]. unfold forget_client in Hs.
      destruct (a_raised s); [|destruct (native_drop _ _) as [[] n]]; by simplify_eq.
  - destruct l; cbn [loop_step] in Hs; try done.
    9: { destruct (a_callbacks s) as [|cb rest]; [discriminate|]. injection Hs as <- <-.
         destruct cb; cbn; [|done..]. by destruct (a_futures s !! f) as [[]|]. }
    all: loop_cases Hs; first [done|cbn; by match goal with E : a_worker _ = _ |- _ => rewrite E end].
Qed.

(** A new command is lost when the worker takes no further one. *)
Lemma new_command_lost name s evs :
  commands_inv s evs → finished (a_worker s) → lost (a_fresh s) (put_command name s).
Proof.
  intros [Ho Hn Hi Hf Hst Hcb Hs] Hw.
  assert (Hnew : a_futures s !! a_fresh s = None).
  { destruct (a_futures s !! a_fresh s) eqn:E; [|done]. specialize (Hf (a_fresh s)).
    rewrite E in Hf. specialize (Hf ltac:(by eexists)). lia. }
  split; cbn; try done; [| |left; by rewrite lookup_insert_eq|lia].
  - intros Hin. destruct (Hi (a_fresh s)) as [x Hx]; [|congruence].
    rewrite Ho, !elem_of_app. auto.
  - intros r [[x Hx] _]%Hcb. congruence.
Qed.

End lost.

(** ** The extension module keeps the laws *)

Section native_laws.
Context {plat : Platform} {cast : StrCast}.
Implicit Types (s : Native).

(** The clients of the process are the worker's. *)
Definition bindings_ok (alive : gset nat) s : Prop :=
  native_inv key_entry keys_typed s ∧ ∀ i, i ∈ alive ↔ is_Some (py_clients s !! i).

Lemma no_clients_ok s : free (py_net s) → py_clients s = ∅ → bindings_ok ∅ s.
Proof.
  intros Hf Hc. split; [split; [done|apply key_entry_heard|]|];
    [by intros i c; rewrite Hc, lookup_empty|].
  intros i. rewrite Hc, lookup_empty. split; [set_solver|by intros [? ?]].
Qed.

(** The worker makes a client under a free identity, and calls the methods of
    those alive. *)
Lemma worker_ready op alive s :
  bindings_ok alive s →
  match op with PyClient i _ _ => i ∉ alive | _ => op_self op ∈ alive end → py_ready op s = true.
Proof.
  intros [_ Hb] Hi. destruct op; cbn in *; apply bool_decide_eq_true;
    [by rewrite eq_None_not_Some, <-Hb|by apply Hb..].
Qed.

(** The methods behind the requests. *)
Definition request_op (i : nat) (r : request) : py_op :=
  match r with
  | ReqPublish t d => PyPublish i t d
  | ReqSubscribe t => PySubscribe i t
  | ReqGetTopicKey t => PyGetTopicKey i t
  end.

Lemma native_run_op i r s : native_run i r s = py_run (request_op i r) s.
Proof. by destruct r. Qed.

Lemma request_ready i r alive s :
  bindings_ok alive s → i ∈ alive → py_ready (request_op i r) s = true.
Proof. intros H Hi. eapply worker_ready; [exact H|by destruct r]. Qed.

(** A method leaves the clients alive. *)
Lemma method_keeps op alive s cop :
  to_client_op op = Some cop → bindings_ok alive s → op_self op ∈ alive →
  py_typed op (fst (py_run op s)) ∧ bindings_ok alive (snd (py_run op s)).
Proof.
  intros Hop Hok Hi. assert (Hready : py_ready op s = true)
    by (apply (worker_ready _ _ _ Hok); by destruct op).
  destruct Hok as [Hinv Hb]. destruct (proj1 (Hb _) Hi) as [c Hc].
  split; [by apply py_typed_run|].
  split; [by apply (py_run_inv key_entry keys_typed); [apply keys_typed_fresh|..]|].
  intros j. rewrite (py_run_client op cop s c Hop Hc), Hb. cbn.
  destruct (decide (op_self op = j)) as [<-|]; [|by rewrite lookup_insert_ne].
  rewrite lookup_insert_eq, Hc. split; by eexists.
Qed.

(** A construction adds its client when it returns. *)
Lemma construction_keeps i host port alive s :
  bindings_ok alive s → i ∉ alive →
  match Client_init i host port s with
  | (Ok _, s') => bindings_ok ({[i]} ∪ alive) s'
  | (Throw _, s') => bindings_ok alive s'
  | _ => False
  end.
Proof.
  intros Hok Hi. assert (Hready : py_ready (PyClient i host port) s = true)
    by by apply (worker_ready _ _ _ Hok).
  destruct Hok as [Hinv Hb]. pose proof (py_typed_run _ s Hready Hinv) as Ht.
  cbn in Hready. apply bool_decide_eq_true in Hready.
  pose proof (Client_init_client i host port s Hready) as Hk.
  pose proof (Client_init_others i host port s) as Ho.
  pose proof (Client_init_inv _ _ i host port s keys_typed_fresh Hinv) as Hinv'.
  cbn [py_run] in Ht. rewrite bind_ret_run in Ht. cbn [fst py_typed] in Ht.
  destruct (Client_init i host port s) as [[[]|e| |] s']; cbn [fst snd outcome_map] in *.
  - split; [exact Hinv'|]. intros j. rewrite elem_of_union, elem_of_singleton, Hb.
    destruct (decide (j = i)) as [->|Hne]; [|rewrite Ho by done; naive_solver].
    split; [intros _; apply Hk; by eexists|by left].
  - split; [exact Hinv'|]. intros j. rewrite Hb.
    destruct (decide (j = i)) as [->|Hne]; [|by rewrite Ho by done].
    rewrite Hready. split; [by intros [? ?]|by intros [? [=]]%Hk].
  - by destruct (is_uint16 port).
  - by destruct (is_uint16 port).
Qed.

#[export] Program Instance native_laws : NativeLaws Native := {| native_ok := bindings_ok |}.
Next Obligation. intros i host port alive s. apply construction_keeps. Qed.
Next Obligation.
  intros i r alive s Hok Hi. rewrite native_run_op.
  destruct (to_client_op (request_op i r)) as [cop|] eqn:Ecop; [|by destruct r].
  destruct (method_keeps (request_op i r) alive s cop Ecop Hok ltac:(by destruct r)) as [Ht Hk].
  destruct r; by destruct (py_run _ s) as [[]].
Qed.
Next Obligation.
  intros i alive s Hok Hi. pose proof (method_keeps (PyPoll i) alive s _ eq_refl Hok Hi) as [Ht Hk].
  cbn [py_run] in Ht, Hk. rewrite bind_ret_run in Ht, Hk. cbn [native_poll native_bindings].
  by destruct (Client_poll i s) as [[[m|]|e| |] s'].
Qed.
Next Obligation.
  intros i alive s [Hinv Hb] Hi. destruct (proj1 (Hb i) Hi) as [c Hc].
  cbn [native_drop native_bindings].
  pose proof (py_run_inv key_entry keys_typed (PyDel i) s keys_typed_fresh) as Hk.
  cbn [py_run] in Hk. rewrite bind_ret_run in Hk. cbn [snd] in Hk.
  specialize (Hk (bool_decide_eq_true_2 _ (ex_intro _ c Hc)) Hinv).
  rewrite (Client_dealloc_run i s c Hc) in *. split; [exact Hk|].
  intros j. cbn. rewrite elem_of_difference, elem_of_singleton, Hb.
  destruct (decide (j = i)) as [->|Hne]; [|rewrite lookup_delete_ne by done; naive_solver].
  rewrite lookup_delete_eq. split; [by intros [_ []]|by intros [? ?]].
Qed.

(** A message is one of the results of [enet_host_service] that are left. *)
Lemma poll_backlog i alive s m s' :
  bindings_ok alive s → i ∈ alive → Client_poll i s = (Ok (Some m), s') →
  length (w_service (n_world (py_net s'))) < length (w_service (n_world (py_net s))).
Proof.
  intros [Hinv Hb] Hi. destruct (proj1 (Hb i) Hi) as [c Hc].
  destruct (native_client _ _ s i c Hinv Hc) as [Hidle _ _].
  destruct (poll_run _ Hidle) as (n & Hrun & _ & Hser).
  set (o := outcome_map _ _) in Hrun.
  unfold Client_poll, on_client, bind. rewrite Hc, Hrun. cbn [fst snd].
  cbn [c_net with_net] in Hser |- *.
  destruct (w_service (n_world (py_net s))) as [|r rest] eqn:Es.
  { assert (o = Ok None) as -> by (unfold o; cbn [c_net with_net]; by rewrite Es).
    by intros [=]. }
  destruct o as [[m'|]|e| |]; intros E; try discriminate. injection E as <- <-.
  cbn [py_net]. rewrite Hser. cbn. lia.
Qed.

(** The results of [enet_host_service] that are left. *)
Definition backlog s : nat := length (w_service (n_world (py_net s))).

Lemma release_backlog q (a a' : AsyncClient Native) :
  native_inv_of a → release q a = Some a' → backlog (a_native a') ≤ backlog (a_native a).
Proof.
  intros Hn. unfold release. destruct (decide _) as [Hq|]; [|done]. cbn [native_drop native_bindings].
  destruct (nat_ok _ Hn) as [_ Hb].
  destruct (proj1 (Hb q)) as [c Hc]; [unfold alive; set_solver|].
  rewrite (Client_dealloc_run q _ c Hc). intros [= <-].
  unfold backlog. cbn [a_native set_kept set_native py_net].
  destruct (dtor_progress (m_client c) (py_net (a_native a))) as [(used & _ & Hu & _) _].
  apply (f_equal length) in Hu. rewrite length_app in Hu. lia.
Qed.

(** The results that ENet gives are a finite list, so a worker over the
    extension module does not poll for ever. *)
Lemma bindings_unstarved host port (σ : nat → AsyncClient Native) ℓ :
  execution host port σ ℓ → fair host port σ ℓ → unstarved σ.
Proof.
  intros Hex Hfair n. remember (backlog (a_native (σ n))) as b eqn:Eb. revert n Eb.
  induction b as [b IH] using lt_wf_ind. intros n Eb.
  destruct (decide (phase (a_worker (σ n)) = phase Polling)) as [Ep|Hne];
    [|exists n; split; [lia|]; by intros Hw; rewrite Hw in Hne].
  set (P := λ a : AsyncClient Native, a_worker a = Polling ∧ backlog (a_native a) ≤ b).
  destruct (worker_turn host port P σ ℓ n Hex Hfair) as (m & e & Hle & [Hw Hb] & Hs).
  - intros a [Ha _]. by rewrite Ha.
  - intros i [Hi Hb] Hl. destruct (ex_step _ _ _ _ Hex i) as [e He].
    destruct (execution_inv host port σ ℓ i Hex) as [[evs Hinv] Hnat].
    split; [by rewrite (other_step_worker host port _ _ _ _ (async_thread _ _ Hinv) He Hl); rewrite Hi|].
    destruct (step_thread host port _ _ _ _ He) as [(? & _)|[[[En _]|[q El]] _]]; [done|by rewrite En|].
    rewrite El in He. cbn [step loop_step] in He. destruct (release q (σ i)) as [a|] eqn:Er; [|done].
    injection He as <- _. pose proof (release_backlog q _ _ Hnat Er). lia.
  - split; [by destruct (a_worker (σ n))|lia].
  - destruct (execution_inv host port σ ℓ m Hex) as [_ Hnat]. pose proof (nat_ok _ Hnat) as Hok.
    pose proof (worker_alive (σ m) ltac:(by rewrite Hw)) as Hal.
    unfold worker_step, poll_messages in Hs. rewrite Hw in Hs. cbn [native_poll native_bindings] in Hs.
    destruct (Client_poll _ _) as [[[m'|]|x| |] s'] eqn:Epoll; try done.
    2, 3: exists (S m); split; [lia|]; injection Hs as <- _; by cbn.
    pose proof (poll_backlog _ _ _ _ _ Hok Hal Epoll) as Hlt.
    destruct (message_of_native m'); injection Hs as Hs _;
      [|exists (S m); split; [lia|]; rewrite <-Hs; by cbn].
    destruct (IH (backlog (a_native (σ (S m))))) with (n := S m) as (i & ? & ?);
      [rewrite <-Hs; unfold backlog in *; cbn; lia|done|]. exists i. split; [lia|done].
Qed.
End native_laws.

(** ** Properties *)

Section liveness.
Context {C : Type} `{!NativeClient C, !NativeLaws C} (host : string) (port : Z).
Implicit Types (s : AsyncClient C) (evs : list event).

(** C8: in every fair execution, a call that is accepted while the worker takes
    commands, none of which is "close", is answered if the worker leaves
    [_poll_messages] again and again: some step later its future has a result,
    an exception, or was cancelled by its caller, and it stays so.  So is the
    command of [close].  This holds whatever else the native client answers,
    whether or not the connection is lost while the command waits.  And the
    condition is needed: a worker that stays in [_poll_messages] for ever polls
    message after message, and a command in the queue is not answered then, but
    by the cancellation of its caller. *)
Theorem calls_are_answered σ ℓ n :
  execution host port σ ℓ → fair host port σ ℓ →
  (∃ r, ℓ n = LCall r) ∧ ensure_running (σ n) = None ∨ ℓ n = LClosePut →
  Forall is_request (a_commands (σ n)) → serving (a_worker (σ n)) →
  let f := a_fresh (σ n) in
  (unstarved σ →
   ∃ m x, n < m ∧ x ≠ Pending ∧ ∀ i, m ≤ i → a_futures (σ i) !! f = Some x) ∧
  (∀ m, n < m → (∀ i, m ≤ i → a_worker (σ i) = Polling) →
   f ∈ cmd_future <$> a_commands (σ m) →
   ∀ i, m ≤ i →
     (a_futures (σ i) !! f = Some Pending ∨ a_futures (σ i) !! f = Some Cancelled) ∧
     ∃ j q msg, i ≤ j ∧ step host port (ℓ j) (σ j) = Some (σ (S j), [EvPolled q msg])).
Proof.
  intros Hex Hfair Hl Hall Hserve f. split; cycle 1.
  { intros m _ Hpoll Hf i Hi. split; [by eapply starving_unanswered|].
    apply starving_polls; try done. intros j Hj. apply Hpoll. lia. }
  intros Hun. destruct (ex_step _ _ _ _ Hex n) as [e He].
  assert (Hput : ∃ name, a_commands (σ (S n)) = a_commands (σ n) ++ [MkCommand name f] ∧
    a_worker (σ (S n)) = a_worker (σ n)).
  { destruct Hl as [[[r El] Hrun]|El]; rewrite El in He; cbn [step] in He.
    - destruct (loop_free _); [|discriminate]. cbn [loop_step] in He. unfold call in He.
      rewrite Hrun in He. injection He as <- <-. by exists (CmdRequest r).
    - destruct (a_closing _); try discriminate. injection He as <- <-. by exists CmdClose. }
  destruct Hput as (name & Ec & Ew).
  destruct (queued_answered host port σ ℓ (S n) f (length (a_commands (σ n))) Hex Hfair Hun)
    as (m & Hle & x & Hx & Hp).
  { exists (a_commands (σ n)), (MkCommand name f), []. by rewrite Ec, Ew. }
  exists m, x. split_and!; [lia|done|]. intros i Hi. by eapply future_stays.
Qed.

(** In every fair execution, [connect] is answered: the future that it
    awaits gets a result or the exception of the constructor, unless the call
    is cancelled. *)
Theorem connect_is_answered σ ℓ n :
  execution host port σ ℓ → fair host port σ ℓ →
  ℓ n = LConnect → a_thread (σ n) = false →
  ∃ m x, n < m ∧ x ≠ Pending ∧
    ∀ i, m ≤ i → a_futures (σ i) !! a_fresh (σ n) = Some x.
Proof.
  intros Hex Hfair El Ht. destruct (ex_step _ _ _ _ Hex n) as [e He]. rewrite El in He.
  cbn [step] in He. destruct (loop_free _); [|discriminate]. cbn [loop_step] in He.
  injection He as He _. unfold connect in He. rewrite Ht in He.
  destruct (starting_answered host port σ ℓ (S n) (a_fresh (σ n)) Hex Hfair) as (m & Hle & x & Hx & Hp).
  { by rewrite <-He. }
  exists m, x. split_and!; [lia|done|]. intros i Hi. by eapply future_stays.
Qed.
End liveness.

Section losses.
Context {C : Type} `{!NativeClient C} (host : string) (port : Z).
Implicit Types (s : AsyncClient C) (evs : list event).

(** A command that is queued when the worker takes no further one. *)
Lemma late_command_lost s evs l ls s' evs' :
  commands_inv s evs → finished (a_worker s) →
  (∃ r, l = LCall r) ∧ ensure_running s = None ∨ l = LClosePut →
  run_steps_of host port (l :: ls) s = Some (s', evs') → LConnect ∉ ls →
  a_futures s' !! a_fresh s = Some Pending ∨ a_futures s' !! a_fresh s = Some Cancelled.
Proof.
  intros Hinv Hw Hl Hrun Hnc. cbn in Hrun.
  assert (Hput : ∀ s1 e1, step host port l s = Some (s1, e1) → lost (a_fresh s) s1).
  { intros s1 e1 Hs. destruct Hl as [[[r ->] Her]| ->]; cbn [step] in Hs.
    - destruct (loop_free s); [|discriminate]. cbn [loop_step] in Hs. unfold call in Hs.
      rewrite Her in Hs. injection Hs as <- <-. by eapply new_command_lost.
    - destruct (a_closing s); try discriminate. injection Hs as <- <-. unfold close_put.
      by destruct (new_command_lost CmdClose s evs Hinv Hw). }
  destruct (step host port l s) as [[s1 e1]|]; [|discriminate].
  destruct (run_steps_of host port ls s1) as [[s2 e2]|] eqn:E; [|discriminate].
  injection Hrun as -> _. eapply lost_future, run_lost; [by eapply Hput|done..].
Qed.

(** C28: a command that is queued when the worker takes no further one,
    because it holds that of [close] or has failed and drained the queue, is
    accepted but never answered: until the client is connected again, its
    future stays pending, in every run, unless the caller gives up.  This is so
    for calls and for [close] itself. *)
Theorem late_commands_lost c ls s evs l ls' s' evs' :
  run_steps_of host port ls (AsyncClient_init c) = Some (s, evs) →
  finished (a_worker s) →
  (∃ r, l = LCall r) ∧ ensure_running s = None ∨ l = LClosePut →
  run_steps_of host port (l :: ls') s = Some (s', evs') → LConnect ∉ ls' →
  a_futures s' !! a_fresh s = Some Pending ∨ a_futures s' !! a_fresh s = Some Cancelled.
Proof.
  intros Hinit Hw Hl Hrun Hnc. apply run_async_inv in Hinit as [_ Hinv _].
  by eapply late_command_lost.
Qed.

(** C29: a "close" that was given up ends the next connection: when [close] put
    its command after the worker had drained the queue, and the task that
    waited was cancelled, the command stays in the queue; the client can be
    closed and connected again, the new connection starts, its worker takes the
    old command and ends.  The calls that are accepted from then on are never
    answered, until the client is connected once more. *)
Theorem abandoned_close_ends_next_connection c ls s evs f rest n :
  run_steps_of host port ls (AsyncClient_init c) = Some (s, evs) →
  a_worker s = NotRunning → a_thread s = true → a_closing s = NotClosing →
  a_commands s = MkCommand CmdClose f :: rest →
  native_open (S (a_generation s)) host port (a_native s) = (Ok tt, n) →
  ∃ s', run_steps_of host port [LClose; LConnect; LWorker; LWorker; LWorker; LWorker] s =
      Some (s', [EvDone (MkCommand CmdClose f) (inl PyNone)]) ∧
    a_callbacks s' = a_callbacks s ++ [CbComplete (a_fresh s) (inl PyNone); CbComplete f (inl PyNone)] ∧
    ensure_running s' = None ∧ finished (a_worker s') ∧ a_commands s' = rest ∧
    ∀ ls1 s1 evs1 r ls2 s2 evs2,
      run_steps_of host port ls1 s' = Some (s1, evs1) → LConnect ∉ ls1 →
      ensure_running s1 = None →
      run_steps_of host port (LCall r :: ls2) s1 = Some (s2, evs2) → LConnect ∉ ls2 →
      a_futures s2 !! a_fresh s1 = Some Pending ∨ a_futures s2 !! a_fresh s1 = Some Cancelled.
Proof.
  intros Hinit Hw Ht Hc Hq Hopen.
  assert (Hrun : ∃ s', run_steps_of host port [LClose; LConnect; LWorker; LWorker; LWorker; LWorker] s =
      Some (s', [EvDone (MkCommand CmdClose f) (inl PyNone)]) ∧
    a_callbacks s' = a_callbacks s ++ [CbComplete (a_fresh s) (inl PyNone); CbComplete f (inl PyNone)] ∧
    ensure_running s' = None ∧ a_commands s' = rest ∧ a_worker s' = Ending true).
  { eexists. split.
    { cbn [AsyncClient.run_steps_of AsyncClient.step loop_step]. unfold loop_free. rewrite Hc.
      unfold close. rewrite Ht, Hw. cbn. rewrite Hopen. cbn. by rewrite Hq. }
    split_and!; [cbn; by rewrite <-app_assoc|done..]. }
  destruct Hrun as (s' & Hrun & Hcb & Her & Hrest & Hw'). exists s'.
  split_and!; [done..|by rewrite Hw'|done|].
  intros ls1 s1 evs1 r ls2 s2 evs2 Hrun1 Hnc1 He Hrun2 Hnc2.
  apply run_async_inv in Hinit.
  pose proof (run_keeps_inv _ _ _ _ _ _ _ (run_keeps_inv _ _ _ _ _ _ _ Hinit Hrun) Hrun1)
    as [_ Hinv1 _].
  eapply (late_command_lost s1); [done| |left; split; [by eexists|done]|done..].
  eapply (run_until_connect host port (λ s, finished (a_worker s))); [|by rewrite Hw'|exact Hnc1|exact Hrun1].
  intros l s3 s4 e3 H3 Hne Hs3. by eapply step_finished.
Qed.

End losses.

(** ** Witnesses *)

(** A schedule: [connect], and one call at step [k]; else the worker and the
    loop take turns, where they can. *)
Section rota.
Context {C : Type} `{!NativeClient C} (host : string) (port : Z) (k : nat) (r : request) (c : C).

Definition rota (n : nat) (s : AsyncClient C) : label :=
  if n =? 0 then LConnect
  else if n =? k then LCall r
  else if Nat.even n then match worker_step host port s with Some _ => LWorker | None => LConnect end
  else match a_callbacks s with [] => LConnect | _ => LCallback end.

Fixpoint turn (n : nat) : AsyncClient C :=
  match n with
  | 0 => AsyncClient_init c
  | S n' =>
      match step host port (rota n' (turn n')) (turn n') with
      | Some (s', _) => s'
      | None => turn n'
      end
  end.

Lemma rota_step n s :
  a_closing s = NotClosing →
  ∃ s' e, step host port (rota n s) s = Some (s', e) ∧ a_closing s' = NotClosing.
Proof.
  intros Hc. assert (Hfree : loop_free s = true) by (unfold loop_free; by rewrite Hc).
  assert (Hcon : ∃ s' e, step host port LConnect s = Some (s', e) ∧ a_closing s' = NotClosing).
  { cbn [step loop_step]. rewrite Hfree. eexists _, _. split; [done|]. unfold connect.
    by destruct (a_thread s). }
  unfold rota. destruct (n =? 0); [done|]. destruct (n =? k).
  { cbn [step loop_step]. rewrite Hfree. unfold call.
    destruct (ensure_running s); eexists _, _; by split. }
  destruct (Nat.even _).
  - destruct (worker_step host port s) as [[s' e]|] eqn:E; [|done]. exists s', e. split; [done|].
    worker_cases E; done.
  - destruct (a_callbacks s) as [|cb rest] eqn:E; [done|]. cbn [step loop_step].
    rewrite Hfree, E. eexists _, _. split; [done|].
    destruct cb; cbn; [|done..]. by destruct (a_futures s !! f) as [[]|].
Qed.

Lemma turn_closing n : a_closing (turn n) = NotClosing.
Proof.
  induction n as [|n IH]; [done|]. cbn [turn].
  destruct (rota_step n (turn n) IH) as (s' & e & -> & ?). done.
Qed.

Context `{!NativeLaws C}.

Lemma rota_execution : native_ok ∅ c → execution host port turn (λ n, rota n (turn n)).
Proof.
  intros Hok. split; [by exists c|]. intros n. cbn [turn].
  destruct (rota_step n (turn n) (turn_closing n)) as (s' & e & -> & _). by exists e.
Qed.

Lemma rota_even n s :
  k < n → Nat.Even n → rota n s = LWorker ∨ worker_step host port s = None.
Proof.
  intros Hk He%Nat.even_spec. unfold rota. rewrite He.
  rewrite (proj2 (Nat.eqb_neq n 0)), (proj2 (Nat.eqb_neq n k)) by lia.
  destruct (worker_step host port s); auto.
Qed.

Lemma rota_odd n s : k < n → Nat.Odd n → rota n s = LCallback ∨ a_callbacks s = [].
Proof.
  intros Hk Ho%Nat.odd_spec. unfold rota. rewrite <-Nat.negb_odd, Ho. cbn [negb].
  rewrite (proj2 (Nat.eqb_neq n 0)), (proj2 (Nat.eqb_neq n k)) by lia.
  destruct (a_callbacks s); auto.
Qed.

Lemma rota_fair : fair host port turn (λ n, rota n (turn n)).
Proof.
  split; intros n.
  - exists (2 * (S (n + k))). split; [lia|]. apply rota_even; [lia|by eexists].
  - exists (2 * (S (n + k)) + 1). split; [lia|]. apply rota_odd; [lia|by eexists].
Qed.
End rota.

Section witnesses.
#[local] Instance progress_platform : Platform := little_endian.
#[local] Instance progress_cast : StrCast := ascii_cast.

Lemma sample_async_ok : native_ok ∅ sample_async.
Proof. apply no_clients_ok; done. Qed.

(** A native client that has a message at every poll. *)
Definition endless_message : FanoutMessage := MkFanoutMessage 1 "t" [].

#[local] Instance endless : NativeClient (gset nat) := {|
  native_open := λ i _ _, modify (λ alive, {[i]} ∪ alive);
  native_run := λ _ _, ret PyNone;
  native_poll := λ _, ret (Some endless_message);
  native_drop := λ i, modify (λ alive, alive ∖ {[i]});
  native_topic := λ m, inl (topic m);
|}.

#[local] Instance endless_laws : NativeLaws (gset nat).
Proof. by refine {| native_ok := λ alive c, c = alive |}; [intros i h p|intros i r|intros i|intros i]; cbn; intros alive c ->. Defined.

Abbreviation endless_turn := (turn "localhost" 6767 7 (ReqSubscribe "t") (∅ : gset nat)).
Abbreviation endless_label := (λ n, rota "localhost" 6767 7 (ReqSubscribe "t") n (endless_turn n)).

Lemma endless_execution : execution "localhost" 6767 endless_turn endless_label.
Proof. by apply rota_execution. Qed.

Lemma endless_polling i : 7 ≤ i → a_worker (endless_turn i) = Polling.
Proof.
  intros Hi. induction Hi as [|i Hi IH]; [vm_compute; reflexivity|].
  destruct (ex_step _ _ _ _ endless_execution i) as [e He].
  remember (endless_turn (S i)) as s' eqn:Es.
  destruct (decide (endless_label i = LWorker)) as [El|Hne].
  - rewrite El in He. cbn [step] in He. unfold worker_step in He. rewrite IH in He.
    unfold poll_messages in He. cbn in He. injection He as <- _. exact IH.
  - rewrite <-IH. eapply (other_step_worker "localhost" 6767); [|exact He|exact Hne|by rewrite IH].
    by apply (execution_thread "localhost" 6767 _ _ _ endless_execution).
Qed.

(** A call while the thread starts is answered; one to a worker that never
    runs out of messages is not. *)
Lemma calls_are_answered_witness :
  (∃ m x, 1 < m ∧ x ≠ Pending ∧
    a_futures (turn "localhost" 6767 1 (ReqGetTopicKey "t") sample_async m) !! 1 = Some x) ∧
  ∀ i, 8 ≤ i → a_futures (endless_turn i) !! 1 = Some Pending ∨
    a_futures (endless_turn i) !! 1 = Some Cancelled.
Proof.
  split.
  - pose proof (rota_execution "localhost" 6767 1 (ReqGetTopicKey "t") sample_async sample_async_ok) as Hex.
    pose proof (rota_fair "localhost" 6767 1 (ReqGetTopicKey "t") sample_async) as Hfair.
    destruct (calls_are_answered "localhost" 6767 _ _ 1 Hex Hfair) as [Hans _].
    + left. split; [by eexists|vm_compute; reflexivity].
    + vm_compute. constructor.
    + vm_compute. exact I.
    + destruct Hans as (m & x & Hm & Hx & Hall); [by eapply bindings_unstarved|].
      exists m, x. split; [exact Hm|]. split; [exact Hx|]. apply Hall. lia.
  - intros i Hi.
    destruct (calls_are_answered "localhost" 6767 _ _ 7 endless_execution (rota_fair _ _ _ _ _)) as [_ Hst].
    + left. split; [by eexists|vm_compute; reflexivity].
    + vm_compute. constructor.
    + vm_compute. exact I.
    + destruct (Hst 8 ltac:(lia)) with (i := i) as [Hf _]; [|vm_compute; left|exact Hi|exact Hf].
      intros j Hj. apply endless_polling. lia.
Defined.

Lemma connect_is_answered_witness :
  ∃ m x, 0 < m ∧ x ≠ Pending ∧
    a_futures (turn "localhost" 6767 1 (ReqGetTopicKey "t") sample_async m) !! 0 = Some x.
Proof.
  destruct (connect_is_answered "localhost" 6767 (turn "localhost" 6767 1 (ReqGetTopicKey "t") sample_async)
    _ 0 (rota_execution _ _ _ _ _ sample_async_ok) (rota_fair _ _ _ _ _)) as (m & x & Hm & Hx & Hall).
  - reflexivity.
  - reflexivity.
  - exists m, x. split; [exact Hm|]. split; [exact Hx|]. apply Hall. lia.
Defined.

(** A call while [close] awaits its command, which the worker holds. *)
Lemma late_commands_lost_witness :
  match run_steps_of "localhost" 6767 sample_labels (AsyncClient_init sample_async) with
  | Some (s, _) =>
      match run_steps_of "localhost" 6767
        [LCall (ReqSubscribe "u"); LWorker; LWorker; LWorker; LCallback; LCloseResume; LCloseResume] s with
      | Some (s', _) => a_futures s' !! 3 = Some Pending ∨ a_futures s' !! 3 = Some Cancelled
      | None => False
      end
  | None => False
  end.
Proof.
  destruct (run_steps_of _ _ _ _) as [[s evs]|] eqn:E; [|vm_compute in E; discriminate].
  destruct (run_steps_of _ _ (_ :: _) _) as [[s' evs']|] eqn:E'.
  - assert (a_fresh s = 3) as <- by (vm_compute in E; injection E as <- <-; reflexivity).
    eapply (late_commands_lost "localhost" 6767 sample_async _ s evs); [exact E|..|exact E'|].
    + vm_compute in E. injection E as <- <-. reflexivity.
    + left. split; [by eexists|]. vm_compute in E. injection E as <- <-. reflexivity.
    + rewrite !not_elem_of_cons. split_and!; [discriminate..|apply not_elem_of_nil].
  - vm_compute in E. injection E as <- <-. vm_compute in E'. discriminate.
Defined.

(** The first connection gets no host; [close] has seen the thread alive when
    the worker drains the queue, and its task is cancelled. *)
Definition sample_retry : Native :=
  MkNative
    (MkNetState (MkWorld 0 (λ _, Some 1%Z) [None; Some 3%Z] [Some 40%Z] [(1%Z, EVENT_CONNECT 40)]
       ∅ (λ _, None) 0 []) ∅) false ∅.

Definition sample_abandoned : list label :=
  [LConnect; LWorker; LClose; LWorker; LWorker; LWorker; LClosePut; LWorker; LCallback; LCallback;
   LCancel 1; LCloseResume].

Lemma abandoned_close_ends_next_connection_witness :
  match run_steps_of "localhost" 6767 sample_abandoned (AsyncClient_init sample_retry) with
  | Some (s, _) =>
      ∃ s', run_steps_of "localhost" 6767 [LClose; LConnect; LWorker; LWorker; LWorker; LWorker] s =
          Some (s', [EvDone (MkCommand CmdClose 1) (inl PyNone)]) ∧
        ∀ s2 evs2, run_steps_of "localhost" 6767 [LCall (ReqSubscribe "t"); LWorker; LCallback] s' =
            Some (s2, evs2) →
          a_futures s2 !! a_fresh s' = Some Pending ∨ a_futures s2 !! a_fresh s' = Some Cancelled
  | None => False
  end.
Proof.
  destruct (run_steps_of _ _ _ _) as [[s evs]|] eqn:E; [|vm_compute in E; discriminate].
  destruct (abandoned_close_ends_next_connection "localhost" 6767 _ _ s evs 1 []
    (snd (native_open (S (a_generation s)) "localhost" 6767 (a_native s))) E) as (s' & Hrun & _ & Her & _ & _ & Hlost).
  1-5: vm_compute in E; injection E as <- <-; vm_compute; reflexivity.
  exists s'. split; [exact Hrun|]. intros s2 evs2 Hrun2.
  apply (Hlost [] s' [] (ReqSubscribe "t") [LWorker; LCallback] s2 evs2);
    [reflexivity|apply not_elem_of_nil|exact Her|exact Hrun2|].
  rewrite !not_elem_of_cons. split_and!; [discriminate..|apply not_elem_of_nil].
Defined.
End witnesses.
