(* ===== verification/AsyncSession.v ===== *)
(** * The asyncio client as a sequential program

    The worker thread serialises: whatever the interleaving, what happens to
    the native client is one sequence of calls, the requests in the order in
    which they were issued, so that what [Bindings] proves of sequential
    programs holds of asyncio programs. *)

From Stdlib.Strings Require Import Byte.
From stdpp Require Import base gmap list strings.
From S2P Require Import Prelude Protocol World NetClient BusClient Bindings AsyncClient AsyncProgress.

(** ** What the events of a run show *)

Definition issued_commands (evs : list event) : list Command :=
  omap (λ e, match e with EvIssued c => Some c | _ => None end) evs.
Definition outcomes (evs : list event) : list (Command * (py_value + exn)) :=
  omap (λ e, match e with EvDone c r => Some (c, r) | _ => None end) evs.
Definition all_polled (evs : list event) : list FanoutMessage :=
  omap (λ e, match e with EvPolled _ m => Some m | _ => None end) evs.

(** The command that the worker holds. *)
Definition holding (w : worker_state) : list Command :=
  match w with Handling c => [c] | _ => [] end.

(** The requests among the commands, with their outcomes. *)
Definition answered_requests (evs : list event) : list (request * (py_value + exn)) :=
  omap (λ x, match cmd_name x.1 with CmdRequest r => Some (r, x.2) | CmdClose => None end)
    (outcomes evs).

Lemma issued_commands_app l k : issued_commands (l ++ k) = issued_commands l ++ issued_commands k.
Proof. apply omap_app. Qed.
Lemma outcomes_app l k : outcomes (l ++ k) = outcomes l ++ outcomes k.
Proof. apply omap_app. Qed.
Lemma all_polled_app l k : all_polled (l ++ k) = all_polled l ++ all_polled k.
Proof. apply omap_app. Qed.
Lemma answered_requests_app l k :
  answered_requests (l ++ k) = answered_requests l ++ answered_requests k.
Proof. unfold answered_requests. by rewrite outcomes_app, omap_app. Qed.

Section flow.
Context {C : Type} `{!NativeClient C} (host : string) (port : Z).
Implicit Types (s : AsyncClient C) (evs : list event).

#[local] Ltac flow :=
  cbn; repeat match goal with
    | E : a_worker _ = _ |- _ => rewrite E; clear E
    | E : a_commands _ = _ |- _ => rewrite E; clear E
    end; cbn; rewrite ?app_nil_r; congruence.

(** Commands pass from the queue to the worker's hand to their outcomes. *)
Lemma step_flow l s s' e :
  thread_inv s → step host port l s = Some (s', e) →
  holding (a_worker s) ++ a_commands s ++ issued_commands e =
    (outcomes e).*1 ++ holding (a_worker s') ++ a_commands s'.
Proof.
  intros Ht [[-> Hw]|[(-> & _ & -> & ->)|Hl]]%step_cases; [|done|].
  - worker_cases Hw; flow.
  - destruct l; cbn [loop_step] in Hl; try discriminate.
    10: { destruct (a_callbacks s) as [|cb rest]; [discriminate|]. injection Hl as <- <-.
          cbn. rewrite app_nil_r. destruct cb; cbn; [|done..]. by destruct (a_futures s !! f) as [[]|]. }
    1: { injection Hl as <- <-. unfold connect. destruct (a_thread s) eqn:Et; cbn.
         - by rewrite app_nil_r.
         - destruct (a_worker s) eqn:Ew; try (by rewrite Ht in Et by by rewrite Ew);
             cbn; by rewrite app_nil_r. }
    all: loop_cases Hl; flow.
Qed.
End flow.

(** ** The session behind a run *)

Section session.
Context {plat : Platform} {cast : StrCast} (host : string) (port : Z).
Implicit Types (s : AsyncClient Native) (evs : list event).

(** Calls on the native client, with their outcomes. *)
Implicit Types (calls : list (py_op * outcome py_value)).

Definition op_request (op : py_op) : option request :=
  match op with
  | PyPublish _ t d => Some (ReqPublish t d)
  | PySubscribe _ t => Some (ReqSubscribe t)
  | PyGetTopicKey _ t => Some (ReqGetTopicKey t)
  | PyClient _ _ _ | PyPoll _ | PyDel _ => None
  end.

(** The requests among them, and the messages that they gave, as text. *)
Definition executed calls : list (request * (py_value + exn)) :=
  omap (λ x, match op_request x.1, x.2 with
             | Some r, Ok v => Some (r, inl v)
             | Some r, Throw e => Some (r, inr e)
             | _, _ => None
             end) calls.

Definition messages_given calls : list FanoutMessage :=
  omap (λ x, match x with
             | (PyPoll _, Ok (PyMessage m)) =>
                 match message_of_native m with inl m => Some m | inr _ => None end
             | _ => None
             end) calls.

(** The requests answered are those executed, with their outcomes, and others
    that were failed without a call. *)
Inductive served : list (request * (py_value + exn)) → list (request * (py_value + exn)) → Prop :=
  | served_nil : served [] []
  | served_executed x l k : served l k → served (x :: l) (x :: k)
  | served_failed r e l k : served l k → served l ((r, inr e) :: k).

Lemma served_app l1 k1 l2 k2 : served l1 k1 → served l2 k2 → served (l1 ++ l2) (k1 ++ k2).
Proof. induction 1; cbn; [done|constructor..]; auto. Qed.

Lemma py_session_app l k (n : Native) :
  py_session (l ++ k) n =
    let r := py_session l n in
    let q := py_session k (snd r) in
    (fst r ++ fst q, snd q).
Proof.
  revert n. induction l as [|op l IH]; intros n; cbn [app py_session];
    [cbn [fst snd app]; by destruct (py_session k n)|].
  destruct (py_ready op n); [|done]. by rewrite IH.
Qed.

Lemma py_session_call op n :
  py_ready op n = true → py_session [op] n = ([(op, fst (py_run op n))], snd (py_run op n)).
Proof. intros H. cbn [py_session]. by rewrite H. Qed.

(** What a step adds. *)
Record session_step s s' (e : list event) calls : Prop := {
  ss_calls : py_session calls.*1 (a_native s) = (calls, a_native s');
  ss_served : served (executed calls) (answered_requests e);
  ss_messages : all_polled e = messages_given calls;
}.

Lemma session_quiet s s' e :
  a_native s' = a_native s → (∀ c r, EvDone c (inl r) ∈ e → cmd_name c = CmdClose) →
  all_polled e = [] → session_step s s' e [].
Proof.
  intros En Hdone Hp. split; [cbn; by rewrite En| |done]. cbn.
  induction e as [|[c|c r|q m|q m|x] e IH]; try (apply IH; [intros c' r' ?; apply (Hdone c' r'); by right|done]).
  - constructor.
  - unfold answered_requests. cbn. destruct (cmd_name c) as [|q] eqn:Ec.
    + apply IH; [intros c' r' ?; apply (Hdone c' r'); by right|done].
    + destruct r as [v|x]; [by rewrite (Hdone c v) in Ec by by left|].
      constructor. apply IH; [intros c' r' ?; apply (Hdone c' r'); by right|done].
Qed.

(** A call of the worker. *)
Lemma session_call op s s' e :
  py_ready op (a_native s) = true → a_native s' = snd (py_run op (a_native s)) →
  served (executed [(op, fst (py_run op (a_native s)))]) (answered_requests e) →
  all_polled e = messages_given [(op, fst (py_run op (a_native s)))] →
  session_step s s' e [(op, fst (py_run op (a_native s)))].
Proof. intros Hready En Hs Hm. split; [cbn [fmap list_fmap fst]; by rewrite py_session_call, En|done..]. Qed.

(** The native client's operations as calls of the session. *)
Lemma open_call i (n : Native) :
  py_run (PyClient i host port) n =
    (outcome_map (λ _, PyNone) (fst (native_open i host port n)), snd (native_open i host port n)).
Proof. cbn [py_run]. by rewrite bind_ret_run. Qed.

Lemma poll_call i (n : Native) :
  py_run (PyPoll i) n =
    (outcome_map (λ m, match m with Some m => PyMessage m | None => PyNone end) (fst (native_poll i n)),
     snd (native_poll i n)).
Proof. cbn [py_run]. by rewrite bind_ret_run. Qed.

Lemma drop_call i (n : Native) :
  py_run (PyDel i) n = (outcome_map (λ _, PyNone) (fst (native_drop i n)), snd (native_drop i n)).
Proof. cbn [py_run]. by rewrite bind_ret_run. Qed.

#[local] Ltac no_call :=
  exists []; apply session_quiet;
    [try done|by intros ? ? ?%elem_of_nil|done].

Lemma worker_session s s' e :
  native_inv_of s → worker_step host port s = Some (s', e) → ∃ calls, session_step s s' e calls.
Proof.
  intros Hn Hw. unfold worker_step in *.
  assert (Hok : bindings_ok (alive s) (a_native s)) by apply Hn.
  pose proof (worker_alive s) as Hal.
  destruct (a_worker s) as [| | | |d| |cl x|cl x|cl x|cl] eqn:Ew; cbn [has_client] in *; [done|..].
  - assert (Hfree : a_generation s ∉ alive s).
    { unfold alive. rewrite Ew. cbn. rewrite (left_id_L ∅ (∪)). apply Hn. by left. }
    eexists. apply session_call; [exact (worker_ready (PyClient _ host port) _ _ Hok Hfree)|..];
      rewrite open_call; destruct (native_open _ _ _ _) as [[] n]; try done; injection Hw as <- <-;
      done || constructor.
  - injection Hw as <- <-. no_call. unfold complete_started. by destruct (a_started s).
  - destruct (a_commands s); injection Hw as <- <-; no_call.
  - unfold handle_command in Hw. destruct (cmd_name d) as [|r] eqn:Ed.
    { injection Hw as <- <-. exists []. apply session_quiet; [done| |done].
      by intros c v [= -> _]%list_elem_of_singleton. }
    eexists. apply session_call; [exact (request_ready _ r _ _ Hok (Hal eq_refl))|..]; rewrite <-native_run_op;
      destruct (native_run _ r _) as [[] n]; try done; injection Hw as <- <-; try done;
      try (by destruct r); unfold answered_requests; cbn; rewrite Ed; destruct r; repeat constructor.
  - unfold poll_messages in Hw. eexists.
    apply session_call; [exact (worker_ready (PyPoll _) _ _ Hok (Hal eq_refl))|..]; rewrite poll_call;
      destruct (native_poll _ _) as [[[m'|]|x| |] n]; try done; cbn in *;
      try destruct (message_of_native m') as [m|]; injection Hw as <- <-; done || constructor.
  - injection Hw as <- <-. no_call. unfold complete_started. by destruct (a_started s).
  - injection Hw as <- <-. no_call.
  - destruct (a_commands s) as [|d rest]; injection Hw as <- <-; [no_call|].
    exists []. apply session_quiet; [done| |done]. by intros c v [=]%list_elem_of_singleton.
  - destruct cl; [|by injection Hw as <- <-; no_call]. unfold forget_client in Hw.
    destruct (a_raised s); [injection Hw as <- <-; no_call|].
    eexists. apply session_call; [exact (worker_ready (PyDel _) _ _ Hok (Hal eq_refl))|..];
      rewrite drop_call; destruct (native_drop _ _) as [[] n]; try done; injection Hw as <- <-;
      done || constructor.
Qed.

(** The destruction of a client that tracebacks kept. *)
Lemma release_session q s s' :
  native_inv_of s → release q s = Some s' → ∃ calls, session_step s s' [] calls.
Proof.
  intros Hn. unfold release. destruct (decide _) as [Hq|]; [|done]. intros Hs.
  assert (Hok : bindings_ok (alive s) (a_native s)) by apply Hn.
  assert (Hal : q ∈ alive s) by (unfold alive; set_solver).
  eexists. apply session_call; [exact (worker_ready (PyDel q) _ _ Hok Hal)|..];
    rewrite drop_call; destruct (native_drop _ _) as [[] n]; try done; injection Hs as <-;
    done || constructor.
Qed.

Lemma step_session l s s' e :
  thread_inv s → native_inv_of s → step host port l s = Some (s', e) →
  ∃ calls, session_step s s' e calls.
Proof.
  intros Ht Hn Hstep. destruct (decide (l = LWorker)) as [->|Hne]; [by eapply worker_session|].
  destruct (step_thread _ _ _ _ _ _ Hstep) as [(? & _)|[[[En _]|[q ->]] _]]; [done|exists []|]; cycle 1.
  { cbn [step loop_step] in Hstep. destruct (release q s) as [s1|] eqn:Er; [|done].
    injection Hstep as <- <-. by apply (release_session q). }
  destruct (step_cases _ _ _ _ _ _ Hstep) as [[? _]|[(-> & _ & -> & ->)|Hl]]; [done| |].
  - by apply session_quiet; [|intros c r [=]%list_elem_of_singleton|].
  - assert (He : ∀ x, x ∈ e → (∃ c, x = EvIssued c) ∨ (∃ q m, x = EvReceived q m) ∨ ∃ y, x = EvRaised y).
    { intros x. destruct l; cbn [loop_step] in Hl; try discriminate; loop_cases Hl;
        first [by intros ?%elem_of_nil|intros ->%list_elem_of_singleton]; eauto 6. }
    apply session_quiet; [done| |].
    + intros c r Hin. destruct (He _ Hin) as [[? [=]]|[(? & ? & [=])|[? [=]]]].
    + clear -He. induction e as [|x e IH]; [done|]. specialize (IH (λ y Hy, He y (list_elem_of_further _ _ _ Hy))).
      by destruct (He x ltac:(by left)) as [[? ->]|[(? & ? & ->)|[? ->]]].
Qed.

(** The state of a run, and the calls behind it. *)
Definition session_run c0 s evs : Prop :=
  async_inv s evs ∧ native_inv_of s ∧
  issued_commands evs = (outcomes evs).*1 ++ holding (a_worker s) ++ a_commands s ∧
  ∃ calls, py_session calls.*1 c0 = (calls, a_native s) ∧
    served (executed calls) (answered_requests evs) ∧
    all_polled evs = messages_given calls.

Lemma run_session c0 ls s evs :
  native_ok ∅ c0 → run_steps_of host port ls (AsyncClient_init c0) = Some (s, evs) →
  session_run c0 s evs.
Proof.
  intros Hc0 Hrun. change evs with ([] ++ evs).
  eapply (run_invariant host port (session_run c0)); [| |exact Hrun].
  - clear. intros l s s' evs e (Hinv & Hn & Ho & calls & Hcalls & Hserved & Hmsgs) Hstep.
    destruct (step_session l s s' e (async_thread _ _ Hinv) Hn Hstep) as (new & [Hnew Hs Hm]).
    pose proof (step_flow host port _ _ _ _ (async_thread _ _ Hinv) Hstep) as Hflow.
    split_and!; [by eapply step_async_inv|by eapply step_native; [apply Hinv|..]| |].
    + rewrite issued_commands_app, outcomes_app, Ho, fmap_app, <-!app_assoc. f_equal. exact Hflow.
    + exists (calls ++ new). split_and!.
      * by rewrite fmap_app, py_session_app, Hcalls; cbn [fst snd]; rewrite Hnew.
      * unfold executed in *. rewrite omap_app, answered_requests_app. by apply served_app.
      * unfold messages_given in *. by rewrite all_polled_app, omap_app, Hmsgs, Hm.
  - split_and!; [apply async_inv_init|by apply init_native|done|]. exists []. split_and!; [done|constructor|done].
Qed.
End session.

(** ** Properties *)

(** C13: whatever the interleaving of the event loop and the worker, an
    asyncio program is a sequential one.  The native clients are in the state
    that one sequence of calls of the bindings, each on a live object, leaves
    them in; among these calls the requests are, in order, those of the
    commands that the worker has answered, with the outcomes it answered
    (except that it fails some with an exception without a call); these
    commands are the first that were issued, in that order; and what the worker
    has posted is, in order, the messages that the calls of [poll] gave. *)
Theorem worker_is_sequential {plat : Platform} {cast : StrCast} host port c ls s evs :
  native_ok ∅ c → run_steps_of host port ls (AsyncClient_init c) = Some (s, evs) →
  ∃ calls, py_session calls.*1 c = (calls, a_native s) ∧
    served (executed calls) (answered_requests evs) ∧
    issued_commands evs = (outcomes evs).*1 ++ holding (a_worker s) ++ a_commands s ∧
    all_polled evs = messages_given calls.
Proof.
  intros Hc Hrun. destruct (run_session host port c ls s evs Hc Hrun)
    as (_ & _ & Ho & calls & ? & ? & ?). by exists calls.
Qed.

(** ** Witnesses *)

Section witnesses.
#[local] Instance session_platform : Platform := little_endian.
#[local] Instance session_cast : StrCast := ascii_cast.

Lemma worker_is_sequential_witness :
  match run_steps_of "localhost" 6767 sample_labels (AsyncClient_init sample_async) with
  | Some (s, evs) =>
      ∃ calls, py_session calls.*1 sample_async = (calls, a_native s) ∧
        served (executed calls) [(ReqSubscribe "t", inl PyNone)] ∧
        messages_given calls = [sample_message]
  | None => False
  end.
Proof.
  destruct (run_steps_of _ _ _ _) as [[s evs]|] eqn:E; [|vm_compute in E; discriminate].
  destruct (worker_is_sequential "localhost" 6767 _ _ _ _ sample_async_ok E)
    as (calls & Hcalls & Hs & _ & Hm).
  exists calls. split; [exact Hcalls|].
  vm_compute in E. injection E as _ <-. split; [exact Hs|]. etransitivity; [symmetry; exact Hm|reflexivity].
Defined.
End witnesses.
