(* ===== verification/Publications.v ===== *)
(** * What Python programs publish

    The publish packets that a process sends are those of the calls of
    [publish] that returned, in order, for sequential programs over the
    bindings and for asyncio programs in every interleaving. *)

From Stdlib.Strings Require Import Byte.
From stdpp Require Import base gmap list strings.
From S2P Require Import Prelude Protocol World Common NetClient BusClient.
From S2P Require Import Bindings AsyncClient AsyncProgress AsyncSession.

Section published.
Context {plat : Platform}.
Implicit Types (s : Native) (c : BusClient).

(** The payloads of the publish packets. *)
Definition published (out : list (ENetPeer * list byte)) : list (list byte) :=
  omap (λ d, match decode d.2 with Some (Publish _ payload) => Some payload | _ => None end) out.

Lemma published_app l k : published (l ++ k) = published l ++ published k.
Proof. apply omap_app. Qed.

(** The packets sent so far. *)
Definition sent s : list (ENetPeer * list byte) := sends (w_log (n_world (py_net s))).

(** What a call publishes, by its outcome. *)
Definition call_published (x : py_op * outcome py_value) : list (list byte) :=
  match x with (PyPublish _ _ payload, Ok _) => [payload] | _ => [] end.

Lemma published_message peer m :
  msg_wf m → published [(peer, packet (Origin_value Origin_client) m)] =
    match m with Publish _ payload => [payload] | _ => [] end.
Proof. intros H. unfold published. cbn. rewrite decode_cross_machine by done. by destruct m. Qed.

Lemma published_resolution topic c : published (resolution_sends topic c) = [].
Proof.
  unfold resolution_sends, lookup_sends. destruct (m_topic_map c !! topic); [done|].
  destruct (fst (connect_outcome _ _ _)); try done. apply published_message.
  unfold msg_wf, is_u64. cbn. lia.
Qed.

(** A request publishes its payload when the topic is resolved. *)
Lemma published_request topic (mk : Z → bus_msg) c r c' :
  idle c → keys_typed c → (∀ k, is_u64 k → msg_wf (mk k)) →
  (let! key := BusClient_get_topic_key topic in
   let! msg := zoom (build (Origin_value Origin_client) (mk key)) in
   let! client := gets m_client in
   zoom (NetClient_send client msg)) c = (r, c') →
  ∃ new, sends (w_log (n_world (c_net c'))) = sends (w_log (n_world (c_net c))) ++ new ∧
    published new = match resolution topic c with
                    | Ok key => match mk key with Publish _ payload => [payload] | _ => [] end
                    | _ => []
                    end.
Proof.
  intros Hidle Hk Hwf Hrun. eexists. split; [by eapply request_sends|].
  rewrite published_app, published_resolution. cbn [app].
  pose proof (resolution_typed topic c Hk). destruct (resolution topic c) as [k| | |]; try done.
  by apply published_message, Hwf.
Qed.

Lemma sends_init w : sends (w_log (init_world w)) = sends (w_log w).
Proof.
  unfold init_world. destruct (_ =? _)%Z; cbn; by rewrite ?sends_app, ?app_nil_r.
Qed.

Lemma Client_init_sent self h p s : sent (snd (Client_init self h p s)) = sent s.
Proof.
  unfold Client_init. destruct (is_uint16 p); [|done].
  rewrite Client_new_run. cbn zeta. set (started := if py_once s then _ else _).
  assert (Hst : sent (snd started) = sent s).
  { unfold started. destruct (py_once s); [done|]. apply sends_init. }
  destruct (fst started) as [[]|e| |]; cbn [snd]; [|exact Hst..].
  rewrite <-Hst. unfold sent. cbn [py_net].
  destruct (client_ctor_run h p (py_net (snd started))) as (n & Hn & _ & ->). cbn [snd].
  by eapply ctor_sends.
Qed.
(** What a call sends. *)
Lemma py_run_published op s :
  py_ready op s = true → native_inv key_entry keys_typed s →
  ∃ new, sent (snd (py_run op s)) = sent s ++ new ∧
    published new = call_published (op, fst (py_run op s)).
Proof.
  intros Hready%py_ready_live Hs. destruct op as [self h p|self t|self t d|self t|self|self].
  1: { exists []. cbn [py_run]. rewrite bind_ret_run, app_nil_r. split; [apply Client_init_sent|done]. }
  5: { destruct Hready as [c Hc]. exists []. cbn [py_run op_self] in *.
       rewrite bind_ret_run, (Client_dealloc_run self s c Hc), app_nil_r. split; [|done].
       destruct (proj1 (returns_inv _ _ _) (dtor_returns (m_client c) (py_net s)))
         as ([] & n & Hn & Hb & _).
       unfold sent. cbn [snd py_net]. rewrite Hn. cbn [snd]. by rewrite (balanced_sends _ _ _ Hb), app_nil_r. }
  all: destruct Hready as [c Hc]; destruct (native_client _ _ s self c Hs Hc) as [Hidle _ Hk];
    match goal with |- context [py_run ?op _] => rewrite (py_run_client op _ s c eq_refl Hc) end; cbn [fst snd client_value];
    unfold sent; cbn [py_net]; rewrite ?bind_ret_run; cbn [fst snd]; set (c1 := with_net (py_net s) c) in *.
  - exists (resolution_sends t c1). split; [by apply (resolve_sends t c1)|].
    by rewrite published_resolution.
  - destruct (BusClient_publish t d c1) as [r c'] eqn:Hrun.
    destruct (published_request t (λ k, Publish k d) c1 r c' Hidle Hk) as (new & Hn & Hp); [done|exact Hrun|].
    exists new. split; [exact Hn|]. rewrite Hp.
    destruct (request_run t (λ k, Publish k d) c1 Hidle) as (c2 & Hrun2 & _).
    assert (r = outcome_map (λ _, tt) (resolution t c1)) as ->.
    { unfold BusClient_publish in Hrun. cbn [build] in Hrun2. rewrite Hrun2 in Hrun. by injection Hrun. }
    by destruct (resolution t c1).
  - destruct (BusClient_subscribe t c1) as [r c'] eqn:Hrun.
    destruct (published_request t Subscribe c1 r c' Hidle Hk) as (new & Hn & Hp); [done|exact Hrun|].
    exists new. split; [exact Hn|]. rewrite Hp. by destruct (resolution t c1).
  - exists []. destruct (poll_run c1 Hidle) as (n & -> & Hb & _). cbn [snd c_net with_net].
    rewrite (balanced_sends _ _ _ Hb), !app_nil_r. by split.
Qed.

(** A sequential program publishes what its calls of [publish] that returned
    say, in order. *)
Lemma py_session_published ops s :
  native_inv key_entry keys_typed s →
  ∃ new, sent (snd (py_session ops s)) = sent s ++ new ∧
    published new = concat (call_published <$> fst (py_session ops s)).
Proof.
  revert s. induction ops as [|op ops IH]; intros s Hs; [exists []; by rewrite app_nil_r|].
  cbn [py_session]. destruct (py_ready op s) eqn:Hready; [|by apply IH].
  destruct (py_run_published op s Hready Hs) as (new1 & Hn1 & Hp1).
  destruct (IH (snd (py_run op s))) as (new2 & Hn2 & Hp2);
    [by apply (py_run_inv key_entry keys_typed); [apply keys_typed_fresh|..]|].
  exists (new1 ++ new2). cbn [fst snd fmap list_fmap concat].
  by rewrite Hn2, Hn1, <-app_assoc, published_app, Hp1, Hp2.
Qed.
End published.

(** ** Properties *)

Section asyncio.
Context {plat : Platform} {cast : StrCast}.

(** The payloads of the [publish] requests that were answered with a result. *)
Definition answered_publications (l : list (request * (py_value + exn))) : list (list byte) :=
  omap (λ x, match x with (ReqPublish _ payload, inl _) => Some payload | _ => None end) l.

Lemma executed_publications calls :
  answered_publications (executed calls) = concat (call_published <$> calls).
Proof.
  induction calls as [|[op r] calls IH]; [done|]. unfold executed, answered_publications in *.
  cbn [omap list_omap fmap list_fmap concat]. by destruct op, r; cbn; rewrite IH.
Qed.

(** Requests failed without a call have no result. *)
Lemma served_publications l k :
  served l k → answered_publications l = answered_publications k.
Proof.
  unfold answered_publications. induction 1 as [|[[] []] l k H IH|[] e l k H IH]; cbn; congruence.
Qed.

(** C14: in every interleaving of an asyncio program, what the process has
    published is what its calls of [publish] that were answered with a result
    say: one publish packet for each, with its payload unchanged, in the order
    in which the calls were issued; a call that was answered with an exception
    sent none. *)
Theorem publications_are_answered_calls host port c ls s evs :
  native_ok ∅ c → run_steps_of host port ls (AsyncClient_init c) = Some (s, evs) →
  ∃ new, sent (a_native s) = sent c ++ new ∧
    published new = answered_publications (answered_requests evs) ∧
    issued_commands evs = (outcomes evs).*1 ++ holding (a_worker s) ++ a_commands s.
Proof.
  intros Hc Hrun. destruct (run_session host port c ls s evs Hc Hrun)
    as (_ & _ & Ho & calls & Hcalls & Hserved & _).
  destruct (py_session_published calls.*1 c) as (new & Hnew & Hp); [apply Hc|].
  rewrite Hcalls in Hnew, Hp. cbn [fst snd] in Hnew, Hp.
  exists new. split_and!; [done| |done].
  by rewrite Hp, <-executed_publications, (served_publications _ _ Hserved).
Qed.
End asyncio.

(** ** Witnesses *)

Section witnesses.
#[local] Instance publications_platform : Platform := little_endian.
#[local] Instance publications_cast : StrCast := ascii_cast.

(** Two publications on a topic that the first one resolves. *)
Definition sample_publishing : list label :=
  [LConnect; LWorker; LCall (ReqPublish "t" [x68]); LCall (ReqPublish "t" [x69]); LWorker; LWorker;
   LWorker; LCallback; LWorker; LWorker; LWorker; LWorker; LCallback].

Lemma publications_are_answered_calls_witness :
  match run_steps_of "localhost" 6767 sample_publishing (AsyncClient_init sample_async) with
  | Some (s, _) => ∃ new, sent (a_native s) = new ∧ published new = [[x68]; [x69]]
  | None => False
  end.
Proof.
  destruct (run_steps_of _ _ _ _) as [[s evs]|] eqn:E; [|vm_compute in E; discriminate].
  destruct (publications_are_answered_calls "localhost" 6767 _ _ _ _ sample_async_ok E)
    as (new & Hnew & Hp & _).
  exists new. split; [exact Hnew|]. etransitivity; [exact Hp|].
  vm_compute in E. injection E as _ <-. vm_compute. reflexivity.
Defined.
End witnesses.
