(* ===== verification/Bus.v ===== *)
(** * The whole bus: server and clients together

    Theorems that join the two sides: what a client learns and receives, when
    everything it receives was sent by the server.  The machines may have
    different byte orders, and the network may delay, reorder, duplicate or
    lose packets. *)

From Stdlib.Strings Require Import Byte.
From stdpp Require Import base gmap sets list strings.
From S2P Require Import Prelude Protocol TopicMap World NetServer BusServer NetClient BusClient.

(** ** The server's side *)

(** The server's [process], with the machine it runs on explicit. *)
Definition server_process (splat : Platform) : M ServerObj unit :=
  @process ClientData ServerData _ (@BusServer_derived splat).

Definition server_dispatch (splat : Platform) (ev : ENetEvent) : M ServerObj unit :=
  @dispatch ClientData ServerData _ (@BusServer_derived splat) ev.

Section provenance.
Context {plat : Platform}.
Implicit Types (ps : PubSub).

(** Each message sent comes from one received, in the state reached before
    it. *)
Lemma ps_events_out evs ps d :
  d ∈ snd (ps_events evs ps) →
  ∃ pre from pk post m, evs = pre ++ EVENT_RECEIVE from pk :: post ∧
    decode (packet_data pk) = Some m ∧
    d ∈ snd (ps_message from m (fst (ps_events pre ps))).
Proof.
  revert ps. induction evs as [|ev evs IH]; intros ps; [by intros ?%elem_of_nil|].
  cbn [ps_events]. destruct (ps_event ev ps) as [ps1 out1] eqn:E1.
  specialize (IH ps1). destruct (ps_events evs ps1) as [ps2 out2] eqn:E2. cbn [snd] in *.
  intros [Hd|Hd]%elem_of_app.
  - destruct ev as [|peer|peer|peer pk]; cbn in E1;
      [by injection E1 as <- <-; apply elem_of_nil in Hd..|].
    destruct (decode (packet_data pk)) as [m|] eqn:Em;
      [|by injection E1 as <- <-; apply elem_of_nil in Hd].
    exists [], peer, pk, evs, m. split_and!; [done..|]. cbn. by rewrite E1.
  - destruct (IH Hd) as (pre & from & pk & post & m & -> & Hm & Hin).
    exists (ev :: pre), from, pk, post, m. split_and!; [done..|]. cbn [ps_events]. rewrite E1.
    by destruct (ps_events pre ps1).
Qed.

(** A key, once given, stays. *)
Lemma ps_event_stable ev ps name key :
  spec_get name (ps_topics ps) = Some key →
  spec_get name (ps_topics (fst (ps_event ev ps))) = Some key.
Proof.
  intros H. destruct ev as [|peer|peer|peer pk]; cbn [ps_event fst ps_topics]; [done..|].
  destruct (decode (packet_data pk)) as [[]|]; try done. by apply spec_get_or_create_stable.
Qed.

Lemma ps_events_stable evs ps name key :
  spec_get name (ps_topics ps) = Some key →
  spec_get name (ps_topics (fst (ps_events evs ps))) = Some key.
Proof.
  revert ps. induction evs as [|ev evs IH]; intros ps H; [done|]. cbn [ps_events].
  apply (ps_event_stable ev) in H. destruct (ps_event ev ps) as [ps1 out1].
  specialize (IH ps1 H). by destruct (ps_events evs ps1).
Qed.

(** A response carries the key that the registry holds at the end. *)
Lemma response_in_registry evs ps q key name :
  (q, Topic_response key name) ∈ snd (ps_events evs ps) →
  spec_get name (ps_topics (fst (ps_events evs ps))) = Some key.
Proof.
  intros (pre & from & pk & post & m & -> & Hm & Hin)%ps_events_out.
  set (ps1 := fst (ps_events pre ps)) in *.
  assert (Hreq : m = Topic_request name ∧ key = fst (spec_get_or_create name (ps_topics ps1))).
  { destruct m; cbn in Hin; try by apply elem_of_nil in Hin.
    - apply list_elem_of_singleton in Hin as [= -> -> ->]. done.
    - apply list_elem_of_fmap in Hin as (? & ? & _). done. }
  destruct Hreq as [-> ->].
  rewrite ps_events_app. cbn [fst]. fold ps1. cbn [ps_events ps_event]. rewrite Hm.
  cbn [ps_message]. set (ps2 := MkPubSub _ _).
  pose proof (ps_events_stable post ps2 name (fst (spec_get_or_create name (ps_topics ps1)))
    (spec_get_or_create_get _ _)) as Hfinal.
  by destruct (ps_events post ps2).
Qed.

(** A fanout carries what another client published, to a client subscribed
    at that time. *)
Lemma fanout_published evs q key data :
  events_ok ∅ evs = true →
  (q, Fanout key data) ∈ snd (ps_events evs PubSub_empty) →
  ∃ pre from pk post, evs = pre ++ EVENT_RECEIVE from pk :: post ∧
    decode (packet_data pk) = Some (Publish key data) ∧ q ≠ from ∧
    sub_history q key false pre = true.
Proof.
  intros Hev (pre & from & pk & post & m & -> & Hm & Hin)%ps_events_out.
  exists pre, from, pk, post. split; [done|].
  assert (Hpub : m = Publish key data ∧
    q ∈ ps_receivers from key (fst (ps_events pre PubSub_empty))).
  { destruct m; cbn in Hin; try by apply elem_of_nil in Hin.
    - by apply list_elem_of_singleton in Hin.
    - by apply list_elem_of_fmap in Hin as (? & [= -> -> ->] & ?). }
  destruct Hpub as [-> Hq]. split; [done|].
  apply list_elem_of_fmap in Hq as ([q' subs] & -> & Hq).
  apply list_elem_of_filter in Hq as [[Hne Hkey] Hq]. split; [done|].
  apply (ps_events_subscribed ∅ pre PubSub_empty q' key false).
  - by eapply events_ok_app.
  - split; [constructor|]. intros p. cbn. set_solver.
  - split; [by intros (? & ?%elem_of_nil & _)|done].
  - by exists subs.
Qed.

(** What the service sends fits the wire. *)
Lemma ps_events_out_wf evs ps d :
  (Z.of_nat (length (ps_topics ps) + length evs) < 2 ^ 64 - 1)%Z →
  d ∈ snd (ps_events evs ps) → msg_wf (snd d).
Proof.
  intros Hb (pre & from & pk & post & m & -> & Hm & Hin)%ps_events_out.
  rewrite length_app in Hb. cbn [length] in Hb. pose proof (ps_events_topics pre ps) as Hlen.
  set (ps1 := fst (ps_events pre ps)) in *. apply decode_wf in Hm.
  destruct m as [name| |key data| | |]; cbn in Hin; try by apply elem_of_nil in Hin.
  - apply list_elem_of_singleton in Hin as ->. unfold msg_wf, is_u64. cbn [snd msg_key].
    pose proof (spec_get_or_create_get name (ps_topics ps1)) as Hget.
    apply spec_get_bound in Hget; [lia|]. unfold topics_bound.
    destruct (spec_get_or_create_prefix name (ps_topics ps1)) as (new & -> & Hnew).
    rewrite length_app. lia.
  - by apply list_elem_of_fmap in Hin as (? & -> & _).
Qed.
End provenance.

(** ** The client's side *)

(** What the network may deliver to a client: packets that the server sent to
    one of its connections.  Nothing is said about their order or number. *)
Definition delivered (sent : list (ENetPeer * list byte)) (own : gset ENetPeer)
    (results : list (Z * ENetEvent)) : Prop :=
  ∀ r peer p, (r, EVENT_RECEIVE peer p) ∈ results →
    ∃ q, q ∈ own ∧ (q, packet_data p) ∈ sent.

(** A client that has just connected. *)
Record fresh_client (c : BusClient) : Prop := {
  fresh_idle : idle c;
  fresh_forward : BusClient.m_topic_map c = ∅;
  fresh_inverse : m_inverse_topic_map c = ∅;
}.

Section join.
Context (splat cplat : Platform).

(** A packet delivered holds the message that the service sent. *)
Lemma delivered_message out own results r peer p :
  (∀ d, d ∈ out → msg_wf (snd d)) →
  delivered ((λ d, (d.1, @packet splat (Origin_value Origin_server) d.2)) <$> out) own results →
  (r, EVENT_RECEIVE peer p) ∈ results →
  ∃ q m, q ∈ own ∧ (q, m) ∈ out ∧ @decode cplat (packet_data p) = Some m.
Proof.
  intros Hwf Hdel Hin. destruct (Hdel _ _ _ Hin) as (q & Hq & Hsent).
  apply list_elem_of_fmap in Hsent as ([q' m] & [= -> ->] & Hout).
  exists q', m. split_and!; [done..|]. apply decode_cross_machine. by apply (Hwf (q', m)).
Qed.

(** The responses of a run agree with the registry at its end. *)
Lemma delivered_told out evs t own results :
  topics_rel t (ps_topics (fst (@ps_events splat evs PubSub_empty))) →
  out = snd (@ps_events splat evs PubSub_empty) →
  (∀ d, d ∈ out → msg_wf (snd d)) →
  delivered ((λ d, (d.1, @packet splat (Origin_value Origin_server) d.2)) <$> out) own results →
  @told cplat (m_map t) results.
Proof.
  intros Ht -> Hwf Hdel r peer p n k Hin Hd.
  destruct (delivered_message _ _ _ _ _ _ Hwf Hdel Hin) as (q & m & _ & Hout & Hm).
  rewrite Hm in Hd. injection Hd as ->. rewrite (rel_map _ _ Ht).
  by eapply response_in_registry.
Qed.

Lemma fresh_client_ok srv c :
  fresh_client c → @told cplat srv (w_service (n_world (c_net c))) → @client_ok cplat srv c.
Proof.
  intros [Hidle Hf Hi] Htold. split; [done..|]. split; rewrite Hf, ?Hi.
  - intros n k. by rewrite lookup_empty.
  - intros n k. by rewrite !lookup_empty.
Qed.

(** The results still to come are among those there were. *)
Lemma client_ops_results srv ops c r :
  injective_map srv → @client_ok cplat srv c →
  r ∈ w_service (n_world (c_net (@run_client_ops cplat ops c))) →
  r ∈ w_service (n_world (c_net c)).
Proof.
  intros Hinj. revert c. induction ops as [|op ops IH]; intros c Hok Hr; [done|].
  apply IH in Hr; [|by apply client_op_ok].
  destruct (client_op_progress op c (ok_idle _ _ Hok)) as [(used & _ & -> & _) _].
  apply elem_of_app. by right.
Qed.

(** A fanout polled came in a packet delivered. *)
Lemma poll_source c f :
  idle c → fst (@BusClient_poll cplat c) = Ok (Some f) →
  (∃ r peer p, (r, EVENT_RECEIVE peer p) ∈ w_service (n_world (c_net c)) ∧
    @decode cplat (packet_data p) = Some (Fanout (topic_key f) (payload f))).
Proof.
  intros Hidle. destruct (poll_run c Hidle) as (n & -> & _). cbn [fst].
  destruct (w_service (n_world (c_net c))) as [|[r ev] rest]; [done|]. unfold delivery.
  cbn [hd fst snd]. destruct (0 <? r)%Z; [|done]. destruct ev as [| | |peer p]; try done.
  destruct (packet_delivery _ _) as [[m|]| | |] eqn:E; try done. intros [= <-].
  apply packet_delivery_fanout in E as [Hd _]. exists r, peer, p. split; [by left|done].
Qed.
End join.

(** What a client may rely on, when the network delivers to it nothing but
    what the server sent to its connections: the responses agree with the
    registry, and the fanouts carry what was published while one of the
    connections was subscribed. *)
Lemma server_feeds splat (s : ServerObj) evs rest :
  drain (w_service (o_world s)) = (evs, rest) → sends (w_log (o_world s)) = [] →
  ready s evs → conn s = ∅ → refines s PubSub_empty →
  (Z.of_nat (length evs) < 2 ^ 64 - 1)%Z →
  ∃ s', server_process splat s = (Ok tt, s') ∧
    let srv := m_map (BusServer.m_topic_map (o_derived s')) in
    injective_map srv ∧
    ∀ cplat own results, delivered (sends (w_log (o_world s'))) own results →
      @told cplat srv results ∧
      ∀ r peer p key data, (r, EVENT_RECEIVE peer p) ∈ results →
        @decode cplat (packet_data p) = Some (Fanout key data) →
        ∃ q pre from pk post, evs = pre ++ EVENT_RECEIVE from pk :: post ∧
          @decode splat (packet_data pk) = Some (Publish key data) ∧
          q ∈ own ∧ q ≠ from ∧ @sub_history splat q key false pre = true.
Proof.
  intros Hd Hlog Hready Hconn Href Hb.
  destruct (@process_refines splat s PubSub_empty evs rest Hd Hready Href)
    as (s' & Hs' & _ & [Ht _] & Hsends); [cbn; lia|].
  exists s'. split; [exact Hs'|]. intros srv. split.
  { intros n n' k. unfold srv. rewrite !(rel_map _ _ Ht). apply spec_get_inj. }
  intros cplat own results Hdel. rewrite Hlog in Hsends. rewrite Hsends in Hdel.
  set (out := snd (@ps_events splat evs PubSub_empty)) in *.
  assert (Hwf : ∀ d, d ∈ out → msg_wf (snd d))
    by (intros d; apply ps_events_out_wf; cbn; lia).
  split; [exact (delivered_told splat cplat out evs _ own _ Ht eq_refl Hwf Hdel)|].
  intros r peer p key data Hin Hdec.
  destruct (delivered_message splat cplat out own _ r peer p Hwf Hdel Hin)
    as (q & m & Hq & Hout & Hm). rewrite Hdec in Hm. injection Hm as <-.
  destruct Hready as (_ & _ & Hev). rewrite Hconn in Hev.
  destruct (fanout_published evs q _ _ Hev Hout) as (pre & from & pk & post & ? & ? & ? & ?).
  by exists q, pre, from, pk, post.
Qed.

(** ** Properties *)

(** C2: whatever a client does after connecting, when every packet it
    receives was sent by the server to one of its connections (possibly late,
    out of order, twice or never), every topic it has cached has the key that
    the server's registry holds; every fanout it polls bears the right name
    (or "unknown"), and carries a key and a payload that another client
    published while a connection of this client was subscribed to the key.
    The machines may differ in byte order. *)
Theorem clients_agree_with_server splat cplat (s : ServerObj) evs rest :
  drain (w_service (o_world s)) = (evs, rest) → sends (w_log (o_world s)) = [] →
  ready s evs → conn s = ∅ → refines s PubSub_empty →
  (Z.of_nat (length evs) < 2 ^ 64 - 1)%Z →
  ∃ s', server_process splat s = (Ok tt, s') ∧
    ∀ own ops c0, fresh_client c0 →
      delivered (sends (w_log (o_world s'))) own (w_service (n_world (c_net c0))) →
      let c := @run_client_ops cplat ops c0 in
      (∀ name key, BusClient.m_topic_map c !! name = Some key →
         TopicMap_get name (BusServer.m_topic_map (o_derived s')) = Some key) ∧
      (∀ f, fst (@BusClient_poll cplat c) = Ok (Some f) →
         (TopicMap_get (topic f) (BusServer.m_topic_map (o_derived s')) = Some (topic_key f) ∨
          topic f = "unknown") ∧
         ∃ q pre from pk post, evs = pre ++ EVENT_RECEIVE from pk :: post ∧
           @decode splat (packet_data pk) = Some (Publish (topic_key f) (payload f)) ∧
           q ∈ own ∧ q ≠ from ∧ @sub_history splat q (topic_key f) false pre = true).
Proof.
  intros Hd Hlog Hready Hconn Href Hb.
  destruct (server_feeds splat s evs rest Hd Hlog Hready Hconn Href Hb) as (s' & Hs' & Hinj & Hfeeds).
  exists s'. split; [exact Hs'|]. intros own ops c0 Hfresh Hdel c.
  destruct (Hfeeds cplat own _ Hdel) as [Htold Hpub].
  set (srv := m_map (BusServer.m_topic_map (o_derived s'))) in *.
  pose proof (fresh_client_ok cplat srv c0 Hfresh Htold) as Hok.
  pose proof (client_ops_ok srv ops c0 Hinj Hok) as [Hidle _ Hc]. fold c in Hidle, Hc.
  split; [apply (agree_forward _ _ Hc)|]. intros f Hf. split.
  { destruct (polled_name srv c f Hc Hidle Hf) as [|[? _]]; [by left|by right]. }
  destruct (poll_source cplat c f Hidle Hf) as (r & peer & p & Hin & Hdec).
  apply (client_ops_results cplat srv ops c0 _ Hinj Hok) in Hin. by eapply Hpub.
Qed.

(** A message published by one client reaches another.  The packet that
    [publish] sends, received by the server, makes it send one packet to each
    other subscriber; a subscriber that receives this packet polls the key,
    the payload unchanged and the name it knows for the key.  The three
    machines may differ in byte order. *)
Theorem publish_to_poll aplat splat bplat topic payload (a : BusClient) key :
  idle a → connects_first (n_world (c_net a)) → @resolution aplat topic a = Ok key →
  is_u64 key →
  ∃ a' data, @BusClient_publish aplat topic payload a = (Ok tt, a') ∧
    sends (w_log (n_world (c_net a'))) = sends (w_log (n_world (c_net a))) ++
      @resolution_sends aplat topic a ++ [(nc_peer (m_client a), data)] ∧
    ∀ (s : ServerObj) topics from i,
      registry_ok s → topics_rel (BusServer.m_topic_map (o_derived s)) topics →
      topics_bound topics → from ∈ conn s →
      ∃ s' data' receivers,
        server_dispatch splat (EVENT_RECEIVE from (MkPacket i data)) s = (Ok tt, s') ∧
        sends (w_log (o_world s')) = sends (w_log (o_world s)) ++ ((λ q, (q, data')) <$> receivers) ∧
        NoDup receivers ∧ (∀ q, q ∈ receivers ↔ q ≠ from ∧ subscribed s q key) ∧
        ∀ (b : BusClient) r peer j results,
          idle b → w_service (n_world (c_net b)) = (r, EVENT_RECEIVE peer (MkPacket j data')) :: results →
          (0 < r)%Z →
          ∃ b', @BusClient_poll bplat b =
            (Ok (Some (MkFanoutMessage key (default "unknown" (m_inverse_topic_map b !! key)) payload)),
             b').
Proof.
  intros Hidle Hfirst Hres Hkey.
  destruct (@request_run aplat topic (λ k, Publish k payload) a Hidle)
    as (a' & Hrun & _ & _ & Hb). rewrite Hres in Hrun, Hb.
  exists a', (@packet aplat (Origin_value Origin_client) (Publish key payload)).
  split; [exact Hrun|]. split; [by apply balanced_sends, Hb; left|].
  intros s topics from i Hreg Ht Hbound Hfrom.
  destruct (@publish_dispatch splat s from
    (MkPacket i (@packet aplat (Origin_value Origin_client) (Publish key payload))) key payload topics)
    as (s' & receivers & Hs' & Hsends & Hnd & Hin & _); [done..|by apply decode_cross_machine|].
  exists s', (@packet splat (Origin_value Origin_server) (Fanout key payload)), receivers.
  split_and!; [exact Hs'|done..|].
  intros b r peer j results Hb' Hser Hr%Z.ltb_lt.
  destruct (@poll_run bplat b Hb') as (n & Hpoll & _). rewrite Hser in Hpoll.
  unfold delivery in Hpoll. cbn [hd fst snd] in Hpoll. rewrite Hr in Hpoll.
  exists (with_net n b). rewrite Hpoll.
  rewrite packet_delivery_decode. cbn [packet_data].
  rewrite (proj2 (Nat.ltb_ge _ _)) by apply (@length_packet splat).
  unfold fanout_in. by rewrite decode_cross_machine.
Qed.

(** ** Witnesses *)

Section witnesses.

(** A server on a little-endian machine; a subscriber on a big-endian one
    (peers 41 and, for its lookup, 42) and a publisher (peer 40). *)
Definition sample_bus_run : list ENetEvent :=
  let from_client m := @packet big_endian (Origin_value Origin_client) m in
  [EVENT_CONNECT 40; EVENT_CONNECT 41; EVENT_CONNECT 42;
   EVENT_RECEIVE 42 (MkPacket 1 (from_client (Topic_request "t"))); EVENT_DISCONNECT 42;
   EVENT_RECEIVE 41 (MkPacket 2 (from_client (Subscribe 1)));
   EVENT_RECEIVE 40 (MkPacket 3 (from_client (Publish 1 [x68; x69])))].

Definition sample_bus_server : ServerObj :=
  MkObj (MkWorld 0 (λ _, None) [] [] ((λ ev, (1%Z, ev)) <$> sample_bus_run) ∅ (λ _, None) 0 [])
    (MkServer (MkAddress (Some 0%Z) 6767) 3 ∅ [] 1)
    (MkServerData TopicMap_default Constructor_default
       (MkLogger "server" (ConsoleSink "default") Info)).

Definition sample_response_packet : ENetPacket :=
  MkPacket 7 (@packet little_endian (Origin_value Origin_server) (Topic_response 1 "t")).
Definition sample_fanout_packet : ENetPacket :=
  MkPacket 8 (@packet little_endian (Origin_value Origin_server) (Fanout 1 [x68; x69])).

Definition sample_subscriber : BusClient :=
  MkBusClient
    (MkNetState (MkWorld 0 (λ _, Some 1%Z) [Some 4%Z] [Some 50%Z]
       [(1%Z, EVENT_CONNECT 50); (1%Z, EVENT_RECEIVE 50 sample_response_packet);
        (1%Z, EVENT_DISCONNECT 50); (1%Z, EVENT_RECEIVE 30 sample_fanout_packet)] ∅
       (λ _, None) 0 []) ∅)
    (MkNetClient 3 (MkAddress (Some 1%Z) 6767) 30) "localhost" 6767 Constructor_default ∅ ∅.

Lemma sample_bus_ready : ready sample_bus_server sample_bus_run.
Proof.
  split_and!.
  - split; simpl; [constructor| |done].
    intros p. split; [by intros ?%elem_of_nil|by intros (? & -> & ? & ?)].
  - split; [by intros ? []|]. vm_compute. done.
  - vm_compute. reflexivity.
Qed.

Lemma clients_agree_with_server_witness :
  ∃ s', server_process little_endian sample_bus_server = (Ok tt, s') ∧
    TopicMap_get "t" (BusServer.m_topic_map (o_derived s')) = Some 1%Z ∧
    ∃ q pre from pk post, sample_bus_run = pre ++ EVENT_RECEIVE from pk :: post ∧
      @decode little_endian (packet_data pk) = Some (Publish 1 [x68; x69]) ∧
      q ∈ ({[41%Z; 42%Z]} : gset Z) ∧ q ≠ from ∧
      @sub_history little_endian q 1 false pre = true.
Proof.
  destruct (clients_agree_with_server little_endian big_endian sample_bus_server sample_bus_run [])
    as (s' & Hs' & Hclient).
  - vm_compute. reflexivity.
  - reflexivity.
  - apply sample_bus_ready.
  - vm_compute. reflexivity.
  - split; [apply topics_rel_default|constructor].
  - vm_compute. reflexivity.
  - exists s'. split; [exact Hs'|].
    destruct (Hclient {[41%Z; 42%Z]} [OpSubscribe "t"] sample_subscriber) as [Hnames Hpoll].
    + split; [split; reflexivity|reflexivity|reflexivity].
    + replace s' with (snd (server_process little_endian sample_bus_server)) by by rewrite Hs'.
      intros r peer p Hin. cbn in Hin. rewrite !elem_of_cons, elem_of_nil in Hin.
      destruct Hin as [[=]|[[= -> -> ->]|[[=]|[[= -> -> ->]|[]]]]].
      * exists 42%Z. split; [set_solver|]. apply (bool_decide_unpack _). vm_compute. exact I.
      * exists 41%Z. split; [set_solver|]. apply (bool_decide_unpack _). vm_compute. exact I.
    + split; [apply Hnames; vm_compute; reflexivity|].
      apply (Hpoll (MkFanoutMessage 1 "t" [x68; x69])). vm_compute. reflexivity.
Defined.

Definition sample_publisher : BusClient :=
  MkBusClient
    (MkNetState (MkWorld 0 (λ _, Some 1%Z) [] [] [] ∅ (λ _, None) 0 []) ∅)
    (MkNetClient 3 (MkAddress (Some 1%Z) 6767) 30) "localhost" 6767 Constructor_default
    {["t" := 1%Z]} {[1%Z := "t"]}.

Lemma publish_to_poll_witness :
  ∃ a' data, @BusClient_publish big_endian "t" [x68] sample_publisher = (Ok tt, a') ∧
    sends (w_log (n_world (c_net a'))) = [(30%Z, data)] ∧
    ∃ s' data', server_dispatch little_endian (EVENT_RECEIVE 40 (MkPacket 3 data)) sample_server_2 =
        (Ok tt, s') ∧
      sends (w_log (o_world s')) = [(41%Z, data')] ∧
      ∃ b', @BusClient_poll big_endian
          (with_net (MkNetState (world_service [(1%Z, EVENT_RECEIVE 30 (MkPacket 9 data'))]
             (n_world (c_net sample_publisher))) ∅) sample_publisher) =
        (Ok (Some (MkFanoutMessage 1 "t" [x68])), b').
Proof.
  destruct (publish_to_poll big_endian little_endian big_endian "t" [x68] sample_publisher 1)
    as (a' & data & Ha & Hsent & Hserver).
  - done.
  - done.
  - reflexivity.
  - unfold is_u64. lia.
  - exists a', data. split; [exact Ha|]. split; [exact Hsent|].
    destruct (Hserver sample_server_2 [] 40%Z 3%Z)
      as (s' & data' & receivers & Hs' & Hsends & Hnd & Hin & Hpoll).
    + apply sample_2_registry.
    + apply topics_rel_default.
    + vm_compute. reflexivity.
    + apply (bool_decide_unpack _). vm_compute. exact I.
    + exists s', data'. split; [exact Hs'|]. split.
      * rewrite Hsends. replace receivers with [41%Z]; [reflexivity|].
        symmetry. apply Permutation_singleton_r. apply NoDup_Permutation; [done|apply NoDup_singleton|].
        intros q. rewrite Hin, sample_2_subscribed, list_elem_of_singleton. naive_solver lia.
      * destruct (Hpoll (with_net (MkNetState (world_service
          [(1%Z, EVENT_RECEIVE 30 (MkPacket 9 data'))] (n_world (c_net sample_publisher))) ∅)
          sample_publisher) 1%Z 30%Z 9%Z []) as [b' Hb']; [split; reflexivity|reflexivity..|].
        exists b'. exact Hb'.
Defined.
End witnesses.
