(* ===== verification/AsyncBus.v ===== *)
(** * The asyncio client on the bus

    Theorems that join the asyncio client with the bindings below it and the
    server at the other end: what [await client.get_topic_key(...)] and
    [await client.recv()] give. *)

From Stdlib.Strings Require Import Byte.
From stdpp Require Import base gmap sets list strings.
From S2P Require Import Prelude Protocol TopicMap World NetServer BusServer NetClient BusClient.
From S2P Require Import Bindings AsyncClient AsyncProgress Bus.

(** ** A call and its answer *)

Section answers.
Context {C : Type} `{!NativeClient C, !NativeLaws C} (host : string) (port : Z).
Implicit Types (s : AsyncClient C) (evs : list event).
Abbreviation step := (step host port).
Abbreviation run_steps_of := (run_steps_of host port).

(** What a native client in order can return for a request. *)
Definition answer_of (r : request) (v : py_value) : Prop :=
  ∃ i alive c, native_ok alive c ∧ i ∈ alive ∧ fst (native_run i r c) = Ok v.

(** The future [f] is that of a call with the request [r]. *)
Record asks (f : nat) (r : request) s : Prop := {
  asks_fresh : f < a_fresh s;
  asks_started : a_started s ≠ Some f;
  asks_queued : ∀ c, c ∈ a_commands s → cmd_future c = f → cmd_name c = CmdRequest r;
  asks_hand : ∀ c, a_worker s = Handling c → cmd_future c = f → cmd_name c = CmdRequest r;
  asks_callbacks : ∀ v, CbComplete f (inl v) ∈ a_callbacks s → answer_of r v;
  asks_future : ∀ v, a_futures s !! f = Some (Result v) → answer_of r v;
}.

(** Steps that take nothing up and settle nothing. *)
Lemma asks_quiet new f r s s' :
  asks f r s → a_fresh s' = a_fresh s → a_started s' = a_started s →
  (∀ c, c ∈ a_commands s' → c ∈ a_commands s) →
  (∀ c, a_worker s' = Handling c → c ∈ a_commands s ∨ a_worker s = Handling c) →
  a_callbacks s' = a_callbacks s ++ new →
  (∀ v, CbComplete f (inl v) ∈ new → answer_of r v) →
  a_futures s' = a_futures s → asks f r s'.
Proof.
  intros [Hf Hst Hq Hh Hcb Hfut] Er Es Ec Ew Eb Hnew Ef. split; rewrite ?Er, ?Es, ?Eb, ?Ef; try done.
  - intros c Hin. by apply Hq, Ec.
  - intros c [Hin|Hin]%Ew; [by apply Hq|by apply Hh].
  - intros v [Hin|Hin]%elem_of_app; [by apply Hcb|by apply Hnew].
Qed.

Lemma asks_same f r s s' :
  asks f r s → a_fresh s' = a_fresh s → a_started s' = a_started s →
  a_commands s' = a_commands s → (∀ c, a_worker s' = Handling c → a_worker s = Handling c) →
  a_callbacks s' = a_callbacks s → a_futures s' = a_futures s → asks f r s'.
Proof.
  intros H ? ? Ec Ew ? ?. apply (asks_quiet [] f r s); rewrite ?app_nil_r, ?Ec; auto.
  by intros v ?%elem_of_nil.
Qed.

(** Steps that schedule one more callback. *)
Lemma asks_soon cb f r s s' :
  asks f r s → a_fresh s' = a_fresh s → a_started s' = a_started s →
  (∀ c, c ∈ a_commands s' → c ∈ a_commands s) →
  (∀ c, a_worker s' = Handling c → a_worker s = Handling c) →
  a_callbacks s' = a_callbacks s ++ [cb] →
  (∀ v, cb = CbComplete f (inl v) → answer_of r v) →
  a_futures s' = a_futures s → asks f r s'.
Proof.
  intros H ? ? Ec Ew Eb Hcb Ef. apply (asks_quiet [cb] f r s); auto.
  intros v Hv%list_elem_of_singleton. by apply Hcb.
Qed.

(** A future that is not the call's is made, or settled. *)
Lemma asks_insert g x f r s :
  asks f r s → g ≠ f ∨ (∀ v, x = Result v → answer_of r v) →
  asks f r (set_futures (<[g := x]> (a_futures s)) s).
Proof.
  intros [Hf Hst Hq Hh Hcb Hfut] Hg. split; try done. intros v. cbn.
  intros [[-> ->]|[_ Hv]]%lookup_insert_Some; [|by apply Hfut].
  destruct Hg as [|Hg]; [done|by apply Hg].
Qed.

Lemma asks_put name f r s : asks f r s → asks f r (put_command name s).
Proof.
  intros H. pose proof (asks_fresh _ _ _ H).
  destruct (asks_insert (a_fresh s) Pending f r s H) as [Hf Hst Hq Hh Hcb Hfut]; [left; lia|].
  split; cbn in *; try done; [lia|].
  intros c [Hc| ->%list_elem_of_singleton]%elem_of_app; [by apply Hq|]. cbn. lia.
Qed.

Lemma complete_started_asks w v f r s :
  asks f r s → (∀ c, w ≠ Handling c) → asks f r (set_worker w (complete_started v s)).
Proof.
  intros H Hw. unfold complete_started. destruct (a_started s) as [g|] eqn:Eg.
  - eapply (asks_soon (CbComplete g v)); [exact H|try done..]; [by intros c ?%Hw|].
    intros v' [= -> _]. by destruct (asks_started _ _ _ H).
  - eapply asks_same; [exact H|try done..]. by intros c ?%Hw.
Qed.

Lemma worker_step_asks f r s s' e :
  native_inv_of s → asks f r s → worker_step host port s = Some (s', e) → asks f r s'.
Proof.
  intros Hn H. pose proof (worker_alive s) as Hal. unfold worker_step in *.
  destruct (a_worker s) as [| | | |d| |cl x|cl x|cl x|cl] eqn:Ew; cbn [has_client] in *.
  - done.
  - destruct (native_open _ _ _ _) as [[] n]; intros [= <- <-]; by eapply asks_same.
  - intros [= <- <-]. by apply complete_started_asks.
  - destruct (a_commands s) as [|d rest] eqn:Ec; intros [= <- <-]; [by eapply asks_same|].
    apply (asks_quiet [] f r s); rewrite ?app_nil_r, ?Ec; try done; cbn.
    + intros c ?. by right.
    + intros c [= <-]. left. by left.
    + by intros v ?%elem_of_nil.
  - unfold handle_command. destruct (cmd_name d) as [|q] eqn:Ed.
    { intros [= <- <-]. eapply (asks_soon _ f r s _ H); try done. intros v [= Hd _].
      pose proof (asks_hand _ _ _ H d Ew Hd). congruence. }
    destruct (native_run _ q (a_native s)) as [[v|x| |] n] eqn:Eq; intros [= <- <-];
      (eapply (asks_soon _ f r s _ H); try done); intros v' [= Hd <-].
    pose proof (asks_hand _ _ _ H d Ew Hd). exists (a_generation s), (alive s), (a_native s).
    split; [apply Hn|]. split; [by apply Hal|]. replace r with q by congruence. by rewrite Eq.
  - unfold poll_messages. destruct (native_poll _ _) as [[[m'|]|x| |] n];
      [destruct (message_of_native m') as [m|]|..]; intros [= <- <-];
      [by eapply (asks_soon (CbPut _ _))|by eapply asks_same..].
  - intros [= <- <-]. by apply complete_started_asks.
  - intros [= <- <-]. by eapply (asks_soon (CbPublish _ _)).
  - destruct (a_commands s) as [|d rest] eqn:Ec; intros [= <- <-]; [by eapply asks_same|].
    eapply (asks_soon _ f r s _ H); try done. cbn. rewrite Ec. intros c ?. by right.
  - destruct cl; [unfold forget_client; destruct (a_raised s); [|destruct (native_drop _ _) as [[] n]]|];
      intros [= <- <-]; by eapply asks_same.
Qed.

Lemma run_callback_asks cb rest f r s :
  a_callbacks s = cb :: rest → asks f r s → asks f r (run_callback cb (set_callbacks rest s)).
Proof.
  intros Hcb H.
  assert (Hrest : asks f r (set_callbacks rest s)).
  { destruct H as [? ? ? ? Hall ?]. split; try done. intros v Hin. apply Hall. rewrite Hcb. by right. }
  destruct cb as [g x|q x|q m]; cbn [run_callback]; [|by destruct Hrest..].
  destruct (a_futures (set_callbacks rest s) !! g) as [[]|]; try done.
  apply asks_insert; [done|]. destruct (decide (g = f)) as [->|]; [right|by left].
  intros v Hv. apply (asks_callbacks _ _ _ H). rewrite Hcb. destruct x; [|done].
  injection Hv as ->. by left.
Qed.

Lemma connect_asks f r s : asks f r s → asks f r (connect s).
Proof.
  intros H. unfold connect. destruct (a_thread s); [done|]. pose proof (asks_fresh _ _ _ H).
  destruct (asks_insert (a_fresh s) Pending f r s H) as [Hf Hst Hq Hh Hcb Hfut]; [left; lia|].
  split; cbn in *; try done; [lia|]. intros [= <-]. lia.
Qed.

Lemma step_asks l f r s s' e :
  native_inv_of s → asks f r s → step l s = Some (s', e) → asks f r s'.
Proof.
  intros Hn H [[-> Hw]|[(-> & _ & -> & ->)|Hl]]%step_cases.
  - by eapply worker_step_asks.
  - by destruct (asks_put CmdClose f r s H).
  - destruct l; cbn [loop_step] in Hl; try discriminate.
    10: { destruct (a_callbacks s) as [|cb rest] eqn:Ec; [discriminate|]. injection Hl as <- <-.
          by apply run_callback_asks. }
    1: { injection Hl as <- <-. by apply connect_asks. }
    3: { unfold call in Hl. destruct (ensure_running s); injection Hl as <- <-; [done|].
         by apply asks_put. }
    5: { unfold cancel in Hl. destruct (a_futures s !! f0) as [[]|]; try discriminate.
         injection Hl as <- <-. apply asks_insert; [done|]. by right. }
    all: loop_cases Hl; by eapply asks_same.
Qed.

(** A new call. *)
Lemma call_asks r s evs :
  commands_inv s evs → asks (a_fresh s) r (put_command (CmdRequest r) s).
Proof.
  intros [Ho Hn Hi Hf Hst Hcb Hs].
  assert (Hnew : ∀ x, a_futures s !! a_fresh s ≠ Some x).
  { intros x Hx. specialize (Hf (a_fresh s) ltac:(by eexists)). lia. }
  assert (Hnot : a_fresh s ∉ issued evs) by (intros [x Hx]%Hi; by destruct (Hnew x)).
  rewrite Ho, !not_elem_of_app in Hnot. destruct Hnot as (_ & Hhand & Hqueue).
  split; cbn.
  - lia.
  - intros [[x Hx] _]%Hst. by destruct (Hnew x).
  - intros c [Hc| ->%list_elem_of_singleton]%elem_of_app Hcf; [|done].
    destruct Hqueue. apply list_elem_of_fmap. by exists c.
  - intros c Hc Hcf. destruct Hhand. rewrite Hc, <-Hcf. by left.
  - intros v [[x Hx] _]%Hcb. by destruct (Hnew x).
  - intros v. by rewrite lookup_insert_eq.
Qed.

(** Over a run, the invariants of the object and of its native client. *)
Definition sound_run s evs : Prop := async_inv s evs ∧ native_inv_of s.

Lemma step_sound l s s' evs e :
  sound_run s evs → step l s = Some (s', e) → sound_run s' (evs ++ e).
Proof.
  intros [Hinv Hn] Hstep. split; [by eapply step_async_inv|].
  eapply step_native; [|done..]. apply Hinv.
Qed.

Lemma run_sound c ls s evs :
  native_ok ∅ c → run_steps_of ls (AsyncClient_init c) = Some (s, evs) → sound_run s evs.
Proof.
  intros Hc Hrun. change evs with ([] ++ evs).
  eapply (run_invariant host port sound_run); [by intros; eapply step_sound| |exact Hrun].
  by split; [apply async_inv_init|apply init_native].
Qed.

(** The result of a call is what the native client returned for its request. *)
Lemma call_answered c ls s evs r ls' s' evs' v :
  native_ok ∅ c → run_steps_of ls (AsyncClient_init c) = Some (s, evs) →
  ensure_running s = None → run_steps_of (LCall r :: ls') s = Some (s', evs') →
  a_futures s' !! a_fresh s = Some (Result v) → answer_of r v.
Proof.
  intros Hc Hrun He Hrun' Hv. apply (run_sound _ _ _ _ Hc) in Hrun. cbn in Hrun'.
  destruct (loop_free s) eqn:Hfree; [|discriminate].
  assert (Hcall : step (LCall r) s = Some (put_command (CmdRequest r) s,
    [EvIssued (MkCommand (CmdRequest r) (a_fresh s))]))
    by (cbn; rewrite Hfree; unfold call; by rewrite He).
  pose proof (step_sound _ _ _ _ _ Hrun Hcall) as Hsound.
  unfold call in Hrun'. rewrite He in Hrun'. cbn in Hrun'.
  destruct (run_steps_of ls' _) as [[s2 e2]|] eqn:E; [|discriminate]. injection Hrun' as -> <-.
  assert (HI : ∀ l s1 s2 evs1 e1, sound_run s1 evs1 ∧ asks (a_fresh s) r s1 →
    step l s1 = Some (s2, e1) → sound_run s2 (evs1 ++ e1) ∧ asks (a_fresh s) r s2).
  { intros l s1 s2' evs1 e1 [Hs1 Ha] Hst. split; [by eapply step_sound|].
    eapply step_asks; [|done..]. apply Hs1. }
  destruct (run_invariant host port _ HI _ _ _ _ _ (conj Hsound (call_asks _ _ _ (async_commands _ _ (proj1 Hrun)))) E)
    as [_ Hasks]. by apply (asks_future _ _ _ Hasks).
Qed.

(** *** What the worker polls *)

Lemma step_polled l s s' e q m :
  step l s = Some (s', e) → EvPolled q m ∈ e →
  a_worker s = Polling ∧ ∃ m0, fst (native_poll (a_generation s) (a_native s)) = Ok (Some m0) ∧
    message_of_native m0 = inl m.
Proof.
  intros [[-> Hw]|[(-> & _ & -> & ->)|Hl]]%step_cases Hin.
  - unfold worker_step, handle_command, complete, forget_client in Hw.
    destruct (a_worker s); [done|..].
    5: { unfold poll_messages in Hw. destruct (native_poll _ _) as [[[m'|]|x| |] n];
           [destruct (message_of_native m') as [m1|] eqn:Em|..]; simplify_eq;
           try by apply elem_of_nil in Hin.
         apply list_elem_of_singleton in Hin as [= _ <-]. split; [done|]. by exists m'. }
    all: repeat case_match; simplify_eq; try (by apply elem_of_nil in Hin);
      by apply list_elem_of_singleton in Hin.
  - by apply list_elem_of_singleton in Hin.
  - destruct l; cbn [loop_step] in Hl; try discriminate; loop_cases Hl;
      first [by apply elem_of_nil in Hin|by apply list_elem_of_singleton in Hin].
Qed.

(** What holds of all that a native client in order can poll holds of all that
    is received. *)
Lemma received_good (good : FanoutMessage → Prop) c ls s evs q m :
  (∀ i alive c m0 m, native_ok alive c → i ∈ alive → fst (native_poll i c) = Ok (Some m0) →
     message_of_native m0 = inl m → good m) →
  native_ok ∅ c → run_steps_of ls (AsyncClient_init c) = Some (s, evs) →
  EvReceived q m ∈ evs → good m.
Proof.
  intros Hgood Hc Hrun Hin.
  assert (HI : ∀ l s1 s2 evs1 e1, sound_run s1 evs1 ∧ (∀ q m, EvPolled q m ∈ evs1 → good m) →
    step l s1 = Some (s2, e1) → sound_run s2 (evs1 ++ e1) ∧ (∀ q m, EvPolled q m ∈ evs1 ++ e1 → good m)).
  { intros l s1 s2 evs1 e1 [Hs1 Hg] Hst. split; [by eapply step_sound|].
    intros q' m' [?|Hp]%elem_of_app; [by eapply Hg|].
    destruct (step_polled _ _ _ _ _ _ Hst Hp) as (Hw & m0 & Hm0 & Hm').
    eapply Hgood; [apply Hs1|by apply worker_alive; rewrite Hw|done..]. }
  destruct (run_invariant host port _ HI ls (AsyncClient_init c) s [] evs) as [Hs Hg]; [|done|].
  { split; [by split; [apply async_inv_init|apply init_native]|]. by intros q' m' ?%elem_of_nil. }
  cbn [app] in Hs, Hg. apply (Hg q).
  assert (Hpolled : m ∈ polled q evs).
  { rewrite (mi_order _ _ (async_messages _ _ (proj1 Hs))). apply elem_of_app. left.
    apply list_elem_of_omap. exists (EvReceived q m). split; [done|]. by rewrite decide_True. }
  apply list_elem_of_omap in Hpolled as ([] & Hev & Hm); try done. case_decide; [|done]. by simplify_eq.
Qed.
End answers.

(** ** The extension module on the bus *)

Section bus_laws.
Context {plat : Platform} {cast : StrCast}.
Context (srv : gmap string Z) (results : list (Z * ENetEvent)) (Hinj : injective_map srv).
Implicit Types (s : Native).

(** The caches agree with the registry [srv], the responses to come too, and
    the results of ENet to come are among [results]. *)
Record bus_ok (alive : gset nat) s : Prop := {
  bus_bindings : bindings_ok alive s;
  bus_agrees : native_inv (λ n k, srv !! n = Some k) (caches_agree srv) s;
  bus_left : ∀ r, r ∈ w_service (n_world (py_net s)) → r ∈ results;
}.

Lemma fresh_agrees : holds_fresh (caches_agree srv).
Proof. intros n t h p. split; cbn; [intros ? ?|intros ? ?]; by rewrite !lookup_empty. Qed.

Lemma left_progress s s' :
  progress (py_net s) (py_net s') → (∀ r, r ∈ w_service (n_world (py_net s)) → r ∈ results) →
  ∀ r, r ∈ w_service (n_world (py_net s')) → r ∈ results.
Proof. intros [(used & _ & E & _) _] H r Hr. apply H. rewrite E. apply elem_of_app. by right. Qed.

(** A call on a client of the worker. *)
Lemma bus_run op alive alive' s :
  py_ready op s = true → bus_ok alive s → bindings_ok alive' (snd (py_run op s)) →
  bus_ok alive' (snd (py_run op s)).
Proof.
  intros Hready [_ Ha Hl] Hb'. pose proof (caches_agree_invariant srv Hinj). split; [done| |].
  - apply (py_run_inv _ _ op s fresh_agrees Hready Ha).
  - eapply left_progress; [|exact Hl]. apply py_run_progress; [done|apply Ha].
Qed.

#[local] Ltac bus_call op Hok Hi :=
  pose proof (λ alive', bus_run op _ alive' _ (worker_ready op _ _ (bus_bindings _ _ Hok) Hi) Hok) as Hbus;
  cbn [py_run] in Hbus; rewrite ?bind_ret_run in Hbus; cbn [snd] in Hbus.

Lemma bus_laws : NativeLaws Native.
Proof.
  refine {| native_ok := bus_ok |}.
  - intros i host port alive s Hok Hi. bus_call (PyClient i host port) Hok Hi.
    pose proof (native_open_ok i host port _ s (bus_bindings _ _ Hok) Hi) as H. cbn in *.
    destruct (Client_init i host port s) as [[] s']; try done; by apply Hbus.
  - intros i r alive s Hok Hi. pose proof (native_run_ok i r _ s (bus_bindings _ _ Hok) Hi) as H.
    rewrite native_run_op in *.
    pose proof (λ alive', bus_run _ _ alive' s (request_ready i r _ s (bus_bindings _ _ Hok) Hi) Hok) as Hbus.
    destruct (py_run _ s) as [[] s']; try done; by apply Hbus.
  - intros i alive s Hok Hi. bus_call (PyPoll i) Hok Hi.
    pose proof (native_poll_ok i _ s (bus_bindings _ _ Hok) Hi) as H. cbn in *.
    destruct (Client_poll i s) as [[] s']; try done; by apply Hbus.
  - intros i alive s Hok Hi. bus_call (PyDel i) Hok Hi.
    pose proof (native_drop_ok i _ s (bus_bindings _ _ Hok) Hi) as H. cbn in *.
    destruct (Client_dealloc i s) as [[] s']; try done. by apply Hbus.
Defined.

(** A client of the worker, in order. *)
Lemma bus_client i alive s :
  bus_ok alive s → i ∈ alive → ∃ c, py_clients s !! i = Some c ∧
    client_inv (λ n k, srv !! n = Some k) (caches_agree srv) (with_net (py_net s) c).
Proof.
  intros [[_ Hb] Ha _] Hi. destruct (proj1 (Hb i) Hi) as [c Hc].
  pose proof (caches_agree_invariant srv Hinj). exists c. split; [done|]. by eapply native_client.
Qed.

(** What a request can be answered with. *)
Lemma bus_answer i r v alive s :
  bus_ok alive s → i ∈ alive → fst (native_run i r s) = Ok v →
  match r with
  | ReqGetTopicKey _ => ∃ k name, v = PyInt k ∧ srv !! name = Some k
  | _ => v = PyNone
  end.
Proof.
  intros Hok Hi Hv. pose proof (bus_bindings _ _ Hok) as [Hinv Hb].
  pose proof (py_typed_run _ s (request_ready i r _ s (conj Hinv Hb) Hi) Hinv) as Ht.
  rewrite native_run_op in Hv. rewrite Hv in Ht.
  destruct r as [t d|t|t]; cbn [request_op] in *; [done..|].
  destruct (bus_client i _ s Hok Hi) as (c & Hc & [Hidle Hheard Hca]).
  rewrite (py_run_client (PyGetTopicKey i t) _ s c eq_refl Hc) in Hv. cbn [client_value fst] in Hv.
  rewrite bind_ret_run in Hv. cbn [fst] in Hv.
  destruct (resolve_run t _ Hidle) as (c' & Hrun & _). rewrite Hrun in Hv. cbn [fst] in Hv.
  destruct (resolution t _) as [k| | |] eqn:Ek; try done. injection Hv as <-. exists k.
  destruct (resolution_key _ _ _ Ek) as [Hk|[n Hn]].
  - exists t. split; [done|]. by apply (agree_forward _ _ Hca).
  - exists n. split; [done|]. by apply (lookup_learns _ _ _ _ _ Hheard Hn).
Qed.

(** A message that can be polled. *)
Lemma bus_message i alive s m0 m :
  (∀ t u, str_cast t = inl u → u = t) → bus_ok alive s → i ∈ alive →
  fst (native_poll i s) = Ok (Some m0) → message_of_native m0 = inl m →
  (srv !! topic m = Some (topic_key m) ∨ topic m = "unknown") ∧
  ∃ r peer p, (r, EVENT_RECEIVE peer p) ∈ results ∧
    decode (packet_data p) = Some (Fanout (topic_key m) (payload m)).
Proof.
  intros Hcast Hok Hi Hpoll Hm. destruct (bus_client i _ s Hok Hi) as (c & Hc & [Hidle Hheard Hca]).
  assert (Hp : fst (BusClient_poll (with_net (py_net s) c)) = Ok (Some m0)).
  { cbn in Hpoll. unfold Client_poll, on_client, bind in Hpoll. rewrite Hc in Hpoll.
    destruct (BusClient_poll (with_net (py_net s) c)) as [[[f|]| | |] c']; cbn in Hpoll |- *; congruence. }
  unfold message_of_native in Hm. destruct (native_topic m0) as [u|] eqn:Eu; [|done].
  injection Hm as <-. cbn [topic topic_key payload]. apply Hcast in Eu as ->.
  rewrite payload_bytes_eq. unfold Message_topic_key. split.
  - destruct (polled_name srv _ m0 Hca Hidle Hp) as [?|[? _]]; [by left|by right].
  - destruct (poll_source plat _ m0 Hidle Hp) as (r & peer & p & Hin & Hd).
    exists r, peer, p. split; [|done]. by apply (bus_left _ _ Hok).
Qed.
End bus_laws.

(** ** Properties *)

(** A process that has loaded the module and made no client yet. *)
Record fresh_process (c : Native) : Prop := {
  fresh_free : free (py_net c);
  fresh_clients : py_clients c = ∅;
}.

(** A result of the type of the request; a key is one of the registry's. *)
Definition result_for (registry : string → option Z) (r : request) (v : py_value) : Prop :=
  match r with
  | ReqGetTopicKey _ => ∃ k name, v = PyInt k ∧ registry name = Some k
  | _ => v = PyNone
  end.

(** C4: an asyncio program and the server: however the program's calls, its
    cancellations and the worker interleave, when every packet that ENet
    delivers to the process was sent by the server to one of its connections
    (possibly late, out of order, twice or never), every message that [recv]
    returns bears the name that the server's registry gives its key (or
    "unknown"), with a key and a payload that another client published while a
    connection of the process was subscribed to the key; and the result of an
    accepted call is one for its own request: [get_topic_key] gives an integer
    that is a key of the registry, [publish] and [subscribe] give [None].
    pybind11's conversion of names to text is assumed to keep the
    characters. *)
Theorem asyncio_agrees_with_server splat cplat (cast : StrCast) (s : ServerObj) evs rest :
  (∀ t u, str_cast t = inl u → u = t) →
  drain (w_service (o_world s)) = (evs, rest) → sends (w_log (o_world s)) = [] →
  ready s evs → conn s = ∅ → refines s PubSub_empty →
  (Z.of_nat (length evs) < 2 ^ 64 - 1)%Z →
  ∃ s', server_process splat s = (Ok tt, s') ∧
    let registry name := TopicMap_get name (BusServer.m_topic_map (o_derived s')) in
    ∀ own (c : Native) host port ls a es,
      fresh_process c →
      delivered (sends (w_log (o_world s'))) own (w_service (n_world (py_net c))) →
      @run_steps_of _ (@native_bindings cplat cast) host port ls (AsyncClient_init c) =
        Some (a, es) →
      (∀ queue m, EvReceived queue m ∈ es →
         (registry (topic m) = Some (topic_key m) ∨ topic m = "unknown") ∧
         ∃ q pre from pk post, evs = pre ++ EVENT_RECEIVE from pk :: post ∧
           @decode splat (packet_data pk) = Some (Publish (topic_key m) (payload m)) ∧
           q ∈ own ∧ q ≠ from ∧ @sub_history splat q (topic_key m) false pre = true) ∧
      (∀ r ls' a' es' v, ensure_running a = None →
         @run_steps_of _ (@native_bindings cplat cast) host port (LCall r :: ls') a =
           Some (a', es') →
         a_futures a' !! a_fresh a = Some (Result v) → result_for registry r v).
Proof.
  intros Hcast Hd Hlog Hready Hconn Href Hb.
  destruct (server_feeds splat s evs rest Hd Hlog Hready Hconn Href Hb) as (s' & Hs' & Hinj & Hfeeds).
  exists s'. split; [exact Hs'|]. intros registry own c host port ls a es [Hfree Hnone] Hdel Hrun.
  set (srv := m_map (BusServer.m_topic_map (o_derived s'))) in *.
  set (results := w_service (n_world (py_net c))) in *.
  destruct (Hfeeds cplat own results Hdel) as [Htold Hpub].
  assert (Hok : @native_ok _ _ (@bus_laws cplat cast srv results Hinj) ∅ c).
  { split; [by apply no_clients_ok| |done]. split; [done..|].
    intros self c' Hc. by rewrite Hnone, lookup_empty in Hc. }
  split.
  - intros queue m Hin.
    apply (received_good (NativeLaws0 := @bus_laws cplat cast srv results Hinj) host port
      (λ m, (srv !! topic m = Some (topic_key m) ∨ topic m = "unknown") ∧
        ∃ r peer p, (r, EVENT_RECEIVE peer p) ∈ results ∧
          @decode cplat (packet_data p) = Some (Fanout (topic_key m) (payload m))))
      with (2 := Hok) (3 := Hrun) in Hin.
    + destruct Hin as [Hname (r & peer & p & Hin & Hdec)]. split; [exact Hname|]. by eapply Hpub.
    + intros i al c' m0 m'. by apply bus_message.
  - intros r ls' a' es' v He Hrun' Hv.
    destruct (call_answered (NativeLaws0 := @bus_laws cplat cast srv results Hinj) host port
      _ _ _ _ _ _ _ _ _ Hok Hrun He Hrun' Hv) as (i & al & c' & Hc' & Hi & Hv').
    by eapply (bus_answer srv results).
Qed.

(** ** Witnesses *)

Section witnesses.
#[local] Instance bus_platform : Platform := big_endian.
#[local] Instance bus_cast : StrCast := ascii_cast.

(** The subscriber of the sample bus as an asyncio program on a big-endian
    machine: its connections are the server's peers 41 and 42. *)
Definition sample_bus_process : Native :=
  MkNative
    (MkNetState (MkWorld 0 (λ _, Some 1%Z) [Some 3%Z; Some 5%Z] [Some 40%Z; Some 50%Z]
       [(1%Z, EVENT_CONNECT 40); (1%Z, EVENT_CONNECT 50); (1%Z, EVENT_RECEIVE 50 sample_response_packet);
        (1%Z, EVENT_DISCONNECT 50); (1%Z, EVENT_RECEIVE 40 sample_fanout_packet)]
       ∅ (λ _, None) 0 []) ∅) false ∅.

Lemma sample_bus_fresh : fresh_process sample_bus_process.
Proof. by split. Qed.

Definition sample_start : list label := [LConnect; LWorker].
Definition sample_rest : list label :=
  [LWorker; LCallback; LWorker; LRecv; LWorker; LWorker; LCallback; LCallback; LRecvResume 0].

Lemma sample_bus_delivered :
  ∀ s', server_process little_endian sample_bus_server = (Ok tt, s') →
  delivered (sends (w_log (o_world s'))) {[41%Z; 42%Z]} (w_service (n_world (py_net sample_bus_process))).
Proof.
  intros s' Hs'. replace s' with (snd (server_process little_endian sample_bus_server)) by by rewrite Hs'.
  intros r peer p Hin. cbn in Hin. rewrite !elem_of_cons, elem_of_nil in Hin.
  destruct Hin as [[=]|[[=]|[[= -> -> ->]|[[=]|[[= -> -> ->]|[]]]]]].
  - exists 42%Z. split; [set_solver|]. apply (bool_decide_unpack _). vm_compute. exact I.
  - exists 41%Z. split; [set_solver|]. apply (bool_decide_unpack _). vm_compute. exact I.
Qed.

Example sample_bus_async_run :
  snd <$> run_steps_of "localhost" 6767 (sample_start ++ LCall (ReqGetTopicKey "t") :: sample_rest)
    (AsyncClient_init sample_bus_process) =
    let lookup := MkCommand (CmdRequest (ReqGetTopicKey "t")) 1 in
    Some [EvIssued lookup; EvDone lookup (inl (PyInt 1)); EvPolled 1 (MkFanoutMessage 1 "t" [x68; x69]);
          EvReceived 1 (MkFanoutMessage 1 "t" [x68; x69])].
Proof. vm_compute. reflexivity. Qed.

Lemma asyncio_agrees_with_server_witness :
  ∃ s', server_process little_endian sample_bus_server = (Ok tt, s') ∧
    (TopicMap_get "t" (BusServer.m_topic_map (o_derived s')) = Some 1%Z ∨ "t" = "unknown") ∧
    ∃ name, TopicMap_get name (BusServer.m_topic_map (o_derived s')) = Some 1%Z.
Proof.
  destruct (asyncio_agrees_with_server little_endian big_endian ascii_cast sample_bus_server
    sample_bus_run []) as (s' & Hs' & Hall).
  - intros t u. unfold str_cast, ascii_cast. destruct (forallb _ _); [by intros [= ->]|discriminate].
  - vm_compute. reflexivity.
  - reflexivity.
  - apply sample_bus_ready.
  - vm_compute. reflexivity.
  - split; [apply topics_rel_default|constructor].
  - vm_compute. reflexivity.
  - exists s'. split; [exact Hs'|]. pose proof (sample_bus_delivered s' Hs') as Hdel.
    pose proof (λ ls a es, Hall _ sample_bus_process "localhost" 6767%Z ls a es
      sample_bus_fresh Hdel) as Hrun.
    destruct (run_steps_of "localhost" 6767 (sample_start ++ LCall (ReqGetTopicKey "t") :: sample_rest)
      (AsyncClient_init sample_bus_process)) as [[a es]|] eqn:E; [|vm_compute in E; discriminate].
    destruct (run_steps_of "localhost" 6767 sample_start (AsyncClient_init sample_bus_process))
      as [[a0 es0]|] eqn:E0; [|vm_compute in E0; discriminate].
    destruct (run_steps_of "localhost" 6767 (LCall (ReqGetTopicKey "t") :: sample_rest) a0)
      as [[a1 es1]|] eqn:E1;
      [|vm_compute in E0; injection E0 as <- <-; vm_compute in E1; discriminate].
    split.
    + apply (proj1 (Hrun _ a es E) 1 (MkFanoutMessage 1 "t" [x68; x69])).
      vm_compute in E. injection E as _ <-. do 3 apply list_elem_of_further. by left.
    + destruct (Hrun _ a0 es0 E0) as [_ Hcall].
      destruct (Hcall (ReqGetTopicKey "t") sample_rest a1 es1 (PyInt 1)) as (k & name & [= <-] & Hk).
      * vm_compute in E0. injection E0 as <- <-. reflexivity.
      * exact E1.
      * vm_compute in E0. injection E0 as <- <-. vm_compute in E1. injection E1 as <- <-. reflexivity.
      * exists name. exact Hk.
Defined.
End witnesses.
