(* ===== verification/Ordering.v ===== *)
(** * Delivery in order

    The whole bus again, when the network keeps order: what a client polls is
    the sequence of publications on its subscriptions, in the order in which
    the server received them, each once. *)

From Stdlib.Strings Require Import Byte.
From stdpp Require Import base gmap sets list strings.
From S2P Require Import Prelude Protocol TopicMap World NetServer BusServer NetClient BusClient Bus.

(** ** The server's side *)

(** What goes to the peer [q], in order. *)
Definition sent_to {A} (q : ENetPeer) (l : list (ENetPeer * A)) : list A :=
  omap (λ d, if decide (d.1 = q) then Some d.2 else None) l.

Definition fanouts (l : list bus_msg) : list (Z * list byte) :=
  omap (λ m, match m with Fanout key payload => Some (key, payload) | _ => None end) l.

Lemma sent_to_app {A} q (l k : list (ENetPeer * A)) : sent_to q (l ++ k) = sent_to q l ++ sent_to q k.
Proof. apply omap_app. Qed.
Lemma fanouts_app l k : fanouts (l ++ k) = fanouts l ++ fanouts k.
Proof. apply omap_app. Qed.

Section history.
Context {plat : Platform}.
Implicit Types (ps : PubSub).

(** What an event gives the client at [q], by the history [pre] before it:
    the publication of another client, if [q] is subscribed to its key. *)
Definition delivery_of (q : ENetPeer) (pre : list ENetEvent) (ev : ENetEvent) :
    list (Z * list byte) :=
  match ev with
  | EVENT_RECEIVE from pk =>
      match decode (packet_data pk) with
      | Some (Publish key payload) =>
          if bool_decide (from ≠ q) && sub_history q key false pre then [(key, payload)] else []
      | _ => []
      end
  | _ => []
  end.

Fixpoint deliveries (q : ENetPeer) (pre evs : list ENetEvent) : list (Z * list byte) :=
  match evs with
  | [] => []
  | ev :: rest => delivery_of q pre ev ++ deliveries q (pre ++ [ev]) rest
  end.

Lemma deliveries_app q pre evs1 evs2 :
  deliveries q pre (evs1 ++ evs2) = deliveries q pre evs1 ++ deliveries q (pre ++ evs1) evs2.
Proof.
  revert pre. induction evs1 as [|ev evs1 IH]; intros pre; cbn [app deliveries].
  - by rewrite app_nil_r.
  - by rewrite IH, <-!app_assoc.
Qed.

(** A publication goes once to each subscriber but its sender. *)
Lemma sent_to_absent q key payload from (l : list (ENetPeer * gset Z)) :
  q ∉ l.*1 →
  sent_to q ((λ p, (p, Fanout key payload)) <$>
    (filter (λ c, c.1 ≠ from ∧ key ∈ c.2) l).*1) = [].
Proof.
  induction l as [|[p subs] l IH]; [done|]. cbn [fmap list_fmap fst].
  rewrite not_elem_of_cons. intros [Hne Hnin]. rewrite filter_cons.
  destruct (decide _); [|by apply IH]. cbn. rewrite decide_False by done. by apply IH.
Qed.

Lemma sent_to_subscribers q from key payload (l : list (ENetPeer * gset Z)) was :
  NoDup l.*1 → ((∃ subs, (q, subs) ∈ l ∧ key ∈ subs) ↔ was = true) →
  sent_to q ((λ p, (p, Fanout key payload)) <$>
    (filter (λ c, c.1 ≠ from ∧ key ∈ c.2) l).*1) =
    if bool_decide (from ≠ q) && was then [Fanout key payload] else [].
Proof.
  induction l as [|[p subs] l IH]; cbn [fmap list_fmap fst]; intros Hnd Hwas.
  - destruct was; [|by rewrite andb_false_r]. destruct (proj2 Hwas eq_refl) as (? & ?%elem_of_nil & _).
    done.
  - apply NoDup_cons in Hnd as [Hp Hnd]. rewrite filter_cons. cbn [fst snd].
    destruct (decide (p = q)) as [->|Hne].
    + assert (Hsub : key ∈ subs ↔ was = true).
      { rewrite <-Hwas. split; [intros; exists subs; split; [by left|done]|].
        intros (subs' & [[= ->]|Hin]%elem_of_cons & Hk); [done|].
        destruct Hp. apply list_elem_of_fmap. by exists (q, subs'). }
      destruct (decide (q ≠ from ∧ key ∈ subs)) as [[Hf Hk]|Hno].
      * cbn. rewrite decide_True by done. rewrite bool_decide_true by done.
        apply Hsub in Hk as ->. cbn. f_equal. by apply sent_to_absent.
      * rewrite sent_to_absent by done. case_bool_decide as Hf; [|done].
        destruct was; [|done]. destruct Hno. split; [done|by apply Hsub].
    + assert (Hrest : sent_to q ((λ p, (p, Fanout key payload)) <$>
        (filter (λ c, c.1 ≠ from ∧ key ∈ c.2) l).*1) =
        if bool_decide (from ≠ q) && was then [Fanout key payload] else []).
      { apply IH; [done|]. rewrite <-Hwas. setoid_rewrite elem_of_cons. naive_solver. }
      destruct (decide _); [|exact Hrest]. cbn. rewrite decide_False by done. exact Hrest.
Qed.

Lemma ps_event_deliveries q c pre ev ps :
  ps_conn c ps →
  (∀ key, ps_subscribed q key ps ↔ sub_history q key false pre = true) →
  fanouts (sent_to q (snd (ps_event ev ps))) = delivery_of q pre ev.
Proof.
  intros [Hnd _] Hsub. destruct ev as [|p|p|p pk]; try done. cbn [ps_event delivery_of].
  destruct (decode (packet_data pk)) as [[name|k name|key payload|k|k|k data]|]; try done.
  - cbn. by destruct (decide (p = q)).
  - cbn [ps_message snd]. unfold ps_receivers.
    rewrite (sent_to_subscribers q p key payload _ (sub_history q key false pre)) by first [exact Hnd|apply Hsub].
    by destruct (_ && _).
Qed.

(** Over a run: the messages to [q] are the deliveries, in order. *)
Lemma ps_events_deliveries q c pre evs ps :
  events_ok c evs = true → ps_conn c ps →
  (∀ key, ps_subscribed q key ps ↔ sub_history q key false pre = true) →
  fanouts (sent_to q (snd (ps_events evs ps))) = deliveries q pre evs.
Proof.
  revert c pre ps. induction evs as [|ev evs IH]; intros c pre ps Hev Hps Hsub; [done|].
  cbn [events_ok] in Hev. apply andb_true_iff in Hev as [Hev Hevs].
  pose proof (ps_event_deliveries q c pre ev ps Hps Hsub) as Hout.
  pose proof (ps_event_conn _ _ _ Hev Hps) as Hps1.
  assert (Hsub1 : ∀ key, ps_subscribed q key (fst (ps_event ev ps)) ↔
    sub_history q key false (pre ++ [ev]) = true).
  { intros key. unfold sub_history. rewrite foldl_app. cbn [foldl].
    by apply (ps_event_subscribed c ev ps q key). }
  cbn [ps_events deliveries]. destruct (ps_event ev ps) as [ps1 out1].
  specialize (IH _ (pre ++ [ev]) ps1 Hevs Hps1 Hsub1).
  destruct (ps_events evs ps1) as [ps2 out2]. cbn [snd] in *.
  by rewrite sent_to_app, fanouts_app, Hout, IH.
Qed.
End history.

(** ** The client's side *)

Section polling.
Context {plat : Platform}.
Implicit Types (c : BusClient).

(** [n] polls, whatever they throw. *)
Fixpoint polls (n : nat) (c : BusClient) : list (outcome (option FanoutMessage)) * BusClient :=
  match n with
  | 0 => ([], c)
  | S n' =>
      let r := BusClient_poll c in
      let q := polls n' (snd r) in
      (fst r :: fst q, snd q)
  end.

(** The messages among their results. *)
Definition polled_messages (rs : list (outcome (option FanoutMessage))) : list FanoutMessage :=
  omap (λ r, match r with Ok (Some f) => Some f | _ => None end) rs.

(** The packets among the results of ENet, which report no disconnection. *)
Definition carried (results : list (Z * ENetEvent)) : list (list byte) :=
  omap (λ r, if (0 <? r.1)%Z then
               match r.2 with EVENT_RECEIVE _ p => Some (packet_data p) | _ => None end
             else None) results.

Definition connected_throughout (results : list (Z * ENetEvent)) : Prop :=
  ∀ r peer, (r, EVENT_DISCONNECT peer) ∈ results → (r ≤ 0)%Z.

Lemma delivery_carried inverse r results :
  connected_throughout (r :: results) →
  Forall (λ data, sizeof_Header ≤ length data) (carried (r :: results)) →
  ∃ f, outcome_map (fmap fanout_of) (delivery inverse r) = Ok f ∧
    omap (fanout_in inverse) (carried (r :: results)) =
      option_list f ++ omap (fanout_in inverse) (carried results).
Proof.
  intros Hcon Hlen. destruct r as [ret ev]. unfold delivery, carried in *. cbn [fst snd omap list_omap] in *.
  destruct (0 <? ret)%Z eqn:Hret; [|by exists None].
  destruct ev as [|peer|peer|peer p]; try by exists None.
  - apply Z.ltb_lt in Hret. assert (ret ≤ 0)%Z by (apply (Hcon ret peer); by left). lia.
  - apply Forall_cons in Hlen as [Hlen _]. rewrite packet_delivery_decode.
    rewrite (proj2 (Nat.ltb_ge _ _) Hlen). eexists. split; [done|]. cbn. by destruct (fanout_in _ _).
Qed.

Lemma polls_run n c :
  idle c → n = length (w_service (n_world (c_net c))) →
  connected_throughout (w_service (n_world (c_net c))) →
  Forall (λ data, sizeof_Header ≤ length data) (carried (w_service (n_world (c_net c)))) →
  Forall (λ r, ∃ f, r = Ok f) (fst (polls n c)) ∧
  polled_messages (fst (polls n c)) =
    omap (fanout_in (m_inverse_topic_map c)) (carried (w_service (n_world (c_net c)))).
Proof.
  revert c. induction n as [|n IH]; intros c Hidle Hn Hcon Hlen.
  { destruct (w_service _); [|done]. by split. }
  destruct (poll_run c Hidle) as (net & Hpoll & Hb & Hser). cbn [polls fst]. rewrite Hpoll. cbn [fst snd].
  destruct (w_service (n_world (c_net c))) as [|r results] eqn:E; [done|]. cbn [hd tl] in *.
  destruct (delivery_carried (m_inverse_topic_map c) r results Hcon Hlen) as (f & Hf & ->).
  destruct (IH (with_net net c)) as [Hall Hm].
  - destruct (balanced_progress _ _ _ Hb) as [_ Hp]. unfold idle in *. cbn. by rewrite Hp.
  - cbn. rewrite Hser. by injection Hn.
  - cbn. rewrite Hser. intros r' peer Hin. apply (Hcon r' peer). by right.
  - cbn. rewrite Hser. unfold carried in *. cbn in Hlen.
    destruct (if (0 <? r.1)%Z then _ else _); [by apply Forall_cons in Hlen as [_ ?]|done].
  - cbn [c_net with_net m_inverse_topic_map] in Hm. rewrite Hser in Hm. rewrite Hf. split.
    + constructor; [by eexists|done].
    + unfold polled_messages in *. cbn. rewrite Hm. by destruct f.
Qed.
End polling.

(** ** The publisher's side *)

Section publishing.
Context {plat : Platform}.
Implicit Types (c : BusClient).

(** Publications on a topic that is cached: one packet each, in order. *)
Lemma publish_cached topic key payload c :
  idle c → m_topic_map c !! topic = Some key →
  idle (run_client_op (OpPublish topic payload) c) ∧
  m_topic_map (run_client_op (OpPublish topic payload) c) = m_topic_map c ∧
  m_client (run_client_op (OpPublish topic payload) c) = m_client c ∧
  sends (w_log (n_world (c_net (run_client_op (OpPublish topic payload) c)))) =
    sends (w_log (n_world (c_net c))) ++ [to_server c (Publish key payload)].
Proof.
  intros Hidle Hc. destruct (request_run topic (λ k, Publish k payload) c Hidle)
    as (c' & Hrun & Hl & Hg & Hb).
  specialize (Hb (or_intror (ex_intro _ _ Hc))).
  unfold resolution, resolution_learnt, resolution_sends in *. rewrite Hc in *.
  cbn [run_client_op]. unfold BusClient_publish. cbn [build] in Hrun. rewrite Hrun. cbn [snd].
  split_and!; [by eapply learnt_idle|..|by apply balanced_sends];
    destruct Hl as (n & b & ->); done.
Qed.

Lemma publish_all_cached topic key payloads c :
  idle c → m_topic_map c !! topic = Some key →
  sends (w_log (n_world (c_net (run_client_ops (OpPublish topic <$> payloads) c)))) =
    sends (w_log (n_world (c_net c))) ++ ((λ d, to_server c (Publish key d)) <$> payloads).
Proof.
  revert c. induction payloads as [|d payloads IH]; intros c Hidle Hc; [by rewrite app_nil_r|].
  destruct (publish_cached topic key d c Hidle Hc) as (Hi & Hm & Ht & Hs).
  cbn [fmap list_fmap]. unfold run_client_ops in *. cbn [fold_left].
  rewrite IH, Hs by (by rewrite ?Hm). unfold to_server. by rewrite Ht, <-app_assoc.
Qed.

(** The packets that come from the peer [p]. *)
Definition carried_from (p : ENetPeer) (evs : list ENetEvent) : list (list byte) :=
  omap (λ ev, match ev with
              | EVENT_RECEIVE from pk => if decide (from = p) then Some (packet_data pk) else None
              | _ => None
              end) evs.

(** The payloads of the deliveries on [key]. *)
Definition on_key (key : Z) (l : list (Z * list byte)) : list (list byte) :=
  omap (λ d, if decide (d.1 = key) then Some d.2 else None) l.

Lemma on_key_app key l l' : on_key key (l ++ l') = on_key key l ++ on_key key l'.
Proof. apply omap_app. Qed.
End publishing.

(** While [q] stays subscribed to [key] and only the client at [p] publishes on
    it, [q] is given what [p] sends. *)
Lemma deliveries_from aplat splat p q key pre post payloads :
  p ≠ q → is_u64 key →
  @sub_history splat q key false pre = true →
  Forall (λ ev, @sub_step splat q key true ev = true) post →
  (∀ from pk d, EVENT_RECEIVE from pk ∈ post →
     @decode splat (packet_data pk) = Some (Publish key d) → from = p ∨ from = q) →
  carried_from p post = (λ d, @packet aplat (Origin_value Origin_client) (Publish key d)) <$> payloads →
  on_key key (@deliveries splat q pre post) = payloads.
Proof.
  intros Hne Hkey. revert pre payloads. induction post as [|ev post IH]; intros pre payloads Hsub Hstay
    Hothers Hfrom; [by destruct payloads|].
  apply Forall_cons in Hstay as [Hev Hstay]. cbn [deliveries]. rewrite on_key_app.
  assert (Hrest : ∀ payloads', carried_from p post =
      (λ d, @packet aplat (Origin_value Origin_client) (Publish key d)) <$> payloads' →
    on_key key (@deliveries splat q (pre ++ [ev]) post) = payloads').
  { intros payloads'. apply IH; [|done|].
    - unfold sub_history in *. rewrite foldl_app. cbn [foldl]. by rewrite Hsub.
    - intros from pk d Hin. apply (Hothers from pk d). by right. }
  destruct ev as [|peer|peer|from pk]; cbn [delivery_of]; try by apply Hrest.
  unfold carried_from in Hfrom. cbn in Hfrom. destruct (decide (from = p)) as [->|Hfp].
  - destruct payloads as [|d payloads]; [done|]. injection Hfrom as Hd Hfrom.
    rewrite Hd, (@decode_cross_machine aplat splat) by done.
    rewrite bool_decide_true, Hsub by done. cbn. rewrite decide_True by done. cbn. f_equal. by apply Hrest.
  - rewrite (Hrest payloads Hfrom).
    destruct (@decode splat (packet_data pk)) as [[name|k name|k d|k|k|k d]|] eqn:Hm; try done.
    case_bool_decide as Hq; [|done]. cbn. destruct (@sub_history splat q k false pre); [|done]. cbn.
    destruct (decide (k = key)) as [->|]; [|done].
    destruct (Hothers from pk d ltac:(by left) Hm); done.
Qed.

(** ** Properties *)

Section properties.
Context (splat : Platform).

(** The messages for [q] on the wire. *)
Lemma sent_to_wire q out :
  sent_to q (@on_wire splat <$> out) = @packet splat (Origin_value Origin_server) <$> sent_to q out.
Proof.
  unfold sent_to. induction out as [|[p m] out IH]; [done|].
  rewrite fmap_cons. cbn. destruct (decide (p = q)); [cbn; f_equal|]; exact IH.
Qed.

Lemma fanouts_on_wire bplat inverse msgs :
  (∀ m, m ∈ msgs → msg_wf m) →
  omap (@fanout_in bplat inverse) (@packet splat (Origin_value Origin_server) <$> msgs) =
    (λ d, MkFanoutMessage d.1 (default "unknown" (inverse !! d.1)) d.2) <$> fanouts msgs.
Proof.
  induction msgs as [|m msgs IH]; intros Hwf; [done|]. rewrite fmap_cons.
  assert (Hm : @fanout_in bplat inverse (@packet splat (Origin_value Origin_server) m) =
    match m with
    | Fanout k d => Some (MkFanoutMessage k (default "unknown" (inverse !! k)) d)
    | _ => None
    end).
  { unfold fanout_in. rewrite (@decode_cross_machine splat bplat) by (apply Hwf; by left).
    by destruct m. }
  cbn [omap list_omap]. rewrite Hm. specialize (IH (λ m Hin, Hwf m (list_elem_of_further _ _ _ Hin))).
  destruct m; cbn [fanouts omap list_omap]; try exact IH. cbn. f_equal. exact IH.
Qed.

(** What the service sends a peer is long enough for a message, and its fanouts
    are the deliveries of the history. *)
Lemma service_delivers evs q :
  events_ok ∅ evs = true → (Z.of_nat (length evs) < 2 ^ 64 - 1)%Z →
  let sent := sent_to q (@on_wire splat <$> snd (@ps_events splat evs PubSub_empty)) in
  Forall (λ data, sizeof_Header ≤ length data) sent ∧
  ∀ bplat inverse, omap (@fanout_in bplat inverse) sent =
    (λ d, MkFanoutMessage d.1 (default "unknown" (inverse !! d.1)) d.2) <$> @deliveries splat q [] evs.
Proof.
  intros Hev Hb sent. unfold sent. rewrite sent_to_wire.
  set (out := snd (@ps_events splat evs PubSub_empty)). split.
  { apply Forall_fmap, Forall_forall. intros m _. apply length_packet. }
  intros bplat inverse. rewrite fanouts_on_wire.
  - f_equal. apply (ps_events_deliveries q ∅ [] evs); [done| |].
    + split; [constructor|]. intros p. cbn. set_solver.
    + intros key. split; [by intros (? & ?%elem_of_nil & _)|done].
  - intros m (d & Hin & Hdm)%list_elem_of_omap. case_decide; [|done]. injection Hdm as <-.
    apply (@ps_events_out_wf splat evs PubSub_empty); [cbn; lia|exact Hin].
Qed.

(** A client that receives what the server sends it, in order, polls the
    deliveries of the history. *)
Lemma in_order bplat (s : ServerObj) evs rest :
  drain (w_service (o_world s)) = (evs, rest) → sends (w_log (o_world s)) = [] →
  ready s evs → conn s = ∅ → refines s PubSub_empty →
  (Z.of_nat (length evs) < 2 ^ 64 - 1)%Z →
  ∃ s', server_process splat s = (Ok tt, s') ∧
    ∀ q b, idle b →
      let results := w_service (n_world (c_net b)) in
      connected_throughout results → carried results = sent_to q (sends (w_log (o_world s'))) →
      let rs := fst (@polls bplat (length results) b) in
      Forall (λ r, ∃ f, r = Ok f) rs ∧
      polled_messages rs =
        (λ d, MkFanoutMessage d.1 (default "unknown" (m_inverse_topic_map b !! d.1)) d.2) <$>
          @deliveries splat q [] evs.
Proof.
  intros Hd Hlog Hready Hconn Href Hb.
  destruct (@process_refines splat s PubSub_empty evs rest Hd Hready Href)
    as (s' & Hs' & _ & _ & Hsends); [cbn; lia|].
  exists s'. split; [exact Hs'|]. intros q b Hidle results Hcon Hcar rs.
  rewrite Hlog in Hsends. rewrite Hsends in Hcar.
  destruct Hready as (_ & _ & Hev). rewrite Hconn in Hev.
  destruct (service_delivers evs q Hev Hb) as [Hlen Hfan].
  destruct (@polls_run bplat (length results) b Hidle eq_refl Hcon) as [Hok Hm].
  { fold results. by rewrite Hcar. }
  split; [exact Hok|]. fold results rs in Hm. by rewrite Hm, Hcar, Hfan.
Qed.

(** When the network delivers what the server sends a client, in order
    and without loss, the client polls exactly the publications of the other
    clients on the keys to which it was subscribed when the server received
    them: in that order, each once, with the key, the payload unchanged and
    the name the client knows.  Polls at moments when nothing is there give
    nothing, and none throws. *)
Theorem fanouts_arrive_in_order bplat (s : ServerObj) evs rest :
  drain (w_service (o_world s)) = (evs, rest) → sends (w_log (o_world s)) = [] →
  ready s evs → conn s = ∅ → refines s PubSub_empty →
  (Z.of_nat (length evs) < 2 ^ 64 - 1)%Z →
  ∃ s', server_process splat s = (Ok tt, s') ∧
    ∀ q b, idle b →
      let results := w_service (n_world (c_net b)) in
      connected_throughout results → carried results = sent_to q (sends (w_log (o_world s'))) →
      let rs := fst (@polls bplat (length results) b) in
      Forall (λ r, ∃ f, r = Ok f) rs ∧
      polled_messages rs =
        (λ d, MkFanoutMessage d.1 (default "unknown" (m_inverse_topic_map b !! d.1)) d.2) <$>
          @deliveries splat q [] evs.
Proof. apply in_order. Qed.

(** C5: from one client's calls of [publish] to another's calls of [poll]:
    while a client is subscribed to a topic on which only one other client
    publishes, and the network keeps order on both connections, the last
    payloads that it polls on the topic are those that the other published,
    in order, none lost or doubled.  The three machines may differ in byte
    order. *)
Theorem published_sequence_arrives aplat bplat topic key payloads (a : BusClient)
    (s : ServerObj) pre post rest :
  idle a → BusClient.m_topic_map a !! topic = Some key → is_u64 key →
  drain (w_service (o_world s)) = (pre ++ post, rest) → sends (w_log (o_world s)) = [] →
  ready s (pre ++ post) → conn s = ∅ → refines s PubSub_empty →
  (Z.of_nat (length (pre ++ post)) < 2 ^ 64 - 1)%Z →
  let a' := @run_client_ops aplat (OpPublish topic <$> payloads) a in
  ∃ sent s', sends (w_log (n_world (c_net a'))) = sends (w_log (n_world (c_net a))) ++ sent ∧
    server_process splat s = (Ok tt, s') ∧
    ∀ p q b, p ≠ q →
      carried_from p post = snd <$> sent →
      @sub_history splat q key false pre = true →
      Forall (λ ev, @sub_step splat q key true ev = true) post →
      (∀ from pk d, EVENT_RECEIVE from pk ∈ post →
         @decode splat (packet_data pk) = Some (Publish key d) → from = p ∨ from = q) →
      idle b →
      let results := w_service (n_world (c_net b)) in
      connected_throughout results → carried results = sent_to q (sends (w_log (o_world s'))) →
      on_key key ((λ f, (topic_key f, payload f)) <$>
        polled_messages (fst (@polls bplat (length results) b))) =
        on_key key (@deliveries splat q [] pre) ++ payloads.
Proof.
  intros Hidle Hc Hkey Hd Hlog Hready Hconn Href Hb a'.
  destruct (in_order bplat s _ rest Hd Hlog Hready Hconn Href Hb) as (s' & Hs' & Hpolls).
  eexists _, s'. split; [by apply publish_all_cached|]. split; [exact Hs'|].
  intros p q b Hne Hfrom Hsub Hstay Hothers Hb' results Hcon Hcar.
  destruct (Hpolls q b Hb' Hcon Hcar) as [_ Hm]. fold results in Hm. rewrite Hm, <-list_fmap_compose.
  rewrite (list_fmap_ext _ id) by by intros ? [].
  rewrite list_fmap_id, deliveries_app, on_key_app. f_equal.
  rewrite <-list_fmap_compose in Hfrom.
  by apply (deliveries_from aplat splat p q key pre post payloads).
Qed.
End properties.

(** ** Witnesses *)

(** The sample bus again: the publisher at 40, the subscriber at 41, which has
    learnt its topic. *)
Section witnesses.

Definition sample_ordered_pre : list ENetEvent := take 6 sample_bus_run.
Definition sample_ordered_post : list ENetEvent :=
  let from_client m := @packet big_endian (Origin_value Origin_client) m in
  [EVENT_RECEIVE 40 (MkPacket 3 (from_client (Publish 1 [x68; x69])));
   EVENT_RECEIVE 40 (MkPacket 4 (from_client (Publish 1 [x21])))].

Definition sample_ordered_server : ServerObj :=
  MkObj (MkWorld 0 (λ _, None) [] []
      ((λ ev, (1%Z, ev)) <$> sample_ordered_pre ++ sample_ordered_post) ∅ (λ _, None) 0 [])
    (o_base sample_bus_server) (o_derived sample_bus_server).

Definition sample_in_order : BusClient :=
  let from_server m := @packet little_endian (Origin_value Origin_server) m in
  MkBusClient
    (MkNetState (MkWorld 0 (λ _, Some 1%Z) [] []
       [(1%Z, EVENT_RECEIVE 30 (MkPacket 8 (from_server (Fanout 1 [x68; x69]))));
        (0%Z, EVENT_NONE);
        (1%Z, EVENT_RECEIVE 30 (MkPacket 9 (from_server (Fanout 1 [x21]))))] ∅ (λ _, None) 0 []) ∅)
    (MkNetClient 3 (MkAddress (Some 1%Z) 6767) 30) "localhost" 6767 Constructor_default
    {["t" := 1%Z]} {[1%Z := "t"]}.

Lemma sample_ordered_ready : ready sample_ordered_server (sample_ordered_pre ++ sample_ordered_post).
Proof.
  destruct sample_bus_ready as (Hreg & _). split_and!; [|by split; [intros ? []|]|vm_compute; reflexivity].
  destruct Hreg as [Hnd Hkeys Hsubs]. by split.
Qed.

Lemma sample_ordered_refines : refines sample_ordered_server PubSub_empty.
Proof. split; [apply topics_rel_default|constructor]. Qed.

Lemma sample_in_order_connected :
  connected_throughout (w_service (n_world (c_net sample_in_order))).
Proof.
  intros r peer Hin. cbn in Hin. rewrite !elem_of_cons, elem_of_nil in Hin. naive_solver.
Qed.

Lemma fanouts_arrive_in_order_witness :
  ∃ s', server_process little_endian sample_ordered_server = (Ok tt, s') ∧
    polled_messages (fst (@polls big_endian 3 sample_in_order)) =
      [MkFanoutMessage 1 "t" [x68; x69]; MkFanoutMessage 1 "t" [x21]].
Proof.
  destruct (fanouts_arrive_in_order little_endian big_endian sample_ordered_server
    (sample_ordered_pre ++ sample_ordered_post) []) as (s' & Hs' & Hpolls).
  - vm_compute. reflexivity.
  - reflexivity.
  - apply sample_ordered_ready.
  - vm_compute. reflexivity.
  - apply sample_ordered_refines.
  - vm_compute. reflexivity.
  - exists s'. split; [exact Hs'|].
    destruct (Hpolls 41%Z sample_in_order) as [_ Hm].
    + split; reflexivity.
    + apply sample_in_order_connected.
    + replace s' with (snd (server_process little_endian sample_ordered_server)) by by rewrite Hs'.
      vm_compute. reflexivity.
    + etransitivity; [exact Hm|]. vm_compute. reflexivity.
Defined.

Lemma published_sequence_arrives_witness :
  ∃ s', server_process little_endian sample_ordered_server = (Ok tt, s') ∧
    on_key 1 ((λ f, (topic_key f, payload f)) <$>
      polled_messages (fst (@polls big_endian 3 sample_in_order))) = [[x68; x69]; [x21]].
Proof.
  destruct (published_sequence_arrives little_endian big_endian big_endian "t" 1 [[x68; x69]; [x21]]
    sample_publisher sample_ordered_server sample_ordered_pre sample_ordered_post [])
    as (sent & s' & Hsent & Hs' & Hpolls).
  - split; reflexivity.
  - reflexivity.
  - unfold is_u64. lia.
  - vm_compute. reflexivity.
  - reflexivity.
  - apply sample_ordered_ready.
  - vm_compute. reflexivity.
  - apply sample_ordered_refines.
  - vm_compute. reflexivity.
  - exists s'. split; [exact Hs'|].
    eapply (Hpolls 40%Z 41%Z sample_in_order).
    + done.
    + change (sends (w_log (n_world (c_net sample_publisher)))) with (@nil (ENetPeer * list byte)) in Hsent.
      cbn [app] in Hsent. rewrite <-Hsent. vm_compute. reflexivity.
    + vm_compute. reflexivity.
    + repeat constructor.
    + intros from pk d Hin _. unfold sample_ordered_post in Hin.
      rewrite !elem_of_cons, elem_of_nil in Hin. destruct Hin as [[= -> _]|[[= -> _]|[]]]; by left.
    + split; reflexivity.
    + apply sample_in_order_connected.
    + replace s' with (snd (server_process little_endian sample_ordered_server)) by by rewrite Hs'.
      vm_compute. reflexivity.
Defined.
End witnesses.
