(* ===== verification/Cli.v ===== *)
(** * The command-line client (drivers/cli.cpp)

    The command line and the environment give the options; [pub] publishes one
    message and [sub] prints what arrives until SIGINT.  The standard streams
    are the state next to the client's. *)

From Stdlib Require Import Ascii.
From Stdlib.Strings Require Import Byte.
From stdpp Require Import base gmap list strings.
From S2P Require Import Prelude Protocol World Common NetClient BusClient.

(** ** State *)

(** What was written to [std::cout] and [std::cerr]. *)
Record Console : Type := MkConsole { con_out : string; con_err : string }.

Definition print_out (text : string) (con : Console) : Console :=
  MkConsole (con_out con +:+ text) (con_err con).
Definition print_err (text : string) (con : Console) : Console :=
  MkConsole (con_out con) (con_err con +:+ text).

#[export] Instance cli_world_lens : Lens (NetState * Console) World.
Proof.
  refine {| lget := λ s, n_world s.1; lset := λ w s, (MkNetState w (n_packets s.1), s.2) |};
    by intros; destruct s as [[]].
Defined.

(** ** Options *)

Record Options : Type := MkOptions {
  host : string;
  port : Z;
  command : string;
  args : list string;
}.

Definition Options_default : Options := MkOptions "localhost" 6767 "" [].

Definition set_host (x : string) (o : Options) : Options :=
  MkOptions x (port o) (command o) (args o).
Definition set_port (x : Z) (o : Options) : Options :=
  MkOptions (host o) x (command o) (args o).
Definition set_command (x : string) (o : Options) : Options :=
  MkOptions (host o) (port o) x (args o).
Definition set_args (x : list string) (o : Options) : Options :=
  MkOptions (host o) (port o) (command o) x.

Definition newline : string := String "010" "".

(** What [print_usage] writes. *)
Definition usage : string :=
  "Usage:" +:+ newline +:+
  "  cli [--host HOST] [--port PORT] pub <topic> <message>" +:+ newline +:+
  "  cli [--host HOST] [--port PORT] sub <topic>" +:+ newline.

Definition parse_port (value : string) : outcome Z :=
  match stoi value with
  | Ok (port, parsed) =>
      if negb (parsed =? String.length value) || (port <? 0)%Z || (65535 <? port)%Z then
        Throw (out_of_range "Port must be between 0 and 65535")
      else Ok (uwrap 16 port)
  | Throw e => Throw e
  | Undefined => Undefined
  | OutOfFuel => OutOfFuel
  end.

(** The loop of [join_message] from its current index on. *)
Fixpoint join_loop (args : list string) (message : string) : string :=
  match args with
  | [] => message
  | arg :: rest =>
      let message := if negb (String.eqb message "") then message +:+ " " else message in
      join_loop rest (message +:+ arg)
  end.

Definition join_message (args : list string) (first_arg : nat) : string :=
  join_loop (drop first_arg args) "".

(** [arg.substr(n)]. *)
Definition substr (n : nat) (s : string) : string :=
  String.substring n (String.length s - n) s.

(** How the loop over the options ends: at [--help], or with what is left. *)
Inductive scan : Type :=
  | ScanHelp (options : Options)
  | ScanDone (options : Options) (host_from_args port_from_args : bool) (rest : list string).

Fixpoint parse_loop (argv : list string) (options : Options)
    (host_from_args port_from_args : bool) : outcome scan :=
  match argv with
  | [] => Ok (ScanDone options host_from_args port_from_args [])
  | arg :: rest =>
      if String.eqb arg "--help" || String.eqb arg "-h" then
        Ok (ScanHelp (set_command "help" options))
      else if String.eqb arg "--host" || String.eqb arg "-H" then
        match rest with
        | [] => Throw (invalid_argument "--host requires a value")
        | value :: rest => parse_loop rest (set_host value options) true port_from_args
        end
      else if String.prefix "--host=" arg then
        parse_loop rest (set_host (substr 7 arg) options) true port_from_args
      else if String.eqb arg "--port" || String.eqb arg "-p" then
        match rest with
        | [] => Throw (invalid_argument "--port requires a value")
        | value :: rest =>
            match parse_port value with
            | Ok port => parse_loop rest (set_port port options) host_from_args true
            | Throw e => Throw e
            | Undefined => Undefined
            | OutOfFuel => OutOfFuel
            end
        end
      else if String.prefix "--port=" arg then
        match parse_port (substr 7 arg) with
        | Ok port => parse_loop rest (set_port port options) host_from_args true
        | Throw e => Throw e
        | Undefined => Undefined
        | OutOfFuel => OutOfFuel
        end
      else Ok (ScanDone (set_command arg options) host_from_args port_from_args rest)
  end.

Definition parse_options {S} `{!Lens S World} (argv : list string) : M S Options :=
  let! found := of_outcome (parse_loop (drop 1 argv) Options_default false false) in
  match found with
  | ScanHelp options => ret options
  | ScanDone options host_from_args port_from_args rest =>
      let options := set_args rest options in
      if String.eqb (command options) "" then throw (invalid_argument "missing command")
      else
        let! options :=
          if host_from_args : bool then ret options
          else let! value := get_env_or "SPRAYBUS_HOST" (host options) in
               ret (set_host value options) in
        if port_from_args : bool then ret options
        else let! value := get_env_or "SPRAYBUS_PORT" "6767" in
             let! port := of_outcome (parse_port value) in
             ret (set_port port options)
  end.

(** ** The program *)

Definition what (e : exn) : string :=
  match e with runtime_error s | out_of_range s | invalid_argument s | type_error s => s end.

Section program.
Context {plat : Platform}.

(** The lifetime of the local variable [client]. *)
Definition with_client {A} (client : BusClient) (body : M (BusClient * Console) A) :
    M (NetState * Console) A := λ s,
  match body (with_net s.1 client, s.2) with
  | (Ok a, (c, con)) => (Ok a, (snd (NetClient_dtor (m_client c) (c_net c)), con))
  | (Throw e, (c, con)) => (Throw e, (snd (NetClient_dtor (m_client c) (c_net c)), con))
  | (Undefined, (c, con)) => (Undefined, (c_net c, con))
  | (OutOfFuel, (c, con)) => (OutOfFuel, (c_net c, con))
  end.

(** The callback of [sub]: print the payload and a newline. *)
Definition print_message (msg : Message) : M Console unit :=
  modify (print_out (Message_payload_as_string msg +:+ newline)).

(** The body of the run loop of [sub]. *)
Definition sub_step : M (BusClient * Console) unit :=
  BusClient_process print_message ;;;
  emit (Sleep_ms 10).

Definition run_pub (options : Options) : M (BusClient * Console) Z :=
  match args options with
  | topic :: _ :: _ =>
      zoom (BusClient_publish_string topic (join_message (args options) 1)) ;;;
      ret 0%Z
  | _ => throw (invalid_argument "pub requires <topic> and <message>")
  end.

Definition run_sub (options : Options) : M (BusClient * Console) Z :=
  match args options with
  | [topic] =>
      zoom (BusClient_subscribe topic) ;;;
      run_forever sub_step ;;;
      ret 0%Z
  | _ => throw (invalid_argument "sub requires exactly one <topic>")
  end.

Definition run_command (options : Options) : M (BusClient * Console) Z :=
  if String.eqb (command options) "pub" then run_pub options
  else if String.eqb (command options) "sub" then run_sub options
  else throw (invalid_argument ("unknown command: " +:+ command options)).

Definition run (argv : list string) : M (NetState * Console) Z :=
  let! options := parse_options argv in
  if String.eqb (command options) "help" then
    zoom (modify (print_out usage)) ;;; ret 0%Z
  else
    networking_init ;;;
    let! client := zoom (BusClient_ctor (host options) (port options)) in
    with_client client (run_command options).

Definition main (argv : list string) : M (NetState * Console) Z := λ s,
  match run argv s with
  | (Throw e, s') =>
      (Ok 1%Z, (s'.1, print_err usage (print_err ("error: " +:+ what e +:+ newline) s'.2)))
  | r => r
  end.
End program.

(** ** Lemmas on ports *)

Lemma parse_port_iff v p :
  parse_port v = Ok p ↔ number_text v p ∧ (0 ≤ p ≤ 65535)%Z.
Proof.
  unfold parse_port. split.
  - destruct (stoi v) as [[z n]|e| |] eqn:E; try done.
    destruct (_ || _) eqn:Hr; [done|]. intros [= <-].
    apply orb_false_iff in Hr as [[Hn ?%Z.ltb_ge]%orb_false_iff ?%Z.ltb_ge].
    apply negb_false_iff, Nat.eqb_eq in Hn as ->. rewrite uwrap_small by lia.
    split; [|lia]. by apply stoi_whole in E as [? _].
  - intros [Hv Hp]. rewrite (proj2 (stoi_whole v p)).
    + rewrite Nat.eqb_refl, (proj2 (Z.ltb_ge p 0)), (proj2 (Z.ltb_ge 65535 p)) by lia.
      cbn. by rewrite uwrap_small by lia.
    + split; [done|]. unfold INT_MIN, INT_MAX. lia.
Qed.

Lemma parse_port_ends v : match parse_port v with Ok _ | Throw _ => True | _ => False end.
Proof.
  unfold parse_port. pose proof (stoi_ends v). destruct (stoi v) as [[]|e| |]; [|done..].
  by destruct (_ || _).
Qed.

Lemma parse_port_decimal p : (0 ≤ p ≤ 65535)%Z → parse_port (to_string_Z p) = Ok p.
Proof. intros Hp. apply parse_port_iff. split; [|done]. apply number_text_decimal. lia. Qed.

(** ** Specification of the command line *)

(** The three ways to write an option. *)
Inductive spelling : Type := Long | Short | Equals.

Inductive flag : Type :=
  | HostFlag (form : spelling) (value : string)
  | PortFlag (form : spelling) (value : string).

Definition render_flag (f : flag) : list string :=
  match f with
  | HostFlag Long v => ["--host"; v]
  | HostFlag Short v => ["-H"; v]
  | HostFlag Equals v => ["--host=" +:+ v]
  | PortFlag Long v => ["--port"; v]
  | PortFlag Short v => ["-p"; v]
  | PortFlag Equals v => ["--port=" +:+ v]
  end.

Definition render_flags (fs : list flag) : list string := concat (map render_flag fs).

(** The values given, in order. *)
Definition flag_hosts (fs : list flag) : list string :=
  omap (λ f, match f with HostFlag _ v => Some v | _ => None end) fs.

Definition flag_ports (fs : list flag) : list Z :=
  omap (λ f, match f with
             | PortFlag _ v => match parse_port v with Ok p => Some p | _ => None end
             | _ => None
             end) fs.

Definition flag_ok (f : flag) : bool :=
  match f with
  | PortFlag _ v => match parse_port v with Ok _ => true | _ => false end
  | HostFlag _ _ => true
  end.

(** A word that starts the command, not an option. *)
Definition is_option (arg : string) : bool :=
  String.eqb arg "--help" || String.eqb arg "-h" || String.eqb arg "--host" ||
  String.eqb arg "-H" || String.prefix "--host=" arg || String.eqb arg "--port" ||
  String.eqb arg "-p" || String.prefix "--port=" arg.

(** The options after the flags: the last value of each counts. *)
Definition after_flags (fs : list flag) (o : Options) : Options :=
  MkOptions (default (host o) (last (flag_hosts fs))) (default (port o) (last (flag_ports fs)))
    (command o) (args o).

Definition given {A} (l : list A) : bool := match l with [] => false | _ => true end.

Lemma substr_append s1 s2 : substr (String.length s1) (s1 +:+ s2) = s2.
Proof.
  unfold substr. rewrite substring_append, length_append.
  replace (_ + _ - _) with (String.length s2) by lia. apply substring_all.
Qed.

Lemma parse_loop_host form v tail o hf pf :
  parse_loop (render_flag (HostFlag form v) ++ tail) o hf pf =
    parse_loop tail (set_host v o) true pf.
Proof.
  destruct form; [done|done|]. cbn [render_flag app parse_loop].
  rewrite prefix_append. change (substr 7) with (substr (String.length "--host=")).
  by rewrite substr_append.
Qed.

Lemma parse_loop_port form v p tail o hf pf :
  parse_port v = Ok p →
  parse_loop (render_flag (PortFlag form v) ++ tail) o hf pf =
    parse_loop tail (set_port p o) hf true.
Proof.
  intros Hp. destruct form; [by cbn; rewrite Hp..|]. cbn [render_flag app parse_loop].
  rewrite prefix_append. change (substr 7) with (substr (String.length "--port=")).
  by rewrite substr_append, Hp.
Qed.

Lemma default_last_cons {A} (x y : A) l : default x (last (y :: l)) = default y (last l).
Proof. rewrite last_cons. by destruct (last l). Qed.

Lemma parse_loop_flags fs tail o hf pf :
  forallb flag_ok fs = true →
  parse_loop (render_flags fs ++ tail) o hf pf =
    parse_loop tail (after_flags fs o) (hf || given (flag_hosts fs))
      (pf || given (flag_ports fs)).
Proof.
  revert o hf pf. induction fs as [|f fs IH]; intros o hf pf.
  { intros _. cbn. rewrite !orb_false_r. by destruct o. }
  cbn [forallb]. intros [Hf Hfs]%andb_true_iff. unfold render_flags. cbn [map concat].
  rewrite <-app_assoc. fold (render_flags fs). destruct f as [form v|form v].
  - rewrite parse_loop_host, IH by done. unfold after_flags. cbn [host port command args set_host].
    change (flag_hosts (HostFlag form v :: fs)) with (v :: flag_hosts fs).
    change (flag_ports (HostFlag form v :: fs)) with (flag_ports fs).
    rewrite default_last_cons. cbn [given]. by rewrite !orb_true_r.
  - cbn in Hf. destruct (parse_port v) as [p| | |] eqn:Hp; try done.
    rewrite (parse_loop_port form v p), IH by done. unfold after_flags.
    cbn [host port command args set_port].
    change (flag_hosts (PortFlag form v :: fs)) with (flag_hosts fs).
    replace (flag_ports (PortFlag form v :: fs)) with (p :: flag_ports fs)
      by (unfold flag_ports; cbn; by rewrite Hp).
    rewrite default_last_cons. cbn [given]. by rewrite !orb_true_r.
Qed.

Lemma parse_loop_command cmd rest o hf pf :
  is_option cmd = false →
  parse_loop (cmd :: rest) o hf pf = Ok (ScanDone (set_command cmd o) hf pf rest).
Proof.
  unfold is_option. rewrite !orb_false_iff. intros (((((((H1 & H2) & H3) & H4) & H5) & H6) & H7) & H8).
  cbn [parse_loop]. by rewrite H1, H2, H3, H4, H5, H6, H7, H8.
Qed.

(** ** Lemmas on the run loop of [sub] *)

Section sub_loop.
Context {plat : Platform}.
Implicit Types (c : BusClient).

Lemma keeps_sub_step : keeps_runs sub_step.
Proof.
  apply keeps_bind; [apply keeps_BusClient_process|intros _; by apply keeps_emit].
Qed.

(** What [n] steps print, and how they end. *)
Fixpoint sub_output (n : nat) (inverse : gmap Z string) (results : list (Z * ENetEvent)) :
    outcome unit * string :=
  match n with
  | O => (Ok tt, "")
  | S n' =>
      match delivery inverse (hd (0%Z, EVENT_NONE) results) with
      | Ok None => sub_output n' inverse (tl results)
      | Ok (Some m) =>
          let r := sub_output n' inverse (tl results) in
          (fst r, (Message_payload_as_string m +:+ newline) +:+ snd r)
      | Throw e => (Throw e, "")
      | Undefined => (Undefined, "")
      | OutOfFuel => (OutOfFuel, "")
      end
  end.

Lemma print_empty con : print_out "" con = con.
Proof. destruct con. unfold print_out. cbn. by rewrite append_empty_r. Qed.

Lemma print_print s1 s2 con : print_out s2 (print_out s1 con) = print_out (s1 +:+ s2) con.
Proof. unfold print_out. cbn. by rewrite append_assoc. Qed.

(** One step, from a state between operations. *)
Lemma sub_step_run c con :
  idle c →
  let d := delivery (m_inverse_topic_map c)
             (hd (0%Z, EVENT_NONE) (w_service (n_world (c_net c)))) in
  ∃ n, sub_step (c, con) =
      (outcome_map (λ _, tt) d,
       (with_net n c, match d with
                      | Ok (Some m) =>
                          print_out (Message_payload_as_string m +:+ newline) con
                      | _ => con
                      end)) ∧
    idle (with_net n c) ∧ w_service (n_world n) = tl (w_service (n_world (c_net c))) ∧
    sends (w_log (n_world n)) = sends (w_log (n_world (c_net c))).
Proof.
  intros Hidle d.
  destruct (process_idle_run print_message c con Hidle) as (n & Hrun & Hb & Hser); [done|].
  fold d in Hrun. pose proof (delivery_ends (m_inverse_topic_map c)
    (hd (0%Z, EVENT_NONE) (w_service (n_world (c_net c))))) as Hends. fold d in Hends.
  pose proof (balanced_progress _ _ _ Hb) as [_ Hpk].
  pose proof (balanced_sends _ _ _ Hb) as Hsends. rewrite app_nil_r in Hsends.
  assert (Hsleep : sends (w_log (n_world (after_emit (Sleep_ms 10) n))) =
    sends (w_log (n_world (c_net c)))) by (cbn; by rewrite sends_app, app_nil_r).
  assert (Hidle' : ∀ w, idle (with_net (MkNetState w (n_packets n)) c)).
  { intros w. unfold idle. cbn. by rewrite Hpk. }
  unfold sub_step. destruct d as [[m|]|e| |]; try done.
  - rewrite (bind_Ok _ _ _ _ _ Hrun). exists (after_emit (Sleep_ms 10) n).
    split_and!; [done|apply Hidle'|done|exact Hsleep].
  - rewrite (bind_Ok _ _ _ _ _ Hrun). exists (after_emit (Sleep_ms 10) n).
    split_and!; [done|apply Hidle'|done|exact Hsleep].
  - rewrite (bind_Throw _ _ _ _ _ Hrun). exists n. split_and!; try done.
    specialize (Hidle' (n_world n)). by destruct n.
Qed.

Lemma sub_iterations n c con :
  idle c →
  let r := sub_output n (m_inverse_topic_map c) (w_service (n_world (c_net c))) in
  ∃ net, iterations n sub_step (c, con) =
      (fst r, (with_net net c, print_out (snd r) con)) ∧
    sends (w_log (n_world net)) = sends (w_log (n_world (c_net c))).
Proof.
  revert c con. induction n as [|n IH]; intros c con Hidle; cbn [sub_output iterations].
  { exists (c_net c). rewrite print_empty. by destruct c. }
  set (c1 := with_net (MkNetState (world_run n (n_world (c_net c))) (n_packets (c_net c))) c).
  destruct (sub_step_run c1 con Hidle) as (net & Hstep & Hidle' & Hser & Hs).
  cbn [m_inverse_topic_map with_net c1] in Hstep.
  change (w_service (n_world (c_net c1))) with (w_service (n_world (c_net c))) in *.
  change ((iteration sub_step n ;;; iterations n sub_step) (c, con))
    with ((sub_step ;;; iterations n sub_step) (c1, con)).
  destruct (delivery _ _) as [[m|]|e| |]; cbn [outcome_map fst snd] in *.
  - rewrite (bind_Ok _ _ _ _ _ Hstep).
    destruct (IH _ (print_out (Message_payload_as_string m +:+ newline) con) Hidle')
      as (net' & Hi & Hs'). exists net'. rewrite Hi, Hs'. cbn. by rewrite Hser, print_print.
  - rewrite (bind_Ok _ _ _ _ _ Hstep). destruct (IH _ con Hidle') as (net' & Hi & Hs').
    exists net'. rewrite Hi, Hs'. cbn. by rewrite Hser.
  - rewrite (bind_Throw _ _ _ _ _ Hstep). exists net. by rewrite print_empty.
  - exists net. unfold bind. rewrite Hstep. by rewrite print_empty.
  - exists net. unfold bind. rewrite Hstep. by rewrite print_empty.
Qed.

Lemma sub_run c con :
  idle c →
  let w := n_world (c_net c) in
  let r := sub_output (w_run w) (m_inverse_topic_map c) (w_service w) in
  ∃ net, run_forever sub_step (c, con) = (fst r, (with_net net c, print_out (snd r) con)) ∧
    sends (w_log (n_world net)) = sends (w_log w).
Proof.
  intros Hidle w r. rewrite run_forever_run by apply keeps_sub_step.
  destruct (sub_iterations (w_run w)
    (with_net (MkNetState (world_emit Install_sigint_handler w) (n_packets (c_net c))) c) con)
    as (net & Hrun & Hs); [exact Hidle|]. exists net. split; [exact Hrun|].
  rewrite Hs. cbn. by rewrite sends_app, app_nil_r.
Qed.

Lemma sub_output_ends n inverse results :
  match fst (sub_output n inverse results) with Ok _ | Throw _ => True | _ => False end.
Proof.
  revert results. induction n as [|n IH]; intros results; cbn [sub_output]; [done|].
  pose proof (delivery_ends inverse (hd (0%Z, EVENT_NONE) results)).
  destruct (delivery _ _) as [[m|]|e| |]; try done; apply IH.
Qed.
End sub_loop.

(** ** Lemmas on whole runs *)

Section runs.
Context {plat : Platform}.
Implicit Types (c : BusClient) (net : NetState) (con : Console).

(** The result of a command: 0 or an exception, with nothing written to the
    error stream. *)
Definition command_ends con (r : outcome Z * (BusClient * Console)) : Prop :=
  con_err (snd (snd r)) = con_err con ∧
  match fst r with Ok z => z = 0%Z | Throw _ => True | _ => False end.

Lemma zoom_client_run {A} (m : M BusClient A) c con r c' :
  m c = (r, c') → zoom m (c, con) = (r, (c', con)).
Proof. intros H. unfold zoom. cbn [lget pair_fst_lens fst]. by rewrite H. Qed.

Lemma run_command_ends o c con :
  idle c → command_ends con (run_command o (c, con)).
Proof.
  intros Hidle. unfold run_command, run_pub, run_sub.
  destruct (String.eqb (command o) "pub"); [|destruct (String.eqb (command o) "sub"); [|done]].
  - destruct (args o) as [|topic [|word rest]]; try done.
    set (msg := join_message _ _).
    destruct (request_run topic (λ k, Publish k (as_bytes msg)) c Hidle)
      as (c' & Hrun & _). pose proof (resolution_ends topic c) as Hends.
    pose proof (zoom_client_run (BusClient_publish_string topic msg) c con _ _ Hrun) as Hz.
    destruct (resolution topic c) as [key|e| |]; try done; cbn [outcome_map] in Hz.
    + by rewrite (bind_Ok _ _ _ _ _ Hz).
    + by rewrite (bind_Throw _ _ _ _ _ Hz).
  - destruct (args o) as [|topic [|word rest]]; try done.
    destruct (request_run topic Subscribe c Hidle) as (c' & Hrun & Hl & Hg & _).
    pose proof (resolution_ends topic c) as Hends.
    pose proof (zoom_client_run (BusClient_subscribe topic) c con _ _ Hrun) as Hz.
    destruct (resolution topic c) as [key|e| |]; try done; cbn [outcome_map] in Hz.
    2: by rewrite (bind_Throw _ _ _ _ _ Hz).
    rewrite (bind_Ok _ _ _ _ _ Hz).
    destruct (sub_run c' con (learnt_idle _ _ _ Hl Hg Hidle)) as (net & Hs & _).
    pose proof (sub_output_ends (w_run (n_world (c_net c'))) (m_inverse_topic_map c')
      (w_service (n_world (c_net c')))) as Hout.
    destruct (fst (sub_output _ _ _)) as [[]|e| |]; try done.
    + by rewrite (bind_Ok _ _ _ _ _ Hs).
    + by rewrite (bind_Throw _ _ _ _ _ Hs).
Qed.

(** The same for [run]. *)
Definition run_ends con (r : outcome Z * (NetState * Console)) : Prop :=
  con_err (snd (snd r)) = con_err con ∧
  match fst r with Ok z => z = 0%Z | Throw _ => True | _ => False end.

Lemma with_client_ends o c net con :
  idle (with_net net c) → run_ends con (with_client c (run_command o) (net, con)).
Proof.
  intros Hidle. unfold with_client. cbn [fst snd].
  pose proof (run_command_ends o _ con Hidle) as [Herr Hr].
  by destruct (run_command o (with_net net c, con)) as [[z|e| |] [c' con']].
Qed.

Lemma parse_loop_ends argv o hf pf :
  match parse_loop argv o hf pf with Ok _ | Throw _ => True | _ => False end.
Proof.
  revert o hf pf. induction argv as [argv IH] using (induction_ltof1 _ length).
  intros o hf pf. destruct argv as [|arg rest]; [done|]. cbn [parse_loop].
  assert (Hrest : ∀ o hf pf, match parse_loop rest o hf pf with
    Ok _ | Throw _ => True | _ => False end) by (intros; apply IH; unfold ltof; cbn; lia).
  assert (Hrest2 : ∀ v rest' o hf pf, rest = v :: rest' → match parse_loop rest' o hf pf with
    Ok _ | Throw _ => True | _ => False end)
    by (intros; subst; apply IH; unfold ltof; cbn; lia).
  destruct (_ || _); [done|]. destruct (_ || _).
  { destruct rest; [done|]. by eapply Hrest2. }
  destruct (String.prefix _ _); [apply Hrest|]. destruct (_ || _).
  { destruct rest as [|v rest']; [done|]. pose proof (parse_port_ends v).
    destruct (parse_port v); try done. by eapply Hrest2. }
  destruct (String.prefix _ _); [|done]. pose proof (parse_port_ends (substr 7 arg)).
  destruct (parse_port (substr 7 arg)); try done. apply Hrest.
Qed.

(** Parsing reads the environment and changes nothing. *)
Lemma parse_options_run {S} `{!Lens S World} argv (s : S) :
  ∃ r, parse_options argv s = (r, s) ∧
    match r with Ok _ | Throw _ => True | _ => False end.
Proof.
  unfold parse_options. pose proof (parse_loop_ends (drop 1 argv) Options_default false false).
  destruct (parse_loop _ _ _ _) as [[o|o hf pf rest]|e| |]; try done; try by eexists.
  unfold of_outcome, bind at 1. destruct (String.eqb _ ""); [by eexists|].
  set (o1 := set_args rest o).
  assert (Hh : ∃ o2, (if hf then ret o1 else
    let! value := get_env_or "SPRAYBUS_HOST" (host o1) in ret (set_host value o1)) s = (Ok o2, s)).
  { destruct hf; [by eexists|]. unfold get_env_or, getenv, bind, gets, world_of.
    destruct (w_env _ _); by eexists. }
  destruct Hh as [o2 Hh]. rewrite (bind_Ok _ _ _ _ _ Hh). destruct pf; [by eexists|].
  unfold get_env_or, getenv, bind, gets, world_of.
  destruct (w_env (lget s) "SPRAYBUS_PORT") as [v|]; cbn -[parse_port].
  - pose proof (parse_port_ends v). destruct (parse_port v); try done; by eexists.
  - by eexists.
Qed.

Lemma networking_init_ends net con :
  ∃ w, snd (networking_init (net, con)) = (MkNetState w (n_packets net), con) ∧
    match fst (networking_init (net, con)) with Ok _ | Throw _ => True | _ => False end.
Proof. rewrite networking_init_run. eexists. split; [done|apply init_outcome_ends]. Qed.

Lemma run_always_ends argv net con : free net → run_ends con (run argv (net, con)).
Proof.
  intros Hfree. unfold run. destruct (parse_options_run argv (net, con)) as (r & Hr & Hends).
  destruct r as [o|e| |]; try done; [|by rewrite (bind_Throw _ _ _ _ _ Hr)].
  rewrite (bind_Ok _ _ _ _ _ Hr). destruct (String.eqb (command o) "help"); [done|].
  destruct (networking_init_ends net con) as (w & Hs & Hi).
  destruct (networking_init (net, con)) as [[[]|e| |] s] eqn:E; try done; cbn [snd] in Hs; subst s;
    [|by rewrite (bind_Throw _ _ _ _ _ E)].
  rewrite (bind_Ok _ _ _ _ _ E). set (net1 := MkNetState w (n_packets net)) in *.
  destruct (client_ctor_run (host o) (port o) net1) as (net2 & _ & [_ Hp] & Hc).
  assert (Hz : zoom (BusClient_ctor (host o) (port o)) (net1, con) =
    (fst (BusClient_ctor (host o) (port o) net1), (net2, con)))
    by (unfold zoom; cbn [lget pair_fst_lens fst]; by rewrite Hc).
  rewrite Hc in Hz. pose proof (connect_outcome_ends (host o) (port o) (n_world net1)).
  destruct (fst (connect_outcome _ _ _)) as [t|e| |]; try done; cbn [outcome_map fst] in Hz.
  - rewrite (bind_Ok _ _ _ _ _ Hz). apply with_client_ends.
    unfold idle. cbn. rewrite Hp. exact Hfree.
  - by rewrite (bind_Throw _ _ _ _ _ Hz).
Qed.

(** ** Publishing from the command line *)

(** The words joined by single spaces; empty words at the front leave no
    space. *)
Fixpoint skip_empty (words : list string) : list string :=
  match words with
  | "" :: rest => skip_empty rest
  | _ => words
  end.

Lemma join_loop_nonempty words m :
  m ≠ "" → join_loop words m = String.concat " " (m :: words).
Proof.
  revert m. induction words as [|a words IH]; intros m Hm; [done|]. cbn [join_loop].
  rewrite (proj2 (String.eqb_neq _ _) Hm). cbn [negb].
  assert (Hne : (m +:+ " ") +:+ a ≠ "") by by destruct m.
  rewrite (IH _ Hne). change (String.concat " " (m :: a :: words)) with
    (m +:+ (" " +:+ String.concat " " (a :: words))).
  destruct words as [|b words]; cbn [String.concat]; by rewrite ?append_assoc.
Qed.

Lemma join_loop_spec words : join_loop words "" = String.concat " " (skip_empty words).
Proof.
  induction words as [|a words IH]; [done|]. destruct (decide (a = "")) as [->|Hne].
  - apply IH.
  - cbn [join_loop]. change (join_loop words a = String.concat " " (skip_empty (a :: words))).
    rewrite join_loop_nonempty by done. by destruct a.
Qed.

Lemma networking_init_ok net con :
  w_initialize (n_world net) = 0%Z →
  networking_init (net, con) =
    (Ok tt, (MkNetState (world_emit Atexit_enet_deinitialize
               (world_emit Enet_initialize (n_world net))) (n_packets net), con)).
Proof.
  intros H. rewrite networking_init_run. unfold init_outcome, init_world. cbn. by rewrite H.
Qed.

(** A program whose main connection succeeds runs its command on a client
    that has just connected. *)
Lemma run_connects argv net con o h hosts p peers r q rest :
  let w := n_world net in
  free net → parse_options argv (net, con) = (Ok o, (net, con)) → command o ≠ "help" →
  w_initialize w = 0%Z → w_hosts w = Some h :: hosts → w_peers w = Some p :: peers →
  w_service w = (r, EVENT_CONNECT q) :: rest → (0 < r)%Z →
  ∃ c, run argv (net, con) = with_client c (run_command o) (c_net c, con) ∧ idle c ∧
    m_topic_map c = ∅ ∧ m_inverse_topic_map c = ∅ ∧ nc_peer (m_client c) = p ∧
    w_hosts (n_world (c_net c)) = hosts ∧ w_peers (n_world (c_net c)) = peers ∧
    w_service (n_world (c_net c)) = rest ∧
    sends (w_log (n_world (c_net c))) = sends (w_log w) ∧
    w_run (n_world (c_net c)) = w_run w.
Proof.
  intros w Hfree Ho Hcmd Hi Hh Hp Hs Hr. unfold run. rewrite (bind_Ok _ _ _ _ _ Ho).
  rewrite (proj2 (String.eqb_neq _ _) Hcmd).
  rewrite (bind_Ok _ _ _ _ _ (networking_init_ok net con Hi)). set (net1 := MkNetState _ (n_packets net)).
  destruct (client_ctor_ok (host o) (port o) net1 h hosts p peers r q rest Hfree Hh Hp Hs Hr)
    as (c & Hc & Hidle & _ & _ & Hmap & Hinv & Hpeer & Hh' & Hp' & Hs' & Hsent & Hrun).
  assert (Hz : zoom (BusClient_ctor (host o) (port o)) (net1, con) = (Ok c, (c_net c, con)))
    by (unfold zoom; cbn [lget pair_fst_lens fst]; by rewrite Hc).
  rewrite (bind_Ok _ _ _ _ _ Hz). exists c. split_and!; try done.
  rewrite Hsent. cbn. by rewrite !sends_app, !app_nil_r.
Qed.

(** The destructor of [client] sends nothing. *)
Lemma with_client_run {A} (body : M (BusClient * Console) A) c con r c' con' :
  body (c, con) = (r, (c', con')) →
  match r with Ok _ | Throw _ => True | _ => False end →
  ∃ net', with_client c body (c_net c, con) = (r, (net', con')) ∧
    sends (w_log (n_world net')) = sends (w_log (n_world (c_net c'))).
Proof.
  intros Hbody Hr. unfold with_client. cbn [fst snd].
  replace (with_net (c_net c) c) with c by by destruct c. rewrite Hbody.
  destruct (proj1 (returns_inv _ _ _) (dtor_returns (m_client c') (c_net c')))
    as ([] & net' & Hdtor & Hbal & _).
  exists net'. rewrite (balanced_sends _ _ _ Hbal), app_nil_r, Hdtor. by destruct r.
Qed.
Lemma pub_main argv net con o topic word words
    h1 h2 hosts p1 p2 peers r1 q1 r2 q2 r3 q3 pk rest key name :
  let w := n_world net in
  free net → parse_options argv (net, con) = (Ok o, (net, con)) →
  command o = "pub" → args o = topic :: word :: words →
  w_initialize w = 0%Z → w_hosts w = Some h1 :: Some h2 :: hosts →
  w_peers w = Some p1 :: Some p2 :: peers →
  w_service w = (r1, EVENT_CONNECT q1) :: (r2, EVENT_CONNECT q2) ::
    (r3, EVENT_RECEIVE q3 pk) :: rest →
  (0 < r1)%Z → (0 < r2)%Z → (0 < r3)%Z →
  decode (packet_data pk) = Some (Topic_response key name) →
  ∃ net', main argv (net, con) = (Ok 0%Z, (net', con)) ∧
    sends (w_log (n_world net')) = sends (w_log w) ++
      [(p2, packet (Origin_value Origin_client) (Topic_request topic));
       (p1, packet (Origin_value Origin_client)
          (Publish key (as_bytes (String.concat " " (skip_empty (word :: words))))))].
Proof.
  intros w Hfree Ho Hcmd Hargs Hi Hh Hp Hs Hr1 Hr2 Hr3 Hd. unfold main.
  destruct (run_connects argv net con o h1 _ p1 _ r1 q1 _ Hfree Ho ltac:(by rewrite Hcmd) Hi Hh Hp Hs Hr1)
    as (c & -> & Hidle & Hmap & _ & Hpeer & Hh' & Hp' & Hs' & Hsent & _).
  destruct (resolution_ok topic c h2 hosts p2 peers r2 q2 r3 q3 pk rest key name)
    as (Hres & Hsend & _); try done; [by rewrite Hmap|].
  destruct (request_run topic (λ k, Publish k (as_bytes (join_message (args o) 1))) c Hidle)
    as (c' & Hrun & _).
  pose proof (request_sends _ _ _ _ _ Hidle Hrun) as Hsends.
  rewrite Hres in Hrun, Hsends. rewrite Hsend, Hsent in Hsends.
  pose proof (zoom_client_run (BusClient_publish_string topic (join_message (args o) 1)) c con
    _ _ Hrun) as Hpub.
  destruct (with_client_run (run_command o) c con (Ok 0%Z) c' con) as (net' & Hwith & Hs2); [|done|].
  { unfold run_command, run_pub. rewrite Hcmd. change (String.eqb "pub" "pub") with true.
    cbv iota. rewrite Hargs in Hpub |- *. exact (bind_Ok _ _ _ _ _ Hpub). }
  exists net'. rewrite Hwith. split; [done|]. rewrite Hs2, Hsends. unfold to_server.
  rewrite Hpeer, Hargs. unfold join_message. rewrite skipn_cons, skipn_O. by rewrite join_loop_spec.
Qed.

(** How [sub] ends on what its loop gave: with code 0 at SIGINT, with code 1
    and the error on an exception; what was printed stays. *)
Definition sub_ends (out : outcome unit * string) (con : Console) : Z * Console :=
  let con1 := print_out (snd out) con in
  match fst out with
  | Throw e => (1%Z, print_err usage (print_err ("error: " +:+ what e +:+ newline) con1))
  | _ => (0%Z, con1)
  end.

Lemma sub_main argv net con o topic
    h1 h2 hosts p1 p2 peers r1 q1 r2 q2 r3 q3 pk rest key name :
  let w := n_world net in
  free net → parse_options argv (net, con) = (Ok o, (net, con)) →
  command o = "sub" → args o = [topic] →
  w_initialize w = 0%Z → w_hosts w = Some h1 :: Some h2 :: hosts →
  w_peers w = Some p1 :: Some p2 :: peers →
  w_service w = (r1, EVENT_CONNECT q1) :: (r2, EVENT_CONNECT q2) ::
    (r3, EVENT_RECEIVE q3 pk) :: rest →
  (0 < r1)%Z → (0 < r2)%Z → (0 < r3)%Z →
  decode (packet_data pk) = Some (Topic_response key name) →
  let out := sub_output (w_run w) {[key := name]} (snd (dtor_used rest)) in
  ∃ net', main argv (net, con) = (Ok (fst (sub_ends out con)), (net', snd (sub_ends out con))) ∧
    sends (w_log (n_world net')) = sends (w_log w) ++
      [(p2, packet (Origin_value Origin_client) (Topic_request topic));
       (p1, packet (Origin_value Origin_client) (Subscribe key))].
Proof.
  intros w Hfree Ho Hcmd Hargs Hi Hh Hp Hs Hr1 Hr2 Hr3 Hd out. unfold main.
  destruct (run_connects argv net con o h1 _ p1 _ r1 q1 _ Hfree Ho ltac:(by rewrite Hcmd) Hi Hh Hp Hs Hr1)
    as (c & -> & Hidle & Hmap & Hinv & Hpeer & Hh' & Hp' & Hs' & Hsent & Hw).
  destruct (resolution_ok topic c h2 hosts p2 peers r2 q2 r3 q3 pk rest key name)
    as (Hres & Hsend & _ & Hlearnt & Hrest); try done; [by rewrite Hmap|].
  destruct (request_run topic Subscribe c Hidle) as (c1 & Hrun & Hl & Hg & _).
  pose proof (learnt_idle _ _ _ Hl Hg Hidle) as Hidle1.
  pose proof (request_sends _ _ _ _ _ Hidle Hrun) as Hsends.
  pose proof (request_rest _ _ _ _ _ Hidle Hrun) as Hser.
  rewrite Hres in Hrun, Hsends. rewrite Hsend, Hsent in Hsends. rewrite Hrest in Hser.
  pose proof (keeps_BusClient_subscribe (view := w_run) topic c) as Hkeep.
  pose proof (zoom_client_run (BusClient_subscribe topic) c con _ _ Hrun) as Hsub.
  change (BusClient_subscribe topic c = (Ok tt, c1)) in Hrun. rewrite Hrun in Hkeep.
  change (w_run (n_world (c_net c1)) = w_run (n_world (c_net c))) in Hkeep.
  assert (Hinv1 : m_inverse_topic_map c1 = {[key := name]}).
  { rewrite Hlearnt in Hl. destruct Hl as (n & b & ->). cbn. by rewrite Hinv. }
  destruct (sub_run c1 con Hidle1) as (net1 & Hloop & Hs1).
  rewrite Hkeep, Hw, Hinv1, Hser in Hloop.
  change (sub_output _ _ _) with out in Hloop.
  pose proof (sub_output_ends (w_run w) {[key := name]} (snd (dtor_used rest))) as Hends.
  change (sub_output _ _ _) with out in Hends. clearbody out.
  set (r := outcome_map (λ _, 0%Z) (fst out)).
  destruct (with_client_run (run_command o) c con r (with_net net1 c1) (print_out (snd out) con))
    as (net' & -> & Hs2).
  { unfold run_command, run_sub. rewrite Hcmd. change (String.eqb "sub" "pub") with false.
    change (String.eqb "sub" "sub") with true. cbv iota. rewrite Hargs.
    etransitivity; [exact (bind_Ok _ _ _ _ _ Hsub)|]. unfold r, bind. rewrite Hloop.
    by destruct (fst out) as [[]| | |]. }
  { unfold r. by destruct (fst out). }
  exists net'. rewrite Hs2. cbn [c_net with_net]. rewrite Hs1, Hsends. unfold to_server. rewrite Hpeer.
  unfold sub_ends, r. by destruct (fst out) as [[]|e| |].
Qed.
End runs.

(** ** Properties of the command line *)

(** C39: a port is accepted exactly when the whole text writes a number (white
    space, a sign, decimal digits) between 0 and 65535, and the value is that
    number; every other text throws.  In particular the decimal form of every
    port is accepted. *)
Theorem parse_port_exact v p :
  (parse_port v = Ok p ↔ number_text v p ∧ (0 ≤ p ≤ 65535)%Z) ∧
  ((0 ≤ p ≤ 65535)%Z → parse_port (to_string_Z p) = Ok p) ∧
  ((∀ q, parse_port v ≠ Ok q) → ∃ e, parse_port v = Throw e).
Proof.
  split_and!; [apply parse_port_iff|apply parse_port_decimal|].
  intros Hno. pose proof (parse_port_ends v). destruct (parse_port v) as [q|e| |]; try done.
  - by destruct (Hno q).
  - by exists e.
Qed.

(** C36: a command line of options in any order and spelling, a command and
    its arguments gives these: the last host given, else the environment's,
    else localhost; the last port given, else the environment's (which must
    be a port), else 6767.  The environment's port is not even read when one
    is given. *)
Theorem parse_options_precedence {S} `{!Lens S World} prog fs cmd rest (s : S) :
  forallb flag_ok fs = true → is_option cmd = false → cmd ≠ "" →
  parse_options (prog :: render_flags fs ++ cmd :: rest) s =
    (outcome_map
       (λ p, MkOptions
          (default (default "localhost" (w_env (lget s) "SPRAYBUS_HOST")) (last (flag_hosts fs)))
          p cmd rest)
       (match last (flag_ports fs) with
        | Some p => Ok p
        | None => parse_port (default "6767" (w_env (lget s) "SPRAYBUS_PORT"))
        end), s).
Proof.
  intros Hfs Hcmd Hne. unfold parse_options. rewrite skipn_cons, skipn_O.
  rewrite parse_loop_flags, parse_loop_command by done. unfold of_outcome, bind at 1.
  cbn [orb command set_args set_command]. rewrite (proj2 (String.eqb_neq _ _) Hne).
  set (o := set_args rest _).
  rewrite (bind_Ok _ _ s (set_host (default (default "localhost"
    (w_env (lget s) "SPRAYBUS_HOST")) (last (flag_hosts fs))) o) s).
  2: { destruct (flag_hosts fs) as [|h hs] eqn:E; cbn [given].
       - unfold get_env_or, getenv, bind, gets, world_of, o, after_flags. rewrite E. cbn.
         by destruct (w_env _ _).
       - unfold o, after_flags. rewrite E, !default_last_cons. done. }
  destruct (flag_ports fs) as [|p ps] eqn:E; cbn [given last].
  - unfold get_env_or, getenv, bind, gets, world_of. cbn.
    destruct (w_env (lget s) "SPRAYBUS_PORT"); cbn; by destruct (parse_port _).
  - unfold o, after_flags. rewrite E. cbn [ret]. destruct (last (p :: ps)) as [q|] eqn:El; [done|].
    by apply last_None in El.
Qed.

(** --help or -h before the command prints the usage on standard output
    and exits with 0, whatever follows and whatever the environment holds; no
    call is made. *)
Theorem help_prints_usage {plat : Platform} prog fs arg rest (s : NetState * Console) :
  forallb flag_ok fs = true → arg = "--help" ∨ arg = "-h" →
  main (prog :: render_flags fs ++ arg :: rest) s = (Ok 0%Z, (s.1, print_out usage s.2)).
Proof.
  intros Hfs Harg. unfold main, run, parse_options. rewrite skipn_cons, skipn_O, parse_loop_flags by done.
  destruct s as [net con]. by destruct Harg as [->| ->].
Qed.

(** C37: the program always ends with exit code 0 or 1, whatever the command
    line, the environment and the network do (SIGINT ends [sub]).  With 0
    nothing was written to the error stream; with 1 it got the message of the
    exception and the usage. *)
Theorem main_exit_code {plat : Platform} argv net con :
  free net →
  ∃ net' con', 
    (main argv (net, con) = (Ok 0%Z, (net', con')) ∧ con_err con' = con_err con) ∨
    (∃ e, run argv (net, con) = (Throw e, (net', con')) ∧ con_err con' = con_err con ∧
       main argv (net, con) = (Ok 1%Z, (net', MkConsole (con_out con')
         (con_err con +:+ ("error: " +:+ what e +:+ newline) +:+ usage)))).
Proof.
  intros Hfree. pose proof (run_always_ends argv net con Hfree) as [Herr Hr]. unfold main.
  destruct (run argv (net, con)) as [[z|e| |] [net' con']]; cbn [fst snd] in *; try done;
    exists net', con'.
  - left. by subst z.
  - right. exists e. split_and!; [done..|]. unfold print_err. cbn [con_out con_err].
    by rewrite Herr, <-!append_assoc.
Qed.

(** C32: [pub] with the topic and at least one word, when the server accepts
    the connections and answers the topic request, sends exactly two packets
    (the topic request on the temporary connection, the publish packet on the
    main one) and exits with 0.  The payload is the words joined by single
    spaces. *)
Theorem pub_publishes_once {plat : Platform} argv net con o topic word words
    h1 h2 hosts p1 p2 peers r1 q1 r2 q2 r3 q3 pk rest key name :
  let w := n_world net in
  free net → parse_options argv (net, con) = (Ok o, (net, con)) →
  command o = "pub" → args o = topic :: word :: words →
  w_initialize w = 0%Z → w_hosts w = Some h1 :: Some h2 :: hosts →
  w_peers w = Some p1 :: Some p2 :: peers →
  w_service w = (r1, EVENT_CONNECT q1) :: (r2, EVENT_CONNECT q2) ::
    (r3, EVENT_RECEIVE q3 pk) :: rest →
  (0 < r1)%Z → (0 < r2)%Z → (0 < r3)%Z →
  decode (packet_data pk) = Some (Topic_response key name) →
  ∃ net', main argv (net, con) = (Ok 0%Z, (net', con)) ∧
    sends (w_log (n_world net')) = sends (w_log w) ++
      [(p2, packet (Origin_value Origin_client) (Topic_request topic));
       (p1, packet (Origin_value Origin_client)
          (Publish key (as_bytes (String.concat " " (skip_empty (word :: words))))))].
Proof. apply pub_main. Qed.

(** C33: [sub] with one topic, when the server accepts the connections and
    answers the topic request, sends exactly the topic request (on the
    temporary connection) and one subscription to the key of the answer (on
    the main one); it then prints, for each poll before SIGINT and in order,
    the payload of the fanout received and a newline, and exits with 0.  A
    disconnection or a packet too short ends it with 1 and the error, and what
    was printed before stays. *)
Theorem sub_subscribes_and_prints {plat : Platform} argv net con o topic
    h1 h2 hosts p1 p2 peers r1 q1 r2 q2 r3 q3 pk rest key name :
  let w := n_world net in
  free net → parse_options argv (net, con) = (Ok o, (net, con)) →
  command o = "sub" → args o = [topic] →
  w_initialize w = 0%Z → w_hosts w = Some h1 :: Some h2 :: hosts →
  w_peers w = Some p1 :: Some p2 :: peers →
  w_service w = (r1, EVENT_CONNECT q1) :: (r2, EVENT_CONNECT q2) ::
    (r3, EVENT_RECEIVE q3 pk) :: rest →
  (0 < r1)%Z → (0 < r2)%Z → (0 < r3)%Z →
  decode (packet_data pk) = Some (Topic_response key name) →
  let out := sub_output (w_run w) {[key := name]} (snd (dtor_used rest)) in
  ∃ net', main argv (net, con) = (Ok (fst (sub_ends out con)), (net', snd (sub_ends out con))) ∧
    sends (w_log (n_world net')) = sends (w_log w) ++
      [(p2, packet (Origin_value Origin_client) (Topic_request topic));
       (p1, packet (Origin_value Origin_client) (Subscribe key))].
Proof. apply sub_main. Qed.

(** After subscribing, [sub] prints, for each poll before SIGINT and in
    order, the payload of the fanout message received and a newline, and
    nothing for anything else; a disconnection or a packet too short ends it
    with the exception, and what was printed before stays. *)
Theorem sub_prints_fanouts {plat : Platform} c con :
  idle c →
  let w := n_world (c_net c) in
  let r := sub_output (w_run w) (m_inverse_topic_map c) (w_service w) in
  ∃ net, run_forever sub_step (c, con) = (fst r, (with_net net c, print_out (snd r) con)) ∧
    sends (w_log (n_world net)) = sends (w_log w).
Proof. apply sub_run. Qed.

(** ** Witnesses *)

Section witnesses.
#[local] Instance cli_platform : Platform := little_endian.

Definition sample_env (name : string) : option string :=
  if String.eqb name "SPRAYBUS_HOST" then Some "bus" else None.

Definition sample_cli (results : list (Z * ENetEvent)) (runs : nat) : NetState :=
  MkNetState
    (MkWorld 0 (λ _, Some 1%Z) [Some 3%Z; Some 4%Z] [Some 40%Z; Some 50%Z] results ∅
       sample_env runs []) ∅.

Definition sample_console : Console := MkConsole "" "".

Lemma parse_options_precedence_witness :
  parse_options ["cli"; "--port=7000"; "-p"; "8000"; "pub"; "t"; "hi"]
    (sample_cli [] 0, sample_console) =
    (Ok (MkOptions "bus" 8000 "pub" ["t"; "hi"]), (sample_cli [] 0, sample_console)).
Proof.
  refine (eq_trans (parse_options_precedence "cli"
    [PortFlag Equals "7000"; PortFlag Short "8000"] "pub" ["t"; "hi"]
    (sample_cli [] 0, sample_console) _ _ _) _).
  - vm_compute. reflexivity.
  - vm_compute. reflexivity.
  - discriminate.
  - vm_compute. reflexivity.
Defined.

Lemma help_prints_usage_witness :
  main ["cli"; "-H"; "x"; "--help"; "pub"] (sample_cli [] 0, sample_console) =
    (Ok 0%Z, (sample_cli [] 0, MkConsole usage "")).
Proof.
  apply (help_prints_usage "cli" [HostFlag Short "x"] "--help" ["pub"]
    (sample_cli [] 0, sample_console)).
  - vm_compute. reflexivity.
  - by left.
Defined.

Lemma sample_free results runs : free (sample_cli results runs).
Proof. done. Qed.

Lemma main_exit_code_witness :
  ∃ net' con',
    (main ["cli"; "sub"] (sample_cli [] 0, sample_console) = (Ok 0%Z, (net', con')) ∧
       con_err con' = "") ∨
    (∃ e, run ["cli"; "sub"] (sample_cli [] 0, sample_console) = (Throw e, (net', con')) ∧
       con_err con' = "" ∧
       main ["cli"; "sub"] (sample_cli [] 0, sample_console) =
         (Ok 1%Z, (net', MkConsole (con_out con')
           ("" +:+ ("error: " +:+ what e +:+ newline) +:+ usage)))).
Proof. apply (main_exit_code ["cli"; "sub"] (sample_cli [] 0) sample_console), sample_free. Defined.

Definition sample_answer : ENetPacket :=
  MkPacket 7 (packet (Origin_value Origin_server) (Topic_response 5 "t")).

Definition sample_pub : list (Z * ENetEvent) :=
  [(1%Z, EVENT_CONNECT 40); (1%Z, EVENT_CONNECT 50); (1%Z, EVENT_RECEIVE 50 sample_answer)].

Lemma pub_publishes_once_witness :
  ∃ net', main ["cli"; "pub"; "t"; ""; "hello"; "world"] (sample_cli sample_pub 0, sample_console) =
      (Ok 0%Z, (net', sample_console)) ∧
    sends (w_log (n_world net')) =
      [(50%Z, packet (Origin_value Origin_client) (Topic_request "t"));
       (40%Z, packet (Origin_value Origin_client) (Publish 5 (as_bytes "hello world")))].
Proof.
  apply (pub_publishes_once ["cli"; "pub"; "t"; ""; "hello"; "world"] (sample_cli sample_pub 0)
    sample_console (MkOptions "bus" 6767 "pub" ["t"; ""; "hello"; "world"]) "t" "" ["hello"; "world"]
    3 4 [] 40 50 [] 1 40 1 50 1 50 sample_answer [] 5 "t"); try done.
  all: vm_compute; reflexivity.
Defined.

(** After the answer, the temporary connection closes; then two messages
    with a silent poll between them, and a lost connection. *)
Definition sample_heard : list (Z * ENetEvent) :=
  [(1%Z, EVENT_RECEIVE 40 (MkPacket 8
     (packet (Origin_value Origin_server) (Fanout 5 (as_bytes "one")))));
   (0%Z, EVENT_NONE);
   (1%Z, EVENT_RECEIVE 40 (MkPacket 9
     (packet (Origin_value Origin_server) (Fanout 5 (as_bytes "two")))));
   (1%Z, EVENT_DISCONNECT 40)].

Lemma sub_subscribes_and_prints_witness :
  (∃ net', main ["cli"; "sub"; "t"]
      (sample_cli (sample_pub ++ (1%Z, EVENT_DISCONNECT 50) :: sample_heard) 3, sample_console) =
      (Ok 0%Z, (net', MkConsole ("one" +:+ newline +:+ "two" +:+ newline) "")) ∧
    sends (w_log (n_world net')) =
      [(50%Z, packet (Origin_value Origin_client) (Topic_request "t"));
       (40%Z, packet (Origin_value Origin_client) (Subscribe 5))]) ∧
  ∃ net', main ["cli"; "sub"; "t"]
      (sample_cli (sample_pub ++ (1%Z, EVENT_DISCONNECT 50) :: sample_heard) 4, sample_console) =
      (Ok 1%Z, (net', MkConsole ("one" +:+ newline +:+ "two" +:+ newline)
        ("error: Disconnected from server." +:+ newline +:+ usage))).
Proof.
  assert (H : ∀ runs, let out := sub_output runs {[5%Z := "t"]} sample_heard in
    ∃ net', main ["cli"; "sub"; "t"]
        (sample_cli (sample_pub ++ (1%Z, EVENT_DISCONNECT 50) :: sample_heard) runs, sample_console) =
        (Ok (fst (sub_ends out sample_console)), (net', snd (sub_ends out sample_console))) ∧
      sends (w_log (n_world net')) =
        [(50%Z, packet (Origin_value Origin_client) (Topic_request "t"));
         (40%Z, packet (Origin_value Origin_client) (Subscribe 5))]).
  { intros runs. apply (sub_subscribes_and_prints ["cli"; "sub"; "t"]
      (sample_cli (sample_pub ++ (1%Z, EVENT_DISCONNECT 50) :: sample_heard) runs)
      sample_console (MkOptions "bus" 6767 "sub" ["t"]) "t" 3 4 [] 40 50 [] 1 40 1 50 1 50 sample_answer
      ((1%Z, EVENT_DISCONNECT 50) :: sample_heard) 5 "t"); try done.
    all: vm_compute; reflexivity. }
  split.
  - destruct (H 3) as (net' & Hrun & Hs). exists net'. split; [|exact Hs]. rewrite Hrun.
    vm_compute. reflexivity.
  - destruct (H 4) as (net' & Hrun & _). exists net'. rewrite Hrun. vm_compute. reflexivity.
Defined.

Definition sample_listener : BusClient :=
  MkBusClient
    (sample_cli [(1%Z, EVENT_RECEIVE 40 (MkPacket 8
       (packet (Origin_value Origin_server) (Fanout 5 (as_bytes "one")))));
       (0%Z, EVENT_NONE);
       (1%Z, EVENT_RECEIVE 40 (MkPacket 9
         (packet (Origin_value Origin_server) (Fanout 5 (as_bytes "two")))))] 3)
    (MkNetClient 3 (MkAddress (Some 1%Z) 6767) 40) "bus" 6767 Constructor_default ∅ ∅.

Lemma sub_prints_fanouts_witness :
  ∃ net, run_forever sub_step (sample_listener, sample_console) =
    (Ok tt, (with_net net sample_listener,
      MkConsole ("one" +:+ newline +:+ "two" +:+ newline) "")).
Proof.
  destruct (sub_prints_fanouts sample_listener sample_console) as (net & Hrun & _); [done|].
  exists net. rewrite Hrun. vm_compute. reflexivity.
Defined.
End witnesses.
