(* ===== verification/CliBus.v ===== *)
(** * The two commands over the bus

    [pub] on one machine, [sub] on another and the server on a third: what the
    one is given on its command line appears on the standard output of the
    other. *)

From Stdlib.Strings Require Import Byte.
From stdpp Require Import base gmap sets list strings.
From S2P Require Import Prelude Protocol TopicMap World NetServer BusServer NetClient BusClient.
From S2P Require Import Common Daemon Bus Ordering Cli.

(** ** Data *)

(** One run of the program: its command line, the machine and the standard
    streams it starts with, the peers of its main and of its temporary
    connection (and those under which the server knows the two), the packet
    that the temporary connection receives, and the results of ENet after
    it. *)
Record Program : Type := MkProgram {
  prog_argv : list string;
  prog_net : NetState;
  prog_console : Console;
  main_peer : ENetPeer;
  temp_peer : ENetPeer;
  main_at : ENetPeer;
  temp_at : ENetPeer;
  answer : ENetPacket;
  later : list (Z * ENetEvent);
}.

(** The program has the options [o] and reaches the server: ENet starts and
    both connections succeed. *)
Record online (p : Program) (o : Options) : Prop := {
  online_options : parse_options (prog_argv p) (prog_net p, prog_console p) =
    (Ok o, (prog_net p, prog_console p));
  online_free : free (prog_net p);
  online_init : w_initialize (n_world (prog_net p)) = 0%Z;
  online_log : sends (w_log (n_world (prog_net p))) = [];
  online_distinct : main_peer p ≠ temp_peer p;
  online_hosts : ∃ h1 h2 hosts, w_hosts (n_world (prog_net p)) = Some h1 :: Some h2 :: hosts;
  online_peers : ∃ peers,
    w_peers (n_world (prog_net p)) = Some (main_peer p) :: Some (temp_peer p) :: peers;
  online_service : ∃ r1 q1 r2 q2 r3 q3, (0 < r1)%Z ∧ (0 < r2)%Z ∧ (0 < r3)%Z ∧
    w_service (n_world (prog_net p)) = (r1, EVENT_CONNECT q1) :: (r2, EVENT_CONNECT q2) ::
      (r3, EVENT_RECEIVE q3 (answer p)) :: later p;
}.

(** The whole run. *)
Definition program_run {plat : Platform} (p : Program) : outcome Z * (NetState * Console) :=
  main (prog_argv p) (prog_net p, prog_console p).

(** What it has sent when it ends. *)
Definition program_sends {plat : Platform} (p : Program) : list (ENetPeer * list byte) :=
  sends (w_log (n_world (fst (snd (program_run p))))).

(** The network brings the server what the program sends, in order, on each
    of its connections. *)
Definition brought {plat : Platform} (p : Program) (evs : list ENetEvent) : Prop :=
  carried_from (main_at p) evs = sent_to (main_peer p) (program_sends p) ∧
  carried_from (temp_at p) evs = sent_to (temp_peer p) (program_sends p).

(** The results that [sub] sees in its loop before SIGINT. *)
Definition heard (p : Program) : list (Z * ENetEvent) :=
  take (w_run (n_world (prog_net p))) (snd (dtor_used (later p))).

(** The standard output of [sub] for these payloads. *)
Definition lines (payloads : list (list byte)) : string :=
  foldr (λ d text, (string_of_bytes d +:+ newline) +:+ text) "" payloads.

(** What the peers other than [q] publish on [key], in the order in which the
    server receives it. *)
Definition others_publish {plat : Platform} (q : ENetPeer) (key : Z) (evs : list ENetEvent) :
    list (list byte) :=
  omap (λ ev, match ev with
    | EVENT_RECEIVE from pk =>
        match decode (packet_data pk) with
        | Some (Publish k data) =>
            if bool_decide (from ≠ q) && bool_decide (k = key) then Some data else None
        | _ => None
        end
    | _ => None
    end) evs.

(** ** What [sub] prints *)

Lemma lines_app ds ds' : lines (ds ++ ds') = lines ds +:+ lines ds'.
Proof.
  unfold lines. induction ds as [|d ds IH]; [done|]. cbn [app foldr]. by rewrite IH, append_assoc.
Qed.

Lemma carried_app l l' : carried (l ++ l') = carried l ++ carried l'.
Proof. apply omap_app. Qed.

(** While the connection lasts, [sub] prints the fanouts that it is given. *)
Lemma sub_output_connected {plat : Platform} n inverse results :
  connected_throughout (take n results) →
  Forall (λ data, sizeof_Header ≤ length data) (carried (take n results)) →
  sub_output n inverse results =
    (Ok tt, lines (payload <$> omap (fanout_in inverse) (carried (take n results)))).
Proof.
  revert results. induction n as [|n IH]; intros results Hcon Hlen; [by rewrite firstn_O|].
  destruct results as [|r results]; cbn [sub_output take hd tl] in *.
  { unfold delivery. cbn. rewrite IH, take_nil; [done|by rewrite take_nil..]. }
  destruct (delivery_carried inverse r (take n results) Hcon Hlen) as (f & Hf & ->).
  assert (Hrest : sub_output n inverse results =
    (Ok tt, lines (payload <$> omap (fanout_in inverse) (carried (take n results))))).
  { apply IH; [intros r' peer Hin; apply (Hcon r' peer); by right|].
    change (r :: take n results) with ([r] ++ take n results) in Hlen.
    rewrite carried_app in Hlen. by apply Forall_app in Hlen as [_ ?]. }
  destruct (delivery inverse r) as [[m|]| | |]; try done; injection Hf as <-; rewrite Hrest; done.
Qed.

(** ** What the server makes of the packets of one peer *)

Lemma carried_from_app p l l' : carried_from p (l ++ l') = carried_from p l ++ carried_from p l'.
Proof. apply omap_app. Qed.

Lemma carried_from_elem p pk evs :
  EVENT_RECEIVE p pk ∈ evs → packet_data pk ∈ carried_from p evs.
Proof.
  intros Hin. apply list_elem_of_omap. exists (EVENT_RECEIVE p pk). split; [done|].
  by rewrite decide_True.
Qed.

Section one_peer.
Context {plat : Platform}.

(** A peer is subscribed because a packet of its own said so. *)
Lemma sub_history_asked q key evs :
  sub_history q key false evs = true →
  ∃ pk, EVENT_RECEIVE q pk ∈ evs ∧ decode (packet_data pk) = Some (Subscribe key).
Proof.
  induction evs as [|ev evs IH] using rev_ind; [done|]. unfold sub_history in *.
  rewrite foldl_app. cbn [foldl]. intros H.
  assert (Hbefore : foldl (BusServer.sub_step q key) false evs = true → ∃ pk,
    EVENT_RECEIVE q pk ∈ evs ++ [ev] ∧ decode (packet_data pk) = Some (Subscribe key)).
  { intros Hw. destruct (IH Hw) as (pk & Hin & Hd). exists pk. split; [|done].
    apply elem_of_app. by left. }
  destruct ev as [|p|p|p pk]; cbn [BusServer.sub_step] in H; try by apply Hbefore.
  1,2: destruct (decide _); [done|by apply Hbefore].
  destruct (decide (p = q)) as [->|]; [|by apply Hbefore].
  destruct (decode (packet_data pk)) as [[name|k name|k d|k|k|k d]|] eqn:E; try by apply Hbefore.
  - destruct (decide (k = key)) as [->|]; [|by apply Hbefore]. exists pk. split; [|done].
    apply elem_of_app. right. by left.
  - destruct (decide (k = key)); [done|by apply Hbefore].
Qed.

Lemma silent_unsubscribed q key evs :
  carried_from q evs = [] → sub_history q key false evs = false.
Proof.
  intros Hc. destruct (sub_history q key false evs) eqn:E; [|done].
  apply sub_history_asked in E as (pk & Hin%carried_from_elem & _). rewrite Hc in Hin.
  by apply elem_of_nil in Hin.
Qed.

(** A peer that has sent nothing is given nothing. *)
Lemma deliveries_silent q pre evs :
  carried_from q (pre ++ evs) = [] → deliveries q pre evs = [].
Proof.
  revert pre. induction evs as [|ev evs IH]; intros pre Hc; [done|]. cbn [deliveries].
  rewrite IH by by rewrite <-app_assoc. rewrite app_nil_r.
  rewrite carried_from_app in Hc. apply app_eq_nil in Hc as [Hc _].
  destruct ev as [|p|p|p pk]; try done. cbn [delivery_of].
  destruct (decode (packet_data pk)) as [[]|]; try done. rewrite silent_unsubscribed by done.
  by rewrite andb_false_r.
Qed.

(** A peer subscribed to [key] alone, which stays connected and sends nothing
    more, is given what the others publish on it. *)
Lemma deliveries_subscribed q key pre evs :
  (∀ k, sub_history q k false pre = bool_decide (k = key)) →
  carried_from q evs = [] → EVENT_CONNECT q ∉ evs → EVENT_DISCONNECT q ∉ evs →
  snd <$> deliveries q pre evs = others_publish q key evs.
Proof.
  revert pre. induction evs as [|ev evs IH]; intros pre Hsub Hc Hcon Hdis; [done|].
  cbn [deliveries]. rewrite fmap_app.
  change (ev :: evs) with ([ev] ++ evs) in Hc. rewrite carried_from_app in Hc.
  apply app_eq_nil in Hc as [Hev Hc].
  rewrite not_elem_of_cons in Hcon, Hdis. destruct Hcon as [Hcon1 Hcon], Hdis as [Hdis1 Hdis].
  assert (Hsub' : ∀ k, sub_history q k false (pre ++ [ev]) = bool_decide (k = key)).
  { intros k. unfold sub_history in *. rewrite foldl_app, Hsub. cbn [foldl].
    destruct ev as [|p|p|p pk]; cbn [BusServer.sub_step]; [done|..];
      (destruct (decide (p = q)) as [->|]; [|done]); try done.
    by unfold carried_from in Hev; cbn in Hev; rewrite decide_True in Hev. }
  rewrite (IH _ Hsub' Hc Hcon Hdis).
  destruct ev as [|p|p|p pk]; try done. cbn [delivery_of]. unfold others_publish at 2.
  cbn [omap list_omap].
  destruct (decode (packet_data pk)) as [[name|k name|k d|k|k|k d]|]; try done.
  rewrite Hsub. by destruct (_ && _).
Qed.
End one_peer.

(** A peer that sent one topic request is told the key of that topic, and
    nothing else. *)
Lemma answered_peer aplat splat evs q topic d :
  events_ok ∅ evs = true →
  carried_from q evs = [@packet aplat (Origin_value Origin_client) (Topic_request topic)] →
  (q, d) ∈ snd (@ps_events splat evs PubSub_empty) → ∃ key, d = Topic_response key topic.
Proof.
  intros Hev Hc Hin.
  assert (Hreq : ∀ pk, EVENT_RECEIVE q pk ∈ evs →
    @decode splat (packet_data pk) = Some (Topic_request topic)).
  { intros pk Hpk%carried_from_elem. rewrite Hc in Hpk. apply list_elem_of_singleton in Hpk as ->.
    by apply decode_cross_machine. }
  destruct (ps_events_out _ _ _ Hin) as (pre & from & pk & post & m & -> & Hm & Hd).
  destruct m as [name| |key data| | |]; cbn in Hd; try by apply elem_of_nil in Hd.
  - apply list_elem_of_singleton in Hd as [= -> ->]. rewrite Hreq in Hm; [injection Hm as <-; by eexists|].
    apply elem_of_app. right. by left.
  - assert (Hf : ∃ k data', d = Fanout k data')
      by (apply list_elem_of_fmap in Hd as (? & [= _ ->] & _); by do 2 eexists).
    destruct Hf as (k & data' & ->).
    destruct (fanout_published _ _ _ _ Hev Hin) as (pre' & from' & pk' & post' & He & _ & _ & Hsub).
    apply sub_history_asked in Hsub as (pk2 & Hpk & Hsub). rewrite Hreq in Hsub; [done|].
    rewrite He. apply elem_of_app. by left.
Qed.

(** ** Peers that stay connected *)

Lemma events_ok_later c evs later :
  events_ok c (evs ++ later) = true → ∃ c', events_ok c' later = true.
Proof.
  revert c. induction evs as [|ev evs IH]; intros c; [by eexists|].
  cbn [app events_ok]. intros [_ H]%andb_true_iff. by apply (IH (connect_step c ev)).
Qed.

Lemma stays_connected c q evs :
  events_ok c evs = true → q ∈ c → EVENT_DISCONNECT q ∉ evs → EVENT_CONNECT q ∉ evs.
Proof.
  revert c. induction evs as [|ev evs IH]; intros c Hok Hq Hdis; [apply not_elem_of_nil|].
  cbn [events_ok] in Hok. apply andb_true_iff in Hok as [Hev Hok].
  apply not_elem_of_cons in Hdis as [Hdis1 Hdis]. apply not_elem_of_cons. split.
  - intros <-. by apply bool_decide_eq_true in Hev.
  - apply (IH _ Hok); [|exact Hdis]. destruct ev as [|p|p|p pk]; cbn; set_solver.
Qed.

(** ** The programs, when they reach the server *)

(** A command on one topic. *)
Definition topic_command (o : Options) (topic : string) : Prop :=
  (command o = "pub" ∧ ∃ word words, args o = topic :: word :: words) ∨
  (command o = "sub" ∧ args o = [topic]).

Section programs.
Context {plat : Platform}.
Implicit Types (c : BusClient).

(** Whatever the answer, the temporary connection carries one topic
    request. *)
Lemma run_command_asks o topic c con h hosts p peers r q rest :
  topic_command o topic → idle c → m_topic_map c !! topic = None → nc_peer (m_client c) ≠ p →
  w_hosts (n_world (c_net c)) = Some h :: hosts → w_peers (n_world (c_net c)) = Some p :: peers →
  w_service (n_world (c_net c)) = (r, EVENT_CONNECT q) :: rest → (0 < r)%Z →
  ∃ res c' con', run_command o (c, con) = (res, (c', con')) ∧
    sent_to p (sends (w_log (n_world (c_net c')))) =
      sent_to p (sends (w_log (n_world (c_net c)))) ++
        [packet (Origin_value Origin_client) (Topic_request topic)].
Proof.
  intros Ho Hidle Hmap Hne Hh Hp Hs Hr.
  pose proof (connect_outcome_ok (m_host c) (m_port c) _ h hosts p peers r q rest Hh Hp Hs Hr) as Hconn.
  assert (Hask : ∀ mk, sent_to p (resolution_sends topic c ++
      match resolution topic c with Ok key => [to_server c (mk key)] | _ => [] end) =
    [packet (Origin_value Origin_client) (Topic_request topic)]).
  { intros mk. unfold resolution_sends, lookup_sends. rewrite Hmap, Hconn, sent_to_app. cbn.
    rewrite decide_True by done. destruct (resolution topic c); try done. cbn.
    by rewrite decide_False. }
  unfold run_command. destruct Ho as [(-> & word & words & Hargs)|(-> & Hargs)].
  - change (String.eqb "pub" "pub") with true. cbv iota. unfold run_pub. rewrite Hargs.
    set (msg := join_message _ 1).
    destruct (request_run topic (λ k, Publish k (as_bytes msg)) c Hidle) as (c' & Hrun & _).
    pose proof (request_sends _ _ _ _ _ Hidle Hrun) as Hsends.
    pose proof (resolution_ends topic c) as Hends. specialize (Hask (λ k, Publish k (as_bytes msg))).
    pose proof (zoom_client_run (BusClient_publish_string topic msg) c con _ _ Hrun) as Hz.
    exists (outcome_map (λ _, 0%Z) (resolution topic c)), c', con.
    rewrite Hsends, sent_to_app, Hask. split; [|done]. unfold bind. rewrite Hz.
    by destruct (resolution topic c).
  - change (String.eqb "sub" "pub") with false. change (String.eqb "sub" "sub") with true.
    cbv iota. unfold run_sub. rewrite Hargs.
    destruct (request_run topic Subscribe c Hidle) as (c' & Hrun & Hl & Hg & _).
    pose proof (request_sends _ _ _ _ _ Hidle Hrun) as Hsends.
    pose proof (resolution_ends topic c) as Hends. specialize (Hask Subscribe).
    pose proof (zoom_client_run (BusClient_subscribe topic) c con _ _ Hrun) as Hz.
    destruct (sub_run c' con (learnt_idle _ _ _ Hl Hg Hidle)) as (net & Hloop & Hs2).
    unfold bind. rewrite Hz. destruct (resolution topic c) as [key|e| |]; try done; cbn [outcome_map].
    + rewrite Hloop.
      destruct (fst (sub_output _ _ _)) as [[]|e| |]; (do 3 eexists; split; [reflexivity|]);
        cbn [c_net with_net]; by rewrite Hs2, Hsends, sent_to_app, Hask.
    + do 3 eexists. split; [reflexivity|]. by rewrite Hsends, sent_to_app, Hask.
Qed.

Lemma program_asks p o topic :
  online p o → topic_command o topic →
  sent_to (temp_peer p) (program_sends p) =
    [packet (Origin_value Origin_client) (Topic_request topic)].
Proof.
  intros [Ho Hfree Hi Hlog Hne (h1 & h2 & hosts & Hh) (peers & Hp) Hser] Hcmd.
  destruct Hser as (r1 & q1 & r2 & q2 & r3 & q3 & Hr1 & Hr2 & Hr3 & Hs).
  assert (Hhelp : command o ≠ "help") by (by destruct Hcmd as [[-> _]|[-> _]]).
  destruct (run_connects _ _ _ o h1 _ _ _ r1 q1 _ Hfree Ho Hhelp Hi Hh Hp Hs Hr1)
    as (c & Hrun & Hidle & Hmap & _ & Hpeer & Hh' & Hp' & Hs' & Hsent & _).
  destruct (run_command_asks o topic c (prog_console p) h2 hosts (temp_peer p) peers r2 q2
    ((r3, EVENT_RECEIVE q3 (answer p)) :: later p)) as (res & c' & con' & Hbody & Hasks);
    [done|done|by rewrite Hmap|by rewrite Hpeer|done..|].
  rewrite Hsent, Hlog in Hasks.
  pose proof (run_command_ends o c (prog_console p) Hidle) as [_ Hends].
  rewrite Hbody in Hends. cbn [fst] in Hends.
  destruct (with_client_run (run_command o) c (prog_console p) res c' con' Hbody) as (net' & Hw & Hs2);
    [by destruct res|].
  unfold program_sends, program_run, main. rewrite Hrun, Hw. rewrite <-Hs2 in Hasks. by destruct res.
Qed.

Lemma pub_online p o topic word words key name :
  online p o → command o = "pub" → args o = topic :: word :: words →
  decode (packet_data (answer p)) = Some (Topic_response key name) →
  ∃ net', program_run p = (Ok 0%Z, (net', prog_console p)) ∧
    program_sends p =
      [(temp_peer p, packet (Origin_value Origin_client) (Topic_request topic));
       (main_peer p, packet (Origin_value Origin_client)
          (Publish key (as_bytes (String.concat " " (skip_empty (word :: words))))))].
Proof.
  intros [Ho Hfree Hi Hlog _ (h1 & h2 & hosts & Hh) (peers & Hp) Hser] Hcmd Hargs Hd.
  destruct Hser as (r1 & q1 & r2 & q2 & r3 & q3 & Hr1 & Hr2 & Hr3 & Hs).
  destruct (pub_main _ _ _ o topic word words h1 h2 hosts _ _ peers r1 q1 r2 q2 r3 q3
    _ _ key name Hfree Ho Hcmd Hargs Hi Hh Hp Hs Hr1 Hr2 Hr3 Hd) as (net' & Hm & Hsends).
  exists net'. split; [done|]. unfold program_sends, program_run. rewrite Hm. cbn [fst snd].
  by rewrite Hsends, Hlog.
Qed.

Lemma sub_online p o topic key name :
  online p o → command o = "sub" → args o = [topic] →
  decode (packet_data (answer p)) = Some (Topic_response key name) →
  let out := sub_output (w_run (n_world (prog_net p))) {[key := name]} (snd (dtor_used (later p))) in
  ∃ net', program_run p =
      (Ok (fst (sub_ends out (prog_console p))), (net', snd (sub_ends out (prog_console p)))) ∧
    program_sends p =
      [(temp_peer p, packet (Origin_value Origin_client) (Topic_request topic));
       (main_peer p, packet (Origin_value Origin_client) (Subscribe key))].
Proof.
  intros [Ho Hfree Hi Hlog _ (h1 & h2 & hosts & Hh) (peers & Hp) Hser] Hcmd Hargs Hd out.
  destruct Hser as (r1 & q1 & r2 & q2 & r3 & q3 & Hr1 & Hr2 & Hr3 & Hs).
  destruct (sub_main _ _ _ o topic h1 h2 hosts _ _ peers r1 q1 r2 q2 r3 q3
    _ _ key name Hfree Ho Hcmd Hargs Hi Hh Hp Hs Hr1 Hr2 Hr3 Hd) as (net' & Hm & Hsends).
  exists net'. split; [done|]. unfold program_sends, program_run. rewrite Hm. cbn [fst snd].
  by rewrite Hsends, Hlog.
Qed.
End programs.

(** A run of the server program that receives the events [evs] before SIGINT:
    the port in the environment is in range, ENet starts and gives a host, and
    the events are those of connections. *)
Record serves {Q} (p : Process Q) (evs : list ENetEvent) : Prop := {
  serves_events : fst (Daemon.polls (w_run (p_world p)) (w_service (p_world p))) = evs;
  serves_port : ∃ port parsed,
    stoi (default "6767" (w_env (p_world p) "SPRAYBUS_PORT")) = Ok (port, parsed) ∧
    (0 ≤ port ≤ 65535)%Z;
  serves_init : w_initialize (p_world p) = 0%Z;
  serves_host : ∃ h hosts, w_hosts (p_world p) = Some h :: hosts;
  serves_log : sends (w_log (p_world p)) = [];
  serves_legal : events_ok ∅ evs = true;
  serves_bound : (Z.of_nat (length evs) < 2 ^ 64 - 1)%Z;
}.

(** What the service sends in a run, on the wire, and its registry at the
    end. *)
Definition service_sends (splat : Platform) (evs : list ENetEvent) : list (ENetPeer * list byte) :=
  @on_wire splat <$> snd (@ps_events splat evs PubSub_empty).
Definition registered (splat : Platform) (evs : list ENetEvent) (topic : string) : option Z :=
  spec_get topic (ps_topics (fst (@ps_events splat evs PubSub_empty))).

(** The service answers the one request of a peer with the key that its
    registry holds at the end. *)
Lemma service_answers aplat splat cplat evs q topic data :
  events_ok ∅ evs = true → (Z.of_nat (length evs) < 2 ^ 64 - 1)%Z →
  carried_from q evs = [@packet aplat (Origin_value Origin_client) (Topic_request topic)] →
  (q, data) ∈ service_sends splat evs →
  ∃ key, is_u64 key ∧ registered splat evs topic = Some key ∧
    @decode cplat data = Some (Topic_response key topic).
Proof.
  intros Hev Hb Hc Hin. apply list_elem_of_fmap in Hin as ([q' m] & [= <- ->] & Hout).
  destruct (answered_peer aplat splat evs q topic m Hev Hc Hout) as (key & ->).
  assert (Hwf : msg_wf (Topic_response key topic))
    by (apply (ps_events_out_wf evs PubSub_empty _ ltac:(cbn; lia) Hout)).
  exists key. split_and!; [exact Hwf| |by apply decode_cross_machine]. by eapply response_in_registry.
Qed.

Lemma sent_on_main {A} main temp (x y : A) :
  main ≠ temp → sent_to main [(temp, x); (main, y)] = [y].
Proof.
  intros Hne. unfold sent_to. cbn. rewrite decide_False by (by intros ->). by rewrite decide_True.
Qed.

Lemma carried_from_one p pre pk post data :
  carried_from p (pre ++ EVENT_RECEIVE p pk :: post) = [data] →
  packet_data pk = data ∧ carried_from p pre = [] ∧ carried_from p post = [].
Proof.
  rewrite carried_from_app. change (EVENT_RECEIVE p pk :: post) with ([EVENT_RECEIVE p pk] ++ post).
  rewrite carried_from_app. unfold carried_from at 2. cbn [omap list_omap].
  rewrite decide_True by done. destruct (carried_from p pre) as [|x [|y l]]; cbn; [|done..].
  by intros [= -> ->].
Qed.

(** What a peer is given that sent one subscription and stayed connected. *)
Lemma deliveries_after_subscribe bplat splat q key pre pk post :
  events_ok ∅ (pre ++ EVENT_RECEIVE q pk :: post) = true → is_u64 key →
  carried_from q (pre ++ EVENT_RECEIVE q pk :: post) =
    [@packet bplat (Origin_value Origin_client) (Subscribe key)] →
  EVENT_DISCONNECT q ∉ post →
  snd <$> @deliveries splat q [] (pre ++ EVENT_RECEIVE q pk :: post) =
    @others_publish splat q key post.
Proof.
  intros Hev Hkey Hc Hdis. apply carried_from_one in Hc as (Hpk & Hpre & Hpost).
  assert (Hd : @decode splat (packet_data pk) = Some (Subscribe key))
    by (rewrite Hpk; by apply decode_cross_machine).
  destruct (events_ok_later _ _ _ Hev) as (c & Hc). cbn [events_ok event_ok connect_step] in Hc.
  apply andb_true_iff in Hc as [Hq%bool_decide_eq_true Hc].
  rewrite deliveries_app, (deliveries_silent q [] pre) by done. cbn [app deliveries delivery_of].
  rewrite Hd. cbn [app]. apply deliveries_subscribed; [|done|by eapply stays_connected|done].
  intros k. unfold sub_history. rewrite foldl_app. cbn [foldl].
  change (foldl (BusServer.sub_step q k) false pre) with (sub_history q k false pre).
  rewrite silent_unsubscribed by done. cbn [BusServer.sub_step].
  rewrite decide_True, Hd by done.
  destruct (decide (key = k)) as [->|]; [by rewrite bool_decide_true|by rewrite bool_decide_false].
Qed.

(** The server program is the service. *)
Lemma serves_run {Q} splat (create_or_get_logger : string → Sink → Q → Logger * Q) p evs :
  serves p evs →
  ∃ p', @server_main splat Q create_or_get_logger p = (Ok 0%Z, p') ∧
    sends (w_log (p_world p')) = service_sends splat evs.
Proof.
  intros [<- (port & parsed & Hport & Hr) Hi (h & hosts & Hh) Hlog Hev Hb].
  destruct (server_main_run create_or_get_logger p port parsed h hosts Hport Hr Hi Hh Hev Hb)
    as (p' & Hp & Hs & _). exists p'. split; [done|]. by rewrite Hs, Hlog.
Qed.

(** What [sub] prints. *)
Lemma sub_hears bplat splat pre pk post (b : Program) o topic :
  let evs := pre ++ EVENT_RECEIVE (main_at b) pk :: post in
  events_ok ∅ evs = true → (Z.of_nat (length evs) < 2 ^ 64 - 1)%Z →
  online b o → command o = "sub" → args o = [topic] → EVENT_DISCONNECT (main_at b) ∉ post →
  @brought bplat b evs → (temp_at b, packet_data (answer b)) ∈ service_sends splat evs →
  connected_throughout (heard b) →
  carried (heard b) = sent_to (main_at b) (service_sends splat evs) →
  ∃ key net', registered splat evs topic = Some key ∧ is_u64 key ∧
    @program_run bplat b = (Ok 0%Z,
      (net', print_out (lines (@others_publish splat (main_at b) key post)) (prog_console b))).
Proof.
  intros evs Hev Hb Hon Hcmd Hargs Hdis [Hmain Htemp] Hanswer Hcon Hcar.
  rewrite (@program_asks bplat b o topic Hon ltac:(by right)) in Htemp.
  destruct (service_answers bplat splat bplat _ _ _ _ Hev Hb Htemp Hanswer) as (key & Hkey & Hget & Hdec).
  destruct (@sub_online bplat b o topic key topic Hon Hcmd Hargs Hdec) as (net' & Hrun & Hsends).
  exists key, net'. split_and!; [done..|].
  assert (Hc : carried_from (main_at b) evs =
    [@packet bplat (Origin_value Origin_client) (Subscribe key)]).
  { rewrite Hmain, Hsends. by apply sent_on_main, (online_distinct _ _ Hon). }
  destruct (service_delivers splat evs (main_at b) Hev Hb) as [Hlen Hfan].
  fold (service_sends splat evs) in Hlen, Hfan.
  rewrite Hrun, (@sub_output_connected bplat) by (first [exact Hcon|fold (heard b); by rewrite Hcar]).
  fold (heard b). rewrite Hcar, Hfan, <-list_fmap_compose.
  change (payload ∘ _) with (@snd Z (list byte)).
  by rewrite <-(deliveries_after_subscribe bplat splat (main_at b) key pre pk post).
Qed.

Lemma others_publish_app {plat : Platform} q key evs evs' :
  others_publish q key (evs ++ evs') = others_publish q key evs ++ others_publish q key evs'.
Proof. apply omap_app. Qed.

(** ** Properties *)

(** C6: one [sub] and the server program: when the server keeps the
    connection and the network keeps order, [sub] asks for its topic,
    subscribes to the key under which the server registered the topic, prints
    exactly the payloads that the other clients publish on that key after its
    subscription reached the server, in order, each once and followed by a
    newline, and exits with 0 at SIGINT, as the server does.  The two machines
    may differ in byte order. *)
Theorem sub_prints_publications {Q} bplat splat
    (create_or_get_logger : string → Sink → Q → Logger * Q) (p : Process Q)
    pre pk post (b : Program) o topic :
  let evs := pre ++ EVENT_RECEIVE (main_at b) pk :: post in
  serves p evs →
  online b o → command o = "sub" → args o = [topic] → EVENT_DISCONNECT (main_at b) ∉ post →
  ∃ p', @server_main splat Q create_or_get_logger p = (Ok 0%Z, p') ∧
    let sent := sends (w_log (p_world p')) in
    (@brought bplat b evs → (temp_at b, packet_data (answer b)) ∈ sent →
     connected_throughout (heard b) → carried (heard b) = sent_to (main_at b) sent →
     ∃ key net', registered splat evs topic = Some key ∧ is_u64 key ∧
       @program_run bplat b = (Ok 0%Z,
         (net', print_out (lines (@others_publish splat (main_at b) key post)) (prog_console b)))).
Proof.
  intros evs Hp Hon Hcmd Hargs Hdis.
  destruct (serves_run splat create_or_get_logger p evs Hp) as (p' & Hrun & Hs).
  exists p'. split; [exact Hrun|]. rewrite Hs. intros sent. apply (sub_hears bplat splat pre pk post b o topic);
    [apply Hp|apply Hp|done..].
Qed.

(** C3: from one command line to another's standard output.  [pub] with a topic
    and words on one machine, [sub] with the same topic on another and the
    server program on a third: when the subscription reaches the server before
    the publication, the server keeps the subscriber's connection and the
    network keeps order, the three programs exit with 0, [pub] writes nothing,
    and [sub] prints the words joined by spaces on a line of their own, once,
    after what others published on the topic before and before what they
    published after.  The three machines may differ in byte order. *)
Theorem pub_reaches_sub {Q} aplat splat bplat
    (create_or_get_logger : string → Sink → Q → Logger * Q) (p : Process Q)
    pre pk_sub mid pk_pub post (a b : Program) o_a o_b topic word words :
  let later := mid ++ EVENT_RECEIVE (main_at a) pk_pub :: post in
  let evs := pre ++ EVENT_RECEIVE (main_at b) pk_sub :: later in
  serves p evs →
  online a o_a → command o_a = "pub" → args o_a = topic :: word :: words →
  online b o_b → command o_b = "sub" → args o_b = [topic] →
  main_at a ≠ main_at b → EVENT_DISCONNECT (main_at b) ∉ later →
  ∃ p', @server_main splat Q create_or_get_logger p = (Ok 0%Z, p') ∧
    let sent := sends (w_log (p_world p')) in
    (@brought aplat a evs → (temp_at a, packet_data (answer a)) ∈ sent →
     @brought bplat b evs → (temp_at b, packet_data (answer b)) ∈ sent →
     connected_throughout (heard b) → carried (heard b) = sent_to (main_at b) sent →
     let printed := @others_publish splat (main_at b) in
     ∃ key net_a net_b, registered splat evs topic = Some key ∧
       @program_run aplat a = (Ok 0%Z, (net_a, prog_console a)) ∧
       @program_run bplat b = (Ok 0%Z, (net_b, print_out
         (lines (printed key mid) +:+
          (String.concat " " (skip_empty (word :: words)) +:+ newline) +:+
          lines (printed key post)) (prog_console b)))).
Proof.
  intros later evs Hp Hon_a Hcmd_a Hargs_a Hon_b Hcmd_b Hargs_b Hne Hdis.
  destruct (serves_run splat create_or_get_logger p evs Hp) as (p' & Hrun & Hs).
  exists p'. split; [exact Hrun|]. rewrite Hs.
  intros sent [Hmain Htemp] Hanswer Hbr_b Hans_b Hcon Hcar printed.
  destruct Hp as [_ _ _ _ _ Hev Hb].
  destruct (sub_hears bplat splat pre pk_sub later b o_b topic) as (key & net_b & Hget & Hkey & Hrun_b);
    [done..|].
  rewrite (@program_asks aplat a o_a topic Hon_a ltac:(left; eauto)) in Htemp.
  destruct (service_answers aplat splat aplat _ _ _ _ Hev Hb Htemp Hanswer)
    as (key' & _ & Hget' & Hdec).
  change (registered splat evs topic = Some key) in Hget.
  assert (key' = key) as -> by congruence.
  destruct (@pub_online aplat a o_a topic word words key topic Hon_a Hcmd_a Hargs_a Hdec)
    as (net_a & Hrun_a & Hsends).
  exists key, net_a, net_b. split_and!; [done..|]. rewrite Hrun_b. do 3 f_equal.
  set (msg := String.concat " " _) in *.
  assert (Hc : carried_from (main_at a) evs =
    [@packet aplat (Origin_value Origin_client) (Publish key (as_bytes msg))]).
  { rewrite Hmain, Hsends. by apply sent_on_main, (online_distinct _ _ Hon_a). }
  assert (Hpk : @decode splat (packet_data pk_pub) = Some (Publish key (as_bytes msg))).
  { unfold evs, later in Hc. rewrite app_comm_cons, app_assoc in Hc.
    apply carried_from_one in Hc as (-> & _). by apply decode_cross_machine. }
  unfold later. change (EVENT_RECEIVE (main_at a) pk_pub :: post) with
    ([EVENT_RECEIVE (main_at a) pk_pub] ++ post).
  rewrite !others_publish_app, !lines_app. unfold others_publish at 2. cbn [omap list_omap].
  rewrite Hpk, !bool_decide_true by done. cbn [andb].
  unfold lines at 2. cbn [foldr]. by rewrite string_of_bytes_as_bytes, append_empty_r.
Qed.

(** ** Witnesses *)

(** A subscriber (61 and, for its request, 60), a publisher (71 and 70) and a
    third client at 80, on three machines. *)
Section witnesses.

Definition cli_from_client (m : bus_msg) : list byte :=
  @packet little_endian (Origin_value Origin_client) m.
Definition cli_from_server (m : bus_msg) : list byte :=
  @packet big_endian (Origin_value Origin_server) m.

Definition cli_pre : list ENetEvent :=
  [EVENT_CONNECT 61; EVENT_CONNECT 60; EVENT_RECEIVE 60 (MkPacket 1 (cli_from_client (Topic_request "t")));
   EVENT_DISCONNECT 60].
Definition cli_subscribe : ENetPacket := MkPacket 2 (cli_from_client (Subscribe 1)).
Definition cli_mid : list ENetEvent :=
  [EVENT_CONNECT 80; EVENT_RECEIVE 80 (MkPacket 3 (cli_from_client (Publish 1 (as_bytes "first"))));
   EVENT_CONNECT 71; EVENT_CONNECT 70; EVENT_RECEIVE 70 (MkPacket 4 (cli_from_client (Topic_request "t")));
   EVENT_DISCONNECT 70].
Definition cli_publish : ENetPacket :=
  MkPacket 5 (cli_from_client (Publish 1 (as_bytes "hello world"))).
Definition cli_events : list ENetEvent :=
  cli_pre ++ EVENT_RECEIVE 61 cli_subscribe :: cli_mid ++ [EVENT_RECEIVE 71 cli_publish].

Definition cli_server : Process (list Logger) :=
  MkProcess
    (MkWorld 0 (λ _, None) [Some 3%Z] [] ((λ ev, (1%Z, ev)) <$> cli_events) ∅ (λ _, None) 1 [])
    None [].

Definition cli_answer : ENetPacket := MkPacket 7 (cli_from_server (Topic_response 1 "t")).

Definition cli_later : list (Z * ENetEvent) :=
  [(1%Z, EVENT_DISCONNECT 50);
   (1%Z, EVENT_RECEIVE 40 (MkPacket 8 (cli_from_server (Fanout 1 (as_bytes "first")))));
   (0%Z, EVENT_NONE);
   (1%Z, EVENT_RECEIVE 40 (MkPacket 9 (cli_from_server (Fanout 1 (as_bytes "hello world")))))].

Definition cli_program (argv : list string) (m t : ENetPeer) : Program :=
  MkProgram argv
    (sample_cli ([(1%Z, EVENT_CONNECT 40); (1%Z, EVENT_CONNECT 50);
                  (1%Z, EVENT_RECEIVE 50 cli_answer)] ++ cli_later) 3)
    sample_console 40 50 m t cli_answer cli_later.
Definition cli_sub : Program := cli_program ["cli"; "sub"; "t"] 61 60.
Definition cli_pub : Program := cli_program ["cli"; "pub"; "t"; "hello"; "world"] 71 70.

Lemma cli_online argv m t o :
  parse_options argv (prog_net (cli_program argv m t), sample_console) =
    (Ok o, (prog_net (cli_program argv m t), sample_console)) →
  online (cli_program argv m t) o.
Proof.
  intros Ho. split; try done.
  - by exists 3%Z, 4%Z, [].
  - by exists [].
  - exists 1%Z, 40%Z, 1%Z, 50%Z, 1%Z, 50%Z. done.
Qed.

Lemma cli_serves : serves cli_server cli_events.
Proof.
  split; try (vm_compute; reflexivity).
  - exists 6767%Z, 4. split; [vm_compute; reflexivity|lia].
  - by exists 3%Z, [].
Qed.

Lemma cli_heard_connected : connected_throughout (heard cli_sub).
Proof.
  intros r peer Hin. change (heard cli_sub) with (tl cli_later) in Hin.
  unfold cli_later in Hin. cbn [tl] in Hin. rewrite !elem_of_cons, elem_of_nil in Hin.
  by destruct Hin as [[=]|[[=]|[[=]|[]]]].
Qed.

Lemma sub_prints_publications_witness :
  ∃ p' net', @server_main big_endian _ sample_quill cli_server = (Ok 0%Z, p') ∧
    @program_run little_endian cli_sub =
      (Ok 0%Z, (net', MkConsole ("first" +:+ newline +:+ "hello world" +:+ newline) "")).
Proof.
  destruct (sub_prints_publications little_endian big_endian sample_quill cli_server cli_pre cli_subscribe
    (cli_mid ++ [EVENT_RECEIVE 71 cli_publish]) cli_sub (MkOptions "bus" 6767 "sub" ["t"]) "t")
    as (p' & Hp' & Hprints).
  - apply cli_serves.
  - apply cli_online. vm_compute. reflexivity.
  - reflexivity.
  - reflexivity.
  - cbn. rewrite !not_elem_of_cons. split_and!; [done..|apply not_elem_of_nil].
  - replace p' with (snd (@server_main big_endian _ sample_quill cli_server)) in * by by rewrite Hp'.
    destruct Hprints as (key & net' & Hget & _ & Hrun).
    + split; vm_compute; reflexivity.
    + vm_compute. by left.
    + apply cli_heard_connected.
    + vm_compute. reflexivity.
    + assert (key = 1%Z) as -> by (vm_compute in Hget; congruence).
      eexists _, net'. split; [exact Hp'|]. rewrite Hrun. vm_compute. reflexivity.
Defined.

Lemma pub_reaches_sub_witness :
  ∃ p' net_a net_b, @server_main big_endian _ sample_quill cli_server = (Ok 0%Z, p') ∧
    @program_run little_endian cli_pub = (Ok 0%Z, (net_a, sample_console)) ∧
    @program_run little_endian cli_sub =
      (Ok 0%Z, (net_b, MkConsole ("first" +:+ newline +:+ "hello world" +:+ newline) "")).
Proof.
  destruct (pub_reaches_sub little_endian big_endian little_endian sample_quill cli_server cli_pre
    cli_subscribe cli_mid cli_publish [] cli_pub cli_sub
    (MkOptions "bus" 6767 "pub" ["t"; "hello"; "world"]) (MkOptions "bus" 6767 "sub" ["t"])
    "t" "hello" ["world"]) as (p' & Hp' & Hmeet).
  - apply cli_serves.
  - apply cli_online. vm_compute. reflexivity.
  - reflexivity.
  - reflexivity.
  - apply cli_online. vm_compute. reflexivity.
  - reflexivity.
  - reflexivity.
  - done.
  - cbn. rewrite !not_elem_of_cons. split_and!; [done..|apply not_elem_of_nil].
  - replace p' with (snd (@server_main big_endian _ sample_quill cli_server)) in * by by rewrite Hp'.
    destruct Hmeet as (key & net_a & net_b & Hget & Ha & Hb).
    + split; vm_compute; reflexivity.
    + vm_compute. by right; right; left.
    + split; vm_compute; reflexivity.
    + vm_compute. by left.
    + apply cli_heard_connected.
    + vm_compute. reflexivity.
    + assert (key = 1%Z) as -> by (vm_compute in Hget; congruence).
      eexists _, net_a, net_b. split_and!; [exact Hp'|exact Ha|]. rewrite Hb. vm_compute. reflexivity.
Defined.
End witnesses.
