(* ===== verification/Examples.v ===== *)
(** * The programs that use the library (test_package/src/example.cpp,
      examples/client/src/main.cpp)

    The test of the Conan package checks the wire format and reports by its
    exit code; the example client publishes, subscribes and prints what it
    receives, forever. *)

From Stdlib.Strings Require Import Byte.
From stdpp Require Import base gmap list strings.
From S2P Require Import Prelude Protocol World Common NetClient BusClient Cli.

(** ** The package test *)

Section package_test.
Context {plat : Platform}.

(** The loop over the bytes of the key, from index [i] on; reading outside of
    an array is undefined. *)
Fixpoint same_bytes (n i : nat) (wire_topic_key expected_topic_key : list byte) :
    outcome bool :=
  match n with
  | O => Ok true
  | S n' =>
      match wire_topic_key !! i, expected_topic_key !! i with
      | Some a, Some b =>
          if bool_decide (a = b) then same_bytes n' (S i) wire_topic_key expected_topic_key
          else Ok false
      | _, _ => Undefined
      end
  end.

Definition package_test_key : Z := 0x0102030405060708.

Definition expected_topic_key : list byte := [x01; x02; x03; x04; x05; x06; x07; x08].

(** [main], with its local variable [constructor] next to the world. *)
Definition package_test_main : M (World * Constructor) Z :=
  networking_init ;;;
  zoom (modify (λ _ : Constructor, Constructor_default)) ;;;
  let! publish_packet :=
    zoom (Constructor_publish package_test_key [] (Origin_value Origin_client)) in
  if negb (length publish_packet =? sizeof_Header) then ret 1%Z else
  let wire_topic_key := drop (sizeof_Header - 8) publish_packet in
  let! same := of_outcome (same_bytes 8 0 wire_topic_key expected_topic_key) in
  if negb same then ret 2%Z else
  let! publish_message := of_outcome (Message_ctor publish_packet) in
  if negb (Header_topic_key (m_header publish_message) =? package_test_key)%Z then ret 3%Z else
  let! packet := zoom (Constructor_topic_request "alerts" (Origin_value Origin_client)) in
  if length packet <=? sizeof_Header then ret 4%Z else ret 0%Z.
End package_test.

(** ** The example client *)

Section example_client.
Context {plat : Platform}.

(** The callback: the payload, a newline, flushed. *)
Definition example_callback (message : Message) : M Console unit :=
  modify (print_out (Message_payload_as_string message +:+ newline)).

Definition example_step : M (BusClient * Console) unit :=
  BusClient_process example_callback ;;;
  emit (Sleep_ms 10).

(** [while (true)]: [fuel] iterations are observed. *)
Fixpoint example_loop (fuel : nat) : M (BusClient * Console) unit :=
  match fuel with
  | O => out_of_fuel
  | S fuel' => example_step ;;; example_loop fuel'
  end.

(** Code on the local variable [client]; an exception leaves [main] and ends
    the process. *)
Definition example_scope {A} (client : BusClient) (body : M (BusClient * Console) A) :
    M (NetState * Console) A := λ s,
  let r := body (with_net s.1 client, s.2) in
  (fst r, (c_net (fst (snd r)), snd (snd r))).

Definition example_main (fuel : nat) : M (NetState * Console) unit :=
  networking_init ;;;
  let! client := zoom (BusClient_ctor "localhost" 6767) in
  example_scope client
    (zoom (BusClient_publish_string "test_topic" "hello from spraybus-client-example") ;;;
     zoom (BusClient_subscribe "test_topic") ;;;
     example_loop fuel).
End example_client.

(** ** Lemmas *)

Section lemmas.
Context {plat : Platform}.

Lemma same_bytes_spec n i l k :
  i + n ≤ length l → i + n ≤ length k →
  same_bytes n i l k = Ok (bool_decide (take n (drop i l) = take n (drop i k))).
Proof.
  revert i. induction n as [|n IH]; intros i Hl Hk; [by rewrite !firstn_O|].
  destruct (lookup_lt_is_Some_2 l i) as [a Ha]; [lia|].
  destruct (lookup_lt_is_Some_2 k i) as [b Hb]; [lia|].
  cbn [same_bytes]. rewrite Ha, Hb, (drop_S _ _ _ Ha), (drop_S _ _ _ Hb).
  cbn [take]. rewrite IH by lia. repeat case_bool_decide; congruence.
Qed.

(** The iterations of the example's loop are those of [sub]: what [n] of them
    print, and how they end. *)
Lemma example_loop_run n c con :
  idle c →
  let r := sub_output n (m_inverse_topic_map c) (w_service (n_world (c_net c))) in
  ∃ net, example_loop n (c, con) =
      (match fst r with Ok _ => OutOfFuel | o => o end,
       (with_net net c, print_out (snd r) con)) ∧
    sends (w_log (n_world net)) = sends (w_log (n_world (c_net c))).
Proof.
  revert c con. induction n as [|n IH]; intros c con Hidle; cbn [sub_output example_loop].
  { exists (c_net c). rewrite print_empty. by destruct c. }
  destruct (sub_step_run c con Hidle) as (net & Hstep & Hidle' & Hser & Hsends).
  change sub_step with example_step in Hstep.
  destruct (delivery _ _) as [[m|]|e| |]; cbn [outcome_map fst snd] in *.
  - rewrite (bind_Ok _ _ _ _ _ Hstep).
    destruct (IH _ (print_out (Message_payload_as_string m +:+ newline) con) Hidle')
      as (net' & Hi & Hs'). exists net'. rewrite Hi, Hs'. cbn. by rewrite Hser, print_print.
  - rewrite (bind_Ok _ _ _ _ _ Hstep). destruct (IH _ con Hidle') as (net' & Hi & Hs').
    exists net'. rewrite Hi, Hs'. cbn. by rewrite Hser.
  - rewrite (bind_Throw _ _ _ _ _ Hstep). exists net. by rewrite print_empty.
  - exists net. unfold bind. rewrite Hstep. by rewrite print_empty.
  - exists net. unfold bind. rewrite Hstep. by rewrite print_empty.
Qed.
End lemmas.

(** The requests of the example, from a client that has just connected. *)
Lemma example_requests {plat : Platform} c con h hosts p peers r1 q1 r2 q2 pk r3 q3 rest key text :
  idle c → m_topic_map c = ∅ → m_inverse_topic_map c = ∅ →
  w_hosts (n_world (c_net c)) = Some h :: hosts → w_peers (n_world (c_net c)) = Some p :: peers →
  w_service (n_world (c_net c)) = (r1, EVENT_CONNECT q1) :: (r2, EVENT_RECEIVE q2 pk) ::
    (r3, EVENT_DISCONNECT q3) :: rest →
  (0 < r1)%Z → (0 < r2)%Z → (0 < r3)%Z →
  decode (packet_data pk) = Some (Topic_response key "test_topic") →
  ∃ c', (∀ k : M (BusClient * Console) unit,
      (zoom (BusClient_publish_string "test_topic" text) ;;;
       zoom (BusClient_subscribe "test_topic") ;;; k) (c, con) = k (c', con)) ∧
    idle c' ∧ m_inverse_topic_map c' = {[key := "test_topic"]} ∧
    w_service (n_world (c_net c')) = rest ∧
    sends (w_log (n_world (c_net c'))) = sends (w_log (n_world (c_net c))) ++
      [(p, packet (Origin_value Origin_client) (Topic_request "test_topic"));
       to_server c (Publish key (as_bytes text)); to_server c (Subscribe key)].
Proof.
  intros Hidle Hmap Hinv Hh Hp Hs Hr1 Hr2 Hr3 Hd.
  assert (Hnone : m_topic_map c !! "test_topic" = None) by by rewrite Hmap.
  destruct (resolution_ok "test_topic" c h hosts p peers r1 q1 r2 q2 pk _ key "test_topic" Hnone
    Hh Hp Hs Hr1 Hr2 Hd) as (Hres & Hsend & Hfirst & Hlearnt & Hrest).
  destruct (request_run "test_topic" (λ k, Publish k (as_bytes text)) c Hidle)
    as (c1 & Hpub & Hl & Hg & Hb).
  pose proof (request_rest _ _ _ _ _ Hidle Hpub) as Hs1.
  pose proof (learnt_idle _ _ _ Hl Hg Hidle) as Hidle1.
  specialize (Hb (or_introl Hfirst)).
  rewrite Hres in Hpub, Hb. rewrite Hsend in Hb. rewrite Hlearnt in Hl. rewrite Hrest in Hs1.
  assert (Hcached : m_topic_map c1 !! "test_topic" = Some key).
  { destruct Hl as (n & b & ->). apply lookup_insert_eq. }
  destruct (request_run "test_topic" Subscribe c1 Hidle1) as (c2 & Hsub & Hl2 & Hg2 & Hb2).
  pose proof (request_rest _ _ _ _ _ Hidle1 Hsub) as Hs2.
  specialize (Hb2 (or_intror (ex_intro _ _ Hcached))).
  unfold resolution, resolution_learnt, resolution_sends, resolution_rest in *.
  rewrite Hcached in *. exists c2. split_and!.
  - intros k. rewrite (bind_Ok _ _ (c, con) tt (c1, con)) by by apply zoom_client_run.
    by rewrite (bind_Ok _ _ (c1, con) tt (c2, con)) by by apply zoom_client_run.
  - by eapply learnt_idle.
  - destruct Hl2 as (n2 & b2 & ->), Hl as (n & b & ->). cbn. by rewrite Hinv.
  - rewrite Hs2, Hs1. apply Z.ltb_lt in Hr3. cbn [dtor_used]. by rewrite Hr3.
  - rewrite (balanced_sends _ _ _ Hb2), (balanced_sends _ _ _ Hb), <-app_assoc.
    f_equal. destruct Hl as (n & b & ->). done.
Qed.

(** ** Properties *)

(** The package test passes: once ENet is initialised, its exit code is
    0 on machines of either byte order, so the packet has the size of a
    header, the key is on the wire most significant byte first and is read
    back, and a request with a name is longer than a header.  It does not
    return when ENet cannot be initialised. *)
Theorem package_test_passes {plat : Platform} s :
  fst (package_test_main s) =
    if (w_initialize (fst s) =? 0)%Z then Ok 0%Z
    else Throw (runtime_error "Failed to initialize ENet").
Proof.
  unfold package_test_main, bind at 1. rewrite networking_init_run. unfold init_outcome.
  change (lget s) with (fst s). destruct (w_initialize (fst s) =? 0)%Z; [|done].
  cbn [fst snd]. destruct plat; vm_compute; reflexivity.
Qed.

(** The example client, once connected and answered, sends a request for
    its topic, its message and its subscription, in this order, and then
    prints the payloads of the fanouts it is given, in order, one per line,
    for as long as it is observed; it never returns, and only a lost
    connection or a packet too short ends it. *)
Theorem example_client_runs {plat : Platform} fuel net con
    h1 h2 hosts p1 p2 peers r1 q1 r2 q2 r3 q3 pk r4 q4 rest key :
  let w := n_world net in
  free net → w_initialize w = 0%Z → w_hosts w = Some h1 :: Some h2 :: hosts →
  w_peers w = Some p1 :: Some p2 :: peers →
  w_service w = (r1, EVENT_CONNECT q1) :: (r2, EVENT_CONNECT q2) ::
    (r3, EVENT_RECEIVE q3 pk) :: (r4, EVENT_DISCONNECT q4) :: rest →
  (0 < r1)%Z → (0 < r2)%Z → (0 < r3)%Z → (0 < r4)%Z →
  decode (packet_data pk) = Some (Topic_response key "test_topic") →
  let out := sub_output fuel {[key := "test_topic"]} rest in
  ∃ net', example_main fuel (net, con) =
      (match fst out with Ok _ => OutOfFuel | o => o end, (net', print_out (snd out) con)) ∧
    sends (w_log (n_world net')) = sends (w_log w) ++
      [(p2, packet (Origin_value Origin_client) (Topic_request "test_topic"));
       (p1, packet (Origin_value Origin_client)
          (Publish key (as_bytes "hello from spraybus-client-example")));
       (p1, packet (Origin_value Origin_client) (Subscribe key))].
Proof.
  intros w Hfree Hi Hh Hp Hs Hr1 Hr2 Hr3 Hr4 Hd out. unfold example_main.
  rewrite (bind_Ok _ _ _ _ _ (networking_init_ok net con Hi)).
  set (net1 := MkNetState _ (n_packets net)).
  destruct (client_ctor_ok "localhost" 6767 net1 h1 (Some h2 :: hosts) p1 (Some p2 :: peers) r1 q1 _
    Hfree Hh Hp Hs Hr1)
    as (c & Hc & Hidle & Ehost & Eport & Hmap & Hinv & Hpeer & Hh' & Hp' & Hs' & Hsent & _).
  assert (Hz : zoom (BusClient_ctor "localhost" 6767) (net1, con) = (Ok c, (c_net c, con)))
    by (unfold zoom; cbn [lget pair_fst_lens fst]; by rewrite Hc).
  rewrite (bind_Ok _ _ _ _ _ Hz). unfold example_scope. cbn [fst snd].
  replace (with_net (c_net c) c) with c by by destruct c.
  destruct (example_requests c con h2 hosts p2 peers r2 q2 r3 q3 pk r4 q4 rest key
    "hello from spraybus-client-example")
    as (c2 & Hrun & Hidle2 & Hinv2 & Hs2 & Hsent2); [done..|].
  rewrite Hrun. destruct (example_loop_run fuel c2 con Hidle2) as (net2 & Hloop & Hsent3).
  rewrite Hinv2, Hs2 in Hloop. exists net2. rewrite Hloop. split; [done|].
  rewrite Hsent3, Hsent2, Hsent. unfold to_server. rewrite Hpeer.
  cbn. by rewrite !sends_app, !app_nil_r.
Qed.

(** ** Witnesses *)

Section witnesses.
#[local] Instance example_platform : Platform := big_endian.

Definition example_results : list (Z * ENetEvent) :=
  [(1%Z, EVENT_CONNECT 40); (1%Z, EVENT_CONNECT 50);
   (1%Z, EVENT_RECEIVE 50 (MkPacket 7
      (packet (Origin_value Origin_server) (Topic_response 5 "test_topic"))));
   (1%Z, EVENT_DISCONNECT 50); (0%Z, EVENT_NONE);
   (1%Z, EVENT_RECEIVE 40 (MkPacket 8
      (packet (Origin_value Origin_server) (Fanout 5 (as_bytes "hi")))))].

(** Three iterations: nothing, a fanout, nothing; the program goes on. *)
Lemma example_client_runs_witness :
  ∃ net', example_main 3 (sample_cli example_results 0, sample_console) =
      (OutOfFuel, (net', MkConsole ("hi" +:+ newline) "")) ∧
    length (sends (w_log (n_world net'))) = 3.
Proof.
  destruct (example_client_runs 3 (sample_cli example_results 0) sample_console
    3 4 [] 40 50 [] 1 40 1 50 1 50 (MkPacket 7
      (packet (Origin_value Origin_server) (Topic_response 5 "test_topic"))) 1 50
    [(0%Z, EVENT_NONE);
     (1%Z, EVENT_RECEIVE 40 (MkPacket 8
        (packet (Origin_value Origin_server) (Fanout 5 (as_bytes "hi")))))] 5)
    as (net' & Hrun & Hsends).
  - apply sample_free.
  - reflexivity.
  - reflexivity.
  - reflexivity.
  - reflexivity.
  - reflexivity.
  - reflexivity.
  - reflexivity.
  - reflexivity.
  - vm_compute. reflexivity.
  - exists net'. split; [rewrite Hrun; vm_compute; reflexivity|by rewrite Hsends].
Defined.
End witnesses.
