(* ===== verification/Launchers.v ===== *)
(** * Python launchers (python/cli/src/spraybus_cli/__main__.py,
      python/server/src/spraybus_server/__main__.py)

    The console scripts [spraybus-cli] and [spraybus-server] run the native
    programs that their packages carry: in place of the interpreter, or on
    Windows as a child whose exit code they return. *)

From stdpp Require Import base gmap list strings.
From S2P Require Import Prelude Protocol World Common NetClient BusClient Cli BusServer NetServer Daemon.

(** ** The interpreter *)

(** What the scripts read, and what running a file gives: the operating
    system, the arguments, the files of a package ([importlib.resources]),
    which paths are files, and the error with which the system refuses to
    execute a file. *)
Record Interpreter : Type := MkInterpreter {
  os_name : string;
  sys_argv : list string;
  resource : string → list string → string;
  is_file : string → bool;
  exec_error : string → option exn;
}.

Section launchers.
Context {S : Type} (program : list string → M S Z) (py : Interpreter).

(** [os.execv]: the process goes on as the program, with these arguments. *)
Definition os_execv (path : string) (args : list string) : M S Z :=
  match exec_error py path with
  | Some e => throw e
  | None => program args
  end.

(** [subprocess.call]: the program runs to its end; its exit code. *)
Definition subprocess_call (args : list string) : M S Z :=
  match exec_error py (hd "" args) with
  | Some e => throw e
  | None => program args
  end.

(** *** spraybus_cli *)

Definition cli_binary_name : string :=
  if String.eqb (os_name py) "nt" then "_spraybus_cli.exe" else "_spraybus_cli".

Definition cli_binary_path : string := resource py "spraybus_cli" ["bin"; cli_binary_name].

Definition cli_launcher_main : M S Z :=
  let binary := cli_binary_path in
  if negb (is_file py binary) then
    throw (runtime_error ("Bundled spraybus CLI binary not found: " +:+ binary))
  else
    let args := binary :: drop 1 (sys_argv py) in
    if negb (String.eqb (os_name py) "nt") then os_execv (hd "" args) args
    else subprocess_call args.

(** *** spraybus_server *)

Definition server_binary_name : string :=
  if String.eqb (os_name py) "nt" then "_spraybus_server.exe" else "_spraybus_server".

Definition server_binary_path : string :=
  resource py "spraybus_server" ["bin"; server_binary_name].

Definition server_launcher_main : M S Z :=
  let binary := server_binary_path in
  if negb (is_file py binary) then
    throw (runtime_error ("Bundled spraybus server binary not found: " +:+ binary))
  else
    let args := binary :: drop 1 (sys_argv py) in
    if negb (String.eqb (os_name py) "nt") then os_execv (hd "" args) args
    else subprocess_call args.
End launchers.

(** ** Lemmas *)

(** A launcher runs the program, with its own arguments, or raises and does
    nothing. *)
Lemma cli_launcher_run {S} (program : list string → M S Z) py :
  cli_launcher_main program py =
    if is_file py (cli_binary_path py) then
      match exec_error py (cli_binary_path py) with
      | None => program (cli_binary_path py :: drop 1 (sys_argv py))
      | Some e => throw e
      end
    else throw (runtime_error ("Bundled spraybus CLI binary not found: " +:+ cli_binary_path py)).
Proof.
  unfold cli_launcher_main, os_execv, subprocess_call. destruct (is_file _ _); [|done]. cbn.
  by destruct (String.eqb _ _).
Qed.

Lemma server_launcher_run {S} (program : list string → M S Z) py :
  server_launcher_main program py =
    if is_file py (server_binary_path py) then
      match exec_error py (server_binary_path py) with
      | None => program (server_binary_path py :: drop 1 (sys_argv py))
      | Some e => throw e
      end
    else throw (runtime_error ("Bundled spraybus server binary not found: " +:+ server_binary_path py)).
Proof.
  unfold server_launcher_main, os_execv, subprocess_call. destruct (is_file _ _); [|done]. cbn.
  by destruct (String.eqb _ _).
Qed.

(** ** Properties *)

(** The script [spraybus-cli] is the command-line client: on every operating
    system, when its package carries a program that the system executes, it
    prints and sends what the client does with the same arguments, and exits
    with the same code, 0 or 1. *)
Theorem python_cli_is_cli {plat : Platform} py prog net con :
  is_file py (cli_binary_path py) = true → exec_error py (cli_binary_path py) = None →
  free net →
  cli_launcher_main Cli.main py (net, con) = Cli.main (prog :: drop 1 (sys_argv py)) (net, con) ∧
  ∃ z, (z = 0 ∨ z = 1)%Z ∧ fst (cli_launcher_main Cli.main py (net, con)) = Ok z.
Proof.
  intros Hf He Hfree. rewrite cli_launcher_run, Hf, He. split; [done|].
  pose proof (run_always_ends (cli_binary_path py :: drop 1 (sys_argv py)) net con Hfree) as [_ Hr].
  unfold Cli.main. destruct (Cli.run _ _) as [[z|e| |] s]; cbn [fst snd] in *; try done; [|by exists 1%Z; auto].
  subst. exists 0%Z. auto.
Qed.
