(* ===== verification/PyExample.v ===== *)
(** * The Python example (examples/python/main.py)

    Two tasks on one asyncio client: [main] connects, subscribes, starts the
    receiver, publishes and awaits the receiver; the receiver prints the text
    of each message.  [asyncio.run] cancels [main] at the first SIGINT, and
    the receiver once [main] has ended.  Exceptions that Python lets go of can
    take a native client with them at any turn ([TRelease]).  The tasks, the
    callbacks of the loop and the worker thread interleave as in
    [AsyncClient]. *)

From Stdlib.Strings Require Import Byte.
From stdpp Require Import base gmap list strings.
From S2P Require Import Prelude Protocol World NetClient BusClient Bindings.
From S2P Require Import AsyncClient AsyncProgress AsyncSession Publications AsyncBus.

(** ** Data *)

Definition HOST : string := "localhost".
Definition PORT : Z := 6767.
Definition SUBSCRIBE_TOPIC : string := "python_example_in".
Definition PUBLISH_TOPIC : string := "python_example_out".
Definition PUBLISH_MESSAGE : string := "hello from the spraybus Python example".

(** What a coroutine raises; the code catches neither. *)
Inductive failure : Type :=
  | Raised (e : exn)
  | CancelledError.

(** Where [main] is: at an [await], or how it ended. *)
Inductive main_state : Type :=
  | MainCreated
  | MainConnecting (f : nat)       (* __aenter__ *)
  | MainSubscribing (f : nat)
  | MainPublishing (f : nat)
  | MainAwaiting                   (* await receiver *)
  | MainClosing (e : failure)      (* __aexit__, with what leaves the block *)
  | MainNotEntered (e : failure)   (* __aenter__ raised *)
  | MainClosed (e : failure)       (* __aexit__ returned *)
  | MainNotClosed (e : failure).   (* __aexit__ raised *)

(** Where the task [receiver] is; it ends only by what it raises. *)
Inductive receiver_state : Type :=
  | NoReceiver
  | ReceiverReady
  | ReceiverWaiting                (* await self.recv() *)
  | ReceiverEnded (e : failure).

(** The client, the two tasks, whether [main] is to be cancelled at its next
    step, whether SIGINT has come, and the lines printed. *)
Record ExampleRun (C : Type) : Type := MkRun {
  x_client : AsyncClient C;
  x_main : main_state;
  x_receiver : receiver_state;
  x_must_cancel : bool;
  x_interrupted : bool;
  x_out : list string;
}.
Arguments MkRun {C}. Arguments x_client {C}. Arguments x_main {C}. Arguments x_receiver {C}.
Arguments x_must_cancel {C}. Arguments x_interrupted {C}. Arguments x_out {C}.

Section example.
Context {C : Type} `{!NativeClient C}.
(** Python's [str.encode] and [bytes.decode]. *)
Context (encode : string → string → list byte + exn).
Context (decode : list byte → string → string → string + exn).
Implicit Types (x : ExampleRun C).
Abbreviation step := (step HOST PORT).
Abbreviation run_steps_of := (run_steps_of HOST PORT).

Definition set_client (s : AsyncClient C) x : ExampleRun C :=
  MkRun s (x_main x) (x_receiver x) (x_must_cancel x) (x_interrupted x) (x_out x).
Definition set_main (m : main_state) x : ExampleRun C :=
  MkRun (x_client x) m (x_receiver x) (x_must_cancel x) (x_interrupted x) (x_out x).
Definition set_receiver (r : receiver_state) x : ExampleRun C :=
  MkRun (x_client x) (x_main x) r (x_must_cancel x) (x_interrupted x) (x_out x).
Definition set_must_cancel (b : bool) x : ExampleRun C :=
  MkRun (x_client x) (x_main x) (x_receiver x) b (x_interrupted x) (x_out x).
Definition set_interrupted x : ExampleRun C :=
  MkRun (x_client x) (x_main x) (x_receiver x) (x_must_cancel x) true (x_out x).
Definition print (line : string) x : ExampleRun C :=
  MkRun (x_client x) (x_main x) (x_receiver x) (x_must_cancel x) (x_interrupted x)
    (x_out x ++ [line]).

(** ** The tasks *)

(** A step of the client, and code after it in the same turn of a task. *)
Definition on_client (l : label) x : option (ExampleRun C * list event) :=
  match step l (x_client x) with
  | Some (s, e) => Some (set_client s x, e)
  | None => None
  end.

Definition and_then (r : option (ExampleRun C * list event))
    (k : ExampleRun C → list event → option (ExampleRun C * list event)) :
    option (ExampleRun C * list event) :=
  match r with
  | Some (x, e) =>
      match k x e with
      | Some (x', e') => Some (x', e ++ e')
      | None => None
      end
  | None => None
  end.

(** What [main] is given when it resumes after [await f]; nothing while [f] is
    pending. *)
Definition awaited (f : nat) x : option (option failure) :=
  if x_must_cancel x then Some (Some CancelledError) else
    match a_futures (x_client x) !! f with
    | Some (Result _) => Some None
    | Some (Exception e) => Some (Some (Raised e))
    | Some Cancelled => Some (Some CancelledError)
    | _ => None
    end.

(** The block of [async with] is left by [e]: [__aexit__] begins. *)
Definition leave_block (e : failure) x : option (ExampleRun C * list event) :=
  and_then (on_client LClose (set_must_cancel false x)) (λ x _,
    Some (set_main match a_closing (x_client x) with
                   | NotClosing => MainClosed e
                   | _ => MainClosing e
                   end x, [])).

(** [await] of a call of the client, in the block. *)
Definition await_call (r : request) (next : nat → main_state) x :
    option (ExampleRun C * list event) :=
  and_then (on_client (LCall r) x) (λ x evs,
    match evs with
    | [EvIssued c] => Some (set_main (next (cmd_future c)) x, [])
    | [EvRaised e] => leave_block (Raised e) x
    | _ => None
    end).

(** [await client.publish(PUBLISH_TOPIC, PUBLISH_MESSAGE)]. *)
Definition await_publish x : option (ExampleRun C * list event) :=
  match payload_data encode (PayloadStr PUBLISH_MESSAGE) "utf-8" with
  | inl data => await_call (ReqPublish PUBLISH_TOPIC data) MainPublishing x
  | inr e => leave_block (Raised e) x
  end.

Definition subscribed_line : string := "subscribed to " +:+ SUBSCRIBE_TOPIC.
Definition published_line : string :=
  ("published to " +:+ PUBLISH_TOPIC) +:+ (": " +:+ PUBLISH_MESSAGE).

(** [__aexit__] is cancelled once [close] has been answered. *)
Definition cut_close x : option (ExampleRun C * list event) :=
  and_then (on_client LCloseResume (set_must_cancel false x)) (λ x _,
    let x := set_main (MainNotClosed CancelledError) x in
    match a_closing (x_client x) with
    | Joining => on_client LCancelJoin x
    | _ => Some (x, [])
    end).

(** [__aexit__] goes on. *)
Definition closing_turn (e : failure) x : option (ExampleRun C * list event) :=
  match a_closing (x_client x) with
  | SeenAlive => on_client LClosePut x
  | Awaiting _ =>
      if x_must_cancel x then cut_close x else
        and_then (on_client LCloseResume x) (λ x evs,
          match evs, a_closing (x_client x) with
          | [EvRaised e'], _ => Some (set_main (MainNotClosed (Raised e')) x, [])
          | _, Joining => Some (x, [])
          | _, _ => Some (set_main (MainNotClosed CancelledError) x, [])
          end)
  | Joining =>
      and_then (on_client LCloseResume x) (λ x _, Some (set_main (MainClosed e) x, []))
  | NotClosing => Some (set_main (MainNotClosed CancelledError) x, [])
  end.

(** [main], from one [await] to the next. *)
Definition main_turn x : option (ExampleRun C * list event) :=
  match x_main x with
  | MainCreated =>
      if x_must_cancel x then Some (set_main (MainNotEntered CancelledError) x, [])
      else let f := a_fresh (x_client x) in
        and_then (on_client LConnect x) (λ x _, Some (set_main (MainConnecting f) x, []))
  | MainConnecting f =>
      match awaited f x with
      | Some None => await_call (ReqSubscribe SUBSCRIBE_TOPIC) MainSubscribing x
      | Some (Some e) => Some (set_main (MainNotEntered e) x, [])
      | None => None
      end
  | MainSubscribing f =>
      match awaited f x with
      | Some None => await_publish (set_receiver ReceiverReady x)
      | Some (Some e) => leave_block e x
      | None => None
      end
  | MainPublishing f =>
      match awaited f x with
      | Some None => Some (set_main MainAwaiting (print published_line (print subscribed_line x)), [])
      | Some (Some e) => leave_block e x
      | None => None
      end
  | MainAwaiting =>
      if x_must_cancel x then leave_block CancelledError x else
        match x_receiver x with
        | ReceiverEnded e => leave_block e x
        | _ => None
        end
  | MainClosing e => closing_turn e x
  | MainNotEntered _ | MainClosed _ | MainNotClosed _ => None
  end.

(** [print_messages]: a round of [async for], up to the [await] in [recv] and
    from there. *)
Definition receiver_turn x : option (ExampleRun C * list event) :=
  match x_receiver x with
  | ReceiverReady =>
      and_then (on_client LRecv x) (λ x evs,
        match evs with
        | [EvRaised e] => Some (set_receiver (ReceiverEnded (Raised e)) x, [])
        | _ => Some (set_receiver ReceiverWaiting x, [])
        end)
  | ReceiverWaiting =>
      and_then (on_client (LRecvResume 0) x) (λ x evs,
        match evs with
        | [EvReceived _ m] =>
            match Message_text decode m None None with
            | inl text => Some (set_receiver ReceiverReady (print text x), [])
            | inr e => Some (set_receiver (ReceiverEnded (Raised e)) x, [])
            end
        | [EvRaised e] => Some (set_receiver (ReceiverEnded (Raised e)) x, [])
        | _ => None
        end)
  | NoReceiver | ReceiverEnded _ => None
  end.

(** ** Cancellation *)

Definition cancel_receiver x : option (ExampleRun C * list event) :=
  match x_receiver x with
  | ReceiverReady => Some (set_receiver (ReceiverEnded CancelledError) x, [])
  | ReceiverWaiting =>
      and_then (on_client (LCancelRecv 0) x) (λ x _,
        Some (set_receiver (ReceiverEnded CancelledError) x, []))
  | NoReceiver | ReceiverEnded _ => None
  end.

(** [main] awaits [f] and is cancelled: so is [f] while it is pending. *)
Definition cancel_awaited (f : nat) x : option (ExampleRun C * list event) :=
  match a_futures (x_client x) !! f with
  | Some Pending => on_client (LCancel f) x
  | _ => Some (set_must_cancel true x, [])
  end.

(** The handler of SIGINT that [asyncio.run] installs, at the first one:
    [main] is cancelled, at once or with what it awaits. *)
Definition interrupt x : option (ExampleRun C * list event) :=
  if x_interrupted x || negb (loop_free (x_client x)) then None else
    let x := set_interrupted x in
    match x_main x with
    | MainCreated => Some (set_must_cancel true x, [])
    | MainConnecting f | MainSubscribing f | MainPublishing f => cancel_awaited f x
    | MainAwaiting =>
        match x_receiver x with
        | ReceiverEnded _ => Some (set_must_cancel true x, [])
        | _ => cancel_receiver x
        end
    | MainClosing _ =>
        match a_closing (x_client x) with
        | Awaiting f => cancel_awaited f x
        | Joining => on_client LCancelJoin x
        | NotClosing | SeenAlive => None
        end
    | MainNotEntered _ | MainClosed _ | MainNotClosed _ => None
    end.

Definition main_ended (m : main_state) : bool :=
  match m with MainNotEntered _ | MainClosed _ | MainNotClosed _ => true | _ => false end.

(** [asyncio.run] cancels the receiver once [main] has ended. *)
Definition shutdown x : option (ExampleRun C * list event) :=
  if main_ended (x_main x) then cancel_receiver x else None.

(** ** Steps *)

Inductive turn_label : Type :=
  | TMain
  | TReceiver
  | TInterrupt
  | TShutdown
  | TCallback
  | TWorker
  | TRelease (q : nat).

Definition turn (l : turn_label) x : option (ExampleRun C * list event) :=
  match l with
  | TMain => main_turn x
  | TReceiver => receiver_turn x
  | TInterrupt => interrupt x
  | TShutdown => shutdown x
  | TCallback => on_client LCallback x
  | TWorker => on_client LWorker x
  | TRelease q => on_client (LRelease q) x
  end.

Fixpoint turns (ls : list turn_label) x : option (ExampleRun C * list event) :=
  match ls with
  | [] => Some (x, [])
  | l :: rest => and_then (turn l x) (λ x _, turns rest x)
  end.

(** [asyncio.run(main())]. *)
Definition start (c : C) : ExampleRun C :=
  MkRun (AsyncClient_init c) MainCreated NoReceiver false false [].
End example.

(** ** The example is a program over the client *)

Lemma run_steps_app {C} `{!NativeClient C} host port ls ls' (s s1 s2 : AsyncClient C) e1 e2 :
  run_steps_of host port ls s = Some (s1, e1) → run_steps_of host port ls' s1 = Some (s2, e2) →
  run_steps_of host port (ls ++ ls') s = Some (s2, e1 ++ e2).
Proof.
  revert s e1. induction ls as [|l ls IH]; intros s e1; cbn; [by intros [= -> <-]|].
  destruct (step host port l s) as [[s3 e3]|]; [|done].
  destruct (run_steps_of host port ls s3) as [[s4 e4]|] eqn:E; [|done].
  intros [= -> <-] H2. by rewrite (IH _ _ E H2), <-app_assoc.
Qed.

(** The calls issued, with their futures, and the messages received. *)
Definition calls (evs : list event) : list (request * nat) :=
  omap (λ c, match cmd_name c with CmdRequest r => Some (r, cmd_future c) | CmdClose => None end)
    (issued_commands evs).
Definition received (evs : list event) : list FanoutMessage :=
  omap (λ e, match e with EvReceived _ m => Some m | _ => None end) evs.

Lemma calls_app l k : calls (l ++ k) = calls l ++ calls k.
Proof. unfold calls. by rewrite issued_commands_app, omap_app. Qed.
Lemma received_app l k : received (l ++ k) = received l ++ received k.
Proof. apply omap_app. Qed.

(** Events with neither. *)
Definition silent (evs : list event) : Prop := calls evs = [] ∧ received evs = [].

Lemma silent_app l k : silent l → silent k → silent (l ++ k).
Proof. intros [H1 H2] [H3 H4]. split; by rewrite ?calls_app, ?received_app, ?H1, ?H2, ?H3, ?H4. Qed.

(** The labels of the steps that neither connect, call nor receive. *)
Definition quiet_label (l : label) : bool :=
  match l with LConnect | LCall _ | LRecvResume _ => false | _ => true end.

Lemma quiet_step {C} `{!NativeClient C} host port l (s s' : AsyncClient C) e :
  quiet_label l = true → step host port l s = Some (s', e) → silent e.
Proof.
  intros Hl [[-> Hw]|[(-> & _ & -> & ->)|Hs]]%step_cases; [|done|].
  - by worker_cases Hw.
  - destruct l; cbn [loop_step quiet_label] in *; try discriminate.
    7: { destruct (a_callbacks s); [discriminate|]. by injection Hs as <- <-. }
    all: by loop_cases Hs.
Qed.

(** On one connection everything is received from one queue. *)
Definition one_queue {C} (s : AsyncClient C) : Prop := Forall (eq (a_generation s)) (a_receivers s).

Lemma step_one_queue {C} `{!NativeClient C} host port l (s s' : AsyncClient C) e :
  l ≠ LConnect → one_queue s → step host port l s = Some (s', e) →
  a_generation s' = a_generation s ∧ one_queue s' ∧ received e = received_from (a_generation s) e.
Proof.
  intros Hl Hq [[-> Hw]|[(-> & _ & -> & ->)|Hs]]%step_cases; [|done|].
  - by worker_cases Hw.
  - destruct l; cbn [loop_step] in *; try discriminate; try done.
    9: { destruct (a_callbacks s) as [|cb rest]; [discriminate|]. injection Hs as <- <-.
         destruct cb; cbn; [|done..]. by destruct (a_futures s !! f) as [[]|]. }
    5: { unfold recv_resume in Hs. destruct (a_receivers s !! i) as [q|] eqn:Hi; [|done].
         pose proof (proj1 (Forall_forall _ _) Hq q (list_elem_of_lookup_2 _ _ _ Hi)) as <-.
         assert (Forall (eq (a_generation s)) (delete i (a_receivers s))) by by apply Forall_delete.
         destruct (a_queues s !! _) as [[|[m|x] rest]|]; try done; injection Hs as <- <-; [|done].
         cbn. by rewrite decide_True. }
    4: { unfold recv in Hs. destruct (ensure_running s); injection Hs as <- <-; [done|].
         split_and!; [done| |done]. apply Forall_app; cbn. split; [done|by constructor]. }
    5: { unfold cancel_recv in Hs. destruct (a_receivers s !! i); [|done]. injection Hs as <- <-.
         split_and!; [done| |done]. by apply Forall_delete. }
    all: by loop_cases Hs.
Qed.

Lemma run_one_queue {C} `{!NativeClient C} host port ls (s s' : AsyncClient C) e :
  (LConnect ∉ ls) → one_queue s → run_steps_of host port ls s = Some (s', e) →
  a_generation s' = a_generation s ∧ one_queue s' ∧ received e = received_from (a_generation s) e.
Proof.
  revert s s' e. induction ls as [|l ls IH]; intros s s' e Hnc Hq; cbn; [by intros [= <- <-]|].
  apply not_elem_of_cons in Hnc as [Hne Hnc].
  destruct (step host port l s) as [[s1 e1]|] eqn:E1; [|discriminate].
  destruct (run_steps_of host port ls s1) as [[s2 e2]|] eqn:E2; [|discriminate]. intros [= <- <-].
  destruct (step_one_queue _ _ _ _ _ _ ltac:(done) Hq E1) as (Hg1 & Hq1 & Hr1).
  destruct (IH _ _ _ Hnc Hq1 E2) as (Hg2 & Hq2 & Hr2).
  rewrite received_app, received_from_app, Hr1, Hr2, Hg2, Hg1. done.
Qed.

#[export] Instance turn_label_eq_dec : EqDecision turn_label.
Proof. solve_decision. Defined.

Section projection.
Context {C : Type} `{!NativeClient C}.
Context (encode : string → string → list byte + exn).
Context (decode : list byte → string → string → string + exn).
Implicit Types (x : ExampleRun C).
Abbreviation run_steps_of := (run_steps_of HOST PORT).
Abbreviation main_turn := (main_turn encode).
Abbreviation turn := (turn encode decode).

(** [main] has left the block, or is leaving it. *)
Definition left_block (m : main_state) : bool :=
  match m with MainClosing _ | MainClosed _ | MainNotClosed _ => true | _ => false end.
Definition before_block (m : main_state) : bool :=
  match m with MainCreated | MainConnecting _ => true | _ => false end.

Definition running (r : receiver_state) : bool :=
  match r with ReceiverReady | ReceiverWaiting => true | _ => false end.

(** A turn in which [main] stays or gives up, the receiver stays or goes on,
    and nothing is printed. *)
Record gives_up x x' : Prop := {
  gu_out : x_out x' = x_out x;
  gu_main : x_main x' = x_main x ∨ left_block (x_main x') = true ∨
    before_block (x_main x) = true ∧ ∃ e, x_main x' = MainNotEntered e;
  gu_receiver : x_receiver x' = x_receiver x ∨
    running (x_receiver x) = true ∧ x_receiver x' ≠ NoReceiver;
}.

#[local] Instance gives_up_trans : Transitive gives_up.
Proof.
  intros x y z [H1 H2 H3] [H4 H5 H6]. split; [congruence| |].
  - destruct H5 as [->|[H5|(Hb & e & H5)]]; [done|by auto|].
    destruct H2 as [H2|[H2|(_ & e' & H2)]].
    + right; right. split; [by rewrite <-H2|by exists e].
    + by destruct (x_main y).
    + by rewrite H2 in Hb.
  - destruct H6 as [->|[Hr H6]]; [done|].
    destruct H3 as [H3|[Hr' _]]; right; (split; [|done]); [by rewrite <-H3|done].
Qed.

(** What a turn gives is given by steps of the client, silently. *)
Definition driven x (r : option (ExampleRun C * list event)) : Prop :=
  ∀ x' e, r = Some (x', e) → gives_up x x' ∧ silent e ∧
    ∃ ls, (LConnect ∉ ls) ∧ run_steps_of ls (x_client x) = Some (x_client x', e).

Lemma gives_up_main m x :
  left_block m = true → gives_up x (set_main m x).
Proof. intros Hm. split; cbn; auto. Qed.

Lemma gives_up_same x x' :
  x_out x' = x_out x → x_main x' = x_main x → x_receiver x' = x_receiver x → gives_up x x'.
Proof. intros. split; auto. Qed.

Lemma driven_on_client l x x0 :
  quiet_label l = true → gives_up x0 x → x_client x0 = x_client x → driven x0 (on_client l x).
Proof.
  intros Hl Hg Hc x' e. unfold on_client.
  destruct (step HOST PORT l (x_client x)) as [[s e1]|] eqn:E; [|done].
  intros [= <- <-]. split; [|split].
  - etrans; [exact Hg|]. by apply gives_up_same.
  - by eapply quiet_step.
  - exists [l]. split; [by intros <-%list_elem_of_singleton|]. cbn. rewrite Hc, E.
    by rewrite app_nil_r.
Qed.

Lemma driven_and_then x r k :
  driven x r → (∀ x1 e1, driven x1 (k x1 e1)) → driven x (and_then r k).
Proof.
  intros Hr Hk x' e. unfold and_then. destruct r as [[x1 e1]|]; [|done].
  destruct (k x1 e1) as [[x2 e2]|] eqn:E; [|done]. intros [= <- <-].
  destruct (Hr _ _ eq_refl) as (HR1 & Hs1 & ls1 & Hok1 & Hrun1).
  destruct (Hk _ _ _ _ E) as (HR2 & Hs2 & ls2 & Hok2 & Hrun2).
  split; [by etrans|]. split; [by apply silent_app|]. exists (ls1 ++ ls2).
  split; [by rewrite elem_of_app; intros [?|?]|]. by eapply run_steps_app.
Qed.

Lemma driven_ret x x' : gives_up x x' → x_client x' = x_client x → driven x (Some (x', [])).
Proof.
  intros HR Hc x1 e [= <- <-]. split; [done|]. split; [done|]. exists []. rewrite Hc.
  split; [by apply not_elem_of_nil|done].
Qed.

Lemma driven_none x : driven x None.
Proof. by intros x' e. Qed.

(** The parts of the turns that are of this kind. *)
Create HintDb driven.
#[local] Hint Resolve driven_on_client driven_ret driven_none gives_up_main gives_up_same : driven.
#[local] Ltac driven :=
  repeat first
    [ progress intros
    | apply driven_and_then
    | match goal with |- context [match ?y with _ => _ end] => destruct y end
    | solve [eauto with driven]
    | apply driven_ret; [split; cbn; eauto|done] ].

Lemma leave_block_driven e x : driven x (leave_block e x).
Proof. unfold leave_block. driven. Qed.

Lemma leave_block_left e x x' evs : leave_block e x = Some (x', evs) → left_block (x_main x') = true.
Proof.
  unfold leave_block, and_then. destruct (on_client _ _) as [[x1 e1]|]; [|done].
  intros [= <- _]. cbn. by destruct (a_closing (x_client x1)).
Qed.

Lemma closing_turn_driven e x : driven x (closing_turn e x).
Proof. unfold closing_turn, cut_close. driven. Qed.

(** A step of the client after which the receiver goes on. *)
Lemma driven_receiver l x (r : list event → receiver_state) :
  quiet_label l = true → running (x_receiver x) = true → (∀ evs, r evs ≠ NoReceiver) →
  driven x (and_then (on_client l x) (λ x evs, Some (set_receiver (r evs) x, []))).
Proof.
  intros Hl Hrun Hr x' e. unfold and_then. destruct (on_client l x) as [[x1 e1]|] eqn:E; [|done].
  intros [= <- <-]. rewrite app_nil_r.
  destruct (driven_on_client l x x Hl ltac:(by apply gives_up_same) eq_refl _ _ E) as ([H1 H2 _] & Hd).
  split; [|done]. split; cbn; auto.
Qed.

Lemma cancel_receiver_driven x : driven x (cancel_receiver x).
Proof.
  unfold cancel_receiver. destruct (x_receiver x) eqn:E; try apply driven_none.
  - apply driven_ret; [|done]. split; cbn; auto. right. by rewrite E.
  - apply (driven_receiver _ _ (λ _, ReceiverEnded CancelledError)); [done|by rewrite E|done].
Qed.

Lemma cancel_awaited_driven f x0 x :
  gives_up x0 x → x_client x0 = x_client x → driven x0 (cancel_awaited f x).
Proof.
  intros Hg Hc. unfold cancel_awaited.
  destruct (a_futures _ !! f) as [[]|]; first
    [ by apply driven_on_client
    | apply driven_ret; [etrans; [exact Hg|by apply gives_up_same]|done] ].
Qed.

(** The turns of the others. *)
Lemma interrupt_driven x : driven x (interrupt x).
Proof.
  unfold interrupt. destruct (_ || _); [apply driven_none|].
  assert (Hi : gives_up x (set_interrupted x)) by by apply gives_up_same.
  cbn [x_main set_interrupted].
  destruct (x_main x); try apply driven_none; try by apply cancel_awaited_driven.
  - apply driven_ret; [by apply gives_up_same|done].
  - destruct (x_receiver (set_interrupted x)) eqn:E.
    4: { apply driven_ret; [by apply gives_up_same|done]. }
    all: intros x' e' H; destruct (cancel_receiver_driven _ _ _ H) as ([H1 H2 H3] & Hs & Hrun);
      split; [by split|done].
  - cbn [x_client set_interrupted]. destruct (a_closing (x_client x)); try apply driven_none;
      [by apply cancel_awaited_driven|by apply driven_on_client].
Qed.

Lemma shutdown_driven x : driven x (shutdown x).
Proof. unfold shutdown. destruct (main_ended _); [apply cancel_receiver_driven|apply driven_none]. Qed.

(** A call issued, or raised. *)
Lemma await_call_cases r next x x' e :
  await_call r next x = Some (x', e) →
  (∃ s, step HOST PORT (LCall r) (x_client x) = Some (s, e) ∧
     e = [EvIssued (MkCommand (CmdRequest r) (a_fresh (x_client x)))] ∧
     x' = set_main (next (a_fresh (x_client x))) (set_client s x)) ∨
  (left_block (x_main x') = true ∧ gives_up x x' ∧ silent e ∧
     ∃ ls, (LConnect ∉ ls) ∧ run_steps_of ls (x_client x) = Some (x_client x', e)).
Proof.
  unfold await_call, and_then, on_client. cbn [step].
  destruct (loop_free (x_client x)) eqn:Hf; [|done]. cbn [loop_step]. unfold call.
  destruct (ensure_running (x_client x)) as [err|] eqn:Her; cbn [app].
  - destruct (leave_block (Raised err) _) as [[x1 e1]|] eqn:E; [|done]. intros [= <- <-]. right.
    destruct (leave_block_driven _ _ _ _ E) as ([H1 H2 H3] & Hs & ls & Hnc & Hrun).
    split; [by eapply leave_block_left|]. split; [by split|]. split; [by destruct Hs|].
    exists (LCall r :: ls).
    split; [by rewrite not_elem_of_cons|]. cbn [AsyncClient.run_steps_of AsyncClient.step].
    rewrite Hf. cbn [loop_step]. unfold call. rewrite Her. cbn [x_client set_client] in Hrun.
    by rewrite Hrun.
  - intros [= <- <-]. left. eexists. split; [reflexivity|]. done.
Qed.

Lemma receiver_turn_cases x x' e :
  receiver_turn decode x = Some (x', e) →
  (∃ q m s, x_receiver x = ReceiverWaiting ∧ e = [EvReceived q m] ∧
     step HOST PORT (LRecvResume 0) (x_client x) = Some (s, e) ∧
     match Message_text decode m None None with
     | inl text => x' = set_receiver ReceiverReady (print text (set_client s x))
     | inr err => x' = set_receiver (ReceiverEnded (Raised err)) (set_client s x)
     end) ∨
  (gives_up x x' ∧ silent e ∧
     ∃ ls, (LConnect ∉ ls) ∧ run_steps_of ls (x_client x) = Some (x_client x', e)).
Proof.
  unfold receiver_turn. destruct (x_receiver x) eqn:E; try done.
  - intros H. right. eapply (driven_receiver LRecv x (λ evs, match evs with
      | [EvRaised e] => ReceiverEnded (Raised e) | _ => ReceiverWaiting end));
      [done|by rewrite E|by intros [|[] []]|].
    revert H. unfold and_then. destruct (on_client LRecv x) as [[x1 e1]|]; [|done].
    by destruct e1 as [|[] []].
  - unfold and_then, on_client. destruct (step _ _ _ _) as [[s e1]|] eqn:Hs; [|done].
    assert (He : (∃ q m, e1 = [EvReceived q m]) ∨ ∃ err, e1 = [EvRaised err]).
    { destruct (step_cases _ _ _ _ _ _ Hs) as [[? _]|[[? _]|Hl]]; try done.
      cbn [loop_step] in Hl. loop_cases Hl; eauto. }
    destruct He as [(q & m & ->)|(err & ->)].
    + intros H. left. exists q, m, s. split; [done|].
      by destruct (Message_text decode m None None); injection H as <- <-.
    + intros [= <- <-]. right. split; [split; cbn; auto|].
      { right. by rewrite E. }
      split; [done|]. exists [LRecvResume 0]. split; [by intros ?%list_elem_of_singleton|].
      cbn [AsyncClient.run_steps_of]. by rewrite Hs.
Qed.

(** The turns of [main]: it connects, issues a call, prints, or is driven. *)
Inductive main_move x : ExampleRun C → list event → Prop :=
  | move_connect :
      x_main x = MainCreated → loop_free (x_client x) = true →
      main_move x (set_main (MainConnecting (a_fresh (x_client x)))
        (set_client (connect (x_client x)) x)) []
  | move_subscribe f s :
      x_main x = MainConnecting f →
      let r := ReqSubscribe SUBSCRIBE_TOPIC in
      let e := [EvIssued (MkCommand (CmdRequest r) (a_fresh (x_client x)))] in
      step HOST PORT (LCall r) (x_client x) = Some (s, e) →
      main_move x (set_main (MainSubscribing (a_fresh (x_client x))) (set_client s x)) e
  | move_publish f v d s :
      x_main x = MainSubscribing f → a_futures (x_client x) !! f = Some (Result v) →
      encode PUBLISH_MESSAGE "utf-8" = inl d →
      let r := ReqPublish PUBLISH_TOPIC d in
      let e := [EvIssued (MkCommand (CmdRequest r) (a_fresh (x_client x)))] in
      step HOST PORT (LCall r) (x_client x) = Some (s, e) →
      main_move x (set_main (MainPublishing (a_fresh (x_client x)))
        (set_client s (set_receiver ReceiverReady x))) e
  | move_print f v :
      x_main x = MainPublishing f → a_futures (x_client x) !! f = Some (Result v) →
      main_move x (set_main MainAwaiting (print published_line (print subscribed_line x))) []
  | move_driven x1 x' e ls :
      x1 = x ∨ (∃ f, x_main x = MainSubscribing f ∧ x1 = set_receiver ReceiverReady x ∧
                  left_block (x_main x') = true) →
      gives_up x1 x' → silent e → (LConnect ∉ ls) →
      run_steps_of ls (x_client x) = Some (x_client x', e) → main_move x x' e.

Lemma driven_move x x1 r x' e :
  driven x1 r → x1 = x ∨ (∃ f, x_main x = MainSubscribing f ∧ x1 = set_receiver ReceiverReady x ∧
    left_block (x_main x') = true) →
  r = Some (x', e) → main_move x x' e.
Proof.
  intros Hd Hx Hr. destruct (Hd _ _ Hr) as (Hg & Hs & ls & Hnc & Hrun).
  eapply move_driven; [exact Hx|done..|]. by destruct Hx as [->|(f & _ & -> & _)].
Qed.

Lemma awaited_result f x : awaited f x = Some None → ∃ v, a_futures (x_client x) !! f = Some (Result v).
Proof.
  unfold awaited. destruct (x_must_cancel x); [done|].
  destruct (a_futures (x_client x) !! f) as [[]|]; try done. by eexists.
Qed.

Lemma main_turn_move x x' e : main_turn x = Some (x', e) → main_move x x' e.
Proof.
  unfold main_turn. destruct (x_main x) as [|f|f|f| |err|err|err|err] eqn:Em; try done.
  - destruct (x_must_cancel x).
    + apply (driven_move x x); [|by left]. apply driven_ret; [|done].
      split; cbn; auto. right; right. rewrite Em. eauto.
    + unfold and_then, on_client. cbn [step]. destruct (loop_free (x_client x)) eqn:Hf; [|done].
      cbn [loop_step]. intros [= <- <-]. by apply move_connect.
  - destruct (awaited f x) as [[err|]|] eqn:Ea; try done.
    + apply (driven_move x x); [|by left]. apply driven_ret; [|done].
      split; cbn; auto. right; right. rewrite Em. eauto.
    + intros [(s & Hs & -> & ->)|(Hl & Hg & Hsil & ls & Hnc & Hrun)]%await_call_cases.
      * by eapply move_subscribe.
      * eapply move_driven; eauto.
  - destruct (awaited f x) as [[err|]|] eqn:Ea; try done.
    + apply (driven_move x x); [apply leave_block_driven|by left].
    + apply awaited_result in Ea as [v Hv]. unfold await_publish. cbn [payload_data].
      destruct (encode PUBLISH_MESSAGE "utf-8") as [d|err] eqn:Ed.
      * intros [(s & Hs & -> & ->)|(Hl & Hg & Hsil & ls & Hnc & Hrun)]%await_call_cases.
        -- exact (move_publish x f v d s Em Hv Ed Hs).
        -- eapply move_driven; eauto 7.
      * intros H. eapply (driven_move x (set_receiver ReceiverReady x)); [apply leave_block_driven| |exact H]. right. exists f. split_and!; [done..|]. by eapply leave_block_left.
  - destruct (awaited f x) as [[err|]|] eqn:Ea; try done.
    + apply (driven_move x x); [apply leave_block_driven|by left].
    + intros [= <- <-]. apply awaited_result in Ea as [v Hv]. by eapply move_print.
  - destruct (x_must_cancel x).
    + apply (driven_move x x); [apply leave_block_driven|by left].
    + destruct (x_receiver x); try done. apply (driven_move x x); [apply leave_block_driven|by left].
  - apply (driven_move x x); [apply closing_turn_driven|by left].
Qed.

(** A message arrives. *)
Inductive receives x : ExampleRun C → list event → Prop :=
  | receives_text q m s text :
      x_receiver x = ReceiverWaiting →
      step HOST PORT (LRecvResume 0) (x_client x) = Some (s, [EvReceived q m]) →
      Message_text decode m None None = inl text →
      receives x (set_receiver ReceiverReady (print text (set_client s x))) [EvReceived q m]
  | receives_error q m s err :
      x_receiver x = ReceiverWaiting →
      step HOST PORT (LRecvResume 0) (x_client x) = Some (s, [EvReceived q m]) →
      Message_text decode m None None = inr err →
      receives x (set_receiver (ReceiverEnded (Raised err)) (set_client s x)) [EvReceived q m].

Lemma turn_cases l x x' e : turn l x = Some (x', e) → main_move x x' e ∨ receives x x' e.
Proof.
  assert (Hd : ∀ r, driven x r → r = Some (x', e) → main_move x x' e)
    by (intros r Hr; apply (driven_move x x r); [done|by left]).
  destruct l; cbn [PyExample.turn].
  - intros H. left. by apply main_turn_move.
  - intros [(q & m & s & Hr & -> & Hs & Hm)|(Hg & Hsil & ls & Hnc & Hrun)]%receiver_turn_cases.
    + right. destruct (Message_text decode m None None) eqn:Et; subst x';
        [by eapply receives_text|by eapply receives_error].
    + left. eapply move_driven; eauto.
  - intros H. left. by eapply Hd, H; apply interrupt_driven.
  - intros H. left. by eapply Hd, H; apply shutdown_driven.
  - intros H. left. by eapply Hd, H; apply driven_on_client; [|apply gives_up_same|].
  - intros H. left. by eapply Hd, H; apply driven_on_client; [|apply gives_up_same|].
  - intros H. left. by eapply Hd, H; apply driven_on_client; [|apply gives_up_same|].
Qed.

(** Every turn is a run of the client, without [connect] but for the first of
    [main]. *)
Lemma turn_runs l x x' e :
  turn l x = Some (x', e) →
  ∃ ls, run_steps_of ls (x_client x) = Some (x_client x', e) ∧
    (x_main x ≠ MainCreated → LConnect ∉ ls).
Proof.
  assert (H1 : ∀ l s e, step HOST PORT l (x_client x) = Some (s, e) → l ≠ LConnect →
    ∃ ls, run_steps_of ls (x_client x) = Some (s, e) ∧ (x_main x ≠ MainCreated → LConnect ∉ ls)).
  { intros l' s e' Hs Hl. exists [l']. cbn. rewrite Hs, app_nil_r. split; [done|].
    by intros _ ?%list_elem_of_singleton. }
  intros [[Hm Hf|? s _ r e0 Hs|? ? d s _ _ _ r e0 Hs|? v _ _|x1 x2 e1 ls _ _ _ Hnc Hrun]|
    [q m s text _ Hs _|q m s err _ Hs _]]%turn_cases; try by (eapply H1; [exact Hs|]).
  - exists [LConnect]. split; [|by intros []]. cbn. by rewrite Hf.
  - exists []. split; [done|]. intros _. apply not_elem_of_nil.
  - by exists ls.
Qed.

(** ** What a run has said and printed *)

Definition resolved (s : AsyncClient C) (f : nat) : Prop := ∃ v, a_futures s !! f = Some (Result v).

(** Both calls have been issued, the second once the first was answered. *)
Definition said x evs (d : list byte) (f0 f : nat) : Prop :=
  calls evs = [(ReqSubscribe SUBSCRIBE_TOPIC, f0); (ReqPublish PUBLISH_TOPIC d, f)] ∧
  encode PUBLISH_MESSAGE "utf-8" = inl d ∧ resolved (x_client x) f0.

Definition talked x evs : Prop :=
  calls evs = [] ∨ (∃ f, calls evs = [(ReqSubscribe SUBSCRIBE_TOPIC, f)]) ∨ ∃ d f0 f, said x evs d f0 f.

(** The calls, by where [main] is. *)
Definition talk_inv x evs : Prop :=
  match x_main x with
  | MainCreated | MainConnecting _ | MainNotEntered _ => calls evs = [] ∧ x_receiver x = NoReceiver
  | MainSubscribing f => calls evs = [(ReqSubscribe SUBSCRIBE_TOPIC, f)] ∧ x_receiver x = NoReceiver
  | MainPublishing f => ∃ d f0, said x evs d f0 f
  | MainAwaiting => ∃ d f0 f, said x evs d f0 f ∧ resolved (x_client x) f
  | MainClosing _ | MainClosed _ | MainNotClosed _ => talked x evs
  end.

(** The messages and their texts. *)
Abbreviation texts := (Forall2 (λ m text, Message_text decode m None None = inl text)).

(** [main] has printed its two lines, or has not. *)
Definition banner_inv x evs (banner : list string) (after : list FanoutMessage) : Prop :=
  banner = [] ∧ after = [] ∨
  banner = [subscribed_line; published_line] ∧
    (x_main x = MainAwaiting ∨ left_block (x_main x) = true) ∧
    ∃ d f0 f, said x evs d f0 f ∧ resolved (x_client x) f.

(** The message that ended the receiver because it is not text. *)
Definition last_inv x (last : list FanoutMessage) : Prop :=
  last = [] ∨ ∃ m err, last = [m] ∧ Message_text decode m None None = inr err ∧
    x_receiver x = ReceiverEnded (Raised err).

Definition out_inv x evs : Prop :=
  ∃ before after last lines1 lines2 banner,
    received evs = before ++ after ++ last ∧ texts before lines1 ∧ texts after lines2 ∧
    x_out x = lines1 ++ banner ++ lines2 ∧ banner_inv x evs banner after ∧ last_inv x last.

(** A state reached, with the events on the way. *)
Definition reached c x evs : Prop :=
  ∃ ls, run_steps_of ls (AsyncClient_init c) = Some (x_client x, evs).

Lemma reached_resolved c x evs s e ls f :
  reached c x evs → run_steps_of ls (x_client x) = Some (s, e) →
  resolved (x_client x) f → resolved s f.
Proof.
  intros [ls0 Hr%run_async_inv] Hrun [v Hv]. exists v. by eapply run_future.
Qed.

Lemma said_same x x' evs e d f0 f :
  said x evs d f0 f → calls e = [] → (resolved (x_client x) f0 → resolved (x_client x') f0) →
  said x' (evs ++ e) d f0 f.
Proof. intros (Hc & Hd & Hr) He Hk. split_and!; auto. by rewrite calls_app, Hc, He. Qed.

Lemma talked_same x x' evs e :
  talked x evs → calls e = [] → (∀ f, resolved (x_client x) f → resolved (x_client x') f) →
  talked x' (evs ++ e).
Proof.
  intros [Hc|[[f Hc]|(d & f0 & f & Hs)]] He Hk.
  - left. by rewrite calls_app, Hc, He.
  - right; left. exists f. by rewrite calls_app, Hc, He.
  - right; right. exists d, f0, f. apply (said_same x); auto.
Qed.

Lemma talk_talked x evs : talk_inv x evs → talked x evs.
Proof.
  unfold talk_inv, talked. destruct (x_main x); try done; try (intros [? _]; by left).
  - intros [? _]. right; left. eauto.
  - intros (d & f0 & ?). right; right. eauto.
  - intros (d & f0 & f & ? & _). right; right. eauto.
Qed.

Lemma banner_same x x' evs e banner after :
  banner_inv x evs banner after →
  (x_main x = MainAwaiting ∨ left_block (x_main x) = true → calls e = []) →
  (∀ f, resolved (x_client x) f → resolved (x_client x') f) →
  (x_main x = MainAwaiting ∨ left_block (x_main x) = true →
   x_main x' = MainAwaiting ∨ left_block (x_main x') = true) →
  banner_inv x' (evs ++ e) banner after.
Proof.
  intros [[-> ->]|(-> & Hm & d & f0 & f & Hs & Hr)] He Hk Hmain; [by left|right].
  split; [done|]. split; [by apply Hmain|]. exists d, f0, f. split; [|by apply Hk].
  apply (said_same x); auto.
Qed.

(** Before the lines are printed. *)
Lemma banner_none x evs banner after :
  banner_inv x evs banner after → x_main x ≠ MainAwaiting → left_block (x_main x) = false →
  banner = [] ∧ after = [].
Proof. intros [?|(_ & [?|?] & _)]; [done|congruence..]. Qed.

Lemma gives_up_talk x0 x x' evs e :
  talk_inv x0 evs → gives_up x x' → silent e →
  x = x0 ∨ (∃ f, x_main x0 = MainSubscribing f ∧ x = set_receiver ReceiverReady x0 ∧
              left_block (x_main x') = true) →
  (∀ f, resolved (x_client x0) f → resolved (x_client x') f) → talk_inv x' (evs ++ e).
Proof.
  intros Htalk [_ Hm Hr] [He _] Hx Hk.
  assert (Hlate : left_block (x_main x') = true → talk_inv x' (evs ++ e)).
  { intros Hl. pose proof (talked_same x0 x' evs e (talk_talked _ _ Htalk) He Hk) as Ht.
    unfold talk_inv. by destruct (x_main x'). }
  destruct Hx as [->|(f & _ & _ & Hl)]; [|by apply Hlate].
  assert (Hno : x_receiver x0 = NoReceiver → x_receiver x' = NoReceiver).
  { intros Hn. destruct Hr as [->|[Hr _]]; [done|]. by rewrite Hn in Hr. }
  destruct Hm as [Hm|[Hl|(Hb & err & Hm)]]; [|by apply Hlate|].
  - unfold talk_inv in *. rewrite Hm. destruct (x_main x0);
      try (destruct Htalk as [Hc Hn]; split; [by rewrite calls_app, Hc, He|by apply Hno]);
      try by apply (talked_same x0).
    + destruct Htalk as (d & f0 & Hs). exists d, f0. by apply (said_same x0); auto.
    + destruct Htalk as (d & f0 & f & Hs & Hf). exists d, f0, f.
      split; [by apply (said_same x0); auto|by apply Hk].
  - unfold talk_inv in *. rewrite Hm. destruct (x_main x0); try done;
      (destruct Htalk as [Hc Hn]; split; [by rewrite calls_app, Hc, He|by apply Hno]).
Qed.

(** The receiver's part of a turn. *)
Lemma received_talk x x' evs e :
  talk_inv x evs → x_main x' = x_main x → x_receiver x = ReceiverWaiting → calls e = [] →
  (∀ f, resolved (x_client x) f → resolved (x_client x') f) → talk_inv x' (evs ++ e).
Proof.
  intros Htalk Hm Hr He Hk. unfold talk_inv in *. rewrite Hm.
  destruct (x_main x); try (destruct Htalk as [_ Hn]; congruence); try by apply (talked_same x).
  - destruct Htalk as (d & f0 & Hs). exists d, f0. by apply (said_same x); auto.
  - destruct Htalk as (d & f0 & f & Hs & Hf). exists d, f0, f.
    split; [by apply (said_same x); auto|by apply Hk].
Qed.

Lemma turn_talk c l x x' evs e :
  reached c x evs → talk_inv x evs → turn l x = Some (x', e) → talk_inv x' (evs ++ e).
Proof.
  intros Hreach Htalk Hturn.
  destruct (turn_runs _ _ _ _ Hturn) as (ls & Hrun & _).
  generalize (λ f, reached_resolved c x evs _ _ _ f Hreach Hrun).
  destruct (turn_cases _ _ _ _ Hturn) as [[Hm Hf|f s Hm r e0 Hs|f v d s Hm Hv Hd r e0 Hs|f v Hm Hv|
    x1 x2 e1 ls' Hx Hg Hsil _ _]|[q m s text Hr Hs Ht|q m s err Hr Hs Ht]]; intros Hk;
    [| | | |exact (gives_up_talk _ _ _ _ _ Htalk Hg Hsil Hx Hk)|..]; unfold talk_inv in Htalk.
  - rewrite Hm in Htalk. rewrite app_nil_r. exact Htalk.
  - rewrite Hm in Htalk. destruct Htalk as [Hc Hn]. split; [|done]. by rewrite calls_app, Hc.
  - rewrite Hm in Htalk. destruct Htalk as [Hc Hn]. exists d, f. split_and!; [|done|].
    + by rewrite calls_app, Hc.
    + apply Hk. by exists v.
  - rewrite Hm in Htalk. destruct Htalk as (d & f0 & Hs). exists d, f0, f.
    split; [by apply (said_same x)|by exists v].
  - by apply (received_talk x).
  - by apply (received_talk x).
Qed.

(** A turn that receives and prints nothing. *)
Lemma out_same x x' evs e :
  out_inv x evs → x_out x' = x_out x → received e = [] →
  (x_main x = MainAwaiting ∨ left_block (x_main x) = true → calls e = []) →
  (∀ err, x_receiver x = ReceiverEnded err → x_receiver x' = ReceiverEnded err) →
  (∀ f, resolved (x_client x) f → resolved (x_client x') f) →
  (x_main x = MainAwaiting ∨ left_block (x_main x) = true →
   x_main x' = MainAwaiting ∨ left_block (x_main x') = true) →
  out_inv x' (evs ++ e).
Proof.
  intros (before & after & last & l1 & l2 & banner & Hrec & H1 & H2 & Hout & Hb & Hl) Eo Er Ec Hr Hk Hm.
  exists before, after, last, l1, l2, banner. rewrite received_app, Er, app_nil_r, Eo.
  split_and!; try done; [by eapply banner_same|].
  destruct Hl as [->|(m & err & -> & Ht & He)]; [by left|right]. exists m, err. auto.
Qed.

(** While the receiver has not ended, every message received is printed. *)
Lemma out_running x evs :
  out_inv x evs → x_receiver x = ReceiverWaiting →
  ∃ before after l1 l2 banner, received evs = before ++ after ∧ texts before l1 ∧ texts after l2 ∧
    x_out x = l1 ++ banner ++ l2 ∧ banner_inv x evs banner after.
Proof.
  intros (before & after & last & l1 & l2 & banner & Hrec & H1 & H2 & Hout & Hb & Hl) Hr.
  destruct Hl as [->|(m & err & _ & _ & He)]; [|congruence].
  exists before, after, l1, l2, banner. rewrite app_nil_r in Hrec. by split_and!.
Qed.

Lemma received_out x x' evs e :
  out_inv x evs → receives x x' e → talk_inv x evs →
  (∀ f, resolved (x_client x) f → resolved (x_client x') f) → out_inv x' (evs ++ e).
Proof.
  intros Hout Hrec Htalk Hk.
  assert (Hr : x_receiver x = ReceiverWaiting) by by destruct Hrec.
  destruct (out_running x evs Hout Hr) as (before & after & l1 & l2 & banner & He & H1 & H2 & Ho & Hb).
  assert (Hb' : ∀ after', (banner = [] → after' = []) → banner_inv x' (evs ++ e) banner after').
  { intros after' Ha. assert (banner_inv x' (evs ++ e) banner after) as [[-> _]|?];
      [|left; auto|by right].
    eapply banner_same; [exact Hb|by destruct Hrec|exact Hk|by destruct Hrec]. }
  destruct Hrec as [q m s text _ Hs Ht|q m s err _ Hs Ht].
  - destruct (decide (banner = [])) as [->|Hne].
    + assert (after = []) as -> by by destruct Hb as [[_ ?]|[? _]].
      apply Forall2_nil_inv_l in H2 as ->. exists (before ++ [m]), [], [], (l1 ++ [text]), [], [].
      rewrite received_app, He. cbn [received omap list_omap x_out set_receiver print set_client].
      rewrite Ho, !app_nil_r. split_and!; [done| |done|done|by apply Hb'|by left].
      apply Forall2_app; [done|by repeat constructor].
    + exists before, (after ++ [m]), [], l1, (l2 ++ [text]), banner.
      rewrite received_app, He. cbn [received omap list_omap x_out set_receiver print set_client].
      rewrite Ho, app_nil_r, <-!app_assoc. split_and!; [done|done| |done|by apply Hb'|by left].
      apply Forall2_app; [done|by repeat constructor].
  - exists before, after, [m], l1, l2, banner.
    rewrite received_app, He. cbn [received omap list_omap x_out set_receiver set_client].
    rewrite <-app_assoc. split_and!; [done..| |right; by exists m, err].
    apply Hb'. intros ->. by destruct Hb as [[_ ?]|[? _]].
Qed.

Lemma turn_out c l x x' evs e :
  reached c x evs → talk_inv x evs → out_inv x evs → turn l x = Some (x', e) → out_inv x' (evs ++ e).
Proof.
  intros Hreach Htalk Hout Hturn.
  destruct (turn_runs _ _ _ _ Hturn) as (ls & Hrun & _).
  generalize (λ f, reached_resolved c x evs _ _ _ f Hreach Hrun).
  destruct (turn_cases _ _ _ _ Hturn) as [[Hm Hf|f s Hm r e0 Hs|f v d s Hm Hv Hd r e0 Hs|f v Hm Hv|
    x1 x2 e1 ls' Hx [Ho Hg Hr] Hsil _ _]|Hrec]; intros Hk; [..|by apply (received_out x)].
  - apply (out_same x); try done; rewrite Hm; by intros [?|?].
  - apply (out_same x); try done; rewrite Hm; by intros [?|?].
  - unfold talk_inv in Htalk. rewrite Hm in Htalk. destruct Htalk as [_ Hn].
    apply (out_same x); try done; try (rewrite Hm; by intros [?|?]). intros err Hr. congruence.
  - destruct Hout as (before & after & last & l1 & l2 & banner & Hrec & H1 & H2 & Ho & Hb & Hl).
    destruct (banner_none _ _ _ _ Hb) as [-> ->]; [by rewrite Hm..|].
    apply Forall2_nil_inv_l in H2 as ->. unfold talk_inv in Htalk. rewrite Hm in Htalk.
    destruct Htalk as (d & f0 & Hs).
    exists before, [], last, l1, [], [subscribed_line; published_line]. rewrite app_nil_r.
    split_and!; [done|done|done| | |done].
    + cbn [x_out set_main print]. rewrite Ho, !app_nil_r. by rewrite <-app_assoc.
    + right. split; [done|]. split; [by left|]. exists d, f0, f. split; [done|by exists v].
  - assert (Hout' : x_out x1 = x_out x) by by destruct Hx as [->|(f & _ & -> & _)].
    assert (Hmain : x_main x1 = x_main x) by by destruct Hx as [->|(f & _ & -> & _)].
    apply (out_same x); [done|by rewrite Ho|apply Hsil|intros _; apply Hsil| |done|].
    + intros err He. unfold talk_inv in Htalk. destruct Hx as [->|(f & Hm & _ & _)].
      * destruct Hr as [->|[Hr _]]; [done|]. by rewrite He in Hr.
      * rewrite Hm in Htalk. destruct Htalk as [_ Hn]. congruence.
    + rewrite Hmain in Hg. destruct Hg as [->|[?|(Hb & _)]]; [done|by right|].
      intros [Hm|Hm]; rewrite Hm in Hb || destruct (x_main x); done.
Qed.

(** ** The connection and its end *)

Definition conn_inv c x evs : Prop :=
  (x_main x = MainCreated → x_client x = AsyncClient_init c ∧ evs = []) ∧
  one_queue (x_client x) ∧ received evs = received_from (a_generation (x_client x)) evs.

(** Only [main] moves [main]. *)
Lemma other_turn_main l x x' e : l ≠ TMain → turn l x = Some (x', e) → x_main x' = x_main x.
Proof.
  destruct l; intros Hl; [done|..]; cbn [PyExample.turn];
    unfold receiver_turn, interrupt, shutdown, cancel_awaited, cancel_receiver, and_then, on_client;
    cbn [x_client set_interrupted]; intros H; repeat (case_match || simplify_eq); cbn in *; congruence.
Qed.

(** Before [main] runs nothing but an interrupt can happen. *)
Lemma created_turn c l x x' e :
  x_main x = MainCreated → x_client x = AsyncClient_init c → x_receiver x = NoReceiver →
  turn l x = Some (x', e) →
  e = [] ∧ (x_client x' = x_client x ∨ x_main x' ≠ MainCreated ∧ x_client x' = connect (x_client x)).
Proof.
  intros Hm Hc Hr. destruct l; cbn [PyExample.turn].
  - unfold PyExample.main_turn. rewrite Hm. destruct (x_must_cancel x); [intros [= <- <-]; auto|].
    unfold and_then, on_client. rewrite Hc. cbn. intros [= <- <-]. auto.
  - unfold receiver_turn. by rewrite Hr.
  - unfold interrupt. destruct (_ || _); [done|]. cbn [x_main set_interrupted]. rewrite Hm.
    intros [= <- <-]. auto.
  - unfold shutdown. by rewrite Hm.
  - unfold on_client. by rewrite Hc.
  - unfold on_client. by rewrite Hc.
  - unfold on_client. rewrite Hc. cbn [step loop_step]. unfold release. cbn [a_kept AsyncClient_init].
    by destruct (decide (_ ∈ ∅)) as [?%not_elem_of_empty|].
Qed.

Lemma main_move_created x x' e : main_move x x' e → x_main x' = MainCreated → x_main x = MainCreated.
Proof.
  intros [?|?|?|?|x1 x2 e1 ls Hx [_ Hg _] _ _ _]; try done. intros Hm. rewrite Hm in Hg.
  destruct Hg as [Hg|[?|(_ & ? & ?)]]; [|done..].
  destruct Hx as [->|(f & _ & -> & _)]; by rewrite Hg.
Qed.

Lemma turn_conn c l x x' evs e :
  talk_inv x evs → conn_inv c x evs → turn l x = Some (x', e) → conn_inv c x' (evs ++ e).
Proof.
  intros Htalk (Hcr & Hq & Hrec) Hturn.
  assert (Hdec : x_main x = MainCreated ∨ x_main x ≠ MainCreated)
    by (destruct (x_main x); first [by left|by right]).
  destruct Hdec as [Hm|Hm].
  - destruct (Hcr Hm) as [Hc ->]. unfold talk_inv in Htalk. rewrite Hm in Htalk.
    destruct Htalk as [_ Hr].
    destruct (created_turn c _ _ _ _ Hm Hc Hr Hturn) as [-> [Hc'|[Hm' Hc']]].
    + split; [intros _; split; [by rewrite Hc'|done]|]. rewrite Hc', Hc. split; [by constructor|done].
    + split; [done|]. rewrite Hc', Hc. split; [by constructor|done].
  - destruct (turn_runs _ _ _ _ Hturn) as (ls & Hrun & Hnc).
    destruct (run_one_queue _ _ _ _ _ _ (Hnc Hm) Hq Hrun) as (Hg & Hq' & Hr').
    split; [|split; [done|by rewrite received_app, received_from_app, Hrec, Hr', Hg]].
    intros Hm'. destruct (decide (l = TMain)) as [->|Hl];
      [|by rewrite (other_turn_main _ _ _ _ Hl Hturn) in Hm'].
    by apply main_turn_move, main_move_created in Hturn.
Qed.

(** The client is closed. *)
Definition gone (s : AsyncClient C) : Prop := a_thread s = false ∧ a_closed s = true.

Lemma step_gone l s s' e : gone s → l ≠ LConnect → step HOST PORT l s = Some (s', e) → gone s'.
Proof.
  intros [Ht Hc] Hne [[-> Hw]|[(-> & _ & -> & ->)|Hs]]%step_cases; [|done|].
  - by worker_cases Hw.
  - destruct l; cbn [loop_step] in Hs; try done.
    9: { destruct (a_callbacks s) as [|cb rest]; [discriminate|]. injection Hs as <- <-.
         destruct cb; cbn; [|done..]. by destruct (a_futures s !! f) as [[]|]. }
    all: loop_cases Hs; done.
Qed.

Lemma leave_block_closed err x x' e err' :
  leave_block err x = Some (x', e) → x_main x' = MainClosed err' → gone (x_client x').
Proof.
  unfold leave_block, and_then, on_client. cbn [step].
  destruct (loop_free _) eqn:Hf; [|done]. cbn [loop_step x_client set_must_cancel].
  destruct (a_closing (x_client x)) eqn:Ec; try done. intros [= <- _].
  cbn [x_main x_client set_main set_client]. unfold close. destruct (a_thread (x_client x)) eqn:Et; cbn.
  - destruct (a_worker (x_client x)); done.
  - done.
Qed.

Lemma closing_turn_closed err x x' e err' :
  closing_turn err x = Some (x', e) → x_main x = MainClosing err → x_main x' = MainClosed err' →
  gone (x_client x').
Proof.
  unfold closing_turn. intros H Hm. destruct (a_closing (x_client x)) as [| |f|] eqn:Ec.
  - by injection H as <- _.
  - unfold on_client in H. cbn [step] in H. rewrite Ec in H. injection H as <- _. cbn. by rewrite Hm.
  - destruct (x_must_cancel x).
    + unfold cut_close, and_then, on_client in H.
      repeat (case_match || simplify_eq); intros Hm'; by cbn in Hm'.
    + unfold and_then, on_client in H.
      repeat (case_match || simplify_eq); cbn; by rewrite ?Hm.
  - unfold and_then, on_client in H. cbn [step] in H. unfold loop_free in H. rewrite Ec in H.
    cbn [loop_step] in H. unfold close_resume in H. rewrite Ec in H.
    destruct (a_worker (x_client x)); try done. by injection H as <- _.
Qed.

Lemma main_turn_closed x x' e err :
  main_turn x = Some (x', e) → x_main x' = MainClosed err → gone (x_client x').
Proof.
  assert (Hleave : ∀ err0 x0, leave_block err0 x0 = Some (x', e) → x_main x' = MainClosed err →
    gone (x_client x')) by (intros; by eapply leave_block_closed).
  assert (Hcall : ∀ r next x0, await_call r next x0 = Some (x', e) → (∀ f, next f ≠ MainClosed err) →
    x_main x' = MainClosed err → gone (x_client x')).
  { intros r next x0. unfold await_call, and_then at 1. destruct (on_client _ x0) as [[x1 e1]|]; [|done].
    destruct e1 as [|[c|? ?|? ?|? ?|err1] []]; try done.
    - intros [= <- _] Hn Hm. by apply Hn in Hm.
    - destruct (leave_block _ x1) as [[x2 e2]|] eqn:E; [|done]. intros [= <- _] _.
      by eapply leave_block_closed. }
  unfold PyExample.main_turn. destruct (x_main x) as [|f|f|f| |err0|err0|err0|err0] eqn:Em; try done.
  - destruct (x_must_cancel x); [by intros [= <- _]|]. unfold and_then.
    destruct (on_client _ x) as [[]|]; [|done]. by intros [= <- _].
  - destruct (awaited f x) as [[]|]; [by intros [= <- _]|by eauto|done].
  - destruct (awaited f x) as [[]|]; [by eauto| |done]. unfold await_publish.
    destruct (payload_data _ _ _); by eauto.
  - destruct (awaited f x) as [[]|]; [by eauto|by intros [= <- _]|done].
  - destruct (x_must_cancel x); [by eauto|]. destruct (x_receiver x); by eauto.
  - intros H. eapply closing_turn_closed; [exact H|exact Em].
Qed.

Definition closed_inv x : Prop := ∀ err, x_main x = MainClosed err → gone (x_client x).

Lemma turn_closed l x x' e : closed_inv x → turn l x = Some (x', e) → closed_inv x'.
Proof.
  intros Hinv Hturn err Hm. destruct (decide (l = TMain)) as [->|Hl]; [by eapply main_turn_closed|].
  rewrite (other_turn_main _ _ _ _ Hl Hturn) in Hm.
  destruct (turn_runs _ _ _ _ Hturn) as (ls & Hrun & Hnc).
  eapply (run_until_connect HOST PORT gone); [|by eapply Hinv|by apply Hnc; rewrite Hm|exact Hrun].
  intros l1 s1 s2 e1 H1 Hne. by apply step_gone.
Qed.

(** A client that tracebacks keep is that of the connection, and has raised. *)
Definition kept_inv (s : AsyncClient C) : Prop :=
  ∀ q, q ∈ a_kept s → q = a_generation s ∧ a_raised s = true.

Lemma step_kept l s s' e : kept_inv s → l ≠ LConnect → step HOST PORT l s = Some (s', e) → kept_inv s'.
Proof.
  intros Hk Hne [[-> Hw]|[(-> & _ & -> & ->)|Hs]]%step_cases; [|done|].
  - worker_cases Hw; try done; intros q; cbn; try (intros [? _]%Hk; done).
    rewrite elem_of_union, elem_of_singleton. by intros [->|?%Hk].
  - destruct l; cbn [loop_step] in Hs; try done.
    9: { destruct (a_callbacks s) as [|cb rest]; [discriminate|]. injection Hs as <- <-.
         destruct cb; cbn; [|done..]. by destruct (a_futures s !! f) as [[]|]. }
    all: loop_cases Hs; try done. intros i. cbn. rewrite elem_of_difference. by intros [?%Hk _].
Qed.

Lemma kept_cases s :
  kept_inv s → a_kept s = ∅ ∨ a_raised s = true ∧ a_kept s = {[a_generation s]}.
Proof.
  intros Hk. destruct (decide (a_kept s = ∅)) as [|Hne]; [by left|right].
  apply set_choose_L in Hne as [q Hq]. destruct (Hk q Hq) as [-> Hr]. split; [done|].
  apply set_eq. intros i. rewrite elem_of_singleton. split; [by intros [-> _]%Hk|by intros ->].
Qed.

(** It is destroyed when it is let go. *)
Lemma release_kept `{!NativeLaws C} x err q :
  x_main x = MainClosed err → a_kept (x_client x) = {[q]} → native_ok {[q]} (a_native (x_client x)) →
  ∃ x', turn (TRelease q) x = Some (x', []) ∧ x_main x' = MainClosed err ∧
    native_ok ∅ (a_native (x_client x')).
Proof.
  intros Hm Hk Hok. cbn [PyExample.turn]. unfold on_client. cbn [step loop_step]. unfold release.
  rewrite Hk, decide_True by set_solver.
  pose proof (native_drop_ok q _ _ Hok ltac:(set_solver)) as H.
  destruct (native_drop _ _) as [[] n]; try done. eexists. split; [done|]. split; [done|].
  by rewrite difference_diag_L in H.
Qed.

Lemma turn_kept c l x x' evs e :
  talk_inv x evs → conn_inv c x evs → kept_inv (x_client x) → turn l x = Some (x', e) →
  kept_inv (x_client x').
Proof.
  intros Htalk (Hcr & _) Hk Hturn.
  assert (Hdec : x_main x = MainCreated ∨ x_main x ≠ MainCreated)
    by (destruct (x_main x); first [by left|by right]).
  destruct Hdec as [Hm|Hm].
  - destruct (Hcr Hm) as [Hc ->]. unfold talk_inv in Htalk. rewrite Hm in Htalk.
    destruct (created_turn c _ _ _ _ Hm Hc (proj2 Htalk) Hturn) as [_ [->|[_ ->]]]; [done|].
    rewrite Hc. by intros q ?%not_elem_of_empty.
  - destruct (turn_runs _ _ _ _ Hturn) as (ls & Hrun & Hnc).
    eapply (run_until_connect HOST PORT kept_inv); [|exact Hk|by apply Hnc|exact Hrun].
    intros l1 s1 s2 e1 H1 Hne. by apply step_kept.
Qed.

(** ** All together *)

Record example_inv c x evs : Prop := {
  ei_reached : reached c x evs;
  ei_talk : talk_inv x evs;
  ei_out : out_inv x evs;
  ei_conn : conn_inv c x evs;
  ei_closed : closed_inv x;
  ei_kept : kept_inv (x_client x);
}.

Lemma start_inv c : example_inv c (start c) [].
Proof.
  split.
  - by exists [].
  - by split.
  - exists [], [], [], [], [], []. split_and!; try done; [by constructor..| |]; by left.
  - split; [by intros _|]. split; [by constructor|done].
  - by intros err.
  - by intros q ?%not_elem_of_empty.
Qed.

Lemma turn_inv c l x x' evs e :
  example_inv c x evs → turn l x = Some (x', e) → example_inv c x' (evs ++ e).
Proof.
  intros [Hreach Htalk Hout Hconn Hcl Hk] Hturn. split.
  - destruct Hreach as [ls0 Hrun0]. destruct (turn_runs _ _ _ _ Hturn) as (ls & Hrun & _).
    exists (ls0 ++ ls). by eapply run_steps_app.
  - by eapply turn_talk.
  - by eapply turn_out.
  - by eapply turn_conn.
  - by eapply turn_closed.
  - by eapply turn_kept.
Qed.

Lemma turns_inv ls c x x' evs e :
  example_inv c x evs → turns encode decode ls x = Some (x', e) → example_inv c x' (evs ++ e).
Proof.
  revert x evs e. induction ls as [|l ls IH]; intros x evs e Hinv; cbn.
  - intros [= <- <-]. by rewrite app_nil_r.
  - unfold and_then. destruct (turn l x) as [[x1 e1]|] eqn:E1; [|done].
    destruct (turns encode decode ls x1) as [[x2 e2]|] eqn:E2; [|done]. intros [= <- <-].
    rewrite app_assoc. eapply IH; [|exact E2]. by eapply turn_inv.
Qed.

Lemma run_inv ls c x evs :
  turns encode decode ls (start c) = Some (x, evs) → example_inv c x evs.
Proof. apply (turns_inv ls c (start c) x []), start_inv. Qed.
End projection.

(** ** Commands, calls and their answers *)

Lemma issued_futures evs : issued evs = cmd_future <$> issued_commands evs.
Proof.
  induction evs as [|e evs IH]; [done|]. unfold issued, issued_commands in *.
  cbn [omap list_omap]. destruct e; cbn; [by f_equal|done..].
Qed.

Lemma dones_futures evs : dones evs = (λ x, (cmd_future x.1, x.2)) <$> outcomes evs.
Proof.
  induction evs as [|e evs IH]; [done|]. unfold dones, outcomes in *.
  cbn [omap list_omap]. destruct e; cbn; [done|by f_equal|done..].
Qed.

(** The requests answered are the first that were called. *)
Lemma answered_first evs rest :
  issued_commands evs = (outcomes evs).*1 ++ rest →
  ∃ more, (calls evs).*1 = (answered_requests evs).*1 ++ more.
Proof.
  intros Hi. unfold calls. rewrite Hi, omap_app, fmap_app. eexists. f_equal.
  unfold answered_requests. clear Hi. induction (outcomes evs) as [|[[[|r] f] y] l IH]; [done|exact IH|].
  cbn. by f_equal.
Qed.

(** A call whose future has a result has been answered with it. *)
Lemma resolved_answered {C} (s : AsyncClient C) evs rest r f v :
  commands_inv s evs → issued_commands evs = (outcomes evs).*1 ++ rest →
  (r, f) ∈ calls evs → a_futures s !! f = Some (Result v) → (r, inl v) ∈ answered_requests evs.
Proof.
  intros Hinv Hi Hin Hf. apply list_elem_of_omap in Hin as ([name g] & Hc & Hn). cbn in Hn.
  destruct name as [|r']; [done|]. injection Hn as -> ->.
  assert (Hd : (f, inl v) ∈ dones evs).
  { apply (ci_settled _ _ Hinv); [exact Hf|]. rewrite issued_futures.
    apply list_elem_of_fmap. by exists (MkCommand (CmdRequest r) f). }
  rewrite dones_futures in Hd. apply list_elem_of_fmap in Hd as ([c y] & [= -> <-] & Ho).
  assert (c = MkCommand (CmdRequest r) (cmd_future c)) as Hc'.
  { pose proof (ci_nodup _ _ Hinv) as Hnd. rewrite issued_futures in Hnd.
    assert (Hc1 : c ∈ issued_commands evs).
    { rewrite Hi. apply elem_of_app. left. apply list_elem_of_fmap. by exists (c, inl v). }
    apply list_elem_of_lookup in Hc as [i Hc], Hc1 as [j Hc1].
    assert (i = j) as ->.
    { eapply (NoDup_lookup _ i j (cmd_future c) Hnd); rewrite list_lookup_fmap; [by rewrite Hc|by rewrite Hc1]. }
    congruence. }
  apply list_elem_of_omap. exists (c, inl v). split; [done|]. by rewrite Hc'.
Qed.

(** The two calls, by how far they were answered. *)
Lemma talked_answers {C} `{!NativeClient C} encode (x : ExampleRun C) evs rest :
  commands_inv (x_client x) evs → talked encode x evs →
  issued_commands evs = (outcomes evs).*1 ++ rest →
  let l := answered_requests evs in
  answered_publications l = [] ∨
  ∃ d, encode PUBLISH_MESSAGE "utf-8" = inl d ∧ answered_publications l = [d] ∧
    ∃ v, (ReqSubscribe SUBSCRIBE_TOPIC, inl v) ∈ l.
Proof.
  intros Hinv Htalk Hi l. destruct (answered_first evs rest Hi) as [more Hmore]. fold l in Hmore.
  assert (Hone : ∀ f, (calls evs).*1 = [f] → (∀ t d, f ≠ ReqPublish t d) → answered_publications l = []).
  { intros f Hf Hne. rewrite Hf in Hmore. destruct l as [|[r y] [|]]; [done| |by destruct more].
    injection Hmore as <- _. destruct f as [t d| |]; [by destruct (Hne t d)|done|done]. }
  destruct Htalk as [Hc|[[f Hc]|(d & f0 & f & Hc & Hd & v & Hv)]].
  - left. rewrite Hc in Hmore. by destruct l.
  - left. eapply Hone; [by rewrite Hc|done].
  - assert (Hs : (ReqSubscribe SUBSCRIBE_TOPIC, inl v) ∈ l).
    { eapply resolved_answered; [done|done| |exact Hv]. rewrite Hc. by left. }
    rewrite Hc in Hmore. destruct l as [|[r y] [|[r' y'] [|]]]; cbn in Hmore; [by left| | |done].
    + injection Hmore as <- _. by left.
    + injection Hmore as <- <- _. destruct y' as [v'|e]; [right|by left].
      exists d. split_and!; [done|done|by exists v].
Qed.

Lemma awaiting_publication {C} (s : AsyncClient C) evs rest d f0 f v :
  commands_inv s evs → issued_commands evs = (outcomes evs).*1 ++ rest →
  calls evs = [(ReqSubscribe SUBSCRIBE_TOPIC, f0); (ReqPublish PUBLISH_TOPIC d, f)] →
  a_futures s !! f = Some (Result v) → d ∈ answered_publications (answered_requests evs).
Proof.
  intros Hinv Hi Hc Hv. apply list_elem_of_omap. exists (ReqPublish PUBLISH_TOPIC d, inl v).
  split; [|done]. eapply resolved_answered; [done|done| |exact Hv]. rewrite Hc. right. by left.
Qed.

(** ** When [close] is not answered *)

Section hang.
Context {C : Type} `{!NativeClient C}.
Context (encode : string → string → list byte + exn).
Context (decode : list byte → string → string → string + exn).
Implicit Types (x : ExampleRun C).

(** [main] awaits, in [close], an answer that will not come. *)
Record stuck (err : failure) (f : nat) x : Prop := {
  st_main : x_main x = MainClosing err;
  st_cancel : x_must_cancel x = false;
  st_closing : a_closing (x_client x) = Awaiting f;
  st_lost : lost f (x_client x);
  st_pending : a_futures (x_client x) !! f = Some Pending;
}.

(** The steps of the other tasks, of callbacks and of the worker. *)
Definition other_label (l : label) : bool :=
  match l with
  | LRecv | LRecvResume _ | LCancelRecv _ | LCallback | LWorker | LRelease _ => true
  | _ => false
  end.

Lemma stuck_step l err f x x' s e :
  other_label l = true → stuck err f x → step HOST PORT l (x_client x) = Some (s, e) →
  x_main x' = x_main x → x_must_cancel x' = x_must_cancel x → x_client x' = s → stuck err f x'.
Proof.
  intros Hl [Hm Hc Ha Hlost Hp] Hs Em Ec Es.
  assert (Hk : a_closing s = Awaiting f ∧ a_futures s !! f ≠ Some Cancelled).
  { clear Em Ec Es. destruct (step_cases _ _ _ _ _ _ Hs) as [[-> Hw]|[(-> & _)|Hs']]; [|done|].
    - worker_cases Hw; cbn in *; split; congruence.
    - destruct l; cbn [loop_step] in Hs'; try done.
      4: { destruct (a_callbacks (x_client x)) as [|cb rest]; [discriminate|]. injection Hs' as <- _.
           destruct cb as [g r|q err'|q m]; cbn; try (split; congruence).
           destruct (a_futures (x_client x) !! g) as [[]|] eqn:Eg; cbn; try (split; congruence).
           split; [done|]. destruct (decide (g = f)) as [->|];
             [rewrite lookup_insert_eq; by destruct r|rewrite lookup_insert_ne by done; congruence]. }
      all: loop_cases Hs'; cbn in *; split; congruence. }
  destruct Hk as [Ha' Hne]. split; rewrite ?Es; [congruence|congruence|done| |].
  - eapply step_lost; [exact Hlost| |exact Hs]. by intros ->.
  - destruct (lost_future f _ (step_lost HOST PORT f l _ _ _ Hlost ltac:(by intros ->) Hs)) as [?|?]; done.
Qed.

Lemma stuck_on_client l err f x x' e :
  other_label l = true → stuck err f x → on_client l x = Some (x', e) → stuck err f x'.
Proof.
  intros Hl Hst. unfold on_client. destruct (step HOST PORT l _) as [[s e1]|] eqn:Hs; [|done].
  intros [= <- _]. by eapply (stuck_step l).
Qed.

Lemma stuck_turn l err f x x' e :
  stuck err f x → l ≠ TInterrupt → turn encode decode l x = Some (x', e) → stuck err f x'.
Proof.
  intros Hst Hl. pose proof Hst as [Hm Hc Ha _ Hp]. destruct l; cbn [turn]; [| |done|..].
  - unfold main_turn, closing_turn. rewrite Hm, Ha, Hc. unfold and_then, on_client. cbn [step].
    unfold loop_free. rewrite Ha. cbn [loop_step]. unfold close_resume. by rewrite Ha, Hp.
  - unfold receiver_turn. destruct (x_receiver x); try done; unfold and_then, on_client.
    + destruct (step HOST PORT LRecv _) as [[s e1]|] eqn:Hs; [|done].
      intros H. eapply (stuck_step LRecv); [done|exact Hst|exact Hs|..];
        repeat (case_match || simplify_eq); done.
    + destruct (step HOST PORT (LRecvResume 0) _) as [[s e1]|] eqn:Hs; [|done].
      intros H. eapply (stuck_step (LRecvResume 0)); [done|exact Hst|exact Hs|..];
        repeat (case_match || simplify_eq); done.
  - unfold shutdown. by rewrite Hm.
  - by apply (stuck_on_client LCallback).
  - by apply (stuck_on_client LWorker).
  - by apply (stuck_on_client (LRelease q)).
Qed.

Lemma stuck_turns ls err f x x' e :
  stuck err f x → (TInterrupt ∉ ls) → turns encode decode ls x = Some (x', e) → stuck err f x'.
Proof.
  revert x e. induction ls as [|l ls IH]; intros x e Hst Hni; cbn; [by intros [= <- _]|].
  apply not_elem_of_cons in Hni as [Hl Hni]. unfold and_then.
  destruct (turn encode decode l x) as [[x1 e1]|] eqn:E1; [|done].
  destruct (turns encode decode ls x1) as [[x2 e2]|] eqn:E2; [|done]. intros [= <- _].
  eapply IH; [|exact Hni|exact E2]. by eapply stuck_turn.
Qed.
End hang.

(** ** Properties *)

Section properties.
Context {C : Type} `{!NativeClient C}.
Context (encode : string → string → list byte + exn).
Context (decode : list byte → string → string → string + exn).

(** C24: what the example prints, in every interleaving of its tasks, the
    callbacks and the worker, whatever the native client does and whenever it
    is interrupted: the texts of the messages that the worker polled, from the
    first on, in that order, none skipped or doubled, and once, somewhere
    between them, the two lines of [main].  Only a message that is not text
    is not printed, and it ends the receiver. *)
Theorem example_prints ls c x evs :
  turns encode decode ls (start c) = Some (x, evs) →
  ∃ before after last unread lines1 lines2 banner,
    polled (a_generation (x_client x)) evs = before ++ after ++ last ++ unread ∧
    Forall2 (λ m text, Message_text decode m None None = inl text) before lines1 ∧
    Forall2 (λ m text, Message_text decode m None None = inl text) after lines2 ∧
    x_out x = lines1 ++ banner ++ lines2 ∧
    (banner = [] ∧ after = [] ∨ banner = [subscribed_line; published_line]) ∧
    (last = [] ∨ ∃ m err, last = [m] ∧ Message_text decode m None None = inr err ∧
       x_receiver x = ReceiverEnded (Raised err)).
Proof.
  intros Hrun. destruct (run_inv encode decode ls c x evs Hrun) as [[ls0 Hr] _ Hout (_ & _ & Hrec) _ _].
  destruct Hout as (before & after & last & l1 & l2 & banner & He & H1 & H2 & Ho & Hb & Hl).
  pose proof (mi_order _ _ (async_messages _ _ (run_async_inv HOST PORT _ _ _ _ Hr))
    (a_generation (x_client x))) as Hm.
  rewrite <-Hrec, He, <-!app_assoc in Hm.
  exists before, after, last, (queue_messages (default [] (a_queues (x_client x) !! a_generation (x_client x))) ++
    coming (a_generation (x_client x)) (a_callbacks (x_client x))), l1, l2, banner.
  split_and!; try done. destruct Hb as [?|[? _]]; [by left|by right].
Qed.

(** C30: how the example ends: once [main] has closed the client, the worker
    has ended, the client is closed, and its native client is gone, unless that
    had raised an exception: then it can outlive the close, alone, and is
    destroyed when Python lets go of the exception's traceback; if [main] never
    entered the block, it has made no call and there is no receiver. *)
Theorem example_closes `{!NativeLaws C} ls c x evs :
  native_ok ∅ c → turns encode decode ls (start c) = Some (x, evs) →
  (∀ err, x_main x = MainClosed err →
     a_worker (x_client x) = NotRunning ∧ a_closed (x_client x) = true ∧
     (native_ok ∅ (a_native (x_client x)) ∨
      a_raised (x_client x) = true ∧
      let q := a_generation (x_client x) in
      native_ok {[q]} (a_native (x_client x)) ∧
      ∃ x', turn encode decode (TRelease q) x = Some (x', []) ∧
        x_main x' = MainClosed err ∧ native_ok ∅ (a_native (x_client x')))) ∧
  (∀ err, x_main x = MainNotEntered err → calls evs = [] ∧ x_receiver x = NoReceiver).
Proof.
  intros Hc Hrun. destruct (run_inv encode decode ls c x evs Hrun) as [[ls0 Hr] Htalk _ _ Hcl Hk]. split.
  - intros err Hm. destruct (Hcl err Hm) as [Ht Hclosed].
    destruct (run_sound HOST PORT _ _ _ _ Hc Hr) as [Hinv [Hn _ _]].
    assert (Hw : a_worker (x_client x) = NotRunning).
    { destruct (a_worker (x_client x)) eqn:Ew; [done|..]; exfalso;
        (assert (false = true); [rewrite <-Ht; apply (async_thread _ _ Hinv); by rewrite Ew|done]). }
    split_and!; [done..|]. unfold alive in Hn. rewrite Hw in Hn. cbn [has_client] in Hn.
    rewrite (left_id_L ∅ (∪)) in Hn.
    destruct (kept_cases _ Hk) as [Hnone|[Hr' Hone]]; [left; by rewrite <-Hnone|right].
    rewrite Hone in Hn. split; [done|]. split; [exact Hn|]. eapply release_kept; [exact Hm|exact Hone|exact Hn].
  - intros err Hm. unfold talk_inv in Htalk. by rewrite Hm in Htalk.
Qed.

(** C31: the example can hang.  When the connection is lost and [main] reaches
    [close] after the worker has drained the queue but before its thread has
    ended, the command of [close] is put in a queue that nobody reads: until
    SIGINT, [main] stays in [__aexit__], whatever else happens. *)
Theorem example_can_hang ls c x evs err :
  turns encode decode ls (start c) = Some (x, evs) →
  x_main x = MainClosing err → x_must_cancel x = false →
  a_closing (x_client x) = SeenAlive → finished (a_worker (x_client x)) →
  ∃ x1 e1, turn encode decode TMain x = Some (x1, e1) ∧
    ∀ ls2 x2 e2, (TInterrupt ∉ ls2) → turns encode decode ls2 x1 = Some (x2, e2) →
      x_main x2 = MainClosing err.
Proof.
  intros Hrun Hm Hc Ha Hf. destruct (run_inv encode decode ls c x evs Hrun) as [[ls0 Hr] _ _ _ _ _].
  pose proof (async_commands _ _ (run_async_inv HOST PORT _ _ _ _ Hr)) as Hinv.
  assert (Hturn : turn encode decode TMain x = Some (set_client (close_put (x_client x)) x,
    [EvIssued (MkCommand CmdClose (a_fresh (x_client x)))])).
  { cbn [turn]. unfold main_turn, closing_turn, on_client. rewrite Hm, Ha. cbn [step]. by rewrite Ha. }
  eexists _, _. split; [exact Hturn|]. intros ls2 x2 e2 Hni H2.
  eapply (st_main err (a_fresh (x_client x))), stuck_turns; [|exact Hni|exact H2].
  split; try done; cbn [x_client set_client]; [|by cbn; rewrite lookup_insert_eq].
  by destruct (new_command_lost CmdClose _ _ Hinv Hf).
Qed.
End properties.

(** C23: what the example sends, over the extension module and in every
    interleaving: the process publishes at most once, the message of the
    example, and only after its subscription was answered with a result; once
    [main] awaits the receiver, it has published it. *)
Theorem example_publishes_once {plat : Platform} {cast : StrCast} encode decode ls c x evs :
  native_ok ∅ c → turns encode decode ls (start c) = Some (x, evs) →
  ∃ new, sent (a_native (x_client x)) = sent c ++ new ∧
    (published new = [] ∨
     ∃ d, encode PUBLISH_MESSAGE "utf-8" = inl d ∧ published new = [d] ∧
       ∃ v, (ReqSubscribe SUBSCRIBE_TOPIC, inl v) ∈ answered_requests evs) ∧
    (x_main x = MainAwaiting → published new ≠ []).
Proof.
  intros Hc Hrun. destruct (run_inv encode decode ls c x evs Hrun) as [[ls0 Hr] Htalk _ _ _ _].
  destruct (run_session HOST PORT c _ _ _ Hc Hr) as (Hinv & _ & Ho & cs & Hcalls & Hserved & _).
  destruct (py_session_published cs.*1 c) as (new & Hnew & Hp); [apply Hc|].
  rewrite Hcalls in Hnew, Hp. cbn [fst snd] in Hnew, Hp.
  rewrite <-executed_publications, (served_publications _ _ Hserved) in Hp.
  exists new. split; [done|]. rewrite Hp. split.
  - exact (talked_answers encode x evs _ (async_commands _ _ Hinv) (talk_talked _ _ _ Htalk) Ho).
  - intros Hm. unfold talk_inv in Htalk. rewrite Hm in Htalk.
    destruct Htalk as (d & f0 & f & (Hcs & _) & v & Hv).
    pose proof (awaiting_publication _ _ _ _ _ _ _ (async_commands _ _ Hinv) Ho Hcs Hv) as Hin.
    intros Hnil. rewrite Hnil in Hin. by apply elem_of_nil in Hin.
Qed.

(** ** Witnesses *)

Section witnesses.
#[local] Instance example_machine : Platform := little_endian.
#[local] Instance example_cast : StrCast := ascii_cast.

Definition example_encode (text : string) (_ : string) : list byte + exn := inl (as_bytes text).
Definition example_decode (data : list byte) (_ _ : string) : string + exn :=
  ascii_cast (string_of_bytes data).

Definition from_server (i : Z) (peer : ENetPeer) (m : bus_msg) : Z * ENetEvent :=
  (1%Z, EVENT_RECEIVE peer (MkPacket i (packet (Origin_value Origin_server) m))).

(** Both requests are answered and a message comes; then the connection is
    lost. *)
Definition example_native : Native :=
  MkNative
    (MkNetState (MkWorld 0 (λ _, Some 1%Z) [Some 3%Z; Some 5%Z; Some 6%Z]
       [Some 40%Z; Some 50%Z; Some 60%Z]
       [(1%Z, EVENT_CONNECT 40); (1%Z, EVENT_CONNECT 50);
        from_server 7 50 (Topic_response 1 "python_example_in"); (1%Z, EVENT_DISCONNECT 50);
        (0%Z, EVENT_NONE); (1%Z, EVENT_CONNECT 60);
        from_server 8 60 (Topic_response 2 "python_example_out"); (1%Z, EVENT_DISCONNECT 60);
        from_server 9 40 (Fanout 1 (as_bytes "hi")); (0%Z, EVENT_NONE); (1%Z, EVENT_DISCONNECT 40)]
       ∅ (λ _, None) 0 []) ∅) false ∅.

Lemma example_native_ok : native_ok ∅ example_native.
Proof. by apply no_clients_ok. Qed.

(** Up to the first message printed. *)
Definition example_running : list turn_label :=
  [TMain; TWorker; TWorker; TCallback; TMain; TWorker; TWorker; TCallback; TMain; TReceiver;
   TWorker; TWorker; TWorker; TCallback; TMain; TWorker; TCallback; TReceiver].

(** SIGINT, and the client is closed. *)
Definition example_stopped : list turn_label :=
  example_running ++ [TInterrupt; TMain; TMain; TWorker; TWorker; TWorker; TWorker; TWorker;
    TCallback; TMain; TMain].

(** The connection is lost; [main] sees the error once the thread has ended. *)
Definition example_lost : list turn_label :=
  example_running ++ [TWorker; TWorker; TWorker; TWorker; TWorker; TCallback; TCallback; TWorker;
    TReceiver; TWorker; TWorker; TMain].

(** The connection is lost; [main] sees the error while the thread ends. *)
Definition example_late : list turn_label :=
  example_running ++ [TWorker; TWorker; TWorker; TWorker; TWorker; TCallback; TCallback; TWorker;
    TReceiver; TMain].

Abbreviation example_run ls :=
  (turns example_encode example_decode ls (start example_native)).

(** What the runs come to. *)
Definition facts (r : ExampleRun Native * list event) :=
  (x_main r.1, x_out r.1, a_closing (x_client r.1), a_worker (x_client r.1), x_must_cancel r.1,
   a_generation (x_client r.1), length (polled 1 r.2)).

Lemma example_running_facts :
  facts <$> example_run example_running =
    Some (MainAwaiting, [subscribed_line; published_line; "hi"], NotClosing, Polling, false, 1, 1).
Proof. vm_compute. reflexivity. Qed.

Lemma example_stopped_facts :
  facts <$> example_run example_stopped =
    Some (MainClosed CancelledError, [subscribed_line; published_line; "hi"], NotClosing, NotRunning,
      false, 1, 1).
Proof. vm_compute. reflexivity. Qed.

Lemma example_lost_facts :
  facts <$> example_run example_lost =
    Some (MainClosed (Raised (runtime_error "Disconnected from server.")),
      [subscribed_line; published_line; "hi"], NotClosing, NotRunning, false, 1, 1).
Proof. vm_compute. reflexivity. Qed.

(** Whether the native client has raised, and whether it is there. *)
Definition native_facts (r : ExampleRun Native * list event) :=
  (a_raised (x_client r.1), bool_decide (is_Some (py_clients (a_native (x_client r.1)) !! 1))).

Lemma example_stopped_native : native_facts <$> example_run example_stopped = Some (false, false).
Proof. vm_compute. reflexivity. Qed.

Lemma example_lost_native : native_facts <$> example_run example_lost = Some (true, true).
Proof. vm_compute. reflexivity. Qed.

Lemma example_late_facts :
  facts <$> example_run example_late =
    Some (MainClosing (Raised (runtime_error "Disconnected from server.")),
      [subscribed_line; published_line; "hi"], SeenAlive, Ending true, false, 1, 1).
Proof. vm_compute. reflexivity. Qed.

Lemma example_prints_witness :
  match example_run example_running with
  | Some (x, evs) =>
      x_out x = [subscribed_line; published_line; "hi"] ∧
      ∃ before after last unread, polled 1 evs = before ++ after ++ last ++ unread ∧
        length before + length after = 1
  | None => False
  end.
Proof.
  pose proof example_running_facts as F.
  destruct (example_run example_running) as [[x evs]|] eqn:E; [|discriminate].
  destruct (example_prints example_encode example_decode _ _ _ _ E)
    as (before & after & last & unread & l1 & l2 & banner & Hm & H1 & H2 & Ho & Hb & _).
  injection F as _ Hout _ _ _ Hg Hp. cbn [fst snd] in *. rewrite Hg in Hm. split; [exact Hout|].
  exists before, after, last, unread. split; [exact Hm|].
  rewrite Hm, !length_app in Hp. rewrite Hout in Ho. apply (f_equal length) in Ho.
  rewrite !length_app in Ho. apply Forall2_length in H1, H2.
  destruct Hb as [[-> ->]| ->]; cbn [length] in *; lia.
Defined.

Lemma no_native_client (n : Native) i : native_ok ∅ n → ¬ is_Some (py_clients n !! i).
Proof. by intros [_ Hb] ?%Hb%not_elem_of_empty. Qed.

(** Stopped by SIGINT, the example leaves no native client; the one whose
    connection was lost is still there after [__aexit__], until its traceback
    goes. *)
Lemma example_closes_witness :
  match example_run example_stopped with
  | Some (x, _) => x_main x = MainClosed CancelledError ∧ native_ok ∅ (a_native (x_client x))
  | None => False
  end ∧
  match example_run example_lost with
  | Some (x, _) =>
      x_main x = MainClosed (Raised (runtime_error "Disconnected from server.")) ∧
      is_Some (py_clients (a_native (x_client x)) !! 1) ∧
      ∃ x', turn example_encode example_decode (TRelease 1) x = Some (x', []) ∧
        native_ok ∅ (a_native (x_client x'))
  | None => False
  end.
Proof.
  split.
  - pose proof example_stopped_facts as F. pose proof example_stopped_native as F'.
    destruct (example_run example_stopped) as [[x evs]|] eqn:E; [|discriminate].
    destruct (example_closes example_encode example_decode _ _ _ _ example_native_ok E) as [Hx _].
    injection F as Fm _ _ _ _ _ _. injection F' as Fr _. split; [exact Fm|].
    destruct (Hx _ Fm) as (_ & _ & [Hn|[Hr _]]); [exact Hn|]. cbn [fst] in Fr. by rewrite Fr in Hr.
  - pose proof example_lost_facts as F. pose proof example_lost_native as F'.
    destruct (example_run example_lost) as [[x evs]|] eqn:E; [|discriminate].
    destruct (example_closes example_encode example_decode _ _ _ _ example_native_ok E) as [Hx _].
    injection F as Fm _ _ _ _ Fg _. injection F' as _ Fc%bool_decide_eq_true. cbn [fst] in *.
    split; [exact Fm|]. split; [exact Fc|].
    destruct (Hx _ Fm) as (_ & _ & [Hn|(_ & _ & x' & Ht & _ & Hn)]).
    + by destruct (no_native_client _ 1 Hn).
    + rewrite Fg in Ht. exists x'. split; [exact Ht|exact Hn].
Defined.

Lemma example_can_hang_witness :
  match example_run example_late with
  | Some (x, _) =>
      let err := Raised (runtime_error "Disconnected from server.") in
      x_main x = MainClosing err ∧
      ∃ x1 e1, turn example_encode example_decode TMain x = Some (x1, e1) ∧
        ∀ ls2 x2 e2, (TInterrupt ∉ ls2) →
          turns example_encode example_decode ls2 x1 = Some (x2, e2) → x_main x2 = MainClosing err
  | None => False
  end.
Proof.
  pose proof example_late_facts as F.
  destruct (example_run example_late) as [[x evs]|] eqn:E; [|discriminate].
  injection F as Hm _ Ha Hw Hc _ _. split; [exact Hm|].
  apply (example_can_hang example_encode example_decode _ _ _ _ _ E Hm Hc Ha). cbn in Hw. by rewrite Hw.
Defined.

Lemma example_publishes_once_witness :
  match example_run example_running with
  | Some (x, _) => ∃ new, sent (a_native (x_client x)) = new ∧ published new = [as_bytes PUBLISH_MESSAGE]
  | None => False
  end.
Proof.
  pose proof example_running_facts as F.
  destruct (example_run example_running) as [[x evs]|] eqn:E; [|discriminate].
  destruct (example_publishes_once example_encode example_decode _ _ _ _ example_native_ok E)
    as (new & Hnew & Hp & Hm).
  injection F as Hmain _ _ _ _ _ _.
  exists new. split; [exact Hnew|]. destruct Hp as [Hp|(d & Hd & Hp & _)].
  - destruct (Hm Hmain Hp).
  - rewrite Hp. by injection Hd as <-.
Defined.
End witnesses.
